(* ===== verification/_CoqProject ===== *)
-Q . S2P
Prelude.v
IntUtil.v
Varint.v
Serialization.v
CryptoNote.v
CryptoNoteSerialization.v
Keccak.v
TreeHash.v
Base58.v
CryptoNoteFormatUtils.v
Float.v
Currency.v
CurrencyBuilder.v
Difficulty.v
DepositIndex.v
ChainIndex.v
StringTools.v
Amounts.v
Checkpoints.v
TransactionExtra.v
BlockchainIndices.v
UpgradeDetector.v
BlockchainState.v
CryptoInterface.v
Blockchain.v
BlockchainInvariant.v
Primality.v
StraightLine.v
CryptoOps.v
Sc.v
Fe.v
Ge.v
Edwards.v
ScalarMult.v
BaseTables.v
BasePoint.v
PointCodec.v
DoubleScalarMult.v
HashToPoint.v
GroupOrder.v
Crypto.v
RingSignature.v
Chacha8.v
Random.v
ConstructTransaction.v
Acceptance.v
TransactionPool.v
TransactionPoolInvariant.v
ChainValidator.v
AlternativeChains.v
NodeInvariant.v
AlternativePaths.v
Core.v
WordList.v
Mnemonics.v
