(* ===== verification/Prelude.v ===== *)
(** * Verification of conceal-core

    Conceal is a CryptoNote currency: transactions spend one-time keys hidden in rings,
    blocks of transactions are chained by proof of work, and deposits earn interest.  This
    library models the node from the bytes it receives down to the arithmetic of the curve
    and proves that the parts do what they promise and that they fit together.  The code is
    under src/; paths below are relative to src/src.

    ** How the program is put together

    A node receives byte strings (CryptoNoteCore/Core.cpp).  A transaction is parsed
    (Serialization, CryptoNoteSerialization.cpp), checked (Core.cpp,
    CryptoNoteFormatUtils.cpp, Currency.cpp) and kept in the pool (TransactionPool.cpp),
    which asks the blockchain to validate it (ITransactionValidator.h).  A block takes its
    transactions from the pool and extends the main chain, or is kept as an alternative
    until its chain is heavier and the node switches to it (Blockchain.cpp).  The chain
    keeps maps and indexes (BlockIndex, DepositIndex, BlockchainIndices, UpgradeDetector).
    Validation rests on keys, key images and ring signatures (crypto/crypto.cpp), these on
    the curve (crypto/crypto-ops.c) and on Keccak.  Wallets make transactions with
    [constructTransaction], addresses with Base58, seed phrases with Mnemonics.

    ** Conventions

    Machine integers are [Z] with the wrap-around written out ([u8] .. [u64], [s32],
    [s64] here).  Bytes are [Z] below 256, keys and hashes byte strings.  Maps are [gmap],
    vectors lists; a read out of range is [None] or an exception as in the source.  An
    outer [None] is a failed assertion, an exception or an undefined read; results of
    functions that return [bool] and write through references are options or pairs.
    Clocks, random bytes, DNS answers and files are arguments.  What the code leaves open
    (the order of equal elements of [std::sort], the order of hash tables) is an argument
    with the documented property as hypothesis.

    ** Files

    - Foundations: [Prelude] (machine integers, searches, sums, tactics, hints); [IntUtil]
      (Common/int-util.h); [Varint] (Common/Varint.h); [Serialization]
      (Common/StreamTools.cpp, Serialization/Binary*StreamSerializer.cpp), where a [Codec]
      is one serialize function in both directions with its laws; [Float] (IEEE rounding).
    - Data: [CryptoNote] (include/CryptoNote.h); [CryptoNoteSerialization]
      (CryptoNoteSerialization.cpp); [TransactionExtra] (TransactionExtra.cpp).
    - Hashes and text: [Keccak] (crypto/keccak.c, hash.c); [TreeHash] (crypto/tree-hash.c);
      [Base58] (Common/Base58.cpp); [StringTools] (Common/StringTools.cpp, Base64.cpp);
      [Amounts] (amounts as text); [Chacha8] (crypto/chacha8.c); [Random]
      (crypto/random.c, Common/ShuffleGenerator.h); [WordList], [Mnemonics]
      (Mnemonics/).
    - Rules of the currency: [CryptoNoteFormatUtils] (CryptoNoteFormatUtils.cpp,
      CryptoNoteTools.cpp); [Currency], [CurrencyBuilder] (Currency.cpp, Currency.h,
      CryptoNoteConfig.h); [Difficulty] (Difficulty.cpp and the retargeting of
      Currency.cpp); [Checkpoints] (Checkpoints.cpp).
    - Indexes: [DepositIndex], [ChainIndex] (BlockIndex.cpp, and
      Transfers/SynchronizationState.cpp with [updateConsumers] of
      BlockchainSynchronizer.cpp), [BlockchainIndices], [UpgradeDetector].
    - The curve: [Primality] (2^255 - 19 is prime), [StraightLine] (straight-line C code
      with interval and polynomial analyses), [CryptoOps], [Sc] (scalars), [Fe] (field),
      [Ge] (points), [Edwards] (the group), [ScalarMult], [BaseTables], [BasePoint],
      [PointCodec], [DoubleScalarMult], [HashToPoint], [GroupOrder]: crypto/crypto-ops.c
      and crypto-ops-data.c.
    - Keys: [Crypto], [RingSignature] (crypto/crypto.cpp); [CryptoInterface] is the class
      through which the chain uses them, with the proof-of-work hashes.
    - The chain: [BlockchainState] (what a transaction changes: pushTransaction,
      popTransaction), [Blockchain] (validation, pushBlock, popBlock, roll back),
      [BlockchainInvariant]: Blockchain.cpp.
    - Wallet to chain: [ConstructTransaction] (Account.cpp, constructTransaction and the
      search for outputs of CryptoNoteFormatUtils.cpp, TransactionUtils.cpp, the messages of
      TransactionExtra.cpp); [Acceptance] (constructed transactions pass the chain's
      checks); [ChainValidator] (the blockchain behind ITransactionValidator.h).
    - The node: [TransactionPool], [TransactionPoolInvariant] (TransactionPool.cpp);
      [AlternativeChains], [NodeInvariant], [AlternativePaths] (addNewBlock and
      reorganisations of Blockchain.cpp); [Core] (Core.cpp).

    ** What is proved

    - The node: for any sequence of byte strings the pool stays consistent, no assertion of
      it fails and no input is spent twice inside a transaction ([core_consistent],
      [pool_consistent]); a reorganisation that succeeds keeps every confirmed transaction
      but miner transactions ([confirmed_transactions_kept]); the walk from an alternative
      block to the main chain ends in every node that blocks lead to
      ([alternative_path_terminates]); block templates are free of conflicts and within
      the limits ([block_template_valid]).
    - The main chain: after any pushes, rejections and pops every map and index is the one
      the blocks determine ([blockchain_consistent], [chain_state_represents]); popping
      undoes pushing; a rejected block leaves no trace exactly when it is not the check of
      the cumulative size that rejects it ([rejected_block_restores]).  Blocks are as
      [addNewBlock] offers them ([offered_block]); the histories leave out that rejection
      and the exceptions of [pushBlock], which leave transactions behind
      ([oversized_block_leaks], [own_output_block_leaks]).
    - Transactions: construction succeeds on sources the account owns, yields valid key
      images and ring signatures, is found by the payee, and is accepted by the chain and
      the pool that have not seen it, under the conditions listed there ([constructTransaction_correct], [payment_found],
      [constructed_transaction_accepted], [constructed_transaction_pooled],
      [message_roundtrip]).
    - Signatures: generated signatures, ring signatures and proofs are accepted, and what is
      accepted is characterised exactly; key images lie in the group of prime order.
    - The curve: every scalar multiplication computes the multiple, the tables are right,
      encodings are canonical, hashing to points never fails, no 32-bit or 64-bit operation
      overflows; the addition law is proved to be a group, the field modulus and the group
      order to be prime.
    - Formats: blobs of transactions and blocks, Base58, extra fields, varints and seed
      phrases are bijections or round trips; Keccak and Merkle trees meet their references.
    - Rules: rewards, fees, interest, overflow checks, difficulty and proof of work are
      compared with their mathematical definitions, at their machine widths.
    - Indexes: DepositIndex and SynchronizationState refine plain histories, but for the
      interest of blocks with a zero net amount, which DepositIndex drops; the upgrade
      detector records the first height of complete voting and finds it again after a
      restart; the sparse chain of a peer always has a common block.

    ** Fuel

    Most recursion is structural.  [handle_alternative_block] takes fuel for the nested
    calls a switch can make; the theorems about it hold for every fuel, running out being a
    separate outcome.  [alternative_path] gets one more than the number of alternative
    blocks, which [alternative_path_terminates] shows to be enough.  The loops of
    [readVarint], [read], [slide], Base58 and the division of 128 bits get a bound from
    the width or length they run over, and their theorems are total.

    ** Not modelled

    - The proof-of-work hashes (crypto/slow-hash, cryptonight, pow_hash): large amounts of
      assembly and SIMD intrinsics; they are parameters of [CryptoOps].
    - Files and caches: the saved blockchain and pool, SwappedMap; the chain is modelled in
      memory.
    - Wallets beyond construction (Wallet, WalletLegacy, Transfers containers), RPC, HTTP
      and the payment gate: they depend on threads, sockets and encrypted files.
    - Peer-to-peer connections and their coroutines (P2p/NetNode.cpp, System, Platform),
      the protocol handler, the miner's threads, logging, command lines.
    - Locks: each operation is atomic, as the locks of the code make it. *)

From stdpp Require Export base option list numbers sorting gmap strings.
From Stdlib Require Export ZArith Lia.

#[global] Open Scope Z_scope.

(** ** Machine integers

    An unsigned w-bit integer is a [Z] in [0, 2^w); conversion to the type
    (and the result of unsigned arithmetic) is reduction modulo [2^w].  A signed
    64-bit integer is a [Z] in [-2^63, 2^63). *)

Definition u8 (x : Z) : Z := x mod 2 ^ 8.
Definition u16 (x : Z) : Z := x mod 2 ^ 16.
Definition u32 (x : Z) : Z := x mod 2 ^ 32.
Definition u64 (x : Z) : Z := x mod 2 ^ 64.
Definition i64 (x : Z) : Z := (x + 2 ^ 63) mod 2 ^ 64 - 2 ^ 63.

Definition UINT8_MAX : Z := 2 ^ 8 - 1.
Definition UINT32_MAX : Z := 2 ^ 32 - 1.
Definition UINT64_MAX : Z := 2 ^ 64 - 1.
Definition INT64_MAX : Z := 2 ^ 63 - 1.
Definition INT64_MIN : Z := - 2 ^ 63.

Definition is_u8 (x : Z) : Prop := 0 <= x < 2 ^ 8.
Definition is_u32 (x : Z) : Prop := 0 <= x < 2 ^ 32.
Definition is_u64 (x : Z) : Prop := 0 <= x < 2 ^ 64.
Definition is_i64 (x : Z) : Prop := - 2 ^ 63 <= x < 2 ^ 63.

#[export] Instance is_u8_dec x : Decision (is_u8 x) := _.
#[export] Instance is_u32_dec x : Decision (is_u32 x) := _.
#[export] Instance is_u64_dec x : Decision (is_u64 x) := _.
#[export] Instance is_i64_dec x : Decision (is_i64 x) := _.

Create HintDb word.

(** [word] decides linear goals over machine integers: it unfolds the widths and
    turns every division and remainder into its defining inequalities. *)
Ltac word_unfold :=
  unfold is_u8, is_u32, is_u64, is_i64, u8, u32, u64, i64,
    UINT8_MAX, UINT32_MAX, UINT64_MAX, INT64_MAX, INT64_MIN in *.

Ltac word :=
  word_unfold;
  change (2 ^ 8) with 256 in *;
  change (2 ^ 32) with 4294967296 in *;
  change (2 ^ 63) with 9223372036854775808 in *;
  change (2 ^ 64) with 18446744073709551616 in *;
  Z.div_mod_to_equations; lia.

Lemma u8_range x : is_u8 (u8 x).
Proof. word. Qed.
Lemma u32_range x : is_u32 (u32 x).
Proof. word. Qed.
Lemma u64_range x : is_u64 (u64 x).
Proof. word. Qed.
Lemma i64_range x : is_i64 (i64 x).
Proof. word. Qed.

Lemma u8_id x : is_u8 x -> u8 x = x.
Proof. apply Z.mod_small. Qed.
Lemma u32_id x : is_u32 x -> u32 x = x.
Proof. apply Z.mod_small. Qed.
Lemma u64_id x : is_u64 x -> u64 x = x.
Proof. apply Z.mod_small. Qed.
Lemma i64_id x : is_i64 x -> i64 x = x.
Proof. intros H. unfold i64. rewrite Z.mod_small; word. Qed.

#[export] Hint Resolve u8_range u32_range u64_range i64_range : word.

(** ** Bits *)

Lemma land_ones_mod x n : 0 <= n -> Z.land x (2 ^ n - 1) = x mod 2 ^ n.
Proof. intros. rewrite <- Z.land_ones by lia. f_equal. rewrite Z.ones_equiv. lia. Qed.

(** Two numbers with disjoint bits: [lor] is addition. *)
Lemma land_shiftl_small x y n : 0 <= n -> 0 <= x < 2 ^ n ->
  Z.land x (Z.shiftl y n) = 0.
Proof.
  intros Hn Hx. apply Z.bits_inj'. intros i Hi.
  rewrite Z.land_spec, Z.bits_0, Z.shiftl_spec by lia.
  destruct (decide (i < n)).
  - rewrite (Z.testbit_neg_r _ (i - n)) by lia. apply andb_false_r.
  - replace x with (x mod 2 ^ n) by (apply Z.mod_small; lia).
    rewrite Z.mod_pow2_bits_high by lia. done.
Qed.

Lemma lor_shiftl_add x y n : 0 <= n -> 0 <= x < 2 ^ n ->
  Z.lor x (Z.shiftl y n) = x + y * 2 ^ n.
Proof.
  intros Hn Hx. rewrite <- Z.shiftl_mul_pow2 by lia.
  pose proof (land_shiftl_small x y n Hn Hx) as Hd.
  rewrite <- Z.lxor_lor, <- Z.add_nocarry_lxor by done. done.
Qed.

Lemma lor_shiftl_add_l x y n : 0 <= n -> 0 <= x < 2 ^ n ->
  Z.lor (Z.shiftl y n) x = y * 2 ^ n + x.
Proof. intros. rewrite Z.lor_comm, lor_shiftl_add by lia. lia. Qed.

(** ** Sums *)

Definition sumZ (l : list Z) : Z := foldr Z.add 0 l.

Lemma sumZ_app l k : sumZ (l ++ k) = sumZ l + sumZ k.
Proof. induction l as [|x l IH]; simpl; lia. Qed.

Lemma sumZ_nonneg l : Forall (fun x => 0 <= x) l -> 0 <= sumZ l.
Proof. induction 1; simpl; lia. Qed.

#[global] Instance sumZ_proper : Proper ((≡ₚ) ==> (=)) sumZ.
Proof. induction 1; simpl in *; lia. Qed.

(** ** Partition points

    [std::upper_bound] and [std::lower_bound] are specified on a range that is
    partitioned with respect to the searched value, which is how the repository
    calls them; both return the partition point.  [partition_point p l] is the
    number of leading elements that satisfy [p]. *)

Fixpoint partition_point {A} (p : A -> bool) (l : list A) : nat :=
  match l with
  | [] => 0%nat
  | x :: l => if p x then S (partition_point p l) else 0%nat
  end.

Section partition_point.
Context {A : Type} (p : A -> bool).

Lemma partition_point_le l : (partition_point p l <= length l)%nat.
Proof. induction l as [|x l IH]; simpl; [lia|]. destruct (p x); lia. Qed.

Lemma partition_point_take l : Forall (fun x => p x = true) (take (partition_point p l) l).
Proof.
  induction l as [|x l IH]; simpl; [constructor|].
  destruct (p x) eqn:E; simpl; [constructor; auto | constructor].
Qed.

Lemma partition_point_ge l x : l !! partition_point p l = Some x -> p x = false.
Proof.
  induction l as [|y l IH]; simpl; [done|].
  destruct (p y) eqn:E; simpl; [done|]. intros [= ->]. done.
Qed.

Lemma partition_point_app_r l k :
  Forall (fun x => p x = true) l ->
  partition_point p (l ++ k) = (length l + partition_point p k)%nat.
Proof. induction 1 as [|x l Hx Hl IH]; simpl; [done|]. rewrite Hx. lia. Qed.

Lemma partition_point_false_head x l : p x = false -> partition_point p (x :: l) = 0%nat.
Proof. intros H. simpl. by rewrite H. Qed.
End partition_point.

(** ** Options and lists *)

(** [vector::back] of a vector known to be non-empty, with a default. *)
Lemma last_snoc_inv {A} (l : list A) x : last l = Some x -> exists k, l = k ++ [x].
Proof.
  destruct l as [|y l] using rev_ind; [done|].
  rewrite last_snoc. intros [= ->]. eauto.
Qed.

Lemma list_snoc_cases {A} (l : list A) : l = [] \/ exists k x, l = k ++ [x].
Proof. destruct l using rev_ind; eauto. Qed.

(** [case_bool] splits on the boolean comparisons the code branches on and turns
    them into propositions. *)
Ltac bool_to_prop :=
  repeat match goal with
  | H : (_ && _)%bool = true |- _ => apply andb_true_iff in H as [? ?]
  | H : (_ || _)%bool = false |- _ => apply orb_false_iff in H as [? ?]
  | H : negb _ = true |- _ => apply negb_true_iff in H
  | H : negb _ = false |- _ => apply negb_false_iff in H
  | H : (_ <? _) = true |- _ => apply Z.ltb_lt in H
  | H : (_ <? _) = false |- _ => apply Z.ltb_ge in H
  | H : (_ <=? _) = true |- _ => apply Z.leb_le in H
  | H : (_ <=? _) = false |- _ => apply Z.leb_gt in H
  | H : (_ =? _) = true |- _ => apply Z.eqb_eq in H
  | H : (_ =? _) = false |- _ => apply Z.eqb_neq in H
  | H : bool_decide _ = true |- _ => apply bool_decide_eq_true in H
  | H : bool_decide _ = false |- _ => apply bool_decide_eq_false in H
  end.

Ltac case_bool :=
  match goal with
  | |- context [if ?b then _ else _] =>
      lazymatch type of b with bool => destruct b eqn:? | _ => destruct b end
  end; bool_to_prop; simpl in *.

(** A decidable fact about one byte is checked on all 256 of them. *)
Lemma byte_forall (P : Z -> bool) :
  forallb P (seqZ 0 256) = true -> forall b, is_u8 b -> P b = true.
Proof.
  intros H b Hb. rewrite forallb_forall in H. apply H.
  apply list_elem_of_In, elem_of_seqZ. unfold is_u8 in Hb. lia.
Qed.

(** The same for a range of integers. *)
Fixpoint forall_range (P : Z -> bool) (n : nat) (i : Z) : bool :=
  match n with
  | O => true
  | S n => P i && forall_range P n (i + 1)
  end.

Lemma forall_range_spec P n i : forall_range P n i = true ->
  forall x, i <= x < i + Z.of_nat n -> P x = true.
Proof.
  revert i. induction n as [|n IH]; intros i H x Hx; [lia|].
  simpl in H. apply andb_true_iff in H as [Hi H].
  destruct (decide (x = i)) as [->|]; [done|]. apply (IH (i + 1)); [done | lia].
Qed.

Ltac by_bytes P :=
  let H := fresh in
  intros H; apply (byte_forall P) in H; [|vm_compute; reflexivity];
  apply Bool.eqb_prop in H; exact H.
