(* ===== verification/IntUtil.v ===== *)
(** src/Common/int-util.h: 64x64 -> 128 bit multiplication, 128/32 bit long
    division and byte swapping, the arithmetic under the block reward penalty,
    deposit interest and Base58. *)

From S2P Require Import Prelude.

Module IntUtil.

Definition hi_dword (val : Z) : Z := Z.shiftr val 32.
Definition lo_dword (val : Z) : Z := Z.land val 0xFFFFFFFF.

(** Returns [(product_hi, product_lo)]. *)
Definition mul128 (multiplier multiplicand : Z) : Z * Z :=
  let a := hi_dword multiplier in
  let b := lo_dword multiplier in
  let c := hi_dword multiplicand in
  let d := lo_dword multiplicand in
  let ac := u64 (a * c) in
  let ad := u64 (a * d) in
  let bc := u64 (b * c) in
  let bd := u64 (b * d) in
  let adbc := u64 (ad + bc) in
  let adbc_carry := if adbc <? ad then 1 else 0 in
  let product_lo := u64 (bd + u64 (Z.shiftl adbc 32)) in
  let product_lo_carry := if product_lo <? bd then 1 else 0 in
  let product_hi :=
    u64 (ac + Z.shiftr adbc 32 + u64 (Z.shiftl adbc_carry 32) + product_lo_carry) in
  (product_hi, product_lo).

(** Returns [(quotient, remainder)]; [remainder] is an in/out argument in C. *)
Definition div_with_reminder (dividend divisor remainder : Z) : Z * Z :=
  let dividend := Z.lor dividend (u64 (Z.shiftl remainder 32)) in
  (dividend / divisor, u32 (dividend mod divisor)).

(** Returns [(quotient_hi, quotient_lo, remainder)]. *)
Definition div128_32 (dividend_hi dividend_lo divisor : Z) : Z * Z * Z :=
  let d3 := hi_dword dividend_hi in
  let d2 := lo_dword dividend_hi in
  let d1 := hi_dword dividend_lo in
  let d0 := lo_dword dividend_lo in
  let '(q3, r3) := div_with_reminder d3 divisor 0 in
  let '(q2, r2) := div_with_reminder d2 divisor r3 in
  let '(q1, r1) := div_with_reminder d1 divisor r2 in
  let '(q0, r0) := div_with_reminder d0 divisor r1 in
  (Z.lor (u64 (Z.shiftl q3 32)) q2, Z.lor (u64 (Z.shiftl q1 32)) q0, r0).

Definition rol32 (x r : Z) : Z :=
  Z.lor (u32 (Z.shiftl x (Z.land r 31))) (Z.shiftr x (Z.land (- r) 31)).

Definition rol64 (x r : Z) : Z :=
  Z.lor (u64 (Z.shiftl x (Z.land r 63))) (Z.shiftr x (Z.land (- r) 63)).

Definition swap32 (x : Z) : Z :=
  let x := Z.lor (u32 (Z.shiftl (Z.land x 0x00ff00ff) 8)) (Z.shiftr (Z.land x 0xff00ff00) 8) in
  Z.lor (u32 (Z.shiftl x 16)) (Z.shiftr x 16).

Definition swap64 (x : Z) : Z :=
  let x := Z.lor (u64 (Z.shiftl (Z.land x 0x00ff00ff00ff00ff) 8))
                 (Z.shiftr (Z.land x 0xff00ff00ff00ff00) 8) in
  let x := Z.lor (u64 (Z.shiftl (Z.land x 0x0000ffff0000ffff) 16))
                 (Z.shiftr (Z.land x 0xffff0000ffff0000) 16) in
  Z.lor (u64 (Z.shiftl x 32)) (Z.shiftr x 32).

(** The macros of the same names in capitals. *)
Definition SWAP32 (x : Z) : Z :=
  Z.lor (Z.lor (Z.lor (u32 (Z.shiftl (Z.land x 0x000000ff) 24))
                      (u32 (Z.shiftl (Z.land x 0x0000ff00) 8)))
               (Z.shiftr (Z.land x 0x00ff0000) 8))
        (Z.shiftr (Z.land x 0xff000000) 24).

Definition SWAP64 (x : Z) : Z :=
  Z.lor (Z.lor (Z.lor (Z.lor (Z.lor (Z.lor (Z.lor
    (u64 (Z.shiftl (Z.land x 0x00000000000000ff) 56))
    (u64 (Z.shiftl (Z.land x 0x000000000000ff00) 40)))
    (u64 (Z.shiftl (Z.land x 0x0000000000ff0000) 24)))
    (u64 (Z.shiftl (Z.land x 0x00000000ff000000) 8)))
    (Z.shiftr (Z.land x 0x000000ff00000000) 8))
    (Z.shiftr (Z.land x 0x0000ff0000000000) 24))
    (Z.shiftr (Z.land x 0x00ff000000000000) 40))
    (Z.shiftr (Z.land x 0xff00000000000000) 56).

(** ** The double-word splits are division by [2^32]. *)

Lemma hi_dword_div x : hi_dword x = x / 2 ^ 32.
Proof. unfold hi_dword. by rewrite Z.shiftr_div_pow2. Qed.

Lemma lo_dword_mod x : lo_dword x = x mod 2 ^ 32.
Proof. unfold lo_dword. change 0xFFFFFFFF with (2 ^ 32 - 1). by apply land_ones_mod. Qed.

Lemma div_with_reminder_spec dividend divisor remainder :
  is_u32 dividend -> 0 < divisor < 2 ^ 32 -> 0 <= remainder < divisor ->
  div_with_reminder dividend divisor remainder =
    ((remainder * 2 ^ 32 + dividend) / divisor, (remainder * 2 ^ 32 + dividend) mod divisor).
Proof.
  intros Hd Hv Hr. unfold div_with_reminder.
  rewrite (u64_id (Z.shiftl _ _)) by (rewrite Z.shiftl_mul_pow2; word).
  rewrite lor_shiftl_add by word.
  rewrite (Z.add_comm dividend). rewrite u32_id; [done|].
  pose proof (Z.mod_pos_bound (remainder * 2 ^ 32 + dividend) divisor). word.
Qed.

Lemma div_with_reminder_bounds dividend divisor remainder :
  is_u32 dividend -> 0 < divisor < 2 ^ 32 -> 0 <= remainder < divisor ->
  let '(q, r) := div_with_reminder dividend divisor remainder in
  is_u32 q /\ 0 <= r < divisor /\ remainder * 2 ^ 32 + dividend = divisor * q + r.
Proof.
  intros Hd Hv Hr. rewrite div_with_reminder_spec by done.
  set (n := remainder * 2 ^ 32 + dividend).
  assert (Hn : 0 <= n < divisor * 2 ^ 32) by (unfold n, is_u32 in *; nia).
  pose proof (Z.div_mod n divisor ltac:(lia)). pose proof (Z.mod_pos_bound n divisor ltac:(lia)).
  split_and!; try lia.
  split; [apply Z.div_pos; lia | apply Z.div_lt_upper_bound; lia].
Qed.

Lemma mul128_spec x y : is_u64 x -> is_u64 y ->
  mul128 x y = ((x * y) / 2 ^ 64, (x * y) mod 2 ^ 64).
Proof.
  intros Hx Hy. unfold mul128. rewrite !hi_dword_div, !lo_dword_mod.
  pose proof (Z.div_mod x (2 ^ 32) ltac:(lia)) as Ex. pose proof (Z.div_mod y (2 ^ 32) ltac:(lia)) as Ey.
  assert (is_u32 (x / 2 ^ 32) /\ is_u32 (x mod 2 ^ 32)
        /\ is_u32 (y / 2 ^ 32) /\ is_u32 (y mod 2 ^ 32)) as (Ha & Hb & Hc & Hd) by word.
  generalize dependent (x / 2 ^ 32); generalize dependent (x mod 2 ^ 32); intros b Hb a Ex Ha.
  generalize dependent (y / 2 ^ 32); generalize dependent (y mod 2 ^ 32); intros d Hd c Ey Hc.
  assert (Hprod : forall s t, is_u32 s -> is_u32 t -> 0 <= s * t <= (2 ^ 32 - 1) * (2 ^ 32 - 1))
    by (unfold is_u32; intros; nia).
  pose proof (Hprod a c Ha Hc). pose proof (Hprod a d Ha Hd).
  pose proof (Hprod b c Hb Hc). pose proof (Hprod b d Hb Hd).
  assert (x * y = a * c * 2 ^ 64 + (a * d + b * c) * 2 ^ 32 + b * d) as -> by (subst; ring).
  generalize dependent (a * c); generalize dependent (a * d);
    generalize dependent (b * c); generalize dependent (b * d); intros bd ? bc ? ad ? ac ?.
  rewrite (u64_id ac), (u64_id ad), (u64_id bc), (u64_id bd) by word.
  rewrite Z.shiftr_div_pow2, !Z.shiftl_mul_pow2 by lia.
  f_equal; repeat (case_bool); word.
Qed.

Lemma div128_32_spec hi lo divisor : is_u64 hi -> is_u64 lo -> 0 < divisor < 2 ^ 32 ->
  let n := hi * 2 ^ 64 + lo in
  div128_32 hi lo divisor = (n / divisor / 2 ^ 64, (n / divisor) mod 2 ^ 64, n mod divisor).
Proof.
  intros Hhi Hlo Hv n. unfold div128_32. rewrite !hi_dword_div, !lo_dword_mod.
  assert (is_u32 (hi / 2 ^ 32) /\ is_u32 (hi mod 2 ^ 32)
        /\ is_u32 (lo / 2 ^ 32) /\ is_u32 (lo mod 2 ^ 32)) as (H3 & H2 & H1 & H0) by word.
  assert (Hn : n = ((hi / 2 ^ 32 * 2 ^ 32 + hi mod 2 ^ 32) * 2 ^ 32 + lo / 2 ^ 32) * 2 ^ 32
                   + lo mod 2 ^ 32) by (unfold n; word).
  generalize dependent (hi / 2 ^ 32); generalize dependent (hi mod 2 ^ 32);
    generalize dependent (lo / 2 ^ 32); generalize dependent (lo mod 2 ^ 32).
  clearbody n. intros d0 H0 d1 H1 d2 H2 d3 H3 Hn.
  pose proof (div_with_reminder_bounds d3 divisor 0 H3 Hv ltac:(lia)) as B3.
  destruct (div_with_reminder d3 divisor 0) as [q3 r3]. destruct B3 as (Q3 & R3 & E3).
  pose proof (div_with_reminder_bounds d2 divisor r3 H2 Hv R3) as B2.
  destruct (div_with_reminder d2 divisor r3) as [q2 r2]. destruct B2 as (Q2 & R2 & E2).
  pose proof (div_with_reminder_bounds d1 divisor r2 H1 Hv R2) as B1.
  destruct (div_with_reminder d1 divisor r2) as [q1 r1]. destruct B1 as (Q1 & R1 & E1).
  pose proof (div_with_reminder_bounds d0 divisor r1 H0 Hv R1) as B0.
  destruct (div_with_reminder d0 divisor r1) as [q0 r0]. destruct B0 as (Q0 & R0 & E0).
  rewrite !(u64_id (Z.shiftl _ 32)) by (rewrite Z.shiftl_mul_pow2; word).
  rewrite !lor_shiftl_add_l by word.
  assert (n = divisor * ((q3 * 2 ^ 32 + q2) * 2 ^ 64 + (q1 * 2 ^ 32 + q0)) + r0) as E by lia.
  rewrite <- (Z.div_unique n divisor _ r0 ltac:(lia) E), <- (Z.mod_unique n divisor _ r0 ltac:(lia) E).
  repeat f_equal; word.
Qed.

(** ** Byte order *)

(** Byte [k] of [x]. *)
Definition byte_at (x k : Z) : Z := (x / 2 ^ (8 * k)) mod 256.

Lemma byte_at_range x k : 0 <= byte_at x k < 256.
Proof. apply Z.mod_pos_bound. lia. Qed.

Lemma land_byte x k m : 0 <= k -> m = Z.shiftl 0xff (8 * k) ->
  Z.land x m = byte_at x k * 2 ^ (8 * k).
Proof.
  intros Hk ->. rewrite <- Z.shiftl_mul_pow2 by lia. apply Z.bits_inj'. intros i Hi.
  unfold byte_at. rewrite <- Z.shiftr_div_pow2 by lia. change 256 with (2 ^ 8).
  rewrite Z.land_spec, !Z.shiftl_spec by lia. change 0xff with (Z.ones 8).
  destruct (decide (8 * k <= i)).
  - rewrite Z.testbit_ones by lia. destruct (decide (i - 8 * k < 8)).
    + rewrite Z.mod_pow2_bits_low, Z.shiftr_spec by lia.
      replace (i - 8 * k + 8 * k) with i by lia.
      destruct (Z.leb_spec 0 (i - 8 * k)), (Z.ltb_spec (i - 8 * k) 8); try lia. apply andb_true_r.
    + rewrite Z.mod_pow2_bits_high by lia.
      destruct (Z.ltb_spec (i - 8 * k) 8); [lia|]. by rewrite !andb_false_r.
  - rewrite !(Z.testbit_neg_r _ (i - 8 * k)) by lia. apply andb_false_r.
Qed.

(** One Horner step. *)
Lemma lor_byte A b n m : m = n + 8 -> 0 <= n -> 0 <= b < 256 ->
  Z.lor (A * 2 ^ m) (b * 2 ^ n) = (A * 256 + b) * 2 ^ n.
Proof.
  intros -> Hn Hb. rewrite <- Z.shiftl_mul_pow2 by lia. rewrite lor_shiftl_add_l; [| lia |].
  - rewrite Z.pow_add_r by lia. change (2 ^ 8) with 256. lia.
  - rewrite Z.pow_add_r by lia. change (2 ^ 8) with 256.
    assert (0 < 2 ^ n) by (apply Z.pow_pos_nonneg; lia). nia.
Qed.

(** A byte moved to a lower and to a higher position. *)
Lemma byte_right b s t : 0 <= s <= t -> Z.shiftr (b * 2 ^ t) s = b * 2 ^ (t - s).
Proof.
  intros. rewrite Z.shiftr_div_pow2 by lia. replace t with ((t - s) + s) at 1 by lia.
  rewrite Z.pow_add_r, Z.mul_assoc by lia. apply Z.div_mul, Z.pow_nonzero; lia.
Qed.

Lemma byte_left b s t : 0 <= s -> 0 <= t <= 56 - s -> 0 <= b < 256 ->
  u64 (Z.shiftl (b * 2 ^ t) s) = b * 2 ^ (t + s).
Proof.
  intros. rewrite Z.shiftl_mul_pow2, <- Z.mul_assoc, <- Z.pow_add_r by lia. apply u64_id.
  assert (2 ^ (t + s) <= 2 ^ 56) by (apply Z.pow_le_mono_r; lia).
  assert (0 < 2 ^ (t + s)) by (apply Z.pow_pos_nonneg; lia). unfold is_u64. nia.
Qed.

(** [SWAP64] reverses the bytes. *)
Lemma SWAP64_bytes x : SWAP64 x =
  byte_at x 7 + 256 * (byte_at x 6 + 256 * (byte_at x 5 + 256 * (byte_at x 4 + 256 *
    (byte_at x 3 + 256 * (byte_at x 2 + 256 * (byte_at x 1 + 256 * byte_at x 0)))))).
Proof.
  unfold SWAP64.
  rewrite (land_byte x 0 0xff), (land_byte x 1 0xff00), (land_byte x 2 0xff0000),
    (land_byte x 3 0xff000000), (land_byte x 4 0xff00000000), (land_byte x 5 0xff0000000000),
    (land_byte x 6 0xff000000000000), (land_byte x 7 0xff00000000000000) by done.
  rewrite !byte_left, !byte_right by (try apply byte_at_range; lia).
  rewrite (lor_byte _ _ 48), (lor_byte _ _ 40), (lor_byte _ _ 32), (lor_byte _ _ 24),
    (lor_byte _ _ 16), (lor_byte _ _ 8), (lor_byte _ _ 0) by (try apply byte_at_range; done).
  lia.
Qed.

End IntUtil.
