(* ===== verification/Varint.v ===== *)
(** Variable-length integers: src/Common/Varint.h (iterator based, used for
    addresses and transaction extra) and the varint routines of
    src/Common/StreamTools.cpp (stream based, used by the binary serializers).
    A byte is a [Z] in [0, 256). *)

From S2P Require Import Prelude.

Abbreviation bytes := (list Z).

Definition is_bytes (l : bytes) : Prop := Forall is_u8 l.

#[export] Instance is_bytes_dec l : Decision (is_bytes l).
Proof. unfold is_bytes. apply _. Defined.

(** Decides [is_bytes] of a concrete string. *)
Ltac bytes_compute := refine (bool_decide_eq_true_1 _ _); vm_compute; reflexivity.

(** Truncation to an unsigned type of [bits] bits. *)
Definition uN (bits x : Z) : Z := x mod 2 ^ bits.

Module Varint.

(** ** Varint.h *)

(** The loop of [write_varint]; every iteration drops seven bits, so nine
    iterations leave less than two of a 64-bit value: fuel 9 runs the C++ loop to
    its end on every [uint64_t] ([write_varint_groups] and [groups7_fuel]). *)
Fixpoint write_varint_loop (fuel : nat) (i : Z) : bytes :=
  match fuel with
  | O => [u8 i]
  | S fuel =>
      if 0x80 <=? i
      then Z.lor (Z.land (u8 i) 0x7f) 0x80 :: write_varint_loop fuel (Z.shiftr i 7)
      else [u8 i]
  end.

Definition write_varint (i : Z) : bytes := write_varint_loop 9 i.

Definition get_varint_data (v : Z) : bytes := write_varint v.

(** The loop of [read_varint<bits>]: consumes one byte per iteration.  The result
    is the returned code (the number of bytes read, -1 on overflow, -2 on a
    non-canonical encoding), the value of the out-parameter and the rest of the
    input. *)
Fixpoint read_varint_loop (bits : Z) (input : bytes) (shift read i : Z) : Z * Z * bytes :=
  match input with
  | [] => (read, i, [])
  | byte :: input =>
      let read := read + 1 in
      if (bits <=? shift + 7) && (Z.shiftl 1 (bits - shift) <=? byte) then (-1, i, input)
      else if (byte =? 0) && negb (shift =? 0) then (-2, i, input)
      else
        let i := Z.lor i (uN bits (Z.shiftl (Z.land byte 0x7f) shift)) in
        if Z.land byte 0x80 =? 0 then (read, i, input)
        else read_varint_loop bits input (shift + 7) read i
  end.

Definition read_varint (bits : Z) (input : bytes) : Z * Z * bytes :=
  read_varint_loop bits input 0 0 0.

(** ** StreamTools.cpp *)

Fixpoint writeVarint_loop (fuel : nat) (value : Z) : bytes :=
  match fuel with
  | O => [u8 value]
  | S fuel =>
      if 0x80 <=? value
      then u8 (Z.lor value 0x80) :: writeVarint_loop fuel (Z.shiftr value 7)
      else [u8 value]
  end.

Definition writeVarint (value : Z) : bytes := writeVarint_loop 9 value.

(** [readVarint] for an unsigned type of [bits] bits; [None] is a thrown
    exception (end of stream, overflow, unrepresentable value). *)
Fixpoint readVarint_loop (bits : Z) (input : bytes) (shift temp : Z) : option (Z * bytes) :=
  match input with
  | [] => None
  | piece :: input =>
      if (bits - 7 <=? shift) && (Z.shiftl 1 (bits - shift) <=? piece) then None
      else
        let temp := uN bits (Z.lor temp (u64 (Z.shiftl (Z.land piece 0x7f) shift))) in
        if Z.land piece 0x80 =? 0
        then if (piece =? 0) && negb (shift =? 0) then None else Some (temp, input)
        else readVarint_loop bits input (shift + 7) temp
  end.

Definition readVarint (bits : Z) (input : bytes) : option (Z * bytes) :=
  readVarint_loop bits input 0 0.

(** ** Seven-bit groups *)

(** The byte sequence both writers produce. *)
Fixpoint groups7 (fuel : nat) (v : Z) : bytes :=
  match fuel with
  | O => [v]
  | S fuel => if 0x80 <=? v then v mod 128 + 128 :: groups7 fuel (v / 128) else [v]
  end.

Lemma land_7f x : Z.land x 0x7f = x mod 128.
Proof. change 0x7f with (2 ^ 7 - 1). by apply land_ones_mod. Qed.

Lemma lor_80 x : 0 <= x < 128 -> Z.lor x 0x80 = x + 128.
Proof. intros. apply (lor_shiftl_add x 1 7); lia. Qed.

Lemma u8_lor_80 x : 0 <= x -> u8 (Z.lor x 0x80) = x mod 128 + 128.
Proof.
  intros. unfold u8. rewrite <- Z.land_ones by lia.
  apply Z.bits_inj'. intros i Hi.
  replace (x mod 128 + 128) with (Z.lor (x mod 128) 0x80) by (apply lor_80; word).
  change 128 with (2 ^ 7). rewrite <- Z.land_ones by lia.
  rewrite !Z.land_spec, !Z.lor_spec, Z.land_spec, !Z.testbit_ones by lia.
  change 0x80 with (2 ^ 7). rewrite Z.pow2_bits_eqb by lia.
  destruct (Z.testbit x i), (Z.leb_spec 0 i), (Z.ltb_spec i 8), (Z.ltb_spec i 7),
    (Z.eqb_spec 7 i); simpl; try done; lia.
Qed.

Lemma group_bound fuel v : 0 <= v < 2 ^ (7 * (Z.of_nat (S fuel) + 1)) ->
  0 <= v / 128 < 2 ^ (7 * (Z.of_nat fuel + 1)).
Proof.
  replace (7 * (Z.of_nat (S fuel) + 1)) with (7 * (Z.of_nat fuel + 1) + 7) by lia.
  rewrite Z.pow_add_r by lia. change (2 ^ 7) with 128. intros Hv.
  split; [apply Z.div_pos; lia | apply Z.div_lt_upper_bound; lia].
Qed.

Lemma groups7_fuel fuel v : 0 <= v < 2 ^ (7 * (Z.of_nat fuel + 1)) ->
  forall fuel', (fuel <= fuel')%nat -> groups7 fuel' v = groups7 fuel v.
Proof.
  revert v. induction fuel as [|fuel IH]; intros v Hv [|fuel'] Hf; try lia; try done.
  - simpl. rewrite (proj2 (Z.leb_gt _ _)) by lia. done.
  - simpl. case_bool; [|done]. f_equal. apply IH; [by apply group_bound | lia].
Qed.

Lemma write_varint_groups fuel v : 0 <= v < 2 ^ (7 * (Z.of_nat fuel + 1)) ->
  write_varint_loop fuel v = groups7 fuel v.
Proof.
  revert v. induction fuel as [|fuel IH]; intros v Hv; simpl.
  - rewrite u8_id by word. done.
  - case_bool; [|rewrite u8_id by word; done].
    rewrite land_7f, lor_80 by word. rewrite Z.shiftr_div_pow2 by lia. change (2 ^ 7) with 128.
    f_equal; [unfold u8; rewrite Z.mod_mod_divide by (by exists 2); done|].
    by apply IH, group_bound.
Qed.

Lemma writeVarint_groups fuel v : 0 <= v < 2 ^ (7 * (Z.of_nat fuel + 1)) ->
  writeVarint_loop fuel v = groups7 fuel v.
Proof.
  revert v. induction fuel as [|fuel IH]; intros v Hv; simpl.
  - rewrite u8_id by word. done.
  - case_bool; [|rewrite u8_id by word; done].
    rewrite u8_lor_80 by lia. rewrite Z.shiftr_div_pow2 by lia. change (2 ^ 7) with 128.
    f_equal. by apply IH, group_bound.
Qed.

Lemma write_varint_eq v : is_u64 v -> write_varint v = groups7 9 v.
Proof. intros. apply write_varint_groups. simpl. word. Qed.

Lemma writeVarint_eq v : is_u64 v -> writeVarint v = groups7 9 v.
Proof. intros. apply writeVarint_groups. simpl. word. Qed.

Lemma groups7_bytes fuel v : 0 <= v < 2 ^ (7 * (Z.of_nat fuel + 1)) -> is_bytes (groups7 fuel v).
Proof.
  revert v. induction fuel as [|fuel IH]; intros v Hv; simpl.
  - repeat constructor; word.
  - case_bool; [|repeat constructor; word].
    constructor; [word|]. by apply IH, group_bound.
Qed.

Lemma groups7_length fuel v : (1 <= length (groups7 fuel v) <= S fuel)%nat.
Proof.
  revert v. induction fuel as [|fuel IH]; intros v; simpl; [lia|].
  case_bool; [|lia]. specialize (IH (v / 128)). lia.
Qed.

(** The accumulator of both readers: the low [shift] bits are known, the next
    group lands above them. *)
Lemma accumulate bits shift acc g :
  0 <= shift -> 0 <= acc < 2 ^ shift -> 0 <= g -> g * 2 ^ shift < 2 ^ bits -> bits <= 64 ->
  0 <= bits ->
  Z.lor acc (uN bits (Z.shiftl g shift)) = acc + g * 2 ^ shift
  /\ Z.lor acc (u64 (Z.shiftl g shift)) = acc + g * 2 ^ shift.
Proof.
  intros Hs Ha Hg Hlt Hb Hb0.
  assert (2 ^ bits <= 2 ^ 64) by (apply Z.pow_le_mono_r; lia).
  assert (0 <= g * 2 ^ shift) by nia.
  assert (Z.shiftl g shift = g * 2 ^ shift) as E by (apply Z.shiftl_mul_pow2; lia).
  unfold uN, u64. rewrite !Z.mod_small by (rewrite E; lia).
  split; apply lor_shiftl_add; lia.
Qed.

Lemma land_80 b : is_u8 b -> (Z.land b 0x80 =? 0) = (b <? 128).
Proof. by_bytes (fun b => Bool.eqb (Z.land b 0x80 =? 0) (b <? 128)). Qed.

Section reader.
Context (bits : Z) (Hbits : 7 <= bits <= 64).

Lemma group_fits shift v : 0 <= shift < bits -> 0 <= v < 2 ^ (bits - shift) ->
  v * 2 ^ shift < 2 ^ bits.
Proof.
  intros Hs Hv. replace bits with ((bits - shift) + shift) at 1 by lia.
  rewrite Z.pow_add_r by lia. apply Z.mul_lt_mono_pos_r; [apply Z.pow_pos_nonneg; lia | lia].
Qed.

Lemma acc_fits shift acc v : 0 <= shift < bits -> 0 <= acc < 2 ^ shift ->
  0 <= v < 2 ^ (bits - shift) -> 0 <= acc + v * 2 ^ shift < 2 ^ bits.
Proof.
  intros Hs Ha Hv. replace bits with ((bits - shift) + shift) at 1 by lia.
  rewrite Z.pow_add_r by lia. nia.
Qed.

(** The guard of the readers never fires on a group of a value that fits. *)
Lemma guard_continue shift v : 0 <= shift -> 128 <= v < 2 ^ (bits - shift) -> shift + 7 < bits.
Proof.
  intros Hs Hv. destruct (decide (shift + 7 < bits)) as [|Hn]; [done|].
  assert (2 ^ (bits - shift) <= 2 ^ 7); [|lia].
  destruct (decide (0 <= bits - shift)); [apply Z.pow_le_mono_r; lia|].
  rewrite Z.pow_neg_r by lia. lia.
Qed.

Lemma pow_split shift : 0 <= shift -> shift + 7 < bits ->
  2 ^ (bits - shift) = 128 * 2 ^ (bits - (shift + 7)) /\ 2 ^ (shift + 7) = 128 * 2 ^ shift.
Proof.
  intros. replace (bits - shift) with (7 + (bits - (shift + 7))) by lia.
  rewrite (Z.add_comm shift), !Z.pow_add_r by lia. done.
Qed.

Lemma read_varint_loop_groups fuel v shift read acc rest :
  0 <= shift < bits -> 0 <= acc < 2 ^ shift ->
  0 <= v < 2 ^ (bits - shift) -> v < 2 ^ (7 * (Z.of_nat fuel + 1)) ->
  (shift = 0 \/ v <> 0) ->
  read_varint_loop bits (groups7 fuel v ++ rest) shift read acc
  = (read + Z.of_nat (length (groups7 fuel v)), acc + v * 2 ^ shift, rest).
Proof.
  revert v shift read acc. induction fuel as [|fuel IH]; intros v shift read acc Hs Ha Hv Hf Hz.
  all: assert (Hlast : v < 128 ->
    read_varint_loop bits (v :: rest) shift read acc = (read + 1, acc + v * 2 ^ shift, rest)).
  1, 3: intros Hv128; simpl; rewrite Z.shiftl_1_l;
    rewrite (proj2 (Z.leb_gt (2 ^ (bits - shift)) v)), andb_false_r by lia;
    assert ((v =? 0) && negb (shift =? 0) = false)%bool as ->
      by (destruct (Z.eqb_spec v 0), (Z.eqb_spec shift 0); simpl; try done; lia);
    rewrite land_7f, land_80, (proj2 (Z.ltb_lt v 128)), Z.mod_small by word;
    destruct (accumulate bits shift acc v) as [-> _];
      [lia | lia | lia | by apply group_fits | lia | lia | done].
  - simpl in *. apply Hlast. lia.
  - simpl groups7. case_bool; [|apply Hlast; lia].
    pose proof (guard_continue shift v ltac:(lia) ltac:(lia)) as Hc.
    destruct (pow_split shift ltac:(lia) Hc) as [Hp1 Hp2].
    rewrite (proj2 (Z.leb_gt bits (shift + 7))) by lia. simpl.
    rewrite (proj2 (Z.eqb_neq (v mod 128 + 128) 0)) by word. simpl.
    rewrite land_7f, land_80, (proj2 (Z.ltb_ge (v mod 128 + 128) 128)) by word.
    rewrite <- (Z.add_mod_idemp_r (v mod 128) 128), Z.mod_same, Z.add_0_r, Z.mod_mod by lia.
    assert (0 <= v mod 128 < 128) by word.
    assert (0 <= 2 ^ shift) by (apply Z.pow_nonneg; lia).
    destruct (accumulate bits shift acc (v mod 128)) as [-> _];
      [lia | lia | lia | apply group_fits; word | lia | lia |].
    rewrite IH; [| lia | nia | split; [word | apply Z.div_lt_upper_bound; lia] |
      apply group_bound; lia | right; word].
    rewrite Hp2. pose proof (Z.div_mod v 128 ltac:(lia)).
    assert (acc + v mod 128 * 2 ^ shift + v / 128 * (128 * 2 ^ shift) = acc + v * 2 ^ shift)
      as -> by nia.
    simpl length. rewrite Nat2Z.inj_succ. do 2 f_equal. lia.
Qed.

Lemma readVarint_loop_groups fuel v shift acc rest :
  0 <= shift < bits -> 0 <= acc < 2 ^ shift ->
  0 <= v < 2 ^ (bits - shift) -> v < 2 ^ (7 * (Z.of_nat fuel + 1)) ->
  (shift = 0 \/ v <> 0) ->
  readVarint_loop bits (groups7 fuel v ++ rest) shift acc = Some (acc + v * 2 ^ shift, rest).
Proof.
  revert v shift acc. induction fuel as [|fuel IH]; intros v shift acc Hs Ha Hv Hf Hz.
  all: pose proof (group_fits shift v Hs Hv) as Hfit.
  all: assert (Hlast : v < 128 ->
    readVarint_loop bits (v :: rest) shift acc = Some (acc + v * 2 ^ shift, rest)).
  1, 3: intros Hv128; simpl; rewrite Z.shiftl_1_l;
    rewrite (proj2 (Z.leb_gt (2 ^ (bits - shift)) v)), andb_false_r by lia;
    assert ((v =? 0) && negb (shift =? 0) = false)%bool as ->
      by (destruct (Z.eqb_spec v 0), (Z.eqb_spec shift 0); simpl; try done; lia);
    rewrite land_7f, land_80, (proj2 (Z.ltb_lt v 128)), (Z.mod_small v) by word;
    destruct (accumulate bits shift acc v) as [_ ->]; [lia.. |];
    unfold uN; rewrite Z.mod_small; [done | by apply acc_fits].
  - simpl in *. apply Hlast. lia.
  - simpl groups7. case_bool; [|apply Hlast; lia].
    pose proof (guard_continue shift v ltac:(lia) ltac:(lia)) as Hc.
    destruct (pow_split shift ltac:(lia) Hc) as [Hp1 Hp2].
    rewrite (proj2 (Z.leb_gt (bits - 7) shift)) by lia. simpl.
    rewrite land_7f, land_80, (proj2 (Z.ltb_ge (v mod 128 + 128) 128)) by word.
    rewrite <- (Z.add_mod_idemp_r (v mod 128) 128), Z.mod_same, Z.add_0_r, Z.mod_mod by lia.
    assert (0 <= v mod 128 < 128) by word.
    assert (0 <= 2 ^ shift) by (apply Z.pow_nonneg; lia).
    assert (v mod 128 * 2 ^ shift < 2 ^ bits) by (apply group_fits; word).
    destruct (accumulate bits shift acc (v mod 128)) as [_ ->]; [lia.. |].
    unfold uN. rewrite Z.mod_small by (apply acc_fits; word).
    rewrite IH; [| lia | nia | split; [word | apply Z.div_lt_upper_bound; lia] |
      apply (group_bound fuel v); lia | right; word].
    rewrite Hp2. pose proof (Z.div_mod v 128 ltac:(lia)). do 2 f_equal. nia.
Qed.

(** What the stream reader accepts is what the writer produces: one encoding
    per value. *)
Lemma readVarint_loop_inv input shift temp v rest :
  is_bytes input -> 0 <= shift < bits -> 0 <= temp < 2 ^ shift ->
  readVarint_loop bits input shift temp = Some (v, rest) ->
  exists g, v = temp + g * 2 ^ shift /\ 0 <= g < 2 ^ (bits - shift) /\ (shift = 0 \/ g <> 0)
    /\ forall fuel, g < 2 ^ (7 * (Z.of_nat fuel + 1)) -> input = groups7 fuel g ++ rest.
Proof.
  revert shift temp. induction input as [|piece input IH]; intros shift temp Hi Hs Ht Hr; [done|].
  apply Forall_cons in Hi as [Hp Hi]. simpl in Hr. rewrite Z.shiftl_1_l in Hr.
  destruct ((bits - 7 <=? shift) && (2 ^ (bits - shift) <=? piece))%bool eqn:Hg; [done|].
  apply andb_false_iff in Hg. rewrite Z.leb_gt, Z.leb_gt in Hg.
  rewrite land_7f, land_80 in Hr by done.
  assert (Hle : shift + 7 < bits -> 2 ^ (bits - shift) = 128 * 2 ^ (bits - (shift + 7)))
    by (intros; apply pow_split; lia).
  destruct (Z.ltb_spec piece 128) as [Hlt|Hge].
  - assert (piece < 2 ^ (bits - shift)) as Hfit.
    { destruct Hg as [Hg|]; [|done]. rewrite Hle by lia.
      pose proof (Z.pow_pos_nonneg 2 (bits - (shift + 7))). lia. }
    destruct ((piece =? 0) && negb (shift =? 0))%bool eqn:Hz; [done|]. injection Hr as <- <-.
    exists piece. rewrite (Z.mod_small piece) by word.
    pose proof (group_fits shift piece Hs ltac:(word)).
    destruct (accumulate bits shift temp piece) as [_ ->]; [word.. |].
    unfold uN. rewrite Z.mod_small by (apply acc_fits; word).
    split_and!; [done | word | done | |].
    + destruct (Z.eqb_spec piece 0), (Z.eqb_spec shift 0); simpl in Hz; lia.
    + intros [|fuel] Hf; simpl; [done|]. by rewrite (proj2 (Z.leb_gt 128 piece)) by lia.
  - assert (Hc : shift + 7 < bits).
    { destruct Hg as [|Hg]; [lia|]. apply (guard_continue shift piece); lia. }
    destruct (pow_split shift ltac:(lia) Hc) as [Hp1 Hp2].
    assert (0 <= piece mod 128 < 128) by word.
    assert (0 <= 2 ^ shift) by (apply Z.pow_nonneg; lia).
    assert (0 < 2 ^ (bits - (shift + 7))) by (apply Z.pow_pos_nonneg; lia).
    assert (piece mod 128 * 2 ^ shift < 2 ^ bits) by (apply group_fits; lia).
    destruct (accumulate bits shift temp (piece mod 128)) as [_ E]; [lia.. |].
    rewrite E in Hr. unfold uN in Hr. rewrite Z.mod_small in Hr by (apply acc_fits; lia).
    apply IH in Hr as (g & -> & Hgr & Hnz & Hin); [| done | lia | nia].
    exists (piece mod 128 + 128 * g). assert (piece = piece mod 128 + 128) by word.
    split_and!; [nia | lia | nia | right; lia |].
    intros [|fuel] Hf; [simpl in Hf; lia|].
    simpl. rewrite (proj2 (Z.leb_le 128 _)) by lia.
    assert ((piece mod 128 + 128 * g) / 128 = g) as Hdiv.
    { rewrite (Z.mul_comm 128), Z.div_add, Z.div_small by lia. done. }
    rewrite Hdiv. simpl. rewrite <- (Hin fuel).
    + rewrite (Z.mul_comm 128), Z_mod_plus_full, Z.mod_mod by lia. f_equal. done.
    + pose proof (group_bound fuel (piece mod 128 + 128 * g) ltac:(lia)) as Hb.
      rewrite Hdiv in Hb. lia.
Qed.
End reader.

(** ** The interface the serializers use *)

Lemma read_write_varint bits v rest : 7 <= bits <= 64 -> 0 <= v < 2 ^ bits ->
  read_varint bits (write_varint v ++ rest)
  = (Z.of_nat (length (write_varint v)), v, rest).
Proof.
  intros Hb Hv. assert (2 ^ bits <= 2 ^ 64) by (apply Z.pow_le_mono_r; lia).
  rewrite write_varint_eq by word. unfold read_varint.
  rewrite read_varint_loop_groups; simpl; [| lia | lia | lia | rewrite Z.sub_0_r; lia | word | lia].
  do 2 f_equal. lia.
Qed.

Lemma write_varint_length v : is_u64 v -> (1 <= length (write_varint v) <= 10)%nat.
Proof. intros. rewrite write_varint_eq by done. apply groups7_length. Qed.

Lemma writeVarint_bytes v : is_u64 v -> is_bytes (writeVarint v).
Proof. intros. rewrite writeVarint_eq by done. apply groups7_bytes. simpl. word. Qed.

Lemma read_write_Varint bits v rest : 7 <= bits <= 64 -> 0 <= v < 2 ^ bits ->
  readVarint bits (writeVarint v ++ rest) = Some (v, rest).
Proof.
  intros Hb Hv. assert (2 ^ bits <= 2 ^ 64) by (apply Z.pow_le_mono_r; lia).
  rewrite writeVarint_eq by word. unfold readVarint.
  rewrite readVarint_loop_groups; simpl; [| lia | lia | lia | rewrite Z.sub_0_r; lia | word | lia].
  do 2 f_equal. lia.
Qed.

Lemma readVarint_inv bits input v rest : 7 <= bits <= 64 -> is_bytes input ->
  readVarint bits input = Some (v, rest) ->
  0 <= v < 2 ^ bits /\ input = writeVarint v ++ rest.
Proof.
  intros Hb Hi Hr. apply readVarint_loop_inv in Hr as (g & -> & Hg & _ & Hin); [| lia | done | lia | lia].
  rewrite Z.sub_0_r in Hg. simpl. rewrite Z.mul_1_r.
  assert (2 ^ bits <= 2 ^ 64) by (apply Z.pow_le_mono_r; lia).
  split; [lia|]. rewrite writeVarint_eq by word. apply Hin. simpl. word.
Qed.

(** Both writers produce the same bytes. *)
Lemma write_varint_writeVarint v : is_u64 v -> write_varint v = writeVarint v.
Proof. intros. by rewrite write_varint_eq, writeVarint_eq. Qed.

(** The stream varints are canonical: for every unsigned type of 7 to 64 bits
    the reader accepts exactly the bytes the writer produces, so a value has one
    encoding and over-long, overflowing or truncated encodings throw. *)
Theorem readVarint_canonical bits input v rest : 7 <= bits <= 64 -> is_bytes input ->
  readVarint bits input = Some (v, rest) <-> 0 <= v < 2 ^ bits /\ input = writeVarint v ++ rest.
Proof.
  intros Hb Hi. split; [by apply readVarint_inv|].
  intros [Hv ->]. by apply read_write_Varint.
Qed.

Lemma readVarint_canonical_witness :
  readVarint 32 [0xac; 0x02; 7] = Some (300, [7]) <->
  0 <= 300 < 2 ^ 32 /\ [0xac; 0x02; 7] = writeVarint 300 ++ [7].
Proof. apply (readVarint_canonical 32); [lia|]. repeat constructor; word. Defined.

(** the iterator varints round trip: reading what [write_varint] wrote returns
    the number of bytes written, the value and the untouched rest of the input;
    the encoding has one to ten bytes and is the one the streams use. *)
Theorem varint_roundtrip bits v rest : 7 <= bits <= 64 -> 0 <= v < 2 ^ bits ->
  read_varint bits (get_varint_data v ++ rest) = (Z.of_nat (length (get_varint_data v)), v, rest)
  /\ (1 <= length (get_varint_data v) <= 10)%nat
  /\ get_varint_data v = writeVarint v.
Proof.
  intros Hb Hv. assert (is_u64 v) by (assert (2 ^ bits <= 2 ^ 64) by (apply Z.pow_le_mono_r; lia); word).
  unfold get_varint_data. split_and!; [by apply read_write_varint | by apply write_varint_length..|].
  by apply write_varint_writeVarint.
Qed.

Lemma varint_roundtrip_witness :
  read_varint 64 (get_varint_data UINT64_MAX ++ [1])
  = (Z.of_nat (length (get_varint_data UINT64_MAX)), UINT64_MAX, [1]).
Proof. apply varint_roundtrip; word. Defined.

End Varint.
