(* ===== verification/Serialization.v ===== *)
(** The binary serialization layer: src/Common/StreamTools.cpp with
    MemoryInputStream and VectorOutputStream, and the two ISerializer
    implementations src/Serialization/Binary{Input,Output}StreamSerializer.cpp.

    An ISerializer in INPUT mode is a reader that consumes a prefix of the
    remaining bytes; [None] is a thrown exception.  In OUTPUT mode it appends
    bytes; [None] is again an exception.  [Codec] pairs the two directions of a
    [serialize] function and [CodecOk] states what one component promises the
    components that embed its data: reading back what was written, and writing
    back exactly what was read. *)

From S2P Require Import Prelude.
From S2P Require Import Varint.
Import Varint.

Definition reader (A : Type) : Type := bytes -> option (A * bytes).

#[export] Instance reader_ret : MRet reader := fun A a input => Some (a, input).
#[export] Instance reader_bind : MBind reader := fun A B f m input =>
  match m input with
  | Some (a, rest) => f a rest
  | None => None
  end.

Definition throw {A} : reader A := fun _ => None.

(** ** Streams *)

Module Stream.

(** [MemoryInputStream::readSome]: copies [min (size, remaining)] bytes. *)
Definition readSome (size : nat) (input : bytes) : bytes * bytes :=
  (take size input, drop size input).

(** The loop of [read(IInputStream&, void*, size_t)]: until [size] bytes have been
    delivered, and an exception when a call delivers none.  A call that delivers
    something decreases [size], so [size + 1] rounds are enough. *)
Fixpoint read_loop (fuel size : nat) (acc input : bytes) : option (bytes * bytes) :=
  match size, fuel with
  | O, _ => Some (acc, input)
  | S _, O => None
  | S _, S fuel =>
      let '(chunk, input) := readSome size input in
      match length chunk with
      | O => None
      | _ => read_loop fuel (size - length chunk) (acc ++ chunk) input
      end
  end.

Definition read (size : nat) : reader bytes := fun input => read_loop (S size) size [] input.

Definition endOfStream (input : bytes) : bool := match input with [] => true | _ => false end.

(** Little-endian memory image of an unsigned integer of [n] bytes. *)
Fixpoint le_bytes (n : nat) (v : Z) : bytes :=
  match n with
  | O => []
  | S n => v mod 256 :: le_bytes n (v / 256)
  end.

Fixpoint le_value (l : bytes) : Z :=
  match l with
  | [] => 0
  | b :: l => b + 256 * le_value l
  end.

(** [read<uint8_t>] and [read<uint32_t>] on a little-endian machine. *)
Definition read_u8 : reader Z := b ← read 1; mret (le_value b).
Definition read_u32 : reader Z := b ← read 4; mret (le_value b).

Lemma read_loop_spec fuel size acc input : (size < fuel)%nat ->
  read_loop fuel size acc input =
    if decide (size <= length input)%nat then Some (acc ++ take size input, drop size input) else None.
Proof.
  revert size acc input. induction fuel as [|fuel IH]; intros size acc input Hf; [lia|].
  destruct size as [|size].
  { rewrite decide_True, take_0, app_nil_r, drop_0 by lia. done. }
  destruct input as [|b input].
  { rewrite decide_False by (simpl; lia). done. }
  assert (Hchunk : length (take (S size) (b :: input)) = S (size `min` length input))
    by (rewrite length_take; simpl; lia).
  cbn [read_loop readSome]. rewrite Hchunk. rewrite IH by lia. rewrite length_drop.
  change (length (b :: input)) with (S (length input)).
  destruct (decide (S size <= S (length input))%nat).
  - rewrite decide_True by lia.
    replace (S size - S (size `min` length input))%nat with 0%nat by lia.
    by rewrite take_0, app_nil_r, drop_0.
  - rewrite decide_False by lia. done.
Qed.

Lemma read_spec size input :
  read size input = if decide (size <= length input)%nat
                    then Some (take size input, drop size input) else None.
Proof. unfold read. by rewrite read_loop_spec by lia. Qed.

Lemma read_app n l rest : length l = n -> read n (l ++ rest) = Some (l, rest).
Proof.
  intros <-. rewrite read_spec, decide_True by (rewrite length_app; lia).
  by rewrite take_app_length, drop_app_length.
Qed.

Lemma read_inv n input l rest :
  read n input = Some (l, rest) -> length l = n /\ input = l ++ rest.
Proof.
  rewrite read_spec. case_decide; [|done]. intros [= <- <-].
  rewrite length_take, take_drop. split; [lia | done].
Qed.

Lemma length_le_bytes n v : length (le_bytes n v) = n.
Proof. revert v. induction n; intros; simpl; auto. Qed.

Lemma le_bytes_is_bytes n v : is_bytes (le_bytes n v).
Proof. revert v. induction n as [|n IH]; intros; simpl; constructor; [word | apply IH]. Qed.

Lemma le_value_bytes n v : 0 <= v < 256 ^ Z.of_nat n -> le_value (le_bytes n v) = v.
Proof.
  revert v. induction n as [|n IH]; intros v Hv; [simpl in *; lia|].
  rewrite Nat2Z.inj_succ, Z.pow_succ_r in Hv by lia. simpl. rewrite IH.
  - pose proof (Z.div_mod v 256). lia.
  - split; [apply Z.div_pos; lia | apply Z.div_lt_upper_bound; lia].
Qed.

Lemma le_value_range l : is_bytes l -> 0 <= le_value l < 256 ^ Z.of_nat (length l).
Proof.
  induction 1 as [|b l Hb Hl IH]; simpl length; [simpl; lia|].
  rewrite Nat2Z.inj_succ, Z.pow_succ_r by lia. simpl. word.
Qed.

Lemma le_value_app l k : le_value (l ++ k) = le_value l + 256 ^ Z.of_nat (length l) * le_value k.
Proof.
  induction l as [|x l IH]; cbn [app le_value length]; [lia|].
  rewrite IH, Nat2Z.inj_succ, Z.pow_succ_r by lia. lia.
Qed.

Lemma le_bytes_value l : is_bytes l -> le_bytes (length l) (le_value l) = l.
Proof.
  induction 1 as [|b l Hb Hl IH]; simpl; [done|].
  f_equal.
  - rewrite Z.mul_comm, Z_mod_plus_full, Z.mod_small; word.
  - rewrite Z.mul_comm, Z.div_add, Z.div_small, Z.add_0_l by word. done.
Qed.
End Stream.
Import Stream.

(** ** Codecs *)

Record Codec (A : Type) := MkCodec {
  put : A -> option bytes;   (** serialize in OUTPUT mode *)
  get : reader A;            (** serialize in INPUT mode *)
}.
Arguments MkCodec {A} _ _.
Arguments put {A} _ _.
Arguments get {A} _.

(** [wf] is the invariant of the C++ value (field widths, array sizes). *)
Class CodecOk {A} (c : Codec A) (wf : A -> Prop) : Prop := {
  codec_total a : wf a -> exists bs, put c a = Some bs /\ is_bytes bs;
  codec_get_put a bs rest : wf a -> put c a = Some bs -> get c (bs ++ rest) = Some (a, rest);
  codec_put_get input a rest : is_bytes input -> get c input = Some (a, rest) ->
    wf a /\ exists bs, put c a = Some bs /\ input = bs ++ rest;
}.

(** The serializers' primitive operations, as codecs. *)
Module BinarySerializer.

(** Array and string sizes are bounded on input. *)
Definition max_size : Z := 128 * 1024 * 1024.

(** [operator()(uintN_t&)]. *)
Definition uint (bits : Z) : Codec Z :=
  MkCodec (fun v => Some (writeVarint v)) (readVarint bits).

(** [operator()(intN_t&)]: written as the unsigned type of the same width. *)
Definition sint (bits : Z) : Codec Z :=
  MkCodec (fun v => Some (writeVarint (uN bits v)))
    (v ← readVarint bits; mret ((v + 2 ^ (bits - 1)) mod 2 ^ bits - 2 ^ (bits - 1))).

(** [operator()(bool&)]: one byte, any non-zero byte reads as true. *)
Definition boolean : Codec bool :=
  MkCodec (fun b => Some [if b : bool then 1 else 0]) (v ← read_u8; mret (negb (v =? 0))).

(** [binary(void*, size_t)]: a fixed number of raw bytes. *)
Definition binary (size : nat) : Codec bytes := MkCodec (fun v => Some v) (read size).

(** [operator()(std::string&)] and [binary(std::string&)]. *)
Definition str : Codec bytes :=
  MkCodec (fun v => Some (writeVarint (Z.of_nat (length v)) ++ v))
    (size ← readVarint 64;
     if max_size <? size then throw
     else if 0 <? size then read (Z.to_nat size)
     else mret []).

(** [beginArray] followed by one serialization per element
    ([serializeContainer], [serializeVarintVector], [readSequence] and
    [writeSequence]). *)
Fixpoint put_all {A} (c : Codec A) (l : list A) : option bytes :=
  match l with
  | [] => Some []
  | a :: l => x ← put c a; y ← put_all c l; Some (x ++ y)
  end.

Fixpoint get_n {A} (c : Codec A) (n : nat) : reader (list A) :=
  match n with
  | O => mret []
  | S n => a ← get c; l ← get_n c n; mret (a :: l)
  end.

Definition array {A} (c : Codec A) : Codec (list A) :=
  MkCodec (fun l => x ← put_all c l; Some (writeVarint (Z.of_nat (length l)) ++ x))
    (size ← readVarint 64;
     if max_size <? size then throw else get_n c (Z.to_nat size)).

(** [serializeBlockHeight]: written as a 32-bit value, read as a 64-bit one; the
    all-ones value of either width stands for "no height". *)
Definition blockHeight : Codec Z :=
  MkCodec (put (uint 32))
    (height ← readVarint 64;
     if height =? UINT64_MAX then mret UINT32_MAX
     else if (UINT32_MAX <? height) && (height <? UINT64_MAX) then throw
     else mret (u32 height)).

Definition small {A} (l : list A) : Prop := Z.of_nat (length l) <= max_size.

#[export] Instance uint_ok bits : 7 <= bits <= 64 -> CodecOk (uint bits) (fun v => 0 <= v < 2 ^ bits).
Proof.
  intros Hb. assert (2 ^ bits <= 2 ^ 64) by (apply Z.pow_le_mono_r; lia).
  split; simpl.
  - intros v Hv. eexists; split; [done|]. apply writeVarint_bytes. word.
  - intros v bs rest Hv [= <-]. by apply read_write_Varint.
  - intros input v rest Hi Hr. apply readVarint_inv in Hr as [Hv ->]; [eauto | done | done].
Qed.

#[export] Instance binary_ok n : CodecOk (binary n) (fun l => length l = n /\ is_bytes l).
Proof.
  split; simpl.
  - intros l [_ Hl]. eauto.
  - intros l bs rest [Hl _] [= <-]. by apply read_app.
  - intros input l rest Hi Hr. apply read_inv in Hr as [Hl ->].
    apply Forall_app in Hi as [Hi _]. eauto.
Qed.

Lemma size_u64 {A} (l : list A) : small l -> is_u64 (Z.of_nat (length l)).
Proof. unfold small, max_size, is_u64. lia. Qed.

#[export] Instance str_ok : CodecOk str (fun l => is_bytes l /\ small l).
Proof.
  split; simpl.
  - intros l [Hl Hs]. eexists; split; [done|].
    apply Forall_app; split; [by apply writeVarint_bytes, size_u64 | done].
  - intros l bs rest [Hl Hs] [= <-]. rewrite <- app_assoc.
    unfold mbind, reader_bind. rewrite read_write_Varint; [|lia|by apply size_u64].
    unfold small in Hs. rewrite (proj2 (Z.ltb_ge _ _)) by lia. case_bool.
    + rewrite Nat2Z.id. by apply read_app.
    + destruct l; [done | simpl in *; lia].
  - intros input l rest Hi. unfold mbind, reader_bind.
    destruct (readVarint 64 input) as [[size input']|] eqn:E; [|done].
    apply readVarint_inv in E as [Hsz ->]; [|lia|done].
    apply Forall_app in Hi as [_ Hi]. unfold small.
    case_bool; [done|]. case_bool; intros Hr.
    + apply read_inv in Hr as [Hl ->]. apply Forall_app in Hi as [Hi _].
      split; [split; [done | lia]|]. rewrite Hl, Z2Nat.id by lia.
      eexists; split; [done|]. by rewrite <- app_assoc.
    + injection Hr as <- <-. assert (size = 0) as -> by lia.
      split; [split; [constructor | done]|]. eauto.
Qed.

Section array_ok.
Context {A} (c : Codec A) (wf : A -> Prop) `{!CodecOk c wf}.

Lemma put_all_total l : Forall wf l -> exists bs, put_all c l = Some bs /\ is_bytes bs.
Proof.
  induction 1 as [|a l Ha Hl (y & Hy & Hyb)]; simpl; [eexists; split; [done | constructor]|].
  destruct (codec_total a Ha) as (x & Hx & Hxb). rewrite Hx, Hy. simpl.
  eexists; split; [done|]. by apply Forall_app.
Qed.

Lemma get_n_put_all l bs rest : Forall wf l -> put_all c l = Some bs ->
  get_n c (length l) (bs ++ rest) = Some (l, rest).
Proof.
  intros Hl. revert bs. induction Hl as [|a l Ha Hl IH]; intros bs; simpl.
  - intros [= <-]. done.
  - destruct (put c a) as [x|] eqn:Ex; [|done]. simpl.
    destruct (put_all c l) as [y|] eqn:Ey; [|done]. simpl. intros [= <-].
    rewrite <- app_assoc. unfold mbind, reader_bind.
    rewrite (codec_get_put a x) by done. by rewrite IH.
Qed.

Lemma put_all_get_n n input l rest : is_bytes input -> get_n c n input = Some (l, rest) ->
  length l = n /\ Forall wf l /\ exists bs, put_all c l = Some bs /\ input = bs ++ rest.
Proof.
  revert input l rest. induction n as [|n IH]; intros input l rest Hi; simpl.
  - intros [= <- <-]. split_and!; [done | done | eauto].
  - unfold mbind, reader_bind. destruct (get c input) as [[a input']|] eqn:Ea; [|done].
    apply codec_put_get in Ea as (Ha & x & Hx & ->); [|done].
    apply Forall_app in Hi as [_ Hi].
    destruct (get_n c n input') as [[l' input'']|] eqn:El; [|done].
    apply IH in El as (Hlen & Hl & y & Hy & ->); [|done]. intros [= <- <-].
    split_and!; [simpl; lia | by constructor |].
    simpl. rewrite Hx, Hy. simpl. eexists; split; [done|]. by rewrite <- app_assoc.
Qed.

#[export] Instance array_ok : CodecOk (array c) (fun l => Forall wf l /\ small l).
Proof.
  split; simpl.
  - intros l [Hl Hs]. destruct (put_all_total l Hl) as (x & -> & Hx). simpl.
    eexists; split; [done|]. apply Forall_app; split; [by apply writeVarint_bytes, size_u64 | done].
  - intros l bs rest [Hl Hs]. destruct (put_all c l) as [x|] eqn:Ex; [|done].
    intros [= <-]. rewrite <- app_assoc. unfold mbind, reader_bind.
    rewrite read_write_Varint; [|lia|by apply size_u64].
    unfold small in Hs. rewrite (proj2 (Z.ltb_ge _ _)), Nat2Z.id by lia. by apply get_n_put_all.
  - intros input l rest Hi. unfold mbind, reader_bind.
    destruct (readVarint 64 input) as [[size input']|] eqn:E; [|done].
    apply readVarint_inv in E as [Hsz ->]; [|lia|done].
    apply Forall_app in Hi as [_ Hi]. unfold small. case_bool; [done|]. intros Hr.
    apply put_all_get_n in Hr as (Hlen & Hl & bs & Hbs & ->); [|done].
    split; [split; [done | lia]|]. rewrite Hbs. simpl.
    rewrite Hlen, Z2Nat.id by lia. eexists; split; [done|]. by rewrite <- app_assoc.
Qed.
End array_ok.

(** Field after field: the [serialize] function of a struct. *)
Definition seq {A B} (c1 : Codec A) (c2 : Codec B) : Codec (A * B) :=
  MkCodec (fun '(a, b) => x ← put c1 a; y ← put c2 b; Some (x ++ y))
    (a ← get c1; b ← get c2; mret (a, b)).

(** A struct is its tuple of fields. *)
Definition struct {A B} (make : A -> B) (fields : B -> A) (c : Codec A) : Codec B :=
  MkCodec (fun b => put c (fields b)) (a ← get c; mret (make a)).

(** A value the [serialize] function rejects by throwing, in both directions. *)
Definition checked {A} (ok : A -> bool) (c : Codec A) : Codec A :=
  MkCodec (fun a => if ok a then put c a else None)
    (a ← get c; if ok a then mret a else throw).

#[export] Instance seq_ok {A B} (c1 : Codec A) (c2 : Codec B) wf1 wf2 :
  CodecOk c1 wf1 -> CodecOk c2 wf2 -> CodecOk (seq c1 c2) (fun '(a, b) => wf1 a /\ wf2 b).
Proof.
  intros H1 H2. split; simpl.
  - intros [a b] [Ha Hb]. destruct (codec_total a Ha) as (x & -> & Hx).
    destruct (codec_total b Hb) as (y & -> & Hy). eexists; split; [done|]. by apply Forall_app.
  - intros [a b] bs rest [Ha Hb]. destruct (put c1 a) as [x|] eqn:Ex; [|done]. simpl.
    destruct (put c2 b) as [y|] eqn:Ey; [|done]. intros [= <-].
    rewrite <- app_assoc. unfold mbind, reader_bind.
    rewrite (codec_get_put a x), (codec_get_put b y) by done. done.
  - intros input [a b] rest Hi. unfold mbind, reader_bind.
    destruct (get c1 input) as [[a' input']|] eqn:Ea; [|done].
    apply codec_put_get in Ea as (Ha & x & Hx & ->); [|done]. apply Forall_app in Hi as [_ Hi].
    destruct (get c2 input') as [[b' input'']|] eqn:Eb; [|done].
    apply codec_put_get in Eb as (Hb & y & Hy & ->); [|done]. intros [= <- <- <-].
    split; [done|]. simpl. rewrite Hx, Hy. eexists; split; [done|]. by rewrite <- app_assoc.
Qed.

Lemma struct_ok {A B} (make : A -> B) fields (c : Codec A) wf :
  (forall a, fields (make a) = a) -> (forall b, make (fields b) = b) ->
  CodecOk c wf -> CodecOk (struct make fields c) (fun b => wf (fields b)).
Proof.
  intros Hfm Hmf Hc. split; simpl.
  - intros b Hb. by apply codec_total.
  - intros b bs rest Hb Hp. unfold mbind, reader_bind.
    rewrite (codec_get_put _ bs rest Hb Hp). by rewrite <- (Hmf b) at 2.
  - intros input b rest Hi. unfold mbind, reader_bind.
    destruct (get c input) as [[a input']|] eqn:Ea; [|done]. intros [= <- <-].
    apply codec_put_get in Ea; [|done]. by rewrite Hfm.
Qed.

#[export] Instance checked_ok {A} (ok : A -> bool) (c : Codec A) wf :
  CodecOk c wf -> CodecOk (checked ok c) (fun a => wf a /\ ok a = true).
Proof.
  intros Hc. split; simpl.
  - intros a [Ha ->]. by apply codec_total.
  - intros a bs rest [Ha Hok]. rewrite Hok. intros Hp. unfold mbind, reader_bind.
    rewrite (codec_get_put a bs rest Ha Hp). by rewrite Hok.
  - intros input a rest Hi. unfold mbind, reader_bind.
    destruct (get c input) as [[a' input']|] eqn:Ea; [|done].
    destruct (ok a') eqn:Hok; [|done]. intros [= <- <-].
    apply codec_put_get in Ea as [Ha Hbs]; [|done]. by rewrite Hok.
Qed.

Lemma CodecOk_iff {A} (c : Codec A) (wf wf' : A -> Prop) :
  (forall a, wf a <-> wf' a) -> CodecOk c wf -> CodecOk c wf'.
Proof.
  intros Hiff Hc. split.
  - intros a Ha. by apply codec_total, Hiff.
  - intros a bs rest Ha. by apply codec_get_put, Hiff.
  - intros input a rest Hi Hg. apply codec_put_get in Hg as [Ha ?]; [|done].
    split; [by apply Hiff | done].
Qed.

(** [toBinaryArray] and [fromBinaryArray]: the latter requires that all data was
    consumed. *)
Definition toBinaryArray {A} (c : Codec A) (a : A) : option bytes := put c a.

Definition fromBinaryArray {A} (c : Codec A) (ba : bytes) : option A :=
  match get c ba with
  | Some (a, rest) => if endOfStream rest then Some a else None
  | None => None
  end.

Lemma from_to_BinaryArray {A} (c : Codec A) wf `{!CodecOk c wf} a :
  wf a -> exists ba, toBinaryArray c a = Some ba /\ fromBinaryArray c ba = Some a.
Proof.
  intros Ha. destruct (codec_total a Ha) as (ba & Hba & _). exists ba. split; [done|].
  unfold fromBinaryArray. rewrite <- (app_nil_r ba).
  by rewrite (codec_get_put a ba [] Ha Hba).
Qed.

Lemma to_from_BinaryArray {A} (c : Codec A) wf `{!CodecOk c wf} ba a :
  is_bytes ba -> fromBinaryArray c ba = Some a -> wf a /\ toBinaryArray c a = Some ba.
Proof.
  intros Hi. unfold fromBinaryArray. destruct (get c ba) as [[a' rest]|] eqn:E; [|done].
  destruct rest; [|done]. intros [= <-].
  apply codec_put_get in E as (Ha & bs & Hbs & ->); [|done]. by rewrite app_nil_r.
Qed.

Lemma BinaryArray_iff {A} (c : Codec A) wf `{!CodecOk c wf} ba a : is_bytes ba ->
  (fromBinaryArray c ba = Some a <-> wf a /\ toBinaryArray c a = Some ba)
  /\ (wf a -> is_Some (toBinaryArray c a)).
Proof.
  intros Hb. split; [split|].
  - by apply to_from_BinaryArray.
  - intros [Ha Hp]. destruct (from_to_BinaryArray c wf a Ha) as (ba' & Hp' & Hf). congruence.
  - intros Ha. destruct (from_to_BinaryArray c wf a Ha) as (ba' & -> & _). eauto.
Qed.

End BinarySerializer.
