(* ===== verification/CryptoNote.v ===== *)
(** The data of the chain: include/CryptoNote.h.  Keys, hashes, key images and
    signatures are fixed-size byte arrays (include/CryptoTypes.h); integers are
    kept at their width by the well-formedness predicates of
    CryptoNoteSerialization.v. *)

From S2P Require Import Prelude.
From S2P Require Import Varint.

Abbreviation Hash := bytes.
Abbreviation PublicKey := bytes.
Abbreviation KeyImage := bytes.
Abbreviation Signature := bytes.

Record BaseInput := MkBaseInput { blockIndex : Z }.

Record KeyInput := MkKeyInput {
  ki_amount : Z;
  outputIndexes : list Z;
  keyImage : KeyImage;
}.

Record MultisignatureInput := MkMultisignatureInput {
  mi_amount : Z;
  signatureCount : Z;
  outputIndex : Z;
  mi_term : Z;
}.

Record KeyOutput := MkKeyOutput { ko_key : PublicKey }.

Record MultisignatureOutput := MkMultisignatureOutput {
  mo_keys : list PublicKey;
  requiredSignatureCount : Z;
  mo_term : Z;
}.

Inductive TransactionInput :=
  | InBase (i : BaseInput)
  | InKey (i : KeyInput)
  | InMultisignature (i : MultisignatureInput).

Inductive TransactionOutputTarget :=
  | OutKey (o : KeyOutput)
  | OutMultisignature (o : MultisignatureOutput).

Record TransactionOutput := MkTransactionOutput {
  out_amount : Z;
  target : TransactionOutputTarget;
}.

Record TransactionPrefix := MkTransactionPrefix {
  version : Z;
  unlockTime : Z;
  inputs : list TransactionInput;
  outputs : list TransactionOutput;
  extra : bytes;
}.

Record Transaction := MkTransaction {
  prefix : TransactionPrefix;
  signatures : list (list Signature);
}.

Record BlockHeader := MkBlockHeader {
  majorVersion : Z;
  minorVersion : Z;
  nonce : Z;
  timestamp : Z;
  previousBlockHash : Hash;
}.

Record Block := MkBlock {
  header : BlockHeader;
  baseTransaction : Transaction;
  transactionHashes : list Hash;
}.

Record AccountPublicAddress := MkAccountPublicAddress {
  spendPublicKey : PublicKey;
  viewPublicKey : PublicKey;
}.

#[export] Instance BaseInput_eq : EqDecision BaseInput.
Proof. solve_decision. Defined.
#[export] Instance KeyInput_eq : EqDecision KeyInput.
Proof. solve_decision. Defined.
#[export] Instance MultisignatureInput_eq : EqDecision MultisignatureInput.
Proof. solve_decision. Defined.
#[export] Instance TransactionInput_eq : EqDecision TransactionInput.
Proof. solve_decision. Defined.
#[export] Instance KeyOutput_eq : EqDecision KeyOutput.
Proof. solve_decision. Defined.
#[export] Instance MultisignatureOutput_eq : EqDecision MultisignatureOutput.
Proof. solve_decision. Defined.
#[export] Instance TransactionOutputTarget_eq : EqDecision TransactionOutputTarget.
Proof. solve_decision. Defined.
#[export] Instance TransactionOutput_eq : EqDecision TransactionOutput.
Proof. solve_decision. Defined.
#[export] Instance TransactionPrefix_eq : EqDecision TransactionPrefix.
Proof. solve_decision. Defined.
#[export] Instance Transaction_eq : EqDecision Transaction.
Proof. solve_decision. Defined.
#[export] Instance AccountPublicAddress_eq : EqDecision AccountPublicAddress.
Proof. solve_decision. Defined.

(** [CryptoNoteConfig.h] *)
Definition TRANSACTION_VERSION_1 : Z := 1.
Definition TRANSACTION_VERSION_2 : Z := 2.
Definition BLOCK_MAJOR_VERSION_1 : Z := 1.
Definition BLOCK_MAJOR_VERSION_2 : Z := 2.
Definition BLOCK_MAJOR_VERSION_3 : Z := 3.
Definition BLOCK_MAJOR_VERSION_4 : Z := 4.
Definition BLOCK_MAJOR_VERSION_7 : Z := 7.
Definition BLOCK_MAJOR_VERSION_8 : Z := 8.
Definition BLOCK_MINOR_VERSION_0 : Z := 0.
Definition BLOCK_MINOR_VERSION_1 : Z := 1.
