(* ===== verification/CryptoNoteSerialization.v ===== *)
(** src/CryptoNoteCore/CryptoNoteSerialization.cpp: the wire format of
    transactions, blocks and addresses, and its laws: every well-formed value is
    written and read back, and a blob that parses is the serialization of what it
    parses to (one blob per value). *)

From S2P Require Import Prelude.
From S2P Require Import Varint.
From S2P Require Import Serialization.
From S2P Require Import CryptoNote.
Import Varint Stream BinarySerializer.

Module CryptoNoteSerialization.

Definition getSignaturesCount (input : TransactionInput) : nat :=
  match input with
  | InBase _ => 0%nat
  | InKey txin => length (outputIndexes txin)
  | InMultisignature txin => Z.to_nat (signatureCount txin)
  end.

(** [BinaryVariantTagGetter] *)
Definition input_tag (input : TransactionInput) : Z :=
  match input with
  | InBase _ => 0xff
  | InKey _ => 0x2
  | InMultisignature _ => 0x3
  end.

Definition target_tag (t : TransactionOutputTarget) : Z :=
  match t with
  | OutKey _ => 0x2
  | OutMultisignature _ => 0x3
  end.

Definition pod32 : Codec bytes := binary 32.
Definition pod64 : Codec bytes := binary 64.

Definition serializeBaseInput : Codec BaseInput := struct MkBaseInput blockIndex (uint 32).

Definition serializeKeyInput : Codec KeyInput :=
  struct (fun '(a, (o, k)) => MkKeyInput a o k) (fun i => (ki_amount i, (outputIndexes i, keyImage i)))
    (seq (uint 64) (seq (array (uint 32)) pod32)).

Definition serializeMultisignatureInput : Codec MultisignatureInput :=
  struct (fun '(a, (s, (o, t))) => MkMultisignatureInput a s o t)
    (fun i => (mi_amount i, (signatureCount i, (outputIndex i, mi_term i))))
    (seq (uint 64) (seq (uint 8) (seq (uint 32) (uint 32)))).

Definition serializeKeyOutput : Codec KeyOutput := struct MkKeyOutput ko_key pod32.

Definition serializeMultisignatureOutput : Codec MultisignatureOutput :=
  struct (fun '(k, (r, t)) => MkMultisignatureOutput k r t)
    (fun o => (mo_keys o, (requiredSignatureCount o, mo_term o)))
    (seq (array pod32) (seq (uint 8) (uint 32))).

(** The tag byte, then the value: [VariantSerializer] and [getVariantValue]. *)
Definition serializeTransactionInput : Codec TransactionInput :=
  MkCodec
    (fun i => x ← match i with
                  | InBase v => put serializeBaseInput v
                  | InKey v => put serializeKeyInput v
                  | InMultisignature v => put serializeMultisignatureInput v
                  end; Some (input_tag i :: x))
    (tag ← read_u8;
     if tag =? 0xff then v ← get serializeBaseInput; mret (InBase v)
     else if tag =? 0x2 then v ← get serializeKeyInput; mret (InKey v)
     else if tag =? 0x3 then v ← get serializeMultisignatureInput; mret (InMultisignature v)
     else throw).

Definition serializeTarget : Codec TransactionOutputTarget :=
  MkCodec
    (fun t => x ← match t with
                  | OutKey v => put serializeKeyOutput v
                  | OutMultisignature v => put serializeMultisignatureOutput v
                  end; Some (target_tag t :: x))
    (tag ← read_u8;
     if tag =? 0x2 then v ← get serializeKeyOutput; mret (OutKey v)
     else if tag =? 0x3 then v ← get serializeMultisignatureOutput; mret (OutMultisignature v)
     else throw).

Definition serializeTransactionOutput : Codec TransactionOutput :=
  struct (fun '(a, t) => MkTransactionOutput a t) (fun o => (out_amount o, target o))
    (seq (uint 64) serializeTarget).

Definition serializeTransactionPrefix : Codec TransactionPrefix :=
  struct (fun '(v, (u, (i, (o, e)))) => MkTransactionPrefix v u i o e)
    (fun p => (version p, (unlockTime p, (inputs p, (outputs p, extra p)))))
    (seq (checked (fun v => negb (TRANSACTION_VERSION_2 <? v)) (uint 8))
      (seq (uint 64)
        (seq (array serializeTransactionInput)
          (seq (array serializeTransactionOutput) str)))).

(** The signature loop of [serialize(Transaction&)], OUTPUT mode with
    signatures expected. *)
Fixpoint put_signatures (ins : list TransactionInput) (sigs : list (list Signature)) : option bytes :=
  match ins, sigs with
  | i :: ins, s :: sigs =>
      if negb (getSignaturesCount i =? length s)%nat then None
      else x ← put_all pod64 s; y ← put_signatures ins sigs; Some (x ++ y)
  | _, _ => Some []
  end.

(** INPUT mode: [signatures] has been resized to the number of inputs. *)
Fixpoint get_signatures (ins : list TransactionInput) : reader (list (list Signature)) :=
  match ins with
  | [] => mret []
  | i :: ins => s ← get_n pod64 (getSignaturesCount i); rest ← get_signatures ins; mret (s :: rest)
  end.

Definition put_transaction (tx : Transaction) : option bytes :=
  p ← put serializeTransactionPrefix (prefix tx);
  let ins := inputs (prefix tx) in
  match signatures tx with
  | [] => if forallb (fun i => (getSignaturesCount i =? 0)%nat) ins then Some p else None
  | sigs =>
      if negb (length ins =? length sigs)%nat then None
      else s ← put_signatures ins sigs; Some (p ++ s)
  end.

Definition get_transaction : reader Transaction :=
  p ← get serializeTransactionPrefix;
  s ← get_signatures (inputs p);
  mret (MkTransaction p s).

Definition serializeTransaction : Codec Transaction := MkCodec put_transaction get_transaction.

(** [serializer.binary(&header.nonce, sizeof(header.nonce))] *)
Definition raw_u32 : Codec Z := MkCodec (fun v => Some (le_bytes 4 v)) read_u32.

Definition serializeBlockHeader : Codec BlockHeader :=
  struct (fun '(ma, (mi, (t, (h, n)))) => MkBlockHeader ma mi n t h)
    (fun b => (majorVersion b, (minorVersion b, (timestamp b, (previousBlockHash b, nonce b)))))
    (seq (checked (fun v => negb (BLOCK_MAJOR_VERSION_8 <? v)) (uint 8))
      (seq (uint 8) (seq (uint 64) (seq pod32 raw_u32)))).

Definition serializeBlock : Codec Block :=
  struct (fun '(h, (t, l)) => MkBlock h t l) (fun b => (header b, (baseTransaction b, transactionHashes b)))
    (seq serializeBlockHeader (seq serializeTransaction (array pod32))).

Definition serializeAccountPublicAddress : Codec AccountPublicAddress :=
  struct (fun '(s, v) => MkAccountPublicAddress s v) (fun a => (spendPublicKey a, viewPublicKey a))
    (seq pod32 pod32).

(** ** Well-formed values: every field within its C++ type, every container
    within the reader's size limit. *)

Definition wf_pod (n : nat) (l : bytes) : Prop := length l = n /\ is_bytes l.

Definition wf_input (i : TransactionInput) : Prop :=
  match i with
  | InBase v => is_u32 (blockIndex v)
  | InKey v => is_u64 (ki_amount v) /\ (Forall is_u32 (outputIndexes v) /\ small (outputIndexes v))
      /\ wf_pod 32 (keyImage v)
  | InMultisignature v => is_u64 (mi_amount v) /\ is_u8 (signatureCount v)
      /\ is_u32 (outputIndex v) /\ is_u32 (mi_term v)
  end.

Definition wf_target (t : TransactionOutputTarget) : Prop :=
  match t with
  | OutKey v => wf_pod 32 (ko_key v)
  | OutMultisignature v => (Forall (wf_pod 32) (mo_keys v) /\ small (mo_keys v))
      /\ is_u8 (requiredSignatureCount v) /\ is_u32 (mo_term v)
  end.

Definition wf_output (o : TransactionOutput) : Prop := is_u64 (out_amount o) /\ wf_target (target o).

Definition wf_prefix (p : TransactionPrefix) : Prop :=
  (is_u8 (version p) /\ negb (TRANSACTION_VERSION_2 <? version p) = true) /\ is_u64 (unlockTime p)
  /\ (Forall wf_input (inputs p) /\ small (inputs p))
  /\ (Forall wf_output (outputs p) /\ small (outputs p))
  /\ (is_bytes (extra p) /\ small (extra p)).

(** One signature list per input, of the length the input asks for. *)
Definition wf_signatures (ins : list TransactionInput) (sigs : list (list Signature)) : Prop :=
  Forall2 (fun i s => length s = getSignaturesCount i /\ Forall (wf_pod 64) s) ins sigs.

Definition wf_transaction (tx : Transaction) : Prop :=
  wf_prefix (prefix tx) /\ wf_signatures (inputs (prefix tx)) (signatures tx).

Definition wf_header (b : BlockHeader) : Prop :=
  (is_u8 (majorVersion b) /\ negb (BLOCK_MAJOR_VERSION_8 <? majorVersion b) = true)
  /\ is_u8 (minorVersion b) /\ is_u64 (timestamp b) /\ wf_pod 32 (previousBlockHash b)
  /\ is_u32 (nonce b).

Definition wf_block (b : Block) : Prop :=
  wf_header (header b) /\ wf_transaction (baseTransaction b)
  /\ (Forall (wf_pod 32) (transactionHashes b) /\ small (transactionHashes b)).

Definition wf_address (a : AccountPublicAddress) : Prop :=
  wf_pod 32 (spendPublicKey a) /\ wf_pod 32 (viewPublicKey a).

(** ** The format's laws *)

Lemma uint8_ok : CodecOk (uint 8) is_u8.
Proof. by apply uint_ok. Qed.
Lemma uint32_ok : CodecOk (uint 32) is_u32.
Proof. by apply uint_ok. Qed.
Lemma uint64_ok : CodecOk (uint 64) is_u64.
Proof. by apply uint_ok. Qed.
Lemma pod_ok n : CodecOk (binary n) (wf_pod n).
Proof. apply binary_ok. Qed.

Create HintDb codec.
#[local] Hint Resolve uint8_ok uint32_ok uint64_ok pod_ok str_ok : codec.
#[local] Hint Resolve array_ok seq_ok checked_ok : codec.

(** [codec_struct] derives the laws of a struct from those of its fields. *)
Ltac codec_struct :=
  match goal with
  | |- CodecOk (struct ?mk ?fs ?c) _ =>
      eapply CodecOk_iff; [|apply (struct_ok mk fs c);
        [ by intros; repeat match goal with x : _ * _ |- _ => destruct x end
        | by intros [] | eauto 12 with codec ]];
      intros []; simpl; done
  end.

#[export] Instance serializeBaseInput_ok : CodecOk serializeBaseInput (fun v => wf_input (InBase v)).
Proof. unfold serializeBaseInput. codec_struct. Qed.

#[export] Instance serializeKeyInput_ok : CodecOk serializeKeyInput (fun v => wf_input (InKey v)).
Proof. unfold serializeKeyInput, pod32. codec_struct. Qed.

#[export] Instance serializeMultisignatureInput_ok :
  CodecOk serializeMultisignatureInput (fun v => wf_input (InMultisignature v)).
Proof. unfold serializeMultisignatureInput. codec_struct. Qed.

#[export] Instance serializeKeyOutput_ok : CodecOk serializeKeyOutput (fun v => wf_target (OutKey v)).
Proof. unfold serializeKeyOutput, pod32. codec_struct. Qed.

#[export] Instance serializeMultisignatureOutput_ok :
  CodecOk serializeMultisignatureOutput (fun v => wf_target (OutMultisignature v)).
Proof. unfold serializeMultisignatureOutput, pod32. codec_struct. Qed.

Lemma read_u8_cons b rest : is_u8 b -> read_u8 (b :: rest) = Some (b, rest).
Proof.
  intros. unfold read_u8, mbind, reader_bind. change (b :: rest) with ([b] ++ rest).
  rewrite read_app by done. simpl. unfold mret, reader_ret. do 2 f_equal. lia.
Qed.

Lemma read_u8_inv input b rest : is_bytes input -> read_u8 input = Some (b, rest) ->
  is_u8 b /\ input = b :: rest.
Proof.
  intros Hi. unfold read_u8, mbind, reader_bind.
  destruct (read 1 input) as [[l input']|] eqn:E; [|done].
  apply read_inv in E as [Hl ->]. destruct l as [|b' [|]]; try done.
  apply Forall_app in Hi as [Hi _]. apply Forall_cons in Hi as [Hb _].
  intros [= <- <-]. rewrite Z.add_0_r. done.
Qed.

(** Peel one monadic read off a hypothesis. *)
Ltac reader_step H :=
  unfold mbind, reader_bind in H;
  match type of H with
  | match ?m with Some _ => _ | None => _ end = _ =>
      let E := fresh "E" in destruct m as [[? ?]|] eqn:E; [|done]
  end.

(** A tagged alternative: the tag byte, then the laws of the alternative. *)
Lemma tagged_get_put {A B} (c : Codec A) wf `{!CodecOk c wf} (inj : A -> B) tag a bs rest k :
  is_u8 tag -> wf a -> (x ← put c a; Some (tag :: x)) = Some bs ->
  (forall input, k tag input = (v ← get c; mret (inj v)) input) ->
  (t ← read_u8; k t) (bs ++ rest) = Some (inj a, rest).
Proof.
  intros Ht Ha. destruct (put c a) as [x|] eqn:Ex; [|done]. intros [= <-] Hk.
  simpl. unfold mbind at 1, reader_bind at 1. rewrite read_u8_cons by done.
  rewrite Hk. unfold mbind, reader_bind. by rewrite (codec_get_put a x).
Qed.

Lemma tagged_put_get {A B} (c : Codec A) wf `{!CodecOk c wf} (inj : A -> B) tag input b rest :
  is_bytes input -> (v ← get c; mret (inj v)) input = Some (b, rest) ->
  exists a bs, b = inj a /\ wf a /\ (x ← put c a; Some (tag :: x)) = Some (tag :: bs)
    /\ input = bs ++ rest.
Proof.
  intros Hi H. reader_step H. injection H as <- <-.
  apply codec_put_get in E as (Ha & bs & Hbs & ->); [|done].
  eexists _, _. rewrite Hbs. split_and!; done.
Qed.

Lemma tagged_total {A} (c : Codec A) wf `{!CodecOk c wf} tag a :
  is_u8 tag -> wf a -> exists bs, (x ← put c a; Some (tag :: x)) = Some bs /\ is_bytes bs.
Proof.
  intros Ht Ha. destruct (codec_total a Ha) as (x & -> & Hx). eexists; split; [done|].
  by constructor.
Qed.

#[export] Instance serializeTransactionInput_ok : CodecOk serializeTransactionInput wf_input.
Proof.
  unfold serializeTransactionInput. split; cbn [put get].
  - intros [v|v|v] Hv; cbn [input_tag]; (eapply tagged_total; [apply _ | word | exact Hv]).
  - intros [v|v|v] bs rest Hv Hp; cbn [input_tag] in Hp;
      (eapply tagged_get_put; [apply _ | | exact Hv | exact Hp | reflexivity]; word).
  - intros input b rest Hi H. reader_step H.
    apply read_u8_inv in E as [Ht ->]; [|done]. apply Forall_cons in Hi as [_ Hi].
    repeat match type of H with (if ?b then _ else _) _ = _ => destruct b eqn:? end;
      bool_to_prop; try done.
    all: eapply (tagged_put_get _ _ _ z) in H as (a & bs & -> & Ha & Hp & ->); [|done].
    all: subst; split; [done|]; eexists; split; [exact Hp | done].
Qed.

#[export] Instance serializeTarget_ok : CodecOk serializeTarget wf_target.
Proof.
  unfold serializeTarget. split; cbn [put get].
  - intros [v|v] Hv; cbn [target_tag]; (eapply tagged_total; [apply _ | word | exact Hv]).
  - intros [v|v] bs rest Hv Hp; cbn [target_tag] in Hp;
      (eapply tagged_get_put; [apply _ | | exact Hv | exact Hp | reflexivity]; word).
  - intros input b rest Hi H. reader_step H.
    apply read_u8_inv in E as [Ht ->]; [|done]. apply Forall_cons in Hi as [_ Hi].
    repeat match type of H with (if ?b then _ else _) _ = _ => destruct b eqn:? end;
      bool_to_prop; try done.
    all: eapply (tagged_put_get _ _ _ z) in H as (a & bs & -> & Ha & Hp & ->); [|done].
    all: subst; split; [done|]; eexists; split; [exact Hp | done].
Qed.

#[local] Hint Resolve serializeTransactionInput_ok serializeTarget_ok : codec.

#[export] Instance serializeTransactionOutput_ok : CodecOk serializeTransactionOutput wf_output.
Proof. unfold serializeTransactionOutput. codec_struct. Qed.

#[local] Hint Resolve serializeTransactionOutput_ok : codec.

#[export] Instance serializeTransactionPrefix_ok : CodecOk serializeTransactionPrefix wf_prefix.
Proof. unfold serializeTransactionPrefix. codec_struct. Qed.

Lemma raw_u32_ok : CodecOk raw_u32 is_u32.
Proof.
  unfold raw_u32. split; cbn [put get].
  - intros v Hv. eexists; split; [done|]. apply le_bytes_is_bytes.
  - intros v bs rest Hv Hp. assert (bs = le_bytes 4 v) as -> by congruence.
    unfold read_u32, mbind, reader_bind.
    rewrite read_app by apply length_le_bytes. by rewrite le_value_bytes by word.
  - intros input v rest Hi H. unfold read_u32 in H. reader_step H.
    injection H as <- <-. apply read_inv in E as [Hl ->]. apply Forall_app in Hi as [Hi _].
    pose proof (le_value_range _ Hi) as Hr. rewrite Hl in Hr. split; [word|].
    eexists; split; [done|]. by rewrite <- Hl, le_bytes_value.
Qed.

(** ** Signatures *)

Lemma put_signatures_total ins sigs : wf_signatures ins sigs ->
  exists bs, put_signatures ins sigs = Some bs /\ is_bytes bs.
Proof.
  induction 1 as [|i s ins sigs [Hl Hs] H (y & Hy & Hyb)]; simpl.
  { eexists; split; [done | constructor]. }
  rewrite Hl, Nat.eqb_refl. simpl.
  destruct (put_all_total pod64 (wf_pod 64) s Hs) as (x & -> & Hx). rewrite Hy. simpl.
  eexists; split; [done|]. by apply Forall_app.
Qed.

Lemma get_put_signatures ins sigs bs rest : wf_signatures ins sigs ->
  put_signatures ins sigs = Some bs -> get_signatures ins (bs ++ rest) = Some (sigs, rest).
Proof.
  intros H. revert bs. induction H as [|i s ins sigs [Hl Hs] H IH]; intros bs; simpl.
  { intros [= <-]. done. }
  rewrite Hl, Nat.eqb_refl. simpl.
  destruct (put_all pod64 s) as [x|] eqn:Ex; [|done]. simpl.
  destruct (put_signatures ins sigs) as [y|]; [|done]. intros [= <-].
  rewrite <- app_assoc, <- Hl. unfold mbind, reader_bind.
  rewrite (get_n_put_all pod64 (wf_pod 64) s x) by done. by rewrite IH.
Qed.

Lemma put_get_signatures ins input sigs rest : is_bytes input ->
  get_signatures ins input = Some (sigs, rest) ->
  wf_signatures ins sigs /\ exists bs, put_signatures ins sigs = Some bs /\ input = bs ++ rest.
Proof.
  revert input sigs rest. induction ins as [|i ins IH]; intros input sigs rest Hi H; simpl in H.
  { injection H as <- <-. split; [constructor | eauto]. }
  reader_step H. apply (put_all_get_n pod64 (wf_pod 64)) in E as (Hl & Hs & x & Hx & ->); [|done].
  apply Forall_app in Hi as [_ Hi]. reader_step H. injection H as <- <-.
  apply IH in E as (Hw & y & Hy & ->); [|done].
  split; [by constructor|]. simpl. rewrite Hl, Nat.eqb_refl, Hx, Hy. simpl.
  eexists; split; [done|]. by rewrite <- app_assoc.
Qed.

Lemma wf_signatures_nil ins : wf_signatures ins [] -> ins = [].
Proof. by inversion 1. Qed.

#[export] Instance serializeTransaction_ok : CodecOk serializeTransaction wf_transaction.
Proof.
  unfold serializeTransaction. split; cbn [put get].
  - intros [p sigs] [Hp Hs]. unfold put_transaction. cbn [prefix signatures] in *.
    destruct (codec_total p Hp) as (x & -> & Hx). cbn [mbind option_bind]. destruct sigs as [|s sigs].
    + apply wf_signatures_nil in Hs as ->. eauto.
    + rewrite (Forall2_length _ _ _ Hs), Nat.eqb_refl. simpl.
      destruct (put_signatures_total _ _ Hs) as (y & -> & Hy). simpl.
      eexists; split; [done|]. by apply Forall_app.
  - intros [p sigs] bs rest [Hp Hs] H. unfold put_transaction in H. cbn [prefix signatures] in *.
    destruct (put serializeTransactionPrefix p) as [x|] eqn:Ex; [|done]. simpl in H.
    unfold get_transaction. unfold mbind, reader_bind. destruct sigs as [|s sigs].
    + apply wf_signatures_nil in Hs as Hins. rewrite Hins in *. simpl in H. injection H as <-.
      rewrite (codec_get_put p x) by done. by rewrite Hins.
    + rewrite (Forall2_length _ _ _ Hs), Nat.eqb_refl in H. simpl in H.
      destruct (put_signatures (inputs p) (s :: sigs)) as [y|] eqn:Ey; [|done].
      injection H as <-. rewrite <- app_assoc, (codec_get_put p x) by done.
      by rewrite (get_put_signatures _ (s :: sigs) y).
  - intros input tx rest Hi H. unfold get_transaction in H.
    reader_step H. apply codec_put_get in E as (Hp & x & Hx & ->); [|done].
    apply Forall_app in Hi as [_ Hi]. reader_step H. injection H as <- <-.
    apply put_get_signatures in E as (Hs & y & Hy & ->); [|done].
    split; [done|]. unfold put_transaction. cbn [prefix signatures]. rewrite Hx. cbn.
    match type of Hs with wf_signatures _ ?l => destruct l as [|s sigs] end.
    + apply wf_signatures_nil in Hs as Hins. rewrite Hins in *. injection Hy as <-. eauto.
    + rewrite (Forall2_length _ _ _ Hs), Nat.eqb_refl, Hy. simpl.
      eexists; split; [done|]. by rewrite <- app_assoc.
Qed.

#[local] Hint Resolve raw_u32_ok serializeTransaction_ok : codec.

#[export] Instance serializeBlockHeader_ok : CodecOk serializeBlockHeader wf_header.
Proof. unfold serializeBlockHeader, pod32. codec_struct. Qed.

#[local] Hint Resolve serializeBlockHeader_ok : codec.

#[export] Instance serializeBlock_ok : CodecOk serializeBlock wf_block.
Proof. unfold serializeBlock, pod32. codec_struct. Qed.

#[export] Instance serializeAccountPublicAddress_ok :
  CodecOk serializeAccountPublicAddress wf_address.
Proof. unfold serializeAccountPublicAddress, pod32. codec_struct. Qed.

(** ** Blobs *)

(** C20: the transaction format.  A blob parses to [tx] exactly when [tx] is well
    formed and the blob is its serialization; every well-formed transaction has a
    serialization. *)
Theorem transaction_blob_iff ba tx : is_bytes ba ->
  (fromBinaryArray serializeTransaction ba = Some tx
   <-> wf_transaction tx /\ toBinaryArray serializeTransaction tx = Some ba)
  /\ (wf_transaction tx -> is_Some (toBinaryArray serializeTransaction tx)).
Proof. apply BinaryArray_iff; apply _. Qed.

(** The coinbase transaction of the genesis block, CryptoNoteConfig.h
    [GENESIS_COINBASE_TX_HEX]. *)
Definition genesis_coinbase_blob : bytes :=
  [0x01; 0x0a; 0x01; 0xff; 0x00; 0x01; 0xc0; 0x96; 0xb1; 0x02; 0x02;
   0x9b; 0x2e; 0x4c; 0x02; 0x81; 0xc0; 0xb0; 0x2e; 0x7c; 0x53; 0x29; 0x1a; 0x94; 0xd1; 0xd0; 0xcb;
   0xff; 0x88; 0x83; 0xf8; 0x02; 0x4f; 0x51; 0x42; 0xee; 0x49; 0x4f; 0xfb; 0xbd; 0x08; 0x80; 0x71;
   0x21; 0x01;
   0x7d; 0x67; 0x75; 0x18; 0x57; 0x49; 0xe9; 0x5a; 0xc2; 0xd7; 0x0c; 0xae; 0x3f; 0x29; 0xe0; 0xe4;
   0x6f; 0x43; 0x0a; 0xb6; 0x48; 0xab; 0xbe; 0x9f; 0xdc; 0x61; 0xd8; 0xe7; 0x43; 0x7c; 0x60; 0xf8].

Definition genesis_coinbase : Transaction :=
  MkTransaction
    (MkTransactionPrefix 1 10 [InBase (MkBaseInput 0)]
      [MkTransactionOutput 5000000 (OutKey (MkKeyOutput (take 32 (drop 11 genesis_coinbase_blob))))]
      (drop 44 genesis_coinbase_blob))
    [[]].

Lemma transaction_blob_iff_witness :
  wf_transaction genesis_coinbase
  /\ toBinaryArray serializeTransaction genesis_coinbase = Some genesis_coinbase_blob.
Proof.
  apply transaction_blob_iff; [|vm_compute; reflexivity].
  unfold genesis_coinbase_blob. repeat constructor; unfold is_u8; lia.
Defined.

(** C21: the block format: the same for blocks. *)
Theorem block_blob_iff ba b : is_bytes ba ->
  (fromBinaryArray serializeBlock ba = Some b
   <-> wf_block b /\ toBinaryArray serializeBlock b = Some ba)
  /\ (wf_block b -> is_Some (toBinaryArray serializeBlock b)).
Proof. apply BinaryArray_iff; apply _. Qed.

(** The genesis block: version 1.0, [GENESIS_TIMESTAMP], [GENESIS_NONCE]. *)
Definition genesis_block : Block :=
  MkBlock (MkBlockHeader 1 0 10000 1527078920 (replicate 32 0)) genesis_coinbase [].

Definition genesis_blob : bytes :=
  [1; 0; 0x88; 0xc0; 0x95; 0xd8; 0x05] ++ replicate 32 0 ++ [0x10; 0x27; 0; 0]
  ++ genesis_coinbase_blob ++ [0].

Lemma block_blob_iff_witness :
  wf_block genesis_block /\ toBinaryArray serializeBlock genesis_block = Some genesis_blob.
Proof.
  apply block_blob_iff; [|vm_compute; reflexivity].
  unfold genesis_blob, genesis_coinbase_blob. simpl. repeat constructor; unfold is_u8; lia.
Defined.

End CryptoNoteSerialization.
