(* ===== verification/Keccak.v ===== *)
(** src/crypto/keccak.c and src/crypto/hash.c: the Keccak permutation, the sponge
    and [cn_fast_hash].  The state is the array of 25 words the C code updates in
    place. *)

From S2P Require Import Prelude.
From S2P Require Import Varint.
From S2P Require Import Serialization.
Import Stream.

Module Keccak.

Definition keccakf_rndc : list Z :=
  [0x0000000000000001; 0x0000000000008082; 0x800000000000808a;
   0x8000000080008000; 0x000000000000808b; 0x0000000080000001;
   0x8000000080008081; 0x8000000000008009; 0x000000000000008a;
   0x0000000000000088; 0x0000000080008009; 0x000000008000000a;
   0x000000008000808b; 0x800000000000008b; 0x8000000000008089;
   0x8000000000008003; 0x8000000000008002; 0x8000000000000080;
   0x000000000000800a; 0x800000008000000a; 0x8000000080008081;
   0x8000000000008080; 0x0000000080000001; 0x8000000080008008].

Definition keccakf_rotc : list Z :=
  [1; 3; 6; 10; 15; 21; 28; 36; 45; 55; 2; 14;
   27; 41; 56; 8; 25; 43; 62; 18; 39; 61; 20; 44].

Definition keccakf_piln : list nat :=
  [10; 7; 11; 17; 18; 3; 5; 16; 8; 21; 24; 4;
   15; 23; 19; 13; 12; 2; 20; 14; 22; 9; 6; 1]%nat.

Definition ROTL64 (x y : Z) : Z := Z.lor (u64 (Z.shiftl x y)) (Z.shiftr x (64 - y)).

Definition xor_at (st : list Z) (k : nat) (t : Z) : list Z := <[k := Z.lxor (st !!! k) t]> st.

(** The steps of one round, each as the loops of [keccakf]. *)
Definition theta (st : list Z) : list Z :=
  let bc := (fun i => Z.lxor (Z.lxor (Z.lxor (Z.lxor (st !!! i) (st !!! (i + 5)%nat))
                 (st !!! (i + 10)%nat)) (st !!! (i + 15)%nat)) (st !!! (i + 20)%nat)) <$> [0; 1; 2; 3; 4]%nat in
  foldl (fun st i =>
    let t := Z.lxor (bc !!! ((i + 4) mod 5)%nat) (ROTL64 (bc !!! ((i + 1) mod 5)%nat) 1) in
    foldl (fun st j => xor_at st (j + i)%nat t) st [0; 5; 10; 15; 20]%nat) st [0; 1; 2; 3; 4]%nat.

Definition rho_pi (st : list Z) : list Z :=
  (foldl (fun '(st, t) '(j, r) =>
    let bc0 := st !!! j in
    (<[j := ROTL64 t r]> st, bc0)) (st, st !!! 1%nat) (zip keccakf_piln keccakf_rotc)).1.

Definition chi (st : list Z) : list Z :=
  foldl (fun st j =>
    let bc := (fun i => st !!! (j + i)%nat) <$> [0; 1; 2; 3; 4]%nat in
    foldl (fun st i =>
      xor_at st (j + i)%nat
        (Z.land (u64 (Z.lnot (bc !!! ((i + 1) mod 5)%nat))) (bc !!! ((i + 2) mod 5)%nat)))
      st [0; 1; 2; 3; 4]%nat) st [0; 5; 10; 15; 20]%nat.

Definition iota (rndc : Z) (st : list Z) : list Z := xor_at st 0 rndc.

Definition keccakf_round (st : list Z) (rndc : Z) : list Z := iota rndc (chi (rho_pi (theta st))).

(** The table has a constant for each of the 24 rounds that the callers ask for; the code
    would read behind it for more. *)
Definition keccakf (st : list Z) (rounds : nat) : list Z :=
  foldl keccakf_round st (take rounds keccakf_rndc).

Definition KECCAK_ROUNDS : nat := 24.

(** [st[i] ^= ((uint64_t * ) in)[i]] for the first [rsizw] words. *)
Definition absorb (rsizw : nat) (st : list Z) (block : bytes) : list Z :=
  foldl (fun st i => xor_at st i (le_value (take 8 (drop (8 * i) block)))) st (seq 0 rsizw).

(** The absorption loop; every round consumes [rsiz > 0] bytes, so [length in]
    rounds are enough. *)
Fixpoint absorb_blocks (fuel rsiz : nat) (st : list Z) (input : bytes) : list Z * bytes :=
  match fuel with
  | O => (st, input)
  | S fuel =>
      if (rsiz <=? length input)%nat
      then absorb_blocks fuel rsiz (keccakf (absorb (rsiz / 8) st input) KECCAK_ROUNDS) (drop rsiz input)
      else (st, input)
  end.

(** The last block: the remaining bytes, a one, zeros, and the top bit of the
    last byte. *)
Definition pad (rsiz : nat) (input : bytes) : bytes :=
  let temp := input ++ [1] ++ replicate (rsiz - (length input + 1)) 0 in
  <[(rsiz - 1)%nat := Z.lor (temp !!! (rsiz - 1)%nat) 0x80]> temp.

Definition keccak (input : bytes) (mdlen : nat) : bytes :=
  let rsiz := if (200 =? mdlen)%nat then 136%nat else (200 - 2 * mdlen)%nat in
  let '(st, input) := absorb_blocks (length input) rsiz (replicate 25 0) input in
  let st := keccakf (absorb (rsiz / 8) st (pad rsiz input)) KECCAK_ROUNDS in
  take mdlen (mjoin (le_bytes 8 <$> st)).

Definition keccak1600 (input : bytes) : bytes := keccak input 200.

Definition HASH_SIZE : nat := 32.

Definition cn_fast_hash (data : bytes) : bytes := take HASH_SIZE (keccak1600 data).

Example cn_fast_hash_empty :
  le_value (rev (cn_fast_hash [])) = 0xc5d2460186f7233c927e7db2dcc703c0e500b653ca82273b7bfad8045d85a470.
Proof. vm_compute. reflexivity. Qed.

(** ** The permutation against its definition on the 5x5 array

    The textbook round (FIPS 202, section 3.2): [A x y] is the lane at word
    [x + 5 * y], coordinates modulo 5; rotation is multiplication by a power of two
    in the cyclic group of 64-bit rotations. *)

Definition rotl64 (x r : Z) : Z := u64 (x * 2 ^ r) + x / 2 ^ (64 - r).

Definition lanes := nat -> nat -> Z.

Definition to_lanes (st : list Z) : lanes := fun x y => st !!! (x mod 5 + 5 * (y mod 5))%nat.

Definition of_lanes (A : lanes) : list Z :=
  (fun k => A (k mod 5)%nat (k / 5)%nat) <$> seq 0 25.

Definition theta_ref (A : lanes) : lanes := fun x y =>
  let C x := Z.lxor (Z.lxor (Z.lxor (Z.lxor (A x 0%nat) (A x 1%nat)) (A x 2%nat)) (A x 3%nat)) (A x 4%nat) in
  Z.lxor (A x y) (Z.lxor (C (x + 4)%nat) (rotl64 (C (x + 1)%nat) 1)).

(** Rotation offsets: start at (1,0), step [(x, y) -> (y, 2x + 3y)], offset
    [(t+1)(t+2)/2]. *)
Fixpoint rho_offset_from (n : nat) (t : Z) (x y x0 y0 : nat) : Z :=
  match n with
  | O => 0
  | S n => if ((x =? x0) && (y =? y0))%nat then ((t + 1) * (t + 2) / 2) mod 64
           else rho_offset_from n (t + 1) y ((2 * x + 3 * y) mod 5) x0 y0
  end.

Definition rho_offset (x y : nat) : Z := rho_offset_from 24 0 1 0 (x mod 5) (y mod 5).

(** The lane [(x, y)] moves to [(y, 2x + 3y)]; the lane that arrives at [(x, y)]
    comes from [(x + 3y, x)]. *)
Definition rho_pi_ref (A : lanes) : lanes := fun x y =>
  rotl64 (A (x + 3 * y)%nat x) (rho_offset (x + 3 * y) x).

Definition chi_ref (A : lanes) : lanes := fun x y =>
  Z.lxor (A x y) (Z.land (u64 (Z.lnot (A (x + 1)%nat y))) (A (x + 2)%nat y)).

Definition round_ref (st : list Z) (rndc : Z) : list Z :=
  let st := of_lanes (theta_ref (to_lanes st)) in
  let st := of_lanes (rho_pi_ref (to_lanes st)) in
  let st := of_lanes (chi_ref (to_lanes st)) in
  of_lanes (fun x y => if ((x =? 0) && (y =? 0))%nat
                       then Z.lxor (to_lanes st x y) rndc else to_lanes st x y).

Definition is_state (st : list Z) : Prop := length st = 25%nat /\ Forall is_u64 st.

Lemma lxor_u64 a b : is_u64 a -> is_u64 b -> is_u64 (Z.lxor a b).
Proof.
  intros Ha Hb. assert (Z.lxor a b = u64 (Z.lxor a b)) as ->; [|apply u64_range].
  unfold u64. rewrite <- Z.land_ones by lia. apply Z.bits_inj'. intros i Hi.
  rewrite <- (u64_id a Ha), <- (u64_id b Hb). unfold u64.
  rewrite <- !Z.land_ones, !Z.lxor_spec, !Z.land_spec, Z.lxor_spec, !Z.land_spec by lia.
  by destruct (Z.testbit a i), (Z.testbit b i), (Z.testbit (Z.ones 64) i).
Qed.

Lemma land_u64 a b : is_u64 b -> is_u64 (Z.land a b).
Proof.
  intros Hb. assert (Z.land a b = u64 (Z.land a b)) as ->; [|apply u64_range].
  unfold u64. rewrite <- (u64_id b Hb) at 1. unfold u64. rewrite <- !Z.land_ones by lia.
  by rewrite Z.land_assoc.
Qed.

Lemma ROTL64_rotl64 x r : is_u64 x -> 0 <= r < 64 -> ROTL64 x r = rotl64 x r.
Proof.
  intros Hx Hr. unfold ROTL64, rotl64.
  rewrite Z.shiftl_mul_pow2, Z.shiftr_div_pow2 by lia.
  assert (Hs : 2 ^ 64 = 2 ^ (64 - r) * 2 ^ r) by (rewrite <- Z.pow_add_r by lia; f_equal; lia).
  assert (0 < 2 ^ r) by (apply Z.pow_pos_nonneg; lia).
  assert (0 < 2 ^ (64 - r)) by (apply Z.pow_pos_nonneg; lia).
  assert (u64 (x * 2 ^ r) = Z.shiftl (x mod 2 ^ (64 - r)) r) as ->.
  { unfold u64. rewrite Hs, Z.mul_mod_distr_r by lia. by rewrite Z.shiftl_mul_pow2 by lia. }
  rewrite lor_shiftl_add_l; [by rewrite Z.shiftl_mul_pow2 by lia | lia |].
  split; [apply Z.div_pos; word | apply Z.div_lt_upper_bound; word].
Qed.

Lemma rotl64_u64 x r : is_u64 x -> 0 <= r < 64 -> is_u64 (rotl64 x r).
Proof.
  intros Hx Hr. unfold rotl64.
  assert (Hs : 2 ^ 64 = 2 ^ (64 - r) * 2 ^ r) by (rewrite <- Z.pow_add_r by lia; f_equal; lia).
  assert (0 < 2 ^ r) by (apply Z.pow_pos_nonneg; lia).
  assert (0 < 2 ^ (64 - r)) by (apply Z.pow_pos_nonneg; lia).
  assert (u64 (x * 2 ^ r) = x mod 2 ^ (64 - r) * 2 ^ r) as ->.
  { unfold u64. rewrite Hs, Z.mul_mod_distr_r by lia. done. }
  assert (0 <= x mod 2 ^ (64 - r) < 2 ^ (64 - r)) by (apply Z.mod_pos_bound; lia).
  assert (0 <= x / 2 ^ (64 - r) < 2 ^ r)
    by (split; [apply Z.div_pos; word | apply Z.div_lt_upper_bound; word]).
  unfold is_u64. rewrite Hs. nia.
Qed.

#[local] Hint Resolve lxor_u64 land_u64 rotl64_u64 : word.
#[local] Hint Extern 1 (0 <= _ < 64) => lia : word.

(** Name the 25 words of a state. *)
Ltac split_state st Hlen Hall :=
  do 25 (destruct st as [|? st]; [discriminate Hlen|];
         apply Forall_cons in Hall as [? Hall]; cbn in Hlen; injection Hlen as Hlen);
  destruct st; [clear Hlen Hall | discriminate Hlen].

Lemma theta_theta_ref st : is_state st -> theta st = of_lanes (theta_ref (to_lanes st)).
Proof.
  intros [Hlen Hall]. split_state st Hlen Hall.
  cbn. rewrite !ROTL64_rotl64 by auto 10 with word. reflexivity.
Qed.

Lemma rotl64_0 x : is_u64 x -> rotl64 x 0 = x.
Proof.
  intros Hx. unfold rotl64. rewrite Z.mul_1_r, u64_id, Z.div_small by done. lia.
Qed.

Lemma rho_pi_rho_pi_ref st : is_state st -> rho_pi st = of_lanes (rho_pi_ref (to_lanes st)).
Proof.
  intros [Hlen Hall]. split_state st Hlen Hall.
  cbn -[rho_offset rotl64 ROTL64 rho_pi_ref]. unfold rho_pi_ref, to_lanes.
  cbn -[rho_offset rotl64 ROTL64].
  repeat match goal with
  | |- context [rho_offset ?x ?y] =>
      let v := eval vm_compute in (rho_offset x y) in change (rho_offset x y) with v
  end.
  rewrite !ROTL64_rotl64 by auto 10 with word. rewrite rotl64_0 by done. reflexivity.
Qed.

Lemma chi_chi_ref st : is_state st -> chi st = of_lanes (chi_ref (to_lanes st)).
Proof. intros [Hlen Hall]. split_state st Hlen Hall. reflexivity. Qed.

Lemma of_lanes_state A :
  (forall x y, (x < 5)%nat -> (y < 5)%nat -> is_u64 (A x y)) -> is_state (of_lanes A).
Proof.
  intros H. split; [by unfold of_lanes; rewrite length_fmap, length_seq|]. unfold of_lanes. rewrite Forall_fmap, Forall_forall.
  intros k Hk%elem_of_seq. apply H; [apply Nat.mod_upper_bound; lia |].
  apply Nat.Div0.div_lt_upper_bound. lia.
Qed.

Lemma to_lanes_u64 st x y : is_state st -> is_u64 (to_lanes st x y).
Proof.
  intros [Hlen Hall]. unfold to_lanes. eapply Forall_forall; [exact Hall|].
  apply list_elem_of_lookup_total_2. rewrite Hlen.
  pose proof (Nat.mod_upper_bound x 5). pose proof (Nat.mod_upper_bound y 5). lia.
Qed.

Lemma rho_offset_from_range n t x y x0 y0 : 0 <= rho_offset_from n t x y x0 y0 < 64.
Proof.
  revert t x y. induction n as [|n IH]; intros; cbn [rho_offset_from]; [lia|].
  case_match; [apply Z.mod_pos_bound; lia | apply IH].
Qed.

Lemma rho_offset_range x y : 0 <= rho_offset x y < 64.
Proof. apply rho_offset_from_range. Qed.

#[local] Hint Resolve to_lanes_u64 rho_offset_range u64_range : word.

Lemma theta_state st : is_state st -> is_state (theta st).
Proof.
  intros H. rewrite theta_theta_ref by done. apply of_lanes_state. intros x y _ _.
  unfold theta_ref. auto 10 with word.
Qed.

Lemma rho_pi_state st : is_state st -> is_state (rho_pi st).
Proof.
  intros H. rewrite rho_pi_rho_pi_ref by done. apply of_lanes_state. intros x y _ _.
  unfold rho_pi_ref. auto with word.
Qed.

Lemma chi_state st : is_state st -> is_state (chi st).
Proof.
  intros H. rewrite chi_chi_ref by done. apply of_lanes_state. intros x y _ _.
  unfold chi_ref. auto with word.
Qed.

Lemma xor_at_state st k t : is_state st -> (k < 25)%nat -> is_u64 t -> is_state (xor_at st k t).
Proof.
  intros [Hlen Hall] Hk Ht. unfold xor_at. split; [by rewrite length_insert|].
  apply Forall_insert; [done|]. apply lxor_u64; [|done].
  eapply Forall_forall; [exact Hall|]. apply list_elem_of_lookup_total_2. lia.
Qed.

Lemma keccakf_round_state st c : is_state st -> is_u64 c -> is_state (keccakf_round st c).
Proof.
  intros. unfold keccakf_round, iota. apply xor_at_state; [|lia|done].
  by apply chi_state, rho_pi_state, theta_state.
Qed.

Lemma keccakf_round_ref st c : is_state st -> is_u64 c -> keccakf_round st c = round_ref st c.
Proof.
  intros Hst Hc. unfold keccakf_round, round_ref.
  rewrite <- theta_theta_ref by done. rewrite <- rho_pi_rho_pi_ref by by apply theta_state.
  rewrite <- chi_chi_ref by by apply rho_pi_state, theta_state.
  assert (is_state (chi (rho_pi (theta st)))) as [Hlen Hall]
    by by apply chi_state, rho_pi_state, theta_state.
  generalize dependent (chi (rho_pi (theta st))). clear -Hc. intros st Hlen Hall.
  split_state st Hlen Hall. reflexivity.
Qed.

Lemma keccakf_rndc_u64 : Forall is_u64 keccakf_rndc.
Proof. repeat (constructor; [unfold is_u64; lia|]). constructor. Qed.

Lemma keccakf_ref_rounds rs st : Forall is_u64 rs -> is_state st ->
  foldl keccakf_round st rs = foldl round_ref st rs /\ is_state (foldl keccakf_round st rs).
Proof.
  intros Hrs. revert st. induction Hrs as [|c rs Hc Hrs IH]; intros st Hst; simpl; [done|].
  rewrite <- keccakf_round_ref by done. by apply IH, keccakf_round_state.
Qed.

(** ** The digest is 32 bytes, whatever the input. *)

Lemma foldl_length {A B} (f : list A -> B -> list A) st l :
  (forall st b, length (f st b) = length st) -> length (foldl f st l) = length st.
Proof. intros H. revert st. induction l; intros; simpl; [done|]. by rewrite IHl, H. Qed.

Lemma xor_at_length st k t : length (xor_at st k t) = length st.
Proof. apply length_insert. Qed.

Lemma rho_pi_length st : length (rho_pi st) = length st.
Proof.
  unfold rho_pi. generalize (zip keccakf_piln keccakf_rotc). intros l.
  generalize (st !!! 1%nat). intros t.
  revert st t. induction l as [|[j r] l IH]; intros; simpl; [done|]. by rewrite IH, length_insert.
Qed.

Lemma keccakf_length st n : length (keccakf st n) = length st.
Proof.
  unfold keccakf. apply foldl_length. intros. unfold keccakf_round, iota, chi, theta.
  rewrite xor_at_length. rewrite foldl_length by (intros; apply foldl_length; intros; apply xor_at_length).
  rewrite rho_pi_length. apply foldl_length. intros; apply foldl_length; intros; apply xor_at_length.
Qed.

Lemma absorb_length n st block : length (absorb n st block) = length st.
Proof. apply foldl_length. intros. apply xor_at_length. Qed.

Lemma absorb_blocks_length fuel rsiz st input :
  length (absorb_blocks fuel rsiz st input).1 = length st.
Proof.
  revert st input. induction fuel; intros; simpl; [done|].
  case_match; [|done]. by rewrite IHfuel, keccakf_length, absorb_length.
Qed.

Lemma le_words_bytes st :
  length (mjoin (le_bytes 8 <$> st)) = (8 * length st)%nat /\ is_bytes (mjoin (le_bytes 8 <$> st)).
Proof.
  induction st as [|w st [IH1 IH2]]; [split; [done | constructor]|].
  change (mjoin (le_bytes 8 <$> w :: st)) with (le_bytes 8 w ++ mjoin (le_bytes 8 <$> st)). split.
  - rewrite length_app, length_le_bytes, IH1. simpl. lia.
  - apply Forall_app; split; [apply le_bytes_is_bytes | done].
Qed.

Lemma cn_fast_hash_pod data : length (cn_fast_hash data) = 32%nat /\ is_bytes (cn_fast_hash data).
Proof.
  unfold cn_fast_hash, keccak1600, keccak. change (200 =? 200)%nat with true. cbv iota.
  pose proof (absorb_blocks_length (length data) 136 (replicate 25 0) data) as H.
  destruct (absorb_blocks _ _ _ _) as [st rest]. cbn [fst] in H.
  set (st' := keccakf (absorb (136 / 8) st (pad 136 rest)) KECCAK_ROUNDS).
  assert (length st' = 25%nat) as Hst by (unfold st'; by rewrite keccakf_length, absorb_length, H).
  destruct (le_words_bytes st') as [Hl Hb]. rewrite Hst in Hl. unfold HASH_SIZE.
  rewrite take_take. split; [rewrite length_take, Hl; lia | by apply Forall_take].
Qed.

(** C23: the in-place round loops of [keccakf] compute the Keccak-f[1600] round
    function of its coordinate-wise definition (theta, rho, pi, chi, iota), for any
    number of rounds, and keep the state 25 words of 64 bits. *)
Theorem keccakf_correct st rounds : is_state st ->
  keccakf st rounds = foldl round_ref st (take rounds keccakf_rndc) /\ is_state (keccakf st rounds).
Proof.
  intros Hst. apply keccakf_ref_rounds; [|done]. apply Forall_take, keccakf_rndc_u64.
Qed.

Lemma keccakf_correct_witness :
  keccakf (replicate 25 0) 24 = foldl round_ref (replicate 25 0) keccakf_rndc
  /\ is_state (keccakf (replicate 25 0) 24).
Proof.
  apply (keccakf_correct (replicate 25 0) 24). split; [done|].
  apply Forall_replicate. unfold is_u64. lia.
Defined.

End Keccak.
