(* ===== verification/TreeHash.v ===== *)
(** src/crypto/tree-hash.c: the Merkle tree over the transaction hashes of a
    block, branches of the first leaf, and the root recomputed from a branch.
    Hash arrays are lists of byte strings; the in-place loops are folds of single
    array writes. *)

From S2P Require Import Prelude.
From S2P Require Import Varint.
From S2P Require Import Keccak.
Import Keccak.

Module TreeHash.

Definition hash2 (a b : bytes) : bytes := cn_fast_hash (a ++ b).

(** [for (i = 1; i < 64; i <<= 1) cnt |= cnt >> i; cnt &= ~(cnt >> 1);] *)
Definition smear (cnt : Z) : Z :=
  foldl (fun cnt i => Z.lor cnt (Z.shiftr cnt i)) cnt [1; 2; 4; 8; 16; 32].

Definition top_bit (cnt : Z) : Z :=
  let cnt := smear cnt in Z.land cnt (u64 (Z.lnot (Z.shiftr cnt 1))).

(** [ints[j] = H(src[i], src[i + 1])] for consecutive [j] from [j0], [i] from [i0]
    in steps of two. *)
Definition hash_into (src : list bytes) (i0 j0 n : nat) (ints : list bytes) : list bytes :=
  foldl (fun ints k => <[(j0 + k)%nat := hash2 (src !!! (i0 + 2 * k)%nat) (src !!! (i0 + 2 * k + 1)%nat)]> ints)
    ints (seq 0 n).

(** The same with source and destination the same array. *)
Definition hash_inplace (i0 n : nat) (ints : list bytes) : list bytes :=
  foldl (fun ints j => <[j := hash2 (ints !!! (i0 + 2 * j)%nat) (ints !!! (i0 + 2 * j + 1)%nat)]> ints)
    ints (seq 0 n).

(** [while (cnt > 2) { cnt >>= 1; ... }]; [cnt] halves, so [cnt] rounds of fuel
    are enough. *)
Fixpoint reduce (fuel cnt : nat) (ints : list bytes) : list bytes :=
  match fuel with
  | O => ints
  | S fuel => if (2 <? cnt)%nat
              then reduce fuel (cnt / 2) (hash_inplace 0 (cnt / 2) ints) else ints
  end.

Definition tree_hash (hashes : list bytes) : bytes :=
  let count := length hashes in
  if (count =? 1)%nat then hashes !!! 0%nat
  else if (count =? 2)%nat then hash2 (hashes !!! 0%nat) (hashes !!! 1%nat)
  else
    let cnt := Z.to_nat (top_bit (Z.of_nat (count - 1))) in
    let ints := take (2 * cnt - count) hashes ++ replicate (count - cnt) [] in
    let ints := hash_into hashes (2 * cnt - count) (2 * cnt - count) (count - cnt) ints in
    let ints := reduce cnt cnt ints in
    hash2 (ints !!! 0%nat) (ints !!! 1%nat).

(** The doubling search of [tree_branch] and the halving one of [tree_depth]. *)
Definition branch_step (count : Z) (s : Z * Z) (i : Z) : Z * Z :=
  let '(cnt, depth) := s in
  if Z.shiftl cnt i <=? count then (Z.shiftl cnt i, depth + i) else (cnt, depth).

Definition branch_size (count : Z) : Z * Z := foldl (branch_step count) (1, 0) [32; 16; 8; 4; 2; 1].

Definition depth_step (s : Z * Z) (i : Z) : Z * Z :=
  let '(count, depth) := s in
  if 0 <? Z.shiftr count i then (Z.shiftr count i, depth + i) else (count, depth).

Definition tree_depth (count : Z) : Z := (foldl depth_step (count, 0) [32; 16; 8; 4; 2; 1]).2.

(** [while (depth > 0) ...] of [tree_branch]: fills [branch] from its last entry
    to its first.  The result lists [branch[0], ..., branch[depth - 1]]. *)
Fixpoint branch_loop (depth cnt : nat) (ints : list bytes) (branch : list bytes) : list bytes :=
  match depth with
  | O => branch
  | S depth =>
      let cnt := (cnt / 2)%nat in
      branch_loop depth cnt (hash_inplace 1 (cnt - 1) ints) (ints !!! 0%nat :: branch)
  end.

Definition tree_branch (hashes : list bytes) : list bytes :=
  let count := length hashes in
  let '(cnt, depth) := branch_size (Z.of_nat count) in
  let cnt := Z.to_nat cnt in
  let ints := take (2 * cnt - count - 1) (drop 1 hashes) ++ replicate (count - cnt) [] in
  let ints := hash_into hashes (2 * cnt - count) (2 * cnt - count - 1) (count - cnt) ints in
  branch_loop (Z.to_nat depth) cnt ints [].

(** [path[depth >> 3] & (1 << (depth & 7))]; a null path is all zeros. *)
Definition path_bit (path : option bytes) (depth : nat) : bool :=
  match path with
  | None => false
  | Some p => negb (Z.land (p !!! (depth / 8)%nat) (Z.shiftl 1 (Z.of_nat (depth mod 8))) =? 0)
  end.

(** The loop keeps the two-slot [buffer]; [from_leaf] is whether it is still
    unset. *)
Fixpoint from_branch_loop (branch : list bytes) (depth : nat) (leaf : bytes) (path : option bytes)
    (buffer : option (bytes * bytes)) : option (bytes * bytes) :=
  match depth with
  | O => buffer
  | S depth =>
      let leaf_path := match buffer with
                       | None => leaf
                       | Some (b0, b1) => hash2 b0 b1
                       end in
      let branch_path := branch !!! depth in
      let buffer := if path_bit path depth then (branch_path, leaf_path) else (leaf_path, branch_path) in
      from_branch_loop branch depth leaf path (Some buffer)
  end.

Definition tree_hash_from_branch (branch : list bytes) (depth : nat) (leaf : bytes) (path : option bytes) : bytes :=
  match from_branch_loop branch depth leaf path None with
  | None => leaf
  | Some (b0, b1) => hash2 b0 b1
  end.

(** ** Reference: levels of a perfect tree *)

Fixpoint halve (l : list bytes) : list bytes :=
  match l with
  | a :: b :: l => hash2 a b :: halve l
  | _ => []
  end.

(** Root of a perfect tree of [2^d] leaves. *)
Fixpoint root (d : nat) (l : list bytes) : bytes :=
  match d with
  | O => l !!! 0%nat
  | S d => root d (halve l)
  end.

(** The leaves of the perfect tree: with [cnt = 2^d] the largest power of two not
    above [count], the last [2 * (count - cnt)] hashes are paired once. *)
Definition leaves (cnt : nat) (hashes : list bytes) : list bytes :=
  take (2 * cnt - length hashes) hashes ++ halve (drop (2 * cnt - length hashes) hashes).

Definition tree_hash_ref (hashes : list bytes) : bytes :=
  let d := Nat.log2 (length hashes) in root d (leaves (2 ^ d) hashes).

Opaque cn_fast_hash.
#[local] Arguments hash2 : simpl never.

(** ** The bit searches *)

(** [n] has no bit above [k] and the [j] bits from [k] downwards are set. *)
Definition ones_from (n k j : Z) : Prop :=
  (forall i, k < i -> Z.testbit n i = false)
  /\ (forall i, 0 <= i -> k - j < i <= k -> Z.testbit n i = true).

Lemma smear_step n k j : 1 <= j -> ones_from n k j -> ones_from (Z.lor n (Z.shiftr n j)) k (2 * j).
Proof.
  intros Hj [Hhi Hlo]. split.
  - intros i Hi. rewrite Z.lor_spec, Hhi by lia. simpl.
    destruct (decide (0 <= i)); [rewrite Z.shiftr_spec by lia; apply Hhi; lia|].
    apply Z.testbit_neg_r. lia.
  - intros i Hi0 Hi. rewrite Z.lor_spec, Z.shiftr_spec by lia. apply orb_true_iff.
    destruct (decide (k - j < i)); [left; apply Hlo; lia | right; apply Hlo; lia].
Qed.

Lemma smear_ones n : 1 <= n < 2 ^ 64 -> smear n = Z.ones (Z.log2 n + 1).
Proof.
  intros Hn. set (k := Z.log2 n).
  assert (0 <= k < 64) by (unfold k; split; [apply Z.log2_nonneg | apply Z.log2_lt_pow2; lia]).
  assert (ones_from n k 1) as H1.
  { split; intros i; [intros; apply Z.bits_above_log2; lia|].
    intros _ Hi. replace i with k by lia. by apply Z.bit_log2; lia. }
  unfold smear. cbn [foldl].
  apply (smear_step _ k 1), (smear_step _ k 2), (smear_step _ k 4), (smear_step _ k 8),
    (smear_step _ k 16), (smear_step _ k 32) in H1; try lia.
  simpl in H1. destruct H1 as [Hhi Hlo].
  apply Z.bits_inj'. intros i Hi. rewrite Z.testbit_ones by lia.
  destruct (decide (i <= k)).
  - rewrite Hlo by lia. symmetry. apply andb_true_iff. rewrite Z.leb_le, Z.ltb_lt. lia.
  - rewrite Hhi by lia. symmetry. apply andb_false_iff. rewrite Z.ltb_ge. lia.
Qed.

Lemma top_bit_pow2 n : 1 <= n < 2 ^ 64 -> top_bit n = 2 ^ Z.log2 n.
Proof.
  intros Hn. unfold top_bit. rewrite smear_ones by done.
  assert (0 <= Z.log2 n < 64) by (split; [apply Z.log2_nonneg | apply Z.log2_lt_pow2; lia]).
  apply Z.bits_inj'. intros i Hi. unfold u64.
  rewrite Z.pow2_bits_eqb, Z.land_spec, Z.testbit_ones by lia.
  destruct (decide (i < 64)).
  - rewrite Z.mod_pow2_bits_low, Z.lnot_spec, Z.shiftr_spec, Z.testbit_ones by lia.
    destruct (Z.leb_spec 0 i), (Z.ltb_spec i (Z.log2 n + 1)), (Z.leb_spec 0 (i + 1)),
      (Z.ltb_spec (i + 1) (Z.log2 n + 1)), (Z.eqb_spec (Z.log2 n) i); simpl; lia.
  - rewrite (proj2 (Z.ltb_ge i (Z.log2 n + 1))), andb_false_r by lia.
    destruct (Z.eqb_spec (Z.log2 n) i); [lia | done].
Qed.

(** One step of the doubling search narrows the exponent from [2 * i] to [i]
    candidates. *)
Definition branch_inv (count : Z) (s : Z * Z) (i : Z) : Prop :=
  0 <= s.2 /\ s.1 = 2 ^ s.2 /\ 2 ^ s.2 <= count < 2 ^ (s.2 + i).

Lemma branch_step_inv count s i : 0 < i -> branch_inv count s (2 * i) ->
  branch_inv count (branch_step count s i) i.
Proof.
  destruct s as [cnt depth]. intros Hi (Hd & Hcnt & Hc). simpl in *. subst cnt.
  rewrite Z.shiftl_mul_pow2, <- Z.pow_add_r by lia. unfold branch_inv. case_bool.
  - replace (depth + i + i) with (depth + 2 * i) by lia. split_and!; lia.
  - split_and!; lia.
Qed.

Lemma branch_size_log2 count : 1 <= count < 2 ^ 64 ->
  branch_size count = (2 ^ Z.log2 count, Z.log2 count).
Proof.
  intros Hc. assert (branch_inv count (1, 0) (2 * 32)) as H by (split_and!; simpl; lia).
  apply branch_step_inv, (branch_step_inv _ _ 16), (branch_step_inv _ _ 8),
    (branch_step_inv _ _ 4), (branch_step_inv _ _ 2), (branch_step_inv _ _ 1) in H; [|lia..].
  unfold branch_size. cbn [foldl]. destruct H as (Hd & Hcnt & Hr).
  assert (Z.log2 count = (branch_size count).2) as E by (apply Z.log2_unique; [done | exact Hr]).
  rewrite E. unfold branch_size in *. cbn [foldl] in *. rewrite <- Hcnt. apply surjective_pairing.
Qed.

(** The halving search keeps [count = count0 >> depth]. *)
Definition depth_inv (count0 : Z) (s : Z * Z) (i : Z) : Prop :=
  1 <= s.1 /\ 0 <= s.2 /\ s.1 = count0 / 2 ^ s.2 /\ s.1 < 2 ^ i.

Lemma depth_step_inv count0 s i : 0 < i -> depth_inv count0 s (2 * i) ->
  depth_inv count0 (depth_step s i) i.
Proof.
  destruct s as [c d]. intros Hi (Hc & Hd & Hcd & Hlt). simpl in *. unfold depth_inv.
  assert (0 < 2 ^ d) by (apply Z.pow_pos_nonneg; lia).
  assert (0 < 2 ^ i) by (apply Z.pow_pos_nonneg; lia).
  rewrite Z.shiftr_div_pow2 by lia. case_bool.
  - split_and!; [lia | lia | subst; by rewrite Z.div_div, <- Z.pow_add_r by lia |].
    apply Z.div_lt_upper_bound; [lia|].
    rewrite <- Z.pow_add_r by lia. by replace (i + i) with (2 * i) by lia.
  - split_and!; [lia | lia | done |].
    pose proof (Z.div_le_mono (2 ^ i) c (2 ^ i) ltac:(lia)). rewrite Z.div_same in * by lia. lia.
Qed.

Lemma tree_depth_log2 count : 1 <= count < 2 ^ 64 -> tree_depth count = Z.log2 count.
Proof.
  intros Hc. assert (depth_inv count (count, 0) (2 * 32)) as H
    by (unfold depth_inv; simpl; rewrite Z.div_1_r; lia).
  apply depth_step_inv, (depth_step_inv _ _ 16), (depth_step_inv _ _ 8),
    (depth_step_inv _ _ 4), (depth_step_inv _ _ 2), (depth_step_inv _ _ 1) in H; [|lia..].
  unfold tree_depth. cbn [foldl]. destruct H as (H1 & H2 & H3 & H4).
  symmetry. apply Z.log2_unique; [done|].
  assert (count / 2 ^ (tree_depth count) = 1) as E by (unfold tree_depth; cbn [foldl]; lia).
  unfold tree_depth in E. cbn [foldl] in E.
  match type of E with _ / 2 ^ ?d = _ => set (d' := d) in * end.
  assert (0 < 2 ^ d') by (apply Z.pow_pos_nonneg; lia).
  pose proof (Z.div_mod count (2 ^ d') ltac:(lia)). pose proof (Z.mod_pos_bound count (2 ^ d')).
  rewrite Z.pow_succ_r by lia. nia.
Qed.

(** ** The hash loops *)

Lemma length_hash_into src i0 j0 n ints : length (hash_into src i0 j0 n ints) = length ints.
Proof. apply foldl_length. intros. apply length_insert. Qed.

Lemma length_hash_inplace i0 n ints : length (hash_inplace i0 n ints) = length ints.
Proof. apply foldl_length. intros. apply length_insert. Qed.

Lemma hash_into_S src i0 j0 n ints :
  hash_into src i0 j0 (S n) ints =
    <[(j0 + n)%nat := hash2 (src !!! (i0 + 2 * n)%nat) (src !!! (i0 + 2 * n + 1)%nat)]>
      (hash_into src i0 j0 n ints).
Proof. unfold hash_into. by rewrite seq_S, foldl_app. Qed.

Lemma hash_inplace_S i0 n ints :
  hash_inplace i0 (S n) ints =
    let ints' := hash_inplace i0 n ints in
    <[n := hash2 (ints' !!! (i0 + 2 * n)%nat) (ints' !!! (i0 + 2 * n + 1)%nat)]> ints'.
Proof. unfold hash_inplace. by rewrite seq_S, foldl_app. Qed.

Lemma hash_into_lookup src i0 j0 n ints j :
  hash_into src i0 j0 n ints !! j =
    if decide ((j0 <= j < j0 + n)%nat /\ (j < length ints)%nat)
    then Some (hash2 (src !!! (i0 + 2 * (j - j0))%nat) (src !!! (i0 + 2 * (j - j0) + 1)%nat))
    else ints !! j.
Proof.
  induction n as [|n IH]; [rewrite decide_False by lia; done|].
  rewrite hash_into_S, list_lookup_insert, length_hash_into.
  destruct (decide (j0 + n = j /\ _)%nat) as [[<- Hlt]|Hne].
  - rewrite decide_True by lia. by replace (j0 + n - j0)%nat with n by lia.
  - rewrite IH. destruct (decide (j0 <= j < j0 + n /\ _)%nat).
    + by rewrite decide_True by lia.
    + rewrite decide_False by lia. done.
Qed.

Lemma hash_inplace_lookup i0 n ints j :
  hash_inplace i0 n ints !! j =
    if decide ((j < n)%nat /\ (j < length ints)%nat)
    then Some (hash2 (ints !!! (i0 + 2 * j)%nat) (ints !!! (i0 + 2 * j + 1)%nat))
    else ints !! j.
Proof.
  revert j. induction n as [|n IH]; intros j; [rewrite decide_False by lia; done|].
  rewrite hash_inplace_S. cbv zeta. rewrite list_lookup_insert, length_hash_inplace.
  assert (Hrd : forall k, (n <= k)%nat -> hash_inplace i0 n ints !!! k = ints !!! k).
  { intros k Hk. rewrite !list_lookup_total_alt, IH. by rewrite decide_False by lia. }
  rewrite !Hrd, IH by lia.
  destruct (decide (n = j /\ _)%nat) as [[<- Hlt]|Hne].
  - by rewrite decide_True by lia.
  - destruct (decide ((j < n)%nat /\ _)).
    + by rewrite decide_True by lia.
    + rewrite decide_False by lia. done.
Qed.

Lemma halve_lookup l j :
  halve l !! j = if decide (2 * j + 1 < length l)%nat
                 then Some (hash2 (l !!! (2 * j)%nat) (l !!! (2 * j + 1)%nat)) else None.
Proof.
  revert l. induction j as [|j IH]; intros [|a [|b l]]; try done.
  change (halve (a :: b :: l) !! S j) with (halve l !! j). rewrite IH.
  replace (2 * S j)%nat with (S (S (2 * j))) by lia.
  replace (S (S (2 * j)) + 1)%nat with (S (S (2 * j + 1))) by lia.
  destruct (decide (2 * j + 1 < length l)%nat).
  - by rewrite decide_True by (simpl; lia).
  - by rewrite decide_False by (simpl; lia).
Qed.

Lemma length_halve l : length (halve l) = (length l / 2)%nat.
Proof.
  apply Nat.le_antisymm.
  - destruct (decide (length l / 2 < length (halve l))%nat) as [H|]; [|lia].
    apply lookup_lt_is_Some in H as [x Hx]. rewrite halve_lookup in Hx.
    case_decide as Hl; [|done]. exfalso. pose proof (Nat.div_mod_eq (length l) 2).
    pose proof (Nat.mod_upper_bound (length l) 2). lia.
  - destruct (decide (length (halve l) < length l / 2)%nat) as [H|]; [|lia].
    assert (halve l !! length (halve l) = None) as Hn by (apply lookup_ge_None; lia).
    rewrite halve_lookup in Hn. case_decide as Hl; [done|]. exfalso.
    pose proof (Nat.div_mod_eq (length l) 2). lia.
Qed.

Lemma lookup_total_take {A} `{Inhabited A} (l : list A) n i :
  (i < n)%nat -> take n l !!! i = l !!! i.
Proof. intros. rewrite !list_lookup_total_alt. by rewrite lookup_take_lt. Qed.

Lemma lookup_total_drop {A} `{Inhabited A} (l : list A) n i : drop n l !!! i = l !!! (n + i)%nat.
Proof. rewrite !list_lookup_total_alt. by rewrite lookup_drop. Qed.

Lemma hash_inplace_halve i0 n ints : (i0 + 2 * n <= length ints)%nat ->
  take n (hash_inplace i0 n ints) = halve (take (2 * n) (drop i0 ints)).
Proof.
  intros Hn. apply list_eq. intros j. rewrite halve_lookup, length_take, length_drop.
  destruct (decide (j < n)%nat) as [Hj|Hj].
  - rewrite lookup_take_lt, hash_inplace_lookup, !decide_True by lia.
    rewrite !lookup_total_take, !lookup_total_drop by lia. by rewrite Nat.add_assoc.
  - rewrite decide_False by lia. apply lookup_take_ge. lia.
Qed.

(** The array both routines start from is the leaf level. *)
Lemma hash_into_leaves hashes cnt (m := (2 * cnt - length hashes)%nat) :
  (cnt <= length hashes <= 2 * cnt)%nat ->
  hash_into hashes m m (length hashes - cnt) (take m hashes ++ replicate (length hashes - cnt) [])
  = leaves cnt hashes.
Proof.
  intros Hc. unfold leaves. fold m. apply list_eq. intros j.
  rewrite hash_into_lookup, length_app, length_take, length_replicate.
  destruct (decide (j < m)%nat) as [Hj|Hj].
  - rewrite decide_False by lia. rewrite !lookup_app_l by (rewrite length_take; lia). done.
  - rewrite (lookup_app_r (take m hashes) (halve _)) by (rewrite length_take; lia).
    rewrite halve_lookup, length_take, length_drop, !lookup_total_drop.
    replace (m `min` length hashes)%nat with m by lia.
    destruct (decide (2 * (j - m) + 1 < length hashes - m)%nat).
    + rewrite decide_True by lia. by rewrite Nat.add_assoc.
    + rewrite decide_False by lia. apply lookup_ge_None.
      rewrite length_app, length_take, length_replicate. lia.
Qed.

Lemma length_leaves hashes cnt : (cnt <= length hashes <= 2 * cnt)%nat ->
  length (leaves cnt hashes) = cnt.
Proof.
  intros Hc. rewrite <- hash_into_leaves by done.
  rewrite length_hash_into, length_app, length_take, length_replicate. lia.
Qed.

Lemma reduce_root d fuel ints : (2 ^ S d <= length ints)%nat -> (d <= fuel)%nat ->
  let r := reduce fuel (2 ^ S d) ints in
  hash2 (r !!! 0%nat) (r !!! 1%nat) = root (S d) (take (2 ^ S d) ints).
Proof.
  revert fuel ints. induction d as [|d IH]; intros fuel ints Hl Hf.
  - destruct ints as [|a [|b ints]]; simpl in Hl; try lia. by destruct fuel.
  - destruct fuel as [|fuel]; [lia|]. cbn [reduce].
    assert (2 ^ S (S d) = 2 * 2 ^ S d)%nat as E by (simpl; lia).
    assert (2 < 2 ^ S (S d))%nat by (simpl; pose proof (Nat.pow_nonzero 2 d ltac:(lia)); lia).
    rewrite (proj2 (Nat.ltb_lt _ _)) by done.
    assert (2 ^ S (S d) / 2 = 2 ^ S d)%nat as ->
      by (rewrite E, Nat.mul_comm; apply Nat.div_mul; lia).
    cbv zeta. rewrite (IH fuel) by (rewrite ?length_hash_inplace; lia).
    rewrite hash_inplace_halve by lia. rewrite drop_0, <- E. done.
Qed.

Lemma tree_hash_leaves hashes e : (2 ^ S e <= length hashes <= 2 * 2 ^ S e)%nat ->
  let ints := leaves (2 ^ S e) hashes in
  let r := reduce (2 ^ S e) (2 ^ S e) ints in
  hash2 (r !!! 0%nat) (r !!! 1%nat) = root (S e) ints.
Proof.
  intros Hc. cbv zeta. pose proof (length_leaves hashes (2 ^ S e) Hc) as Hl.
  rewrite reduce_root; [| lia | pose proof (Nat.pow_gt_lin_r 2 (S e)); lia].
  by rewrite take_ge by lia.
Qed.

Definition fits (hashes : list bytes) : Prop := 1 <= Z.of_nat (length hashes) < 2 ^ 64.

Lemma log2_nat n : (1 <= n)%nat -> Z.log2 (Z.of_nat n) = Z.of_nat (Nat.log2 n).
Proof.
  intros Hn. apply Z.log2_unique; [lia|]. pose proof (Nat.log2_spec n ltac:(lia)) as H.
  rewrite <- Nat2Z.inj_succ. change 2 with (Z.of_nat 2). rewrite <- !Nat2Z.inj_pow. lia.
Qed.

Lemma pow2_nat d : Z.to_nat (2 ^ Z.of_nat d) = (2 ^ d)%nat.
Proof. change 2 with (Z.of_nat 2). rewrite <- Nat2Z.inj_pow. apply Nat2Z.id. Qed.

Lemma top_bit_nat n : (1 <= n)%nat -> Z.of_nat n < 2 ^ 64 ->
  Z.to_nat (top_bit (Z.of_nat n)) = (2 ^ Nat.log2 n)%nat.
Proof. intros. rewrite top_bit_pow2, log2_nat by lia. apply pow2_nat. Qed.

Lemma leaves_full hashes d : length hashes = (2 ^ d)%nat -> leaves (2 ^ d) hashes = hashes.
Proof.
  intros Hl. unfold leaves. rewrite Hl. replace (2 * 2 ^ d - 2 ^ d)%nat with (length hashes) by lia.
  by rewrite firstn_all, drop_all, app_nil_r.
Qed.

Lemma tree_hash_tree_hash_ref hashes : fits hashes -> tree_hash hashes = tree_hash_ref hashes.
Proof.
  intros Hf. unfold fits in Hf. unfold tree_hash, tree_hash_ref.
  set (count := length hashes) in *.
  pose proof (Nat.log2_spec count ltac:(lia)) as Hd. set (d := Nat.log2 count) in *.
  destruct (Nat.eqb_spec count 1) as [E|E].
  { assert (d = 0%nat) as -> by (unfold d; by rewrite E).
    subst count. destruct hashes as [|a [|]]; [discriminate | reflexivity | discriminate]. }
  destruct (Nat.eqb_spec count 2) as [E'|E'].
  { assert (d = 1%nat) as -> by (unfold d; by rewrite E').
    subst count. destruct hashes as [|a [|b [|]]]; try discriminate. reflexivity. }
  rewrite top_bit_nat by lia.
  pose proof (Nat.log2_spec (count - 1) ltac:(lia)) as He.
  destruct (Nat.log2 (count - 1)) as [|e] eqn:Ee; [simpl in He; lia|].
  rewrite (Nat.pow_succ_r' 2 (S e)) in He.
  unfold count. rewrite hash_into_leaves by (fold count; lia).
  rewrite tree_hash_leaves by (fold count; lia).
  destruct (decide (count = 2 * 2 ^ S e)%nat) as [Ep|Ep].
  - assert (d = S (S e)) as ->.
    { unfold d. rewrite Ep, <- Nat.pow_succ_r'. apply Nat.log2_pow2. lia. }
    rewrite (leaves_full hashes (S (S e))) by (fold count; rewrite Ep; simpl; lia).
    unfold leaves. fold count. replace (2 * 2 ^ S e - count)%nat with 0%nat by lia. done.
  - assert (d = S e) as ->; [|done].
    unfold d. apply Nat.log2_unique; [lia|]. rewrite (Nat.pow_succ_r' 2 (S e)). lia.
Qed.

(** ** Branches *)

(** The siblings of the first leaf, top of the tree first. *)
Fixpoint branch_ref (d : nat) (level : list bytes) : list bytes :=
  match d with
  | O => []
  | S d => branch_ref d (halve level) ++ [level !!! 1%nat]
  end.

Lemma length_branch_ref d level : length (branch_ref d level) = d.
Proof.
  revert level. induction d; intros; simpl; [done|]. rewrite length_app, IHd. simpl. lia.
Qed.

Lemma branch_loop_ref d ints level branch :
  length level = (2 ^ d)%nat -> take (2 ^ d - 1) ints = tail level -> (2 ^ d - 1 <= length ints)%nat ->
  branch_loop d (2 ^ d) ints branch = branch_ref d level ++ branch.
Proof.
  revert ints level branch. induction d as [|d IH]; intros ints level branch Hl Ht Hi; [done|].
  cbn [branch_loop branch_ref]. pose proof (Nat.pow_nonzero 2 d ltac:(lia)).
  rewrite Nat.pow_succ_r' in *.
  assert (2 * 2 ^ d / 2 = 2 ^ d)%nat as -> by (rewrite Nat.mul_comm; apply Nat.div_mul; lia).
  destruct level as [|a [|b level]]; [simpl in Hl; lia | simpl in Hl; lia |].
  destruct ints as [|b' ints]; [simpl in Hi; lia|].
  assert (b' = b /\ take (2 * 2 ^ d - 2) ints = level) as [-> Ht'].
  { replace (2 * 2 ^ d - 1)%nat with (S (2 * 2 ^ d - 2)) in Ht by lia. by injection Ht. }
  rewrite (IH _ (hash2 a b :: halve level)).
  - cbn [halve]. rewrite <- app_assoc. done.
  - cbn [length]. rewrite length_halve. simpl in Hl.
    replace (length level) with ((2 ^ d - 1) * 2)%nat by lia. rewrite Nat.div_mul; lia.
  - cbn [tail]. rewrite hash_inplace_halve by (cbn [length]; simpl in Hi; lia).
    cbn [drop]. rewrite <- Ht'. do 2 f_equal. lia.
  - rewrite length_hash_inplace. simpl in Hi. cbn [length]. lia.
Qed.

(** Climbing from the leaf. *)
Fixpoint climb (branch : list bytes) (d : nat) (cur : bytes) : bytes :=
  match d with
  | O => cur
  | S d => climb branch d (hash2 cur (branch !!! d))
  end.

Lemma from_branch_loop_climb branch d leaf buffer :
  match from_branch_loop branch d leaf None buffer with
  | None => leaf
  | Some (b0, b1) => hash2 b0 b1
  end = climb branch d (match buffer with None => leaf | Some (b0, b1) => hash2 b0 b1 end).
Proof.
  revert buffer. induction d as [|d IH]; intros buffer; [done|].
  cbn [from_branch_loop path_bit climb]. rewrite IH. done.
Qed.

Lemma climb_branch_ref d level acc : length level = (2 ^ d)%nat ->
  climb (branch_ref d level ++ acc) d (level !!! 0%nat) = root d level.
Proof.
  revert level acc. induction d as [|d IH]; intros level acc Hl; [done|].
  cbn [climb branch_ref root]. rewrite Nat.pow_succ_r' in Hl.
  pose proof (Nat.pow_nonzero 2 d ltac:(lia)).
  rewrite <- app_assoc. cbn [app].
  assert (forall x, (branch_ref d (halve level) ++ x :: acc) !!! d = x) as ->.
  { intros x. rewrite list_lookup_total_alt, lookup_app_r by (rewrite length_branch_ref; lia).
    by rewrite length_branch_ref, Nat.sub_diag. }
  assert (hash2 (level !!! 0%nat) (level !!! 1%nat) = halve level !!! 0%nat) as ->.
  { destruct level as [|a [|b level]]; [simpl in Hl; lia | simpl in Hl; lia | done]. }
  apply IH. rewrite length_halve, Hl, Nat.mul_comm. apply Nat.div_mul. lia.
Qed.

Lemma tail_leaves hashes cnt : (cnt <= length hashes < 2 * cnt)%nat ->
  let m := (2 * cnt - length hashes)%nat in
  hash_into hashes m (m - 1) (length hashes - cnt)
    (take (m - 1) (drop 1 hashes) ++ replicate (length hashes - cnt) [])
  = tail (leaves cnt hashes).
Proof.
  intros Hc m. rewrite <- hash_into_leaves by lia. fold m.
  assert (exists m', m = S m') as [m' Em] by (exists (m - 1)%nat; lia).
  destruct hashes as [|a hashes]; [simpl in Hc; lia|]. rewrite Em. cbn [take drop].
  replace (S m' - 1)%nat with m' by lia. set (n := (length (a :: hashes) - cnt)%nat).
  rewrite drop_0, <- app_comm_cons. generalize (take m' hashes ++ replicate n []). intros ints.
  generalize (a :: hashes). intros src. clear. apply list_eq. intros j.
  rewrite lookup_tail, !hash_into_lookup. cbn [length].
  destruct (decide (m' <= j < m' + n /\ j < length ints)%nat).
  - rewrite decide_True by lia. by replace (S j - S m')%nat with (j - m')%nat by lia.
  - rewrite decide_False by lia. done.
Qed.

Lemma tree_branch_ref hashes : fits hashes ->
  let d := Nat.log2 (length hashes) in
  tree_branch hashes = branch_ref d (leaves (2 ^ d) hashes).
Proof.
  intros Hf d. unfold fits in Hf. unfold tree_branch.
  rewrite branch_size_log2, log2_nat by lia. fold d. rewrite pow2_nat, Nat2Z.id.
  pose proof (Nat.log2_spec (length hashes) ltac:(lia)) as Hd. fold d in Hd.
  rewrite Nat.pow_succ_r' in Hd. rewrite tail_leaves by lia.
  pose proof (length_leaves hashes (2 ^ d) ltac:(lia)) as Hl.
  assert (length (tail (leaves (2 ^ d) hashes)) = (2 ^ d - 1)%nat) as Ht
    by (destruct (leaves _ _); simpl in *; lia).
  rewrite (branch_loop_ref d _ (leaves (2 ^ d) hashes)), app_nil_r; [done | done | | lia].
  by rewrite <- Ht, firstn_all.
Qed.

(** C22: Merkle trees.  [tree_hash] computes the root of the perfect tree over the
    leaf level, and the root recomputed from the branch that [tree_branch]
    extracts, with the first hash as leaf and no path, is that root. *)
Theorem merkle_branch_verifies hashes : fits hashes ->
  tree_hash hashes = tree_hash_ref hashes
  /\ length (tree_branch hashes) = Z.to_nat (tree_depth (Z.of_nat (length hashes)))
  /\ tree_hash_from_branch (tree_branch hashes) (length (tree_branch hashes)) (hashes !!! 0%nat) None
     = tree_hash hashes.
Proof.
  intros Hf. rewrite tree_hash_tree_hash_ref, tree_branch_ref, length_branch_ref by done.
  unfold fits in Hf. rewrite tree_depth_log2, log2_nat, Nat2Z.id by lia. split_and!; [done..|].
  unfold tree_hash_from_branch. rewrite from_branch_loop_climb.
  set (d := Nat.log2 (length hashes)) in *.
  pose proof (Nat.log2_spec (length hashes) ltac:(lia)) as Hd. fold d in Hd.
  rewrite Nat.pow_succ_r' in Hd.
  rewrite <- (app_nil_r (branch_ref _ _)).
  assert (hashes !!! 0%nat = leaves (2 ^ d) hashes !!! 0%nat) as ->.
  { unfold leaves. destruct hashes as [|a hashes]; [simpl in Hd; lia|].
    destruct (2 * 2 ^ d - length (a :: hashes))%nat eqn:E; [lia | done]. }
  apply climb_branch_ref, length_leaves. lia.
Qed.

Lemma merkle_branch_verifies_witness :
  let hs := (fun i => replicate 32 (Z.of_nat i)) <$> seq 0 5 in
  tree_hash_from_branch (tree_branch hs) (length (tree_branch hs)) (hs !!! 0%nat) None = tree_hash hs.
Proof. apply merkle_branch_verifies. unfold fits. simpl. lia. Defined.

End TreeHash.
