(* ===== verification/Base58.v ===== *)
(** src/Common/Base58.cpp: the block-wise Base58 of wallet addresses, and the
    address strings with tag and checksum built on it.  Characters and data
    bytes are [Z] in [0, 256); [false] results are [None]; a write outside the
    block reserved for it is [None] as well, and shown not to happen. *)

From S2P Require Import Prelude.
From S2P Require Import IntUtil.
From S2P Require Import Varint.
From S2P Require Import Serialization.
From S2P Require Import Keccak.
Import IntUtil Varint Stream Keccak.

Module Base58.

Definition codes (s : string) : bytes :=
  (fun a => Z.of_N (Ascii.N_of_ascii a)) <$> String.list_ascii_of_string s.

Definition alphabet : bytes := codes "123456789ABCDEFGHJKLMNPQRSTUVWXYZabcdefghijkmnopqrstuvwxyz".
Definition alphabet_size : Z := 58.
Definition encoded_block_sizes : list Z := [0; 2; 3; 5; 6; 7; 9; 10; 11].
Definition full_block_size : nat := 8.
Definition full_encoded_block_size : nat := 11.
Definition addr_checksum_size : nat := 4.

(** The constructor of [reverse_alphabet] fills the table, [operator()] reads it;
    [char] is signed. *)
Definition reverse_alphabet_data : list Z :=
  foldl (fun m_data i => <[Z.to_nat (alphabet !!! i - alphabet !!! 0%nat) := Z.of_nat i]> m_data)
    (replicate (Z.to_nat (alphabet !!! 57%nat - alphabet !!! 0%nat + 1)) (-1))
    (seq 0 58).

Definition reverse_alphabet (letter : Z) : Z :=
  let letter := if letter <? 128 then letter else letter - 256 in
  let idx := u64 (letter - alphabet !!! 0%nat) in
  if idx <? Z.of_nat (length reverse_alphabet_data)
  then reverse_alphabet_data !!! Z.to_nat idx else -1.

Definition decoded_block_sizes_data : list Z :=
  foldl (fun m_data i => <[Z.to_nat (encoded_block_sizes !!! i) := Z.of_nat i]> m_data)
    (replicate (Z.to_nat (encoded_block_sizes !!! full_block_size + 1)) (-1))
    (seq 0 9).

Definition decoded_block_sizes (encoded_block_size : nat) : Z :=
  decoded_block_sizes_data !!! encoded_block_size.

(** [data] has between one and eight bytes. *)
Definition uint_8be_to_64 (data : bytes) : Z :=
  foldl (fun res b => Z.lor (u64 (Z.shiftl res 8)) b) 0 data.

(** The low [size] bytes of the byte-swapped word, on a little-endian machine. *)
Definition uint_64_to_8be (num : Z) (size : nat) : bytes :=
  take size (drop (8 - size) (le_bytes 8 (SWAP64 num))).

(** [while (0 < num)]: 58^11 exceeds 2^64, so eleven rounds of fuel are enough. *)
Fixpoint encode_block_loop (fuel : nat) (num i : Z) (res : bytes) : option bytes :=
  match fuel with
  | O => if 0 <? num then None else Some res
  | S fuel =>
      if 0 <? num then
        let remainder := num mod alphabet_size in
        let num := num / alphabet_size in
        if i <? 0 then None
        else encode_block_loop fuel num (i - 1) (<[Z.to_nat i := alphabet !!! Z.to_nat remainder]> res)
      else Some res
  end.

(** [res] is the slice of the result the block is written to, initially filled
    with [alphabet[0]]. *)
Definition encode_block (block : bytes) : option bytes :=
  let num := uint_8be_to_64 block in
  let size := encoded_block_sizes !!! length block in
  encode_block_loop 11 num (size - 1) (replicate (Z.to_nat size) (alphabet !!! 0%nat)).

(** The digits of a block, last character first. *)
Fixpoint decode_block_loop (letters : bytes) (res_num order : Z) : option Z :=
  match letters with
  | [] => Some res_num
  | letter :: letters =>
      let digit := reverse_alphabet letter in
      if digit <? 0 then None
      else
        let '(product_hi, product_lo) := mul128 order digit in
        let tmp := u64 (res_num + product_lo) in
        if (tmp <? res_num) || negb (0 =? product_hi) then None
        else decode_block_loop letters tmp (u64 (order * alphabet_size))
  end.

Definition decode_block (block : bytes) : option bytes :=
  let res_size := decoded_block_sizes (length block) in
  if res_size <=? 0 then None
  else
    res_num ← decode_block_loop (rev block) 0 1;
    if (res_size <? Z.of_nat full_block_size) && (Z.shiftl 1 (8 * res_size) <=? res_num) then None
    else Some (uint_64_to_8be res_num (Z.to_nat res_size)).

(** The loop over the full blocks of both directions; the cursor advances by
    [step] characters per block. *)
Fixpoint blocks (f : bytes -> option bytes) (step count : nat) (data : bytes) : option bytes :=
  match count with
  | O => Some []
  | S count => b ← f (take step data); rest ← blocks f step count (drop step data); Some (b ++ rest)
  end.

Definition encode (data : bytes) : option bytes :=
  if (length data =? 0)%nat then Some []
  else
    let full_block_count := (length data / full_block_size)%nat in
    let last_block_size := (length data mod full_block_size)%nat in
    full ← blocks encode_block full_block_size full_block_count data;
    last ← if (0 <? last_block_size)%nat
           then encode_block (drop (full_block_count * full_block_size) data) else Some [];
    Some (full ++ last).

Definition decode (enc : bytes) : option bytes :=
  if (length enc =? 0)%nat then Some []
  else
    let full_block_count := (length enc / full_encoded_block_size)%nat in
    let last_block_size := (length enc mod full_encoded_block_size)%nat in
    let last_block_decoded_size := decoded_block_sizes last_block_size in
    if last_block_decoded_size <? 0 then None
    else
      full ← blocks decode_block full_encoded_block_size full_block_count enc;
      last ← if (0 <? last_block_size)%nat
             then decode_block (drop (full_block_count * full_encoded_block_size) enc) else Some [];
      Some (full ++ last).

Definition encode_addr (tag : Z) (data : bytes) : option bytes :=
  let buf := get_varint_data tag ++ data in
  let hash := cn_fast_hash buf in
  encode (buf ++ take addr_checksum_size hash).

Definition decode_addr (addr : bytes) : option (Z * bytes) :=
  addr_data ← decode addr;
  if (length addr_data <=? addr_checksum_size)%nat then None
  else
    let n := (length addr_data - addr_checksum_size)%nat in
    let checksum := drop n addr_data in
    let addr_data := take n addr_data in
    let hash := cn_fast_hash addr_data in
    let expected_checksum := take addr_checksum_size hash in
    if negb (bool_decide (expected_checksum = checksum)) then None
    else
      let '(read, tag, _) := read_varint 64 addr_data in
      if read <=? 0 then None
      else Some (tag, drop (Z.to_nat read) addr_data).

(** ** Positional notation *)

(** Little-endian digits in base [b]. *)
Fixpoint digits (b : Z) (n : nat) (v : Z) : list Z :=
  match n with
  | O => []
  | S n => v mod b :: digits b n (v / b)
  end.

Fixpoint value (b : Z) (ds : list Z) : Z :=
  match ds with
  | [] => 0
  | d :: ds => d + b * value b ds
  end.

Section base.
Context (b : Z) (Hb : 1 < b).

Definition is_digit (d : Z) : Prop := 0 <= d < b.

Lemma pow_S n : b ^ Z.of_nat (S n) = b * b ^ Z.of_nat n.
Proof. rewrite Nat2Z.inj_succ, Z.pow_succ_r by lia. done. Qed.

Lemma length_digits n v : length (digits b n v) = n.
Proof. revert v. induction n; intros; simpl; auto. Qed.

Lemma digits_range n v : Forall is_digit (digits b n v).
Proof.
  revert v. induction n; intros; simpl; constructor; auto. apply Z.mod_pos_bound. lia.
Qed.

Lemma value_digits n v : 0 <= v < b ^ Z.of_nat n -> value b (digits b n v) = v.
Proof.
  revert v. induction n as [|n IH]; intros v Hv; [simpl in *; lia|].
  rewrite pow_S in Hv. simpl. rewrite IH.
  - pose proof (Z.div_mod v b). lia.
  - split; [apply Z.div_pos; lia | apply Z.div_lt_upper_bound; lia].
Qed.

Lemma value_range ds : Forall is_digit ds -> 0 <= value b ds < b ^ Z.of_nat (length ds).
Proof.
  unfold is_digit. induction 1 as [|d ds Hd H IH]; simpl length; [simpl; lia|].
  rewrite pow_S. simpl. nia.
Qed.

Lemma digits_value ds : Forall is_digit ds -> digits b (length ds) (value b ds) = ds.
Proof.
  unfold is_digit. induction 1 as [|d ds Hd H IH]; [done|]. simpl.
  rewrite (Z.mul_comm b), Z_mod_plus_full, Z.mod_small by lia.
  rewrite Z.div_add, Z.div_small, Z.add_0_l by lia. by rewrite IH.
Qed.

Lemma digits_0 n : digits b n 0 = replicate n 0.
Proof.
  induction n; [done|]. simpl. rewrite Z.mod_0_l, Z.div_0_l by lia. by f_equal.
Qed.

Lemma take_digits n m v : (n <= m)%nat -> take n (digits b m v) = digits b n v.
Proof.
  revert m v. induction n as [|n IH]; intros [|m] v H; try done; [lia|].
  simpl. f_equal. apply IH. lia.
Qed.
End base.

(** ** Blocks as numbers *)

Lemma le_bytes_digits n v : le_bytes n v = digits 256 n v.
Proof. revert v. induction n; intros; simpl; [done|]. by f_equal. Qed.

Lemma uint_8be_to_64_value data : is_bytes data -> (length data <= 8)%nat ->
  uint_8be_to_64 data = value 256 (rev data).
Proof.
  unfold uint_8be_to_64. induction data as [|b data IH] using rev_ind; intros Hd Hl; [done|].
  apply Forall_app in Hd as [Hd Hb]. apply Forall_cons in Hb as [Hb _].
  rewrite length_app in Hl. simpl in Hl.
  rewrite foldl_snoc, rev_app_distr, IH by (done || lia). simpl.
  pose proof (value_range 256 ltac:(lia) (rev data) ltac:(by apply Forall_rev)) as Hv.
  rewrite length_rev in Hv.
  assert (256 ^ Z.of_nat (length data) <= 256 ^ 7) by (apply Z.pow_le_mono_r; lia).
  rewrite Z.shiftl_mul_pow2, u64_id by word.
  rewrite <- Z.shiftl_mul_pow2, lor_shiftl_add_l by word. lia.
Qed.

Lemma le_bytes_SWAP64 x : le_bytes 8 (SWAP64 x) = rev (le_bytes 8 x).
Proof.
  assert (rev (le_bytes 8 x) = [byte_at x 7; byte_at x 6; byte_at x 5; byte_at x 4;
    byte_at x 3; byte_at x 2; byte_at x 1; byte_at x 0]) as ->.
  { unfold byte_at. simpl. rewrite !Z.div_div, Z.div_1_r by lia. done. }
  rewrite SWAP64_bytes. symmetry.
  match goal with |- ?l = _ => rewrite <- (le_bytes_value l) at 1 end.
  - f_equal. simpl. lia.
  - repeat constructor; apply byte_at_range.
Qed.

Lemma uint_64_to_8be_digits num size : (size <= 8)%nat ->
  uint_64_to_8be num size = rev (digits 256 size num).
Proof.
  intros Hs. unfold uint_64_to_8be. rewrite le_bytes_SWAP64, le_bytes_digits.
  rewrite skipn_rev, length_digits. replace (8 - (8 - size))%nat with size by lia.
  rewrite take_digits by lia. apply take_ge. rewrite length_rev, length_digits. lia.
Qed.

(** ** The alphabet *)

Definition chars (ds : list Z) : bytes := (fun d => alphabet !!! Z.to_nat d) <$> ds.

Lemma alphabet_reverse d : 0 <= d < 58 ->
  reverse_alphabet (alphabet !!! Z.to_nat d) = d /\ is_u8 (alphabet !!! Z.to_nat d).
Proof.
  intros Hd.
  assert (forallb (fun d => (reverse_alphabet (alphabet !!! d) =? Z.of_nat d)
    && (0 <=? alphabet !!! d) && (alphabet !!! d <? 256)) (seq 0 58) = true) as H by (vm_compute; done).
  rewrite forallb_forall in H. specialize (H (Z.to_nat d) ltac:(apply in_seq; lia)).
  rewrite !andb_true_iff, Z.eqb_eq, Z.leb_le, Z.ltb_lt, Z2Nat.id in H by lia.
  unfold is_u8. lia.
Qed.

Lemma reverse_alphabet_inv c : is_u8 c -> 0 <= reverse_alphabet c ->
  reverse_alphabet c < 58 /\ c = alphabet !!! Z.to_nat (reverse_alphabet c).
Proof.
  intros Hc. assert ((reverse_alphabet c <? 0) || ((reverse_alphabet c <? 58)
    && (c =? alphabet !!! Z.to_nat (reverse_alphabet c)))%bool = true) as H.
  { apply (byte_forall (fun c => (reverse_alphabet c <? 0) || ((reverse_alphabet c <? 58)
      && (c =? alphabet !!! Z.to_nat (reverse_alphabet c))))%bool); [by vm_compute | done]. }
  intros Hr. rewrite orb_true_iff, andb_true_iff, Z.eqb_eq, !Z.ltb_lt in H. lia.
Qed.

Lemma chars_bytes ds : Forall (is_digit 58) ds -> is_bytes (chars ds).
Proof. unfold chars. induction 1; constructor; [by apply alphabet_reverse | done]. Qed.

(** ** One block *)

Definition enc (s : nat) : nat := Z.to_nat (encoded_block_sizes !!! s).

Lemma enc_sizes s : (1 <= s <= 8)%nat ->
  decoded_block_sizes (enc s) = Z.of_nat s /\ 256 ^ Z.of_nat s <= 58 ^ Z.of_nat (enc s)
  /\ (s < enc s <= 11)%nat /\ encoded_block_sizes !!! s = Z.of_nat (enc s)
  /\ (s < 8 -> enc s < 11)%nat.
Proof.
  intros Hs. destruct s as [|s]; [lia|].
  do 8 (destruct s as [|s]; [split_and!; [by vm_compute | by vm_compute | by vm_compute; lia .. |
    by vm_compute | by vm_compute; lia]|]).
  lia.
Qed.

Lemma decoded_sizes n : (n <= 11)%nat -> 0 < decoded_block_sizes n ->
  exists s, (1 <= s <= 8)%nat /\ n = enc s /\ decoded_block_sizes n = Z.of_nat s
    /\ (n < 11 -> s < 8)%nat.
Proof.
  intros Hn Hd. exists (Z.to_nat (decoded_block_sizes n)).
  do 12 (destruct n as [|n]; [first [by vm_compute in Hd |
    split_and!; [by vm_compute; lia .. | by vm_compute | by vm_compute | by vm_compute; lia]]|]).
  lia.
Qed.

#[local] Opaque alphabet.

Lemma insert_last {A} n (x y : A) l : <[n := y]> (replicate (S n) x ++ l) = replicate n x ++ y :: l.
Proof.
  rewrite replicate_S_end, <- app_assoc. simpl.
  rewrite insert_app_r_alt by (rewrite length_replicate; lia).
  by rewrite length_replicate, Nat.sub_diag.
Qed.

Lemma chars_0 n : chars (replicate n 0) = replicate n (alphabet !!! 0%nat).
Proof. unfold chars. by rewrite fmap_replicate. Qed.

Lemma encode_block_loop_digits fuel n num l :
  0 <= num < 58 ^ Z.of_nat fuel -> num < 58 ^ Z.of_nat n ->
  encode_block_loop fuel num (Z.of_nat n - 1) (replicate n (alphabet !!! 0%nat) ++ l)
  = Some (rev (chars (digits 58 n num)) ++ l).
Proof.
  assert (H0 : forall n l, Some (replicate n (alphabet !!! 0%nat) ++ l)
    = Some (rev (chars (digits 58 n 0)) ++ l)).
  { intros m l'. rewrite digits_0, chars_0, rev_alt by lia.
    by rewrite <- (reverse_replicate m (alphabet !!! 0%nat)) at 1. }
  revert n num l. induction fuel as [|fuel IH]; intros n num l Hf Hn.
  { replace num with 0 by (simpl in Hf; lia). apply H0. }
  cbn [encode_block_loop]. destruct (Z.ltb_spec 0 num); [|replace num with 0 by lia; apply H0].
  destruct n as [|n]; [simpl in Hn; lia|]. rewrite (proj2 (Z.ltb_ge (Z.of_nat (S n) - 1) 0)) by lia.
  replace (Z.to_nat (Z.of_nat (S n) - 1)) with n by lia. rewrite insert_last.
  replace (Z.of_nat (S n) - 1 - 1) with (Z.of_nat n - 1) by lia.
  rewrite pow_S in Hf, Hn by lia. unfold alphabet_size. rewrite IH.
  - cbn [digits]. unfold chars. rewrite fmap_cons. cbn [rev]. by rewrite <- app_assoc.
  - split; [apply Z.div_pos; lia | apply Z.div_lt_upper_bound; lia].
  - apply Z.div_lt_upper_bound; lia.
Qed.

Lemma encode_block_digits block : is_bytes block -> (1 <= length block <= 8)%nat ->
  encode_block block =
    Some (rev (chars (digits 58 (enc (length block)) (value 256 (rev block))))).
Proof.
  intros Hb Hl. unfold encode_block. rewrite uint_8be_to_64_value by (done || lia).
  destruct (enc_sizes (length block) Hl) as (_ & Hp & He & -> & _). rewrite Nat2Z.id.
  pose proof (value_range 256 ltac:(lia) (rev block) ltac:(by apply Forall_rev)) as Hv.
  rewrite length_rev in Hv.
  assert (256 ^ Z.of_nat (length block) <= 256 ^ 8) by (apply Z.pow_le_mono_r; lia).
  rewrite <- (app_nil_r (replicate _ _)), encode_block_loop_digits, app_nil_r; [done | | lia].
  simpl. lia.
Qed.

Lemma decode_block_loop_chars ds k res : Forall (is_digit 58) ds -> (k + length ds <= 11)%nat ->
  is_u64 res ->
  decode_block_loop (chars ds) res (u64 (58 ^ Z.of_nat k)) =
    let r := res + 58 ^ Z.of_nat k * value 58 ds in if r <? 2 ^ 64 then Some r else None.
Proof.
  intros Hds. revert k res. induction Hds as [|d ds Hd Hds IH]; intros k res Hk Hr.
  { simpl. rewrite (proj2 (Z.ltb_lt _ _)) by word. f_equal. lia. }
  simpl in Hk. cbn [chars fmap list_fmap decode_block_loop value].
  destruct (alphabet_reverse d Hd) as [-> _]. rewrite (proj2 (Z.ltb_ge d 0)) by (unfold is_digit in Hd; lia).
  assert (0 < 58 ^ Z.of_nat k) by (apply Z.pow_pos_nonneg; lia).
  assert (58 ^ Z.of_nat k <= 58 ^ 10) by (apply Z.pow_le_mono_r; lia).
  rewrite (u64_id (58 ^ Z.of_nat k)) by word.
  assert (is_u64 d) as Hdw by (unfold is_digit in Hd; word).
  rewrite mul128_spec by word.
  set (hi := 58 ^ Z.of_nat k * d / 2 ^ 64). set (lo := (58 ^ Z.of_nat k * d) mod 2 ^ 64).
  assert (hi * 2 ^ 64 + lo = 58 ^ Z.of_nat k * d /\ 0 <= hi /\ is_u64 lo) as (Hm & Hhi & Hlo).
  { unfold is_digit in Hd. pose proof (Z.div_mod (58 ^ Z.of_nat k * d) (2 ^ 64) ltac:(lia)).
    split_and!; [unfold hi, lo; lia | apply Z.div_pos; [nia | lia] | word]. }
  pose proof (value_range 58 ltac:(lia) ds Hds) as [Hv _].
  replace (u64 (58 ^ Z.of_nat k * alphabet_size)) with (u64 (58 ^ Z.of_nat (S k)))
    by (f_equal; rewrite pow_S by lia; unfold alphabet_size; lia).
  cbv zeta. rewrite Z.mul_add_distr_l.
  replace (58 ^ Z.of_nat k * (58 * value 58 ds)) with (58 ^ Z.of_nat (S k) * value 58 ds)
    by (rewrite pow_S by lia; lia).
  rewrite <- Hm.
  assert (0 <= 58 ^ Z.of_nat (S k) * value 58 ds) by (rewrite pow_S by lia; nia).
  set (rest := 58 ^ Z.of_nat (S k) * value 58 ds) in *.
  destruct (Z.eqb_spec 0 hi) as [<-|Hne]; simpl.
  - rewrite orb_false_r. destruct (decide (res + lo < 2 ^ 64)).
    + rewrite u64_id by word. rewrite (proj2 (Z.ltb_ge (res + lo) res)) by word.
      rewrite IH by (lia || word). fold rest. cbv zeta. by rewrite Z.add_assoc.
    + assert (u64 (res + lo) = res + lo - 2 ^ 64) as -> by word.
      rewrite (proj2 (Z.ltb_lt _ res)), (proj2 (Z.ltb_ge _ (2 ^ 64))) by word. done.
  - rewrite orb_true_r, (proj2 (Z.ltb_ge _ (2 ^ 64))) by word. done.
Qed.

Lemma decode_block_loop_0 ds : Forall (is_digit 58) ds -> (length ds <= 11)%nat ->
  decode_block_loop (chars ds) 0 1 = if value 58 ds <? 2 ^ 64 then Some (value 58 ds) else None.
Proof.
  intros Hds Hl. change 1 with (u64 (58 ^ Z.of_nat 0)) at 1.
  rewrite decode_block_loop_chars by (done || simpl; lia).
  change (58 ^ Z.of_nat 0) with 1. by rewrite Z.mul_1_l, Z.add_0_l.
Qed.

Lemma decode_block_loop_inv letters res order r : is_bytes letters ->
  decode_block_loop letters res order = Some r ->
  exists ds, letters = chars ds /\ Forall (is_digit 58) ds.
Proof.
  intros Hl. revert res order. induction Hl as [|c letters Hc Hl IH]; intros res order H.
  { by exists []. }
  cbn [decode_block_loop] in H. destruct (Z.ltb_spec (reverse_alphabet c) 0); [done|].
  destruct (mul128 _ _) as [hi lo]. destruct (_ || _); [done|].
  apply IH in H as (ds & -> & Hds).
  destruct (reverse_alphabet_inv c Hc) as [? Hch]; [lia|].
  exists (reverse_alphabet c :: ds). split; [unfold chars; rewrite fmap_cons; by rewrite <- Hch|].
  by constructor.
Qed.

(** What a block decodes to. *)
Lemma decode_block_iff block data : is_bytes block -> (length block <= 11)%nat ->
  decode_block block = Some data <->
  exists ds s, (1 <= s <= 8)%nat /\ length ds = enc s /\ Forall (is_digit 58) ds
    /\ block = rev (chars ds) /\ value 58 ds < 256 ^ Z.of_nat s
    /\ data = rev (digits 256 s (value 58 ds)).
Proof.
  intros Hb Hl. unfold decode_block. split.
  - destruct (Z.leb_spec (decoded_block_sizes (length block)) 0); [done|].
    destruct (decoded_sizes (length block) Hl) as (s & Hs & Hlen & -> & _); [done|].
    destruct (decode_block_loop (rev block) 0 1) as [r|] eqn:Er; [|done]. cbn [mbind option_bind].
    apply decode_block_loop_inv in Er as Hds; [|by apply Forall_rev]. destruct Hds as (ds & Hrev & Hds).
    assert (length ds = length block) as Hld
      by (rewrite <- (length_rev block), Hrev; unfold chars; by rewrite length_fmap).
    rewrite Hrev, decode_block_loop_0 in Er by (done || lia).
    destruct (Z.ltb_spec (value 58 ds) (2 ^ 64)); [|done]. injection Er as <-. intros Hd.
    exists ds, s. split_and!; try done; try lia.
    + by rewrite <- Hrev, rev_involutive.
    + destruct (decide (s = 8%nat)) as [->|]; [simpl; lia|].
      destruct (Z.ltb_spec (Z.of_nat s) (Z.of_nat full_block_size)); [|unfold full_block_size in *; lia].
      rewrite Z.shiftl_1_l in Hd.
      destruct (Z.leb_spec (2 ^ (8 * Z.of_nat s)) (value 58 ds)); [done|].
      rewrite Z.pow_mul_r in * by lia. done.
    + destruct (_ && _); [done|]. injection Hd as <-. rewrite Nat2Z.id.
      apply uint_64_to_8be_digits. lia.
  - intros (ds & s & Hs & Hlen & Hds & -> & Hv & ->).
    destruct (enc_sizes s Hs) as (Hdec & _ & He & _ & _).
    assert (length (rev (chars ds)) = enc s) as Hl'
      by (rewrite length_rev; unfold chars; by rewrite length_fmap).
    rewrite Hl', Hdec, (proj2 (Z.leb_gt _ 0)), rev_involutive by lia.
    pose proof (value_range 58 ltac:(lia) ds Hds) as [Hv0 _].
    assert (256 ^ Z.of_nat s <= 256 ^ 8) by (apply Z.pow_le_mono_r; lia).
    rewrite decode_block_loop_0 by (done || lia).
    rewrite (proj2 (Z.ltb_lt _ (2 ^ 64))) by lia. cbn [mbind option_bind].
    assert ((Z.shiftl 1 (8 * Z.of_nat s) <=? value 58 ds) = false) as ->.
    { rewrite Z.shiftl_1_l, Z.pow_mul_r by lia. apply Z.leb_gt. done. }
    rewrite andb_false_r, Nat2Z.id, uint_64_to_8be_digits by lia. done.
Qed.

Lemma length_chars ds : length (chars ds) = length ds.
Proof. unfold chars. apply length_fmap. Qed.

Lemma decode_encode_block block e : is_bytes block -> (1 <= length block <= 8)%nat ->
  encode_block block = Some e ->
  length e = enc (length block) /\ is_bytes e /\ decode_block e = Some block.
Proof.
  intros Hb Hl. rewrite encode_block_digits by done. intros [= <-].
  destruct (enc_sizes (length block) Hl) as (_ & Hp & He & _).
  pose proof (value_range 256 ltac:(lia) (rev block) ltac:(by apply Forall_rev)) as Hv.
  rewrite length_rev in Hv. set (v := value 256 (rev block)) in *.
  pose proof (digits_range 58 ltac:(lia) (enc (length block)) v) as Hr.
  assert (length (rev (chars (digits 58 (enc (length block)) v))) = enc (length block)) as Hle
    by (rewrite length_rev, length_chars; apply length_digits).
  split_and!; [done | by apply Forall_rev, chars_bytes |].
  apply decode_block_iff; [by apply Forall_rev, chars_bytes | lia |].
  exists (digits 58 (enc (length block)) v), (length block).
  rewrite value_digits by lia. split_and!; try done; try lia; [apply length_digits|].
  unfold v. rewrite <- length_rev, digits_value by (try lia; by apply Forall_rev).
  by rewrite rev_involutive.
Qed.

Lemma encode_decode_block e block : is_bytes e -> (length e <= 11)%nat -> decode_block e = Some block ->
  (1 <= length block <= 8)%nat /\ length e = enc (length block) /\ is_bytes block
  /\ encode_block block = Some e.
Proof.
  intros He Hl H. apply decode_block_iff in H as (ds & s & Hs & Hlen & Hds & -> & Hv & ->); [|done..].
  pose proof (value_range 58 ltac:(lia) ds Hds) as [Hv0 _].
  rewrite !length_rev, length_digits, length_chars.
  assert (is_bytes (rev (digits 256 s (value 58 ds))))
    by (apply Forall_rev, digits_range; lia).
  split_and!; [lia | lia | done | done |].
  rewrite encode_block_digits by (try done; by rewrite length_rev, length_digits).
  by rewrite rev_involutive, length_rev, length_digits, value_digits, <- Hlen, digits_value by (done || lia).
Qed.

Lemma full_block b e : length b = 8%nat -> is_bytes b -> encode_block b = Some e ->
  length e = 11%nat /\ is_bytes e /\ decode_block e = Some b.
Proof.
  intros Hl Hb H. apply decode_encode_block in H as (He & ? & ?); [| done | lia].
  rewrite He, Hl. done.
Qed.

Lemma full_block_inv e b : length e = 11%nat -> is_bytes e -> decode_block e = Some b ->
  length b = 8%nat /\ is_bytes b /\ encode_block b = Some e.
Proof.
  intros Hl He H. apply encode_decode_block in H as (Hs & Hb & ? & ?); [| done | lia].
  split_and!; try done. destruct (enc_sizes (length b) Hs) as (_ & _ & _ & _ & Hlt). lia.
Qed.

(** ** Strings of blocks *)

Lemma blocks_inv f g n1 n2 count data out :
  (forall b e, length b = n1 -> is_bytes b -> f b = Some e ->
     length e = n2 /\ is_bytes e /\ g e = Some b) ->
  is_bytes data -> (count * n1 <= length data)%nat ->
  blocks f n1 count data = Some out ->
  length out = (count * n2)%nat /\ is_bytes out
  /\ forall rest, blocks g n2 count (out ++ rest) = Some (take (count * n1) data).
Proof.
  intros Hfg. revert data out. induction count as [|count IH]; intros data out Hd Hl H; simpl in H.
  { injection H as <-. split_and!; [done | constructor | done]. }
  destruct (f (take n1 data)) as [b|] eqn:Eb; [|done]. simpl in H.
  destruct (blocks f n1 count (drop n1 data)) as [o|] eqn:Eo; [|done]. injection H as <-.
  apply Hfg in Eb as (Hlb & Hbb & Hg); [| rewrite length_take; simpl in Hl; lia | by apply Forall_take].
  apply IH in Eo as (Hlo & Hbo & Hgo); [| by apply Forall_drop | rewrite length_drop; simpl in Hl; lia].
  split_and!; [rewrite length_app; simpl; lia | by apply Forall_app|].
  intros rest. simpl. rewrite <- app_assoc, <- Hlb, take_app_length, drop_app_length, Hlb, Hg, Hgo.
  simpl. f_equal. by rewrite <- take_take_drop.
Qed.

Lemma blocks_total count data : is_bytes data -> (count * 8 <= length data)%nat ->
  is_Some (blocks encode_block 8 count data).
Proof.
  revert data. induction count as [|count IH]; intros data Hd Hl; [done|]. simpl in *.
  rewrite encode_block_digits by (try (by apply Forall_take); rewrite length_take; lia). simpl.
  destruct (IH (drop 8 data)) as [o ->]; [by apply Forall_drop | rewrite length_drop; lia|]. simpl. eauto.
Qed.

Lemma div_mod_nat n k : (0 < k)%nat -> n = (n / k * k + n mod k)%nat /\ (n mod k < k)%nat.
Proof. intros. pose proof (Nat.div_mod_eq n k). pose proof (Nat.mod_upper_bound n k). lia. Qed.

Lemma div_mod_nat_eq q r k : (r < k)%nat -> ((q * k + r) / k = q /\ (q * k + r) mod k = r)%nat.
Proof.
  intros. split; [rewrite Nat.div_add_l, Nat.div_small; lia|].
  rewrite Nat.add_comm, Nat.Div0.mod_add, Nat.mod_small; lia.
Qed.

Lemma decode_encode data e : is_bytes data -> encode data = Some e ->
  is_bytes e /\ decode e = Some data.
Proof.
  intros Hd. unfold encode. destruct (Nat.eqb_spec (length data) 0) as [H0|H0].
  { intros [= <-]. destruct data; [|done]. split; [constructor | done]. }
  destruct (div_mod_nat (length data) full_block_size) as [Hq Hr]; [unfold full_block_size; lia|].
  set (q := (length data / full_block_size)%nat) in *. set (r := (length data mod full_block_size)%nat) in *.
  destruct (blocks _ _ _ _) as [full|] eqn:Ef; [|done]. cbn [mbind option_bind].
  apply (blocks_inv encode_block decode_block 8 11) in Ef as (Hlf & Hbf & Hgf);
    [| exact full_block | done | unfold full_block_size in *; lia].
  unfold decode. destruct (Nat.ltb_spec 0 r) as [Hr0|Hr0].
  - assert (length (drop (q * 8) data) = r) as Hld by (rewrite length_drop; unfold full_block_size in *; lia).
    destruct (encode_block _) as [last|] eqn:El; [|done]. intros [= <-].
    apply decode_encode_block in El as (Hll & Hbl & Hgl);
      [| by apply Forall_drop | unfold full_block_size in *; lia].
    unfold full_block_size in *. rewrite Hld in Hll.
    destruct (enc_sizes r ltac:(lia)) as (Hdec & _ & Her & _ & Hlt). specialize (Hlt ltac:(lia)).
    rewrite length_app, Hlf, Hll. unfold full_encoded_block_size.
    destruct (div_mod_nat_eq q (enc r) 11 Hlt) as [-> ->].
    destruct (Nat.eqb_spec (q * 11 + enc r) 0); [lia|].
    rewrite Hdec, (proj2 (Z.ltb_ge _ 0)), (proj2 (Nat.ltb_lt 0 _)), Hgf by lia. cbn [mbind option_bind].
    rewrite <- Hlf, drop_app_length, Hgl. cbn [mbind option_bind].
    split; [by apply Forall_app|]. by rewrite take_drop.
  - intros [= <-]. rewrite app_nil_r, Hlf. unfold full_encoded_block_size, full_block_size in *.
    destruct (div_mod_nat_eq q 0 11 ltac:(lia)) as [Hdq Hdr]. rewrite Nat.add_0_r in Hdq, Hdr.
    rewrite Hdq, Hdr. destruct (Nat.eqb_spec (q * 11) 0); [lia|].
    specialize (Hgf []). rewrite app_nil_r in Hgf. rewrite Hgf.
    change (decoded_block_sizes 0 <? 0) with false. cbn [mbind option_bind Nat.ltb Nat.leb].
    split; [done|]. rewrite app_nil_r. f_equal. apply take_ge. lia.
Qed.

Lemma encode_decode e data : is_bytes e -> decode e = Some data ->
  is_bytes data /\ encode data = Some e.
Proof.
  intros Hd. unfold decode. destruct (Nat.eqb_spec (length e) 0) as [H0|H0].
  { intros [= <-]. destruct e; [|done]. split; [constructor | done]. }
  destruct (div_mod_nat (length e) full_encoded_block_size) as [Hq Hr];
    [unfold full_encoded_block_size; lia|].
  set (q := (length e / full_encoded_block_size)%nat) in *.
  set (r := (length e mod full_encoded_block_size)%nat) in *.
  destruct (decoded_block_sizes r <? 0); [done|].
  destruct (blocks _ _ _ _) as [full|] eqn:Ef; [|done]. cbn [mbind option_bind].
  unfold full_encoded_block_size in *.
  apply (blocks_inv decode_block encode_block 11 8) in Ef as (Hlf & Hbf & Hgf);
    [| exact full_block_inv | done | lia].
  unfold encode, full_block_size. destruct (Nat.ltb_spec 0 r) as [Hr0|Hr0].
  - assert (length (drop (q * 11) e) = r) as Hld by (rewrite length_drop; lia).
    destruct (decode_block _) as [last|] eqn:El; [|done]. intros [= <-].
    apply encode_decode_block in El as (Hll & Hle & Hbl & Hgl); [| by apply Forall_drop | lia].
    rewrite Hld in Hle. assert (length last < 8)%nat.
    { destruct (decide (length last = 8%nat)) as [E|]; [|lia].
      rewrite E in Hle. change (enc 8) with 11%nat in Hle. lia. }
    rewrite length_app, Hlf. destruct (div_mod_nat_eq q (length last) 8) as [-> ->]; [done|].
    destruct (Nat.eqb_spec (q * 8 + length last) 0); [lia|].
    rewrite (proj2 (Nat.ltb_lt 0 _)), Hgf by lia. cbn [mbind option_bind].
    rewrite <- Hlf, drop_app_length, Hgl. cbn [mbind option_bind].
    split; [by apply Forall_app|]. by rewrite take_drop.
  - intros [= <-]. rewrite app_nil_r, Hlf.
    destruct (div_mod_nat_eq q 0 8 ltac:(lia)) as [Hdq Hdr]. rewrite Nat.add_0_r in Hdq, Hdr.
    rewrite Hdq, Hdr. destruct (Nat.eqb_spec (q * 8) 0); [lia|].
    specialize (Hgf []). rewrite app_nil_r in Hgf. rewrite Hgf.
    split; [done|]. cbn [mbind option_bind Nat.ltb Nat.leb]. rewrite app_nil_r. f_equal. apply take_ge. lia.
Qed.

Lemma encode_total data : is_bytes data -> is_Some (encode data).
Proof.
  intros Hd. unfold encode. destruct (Nat.eqb_spec (length data) 0); [done|].
  destruct (div_mod_nat (length data) 8) as [Hq Hr]; [lia|]. unfold full_block_size.
  destruct (blocks_total (length data / 8) data) as [o ->]; [done | lia|]. cbn [mbind option_bind].
  case_match eqn:E; cbn [mbind option_bind]; [|eauto].
  apply Nat.ltb_lt in E. rewrite encode_block_digits; [eauto | by apply Forall_drop |].
  rewrite length_drop. lia.
Qed.

(** C39: Base58 is a bijection between byte strings and the strings it decodes:
    [encode] never fails (no character is written outside its block), decoding
    undoes it, and every string that decodes is the encoding of the result. *)
Theorem base58_bijection data enc : is_bytes data -> is_bytes enc ->
  (encode data = Some enc <-> decode enc = Some data) /\ is_Some (encode data).
Proof.
  intros Hd He. split; [split|].
  - by apply decode_encode.
  - by apply encode_decode.
  - by apply encode_total.
Qed.

Lemma base58_bijection_witness :
  encode [0; 255; 7] = Some (codes "11LQe") <-> decode (codes "11LQe") = Some [0; 255; 7].
Proof. apply base58_bijection; bytes_compute. Defined.

(** ** Addresses *)

Lemma decode_encode_addr tag data : is_u64 tag -> is_bytes data ->
  exists addr, encode_addr tag data = Some addr /\ is_bytes addr /\ decode_addr addr = Some (tag, data).
Proof.
  intros Ht Hd. unfold encode_addr, get_varint_data.
  pose proof (write_varint_length tag Ht) as Hl.
  set (buf := write_varint tag ++ data).
  assert (is_bytes buf) as Hbuf.
  { apply Forall_app. split; [|done]. rewrite write_varint_writeVarint by done.
    by apply writeVarint_bytes. }
  destruct (cn_fast_hash_pod buf) as [Hh Hhb].
  assert (is_bytes (buf ++ take addr_checksum_size (cn_fast_hash buf))) as Hb
    by (apply Forall_app; split; [done | by apply Forall_take]).
  destruct (encode_total _ Hb) as [addr Ha]. apply decode_encode in Ha as Hdec; [|done].
  destruct Hdec as [Hab Hdec]. exists addr. split_and!; [done | done |].
  unfold decode_addr. rewrite Hdec. cbn [mbind option_bind].
  assert (length (take addr_checksum_size (cn_fast_hash buf)) = addr_checksum_size) as Hc
    by (rewrite length_take, Hh; done).
  rewrite length_app, Hc, Nat.add_sub.
  assert (1 <= length buf)%nat by (unfold buf; rewrite length_app; lia).
  rewrite (proj2 (Nat.leb_gt _ _)) by lia.
  rewrite take_app_length, drop_app_length, bool_decide_eq_true_2 by done. simpl.
  unfold buf. rewrite read_write_varint by (unfold is_u64 in *; lia).
  rewrite (proj2 (Z.leb_gt _ 0)) by lia. by rewrite Nat2Z.id, drop_app_length.
Qed.

End Base58.
