(* ===== verification/CryptoNoteFormatUtils.v ===== *)
(** src/CryptoNoteCore/CryptoNoteFormatUtils.{h,cpp}, CryptoNoteTools.cpp and the
    amount table of Currency.cpp: amounts and their decomposition into digits,
    the overflow checks of the transaction semantics, ring offsets, block hashing
    blobs.  Sums wrap at 64 bits, offsets at 32. *)

From S2P Require Import Prelude.
From S2P Require Import IntUtil.
From S2P Require Import Varint.
From S2P Require Import Serialization.
From S2P Require Import CryptoNote.
From S2P Require Import CryptoNoteSerialization.
From S2P Require Import Keccak.
From S2P Require Import TreeHash.
Import IntUtil Varint BinarySerializer CryptoNoteSerialization Keccak TreeHash.

Module FormatUtils.

(** ** Amounts *)

Definition PRETTY_AMOUNTS : list Z :=
  flat_map (fun k => (fun d => d * 10 ^ Z.of_nat k) <$> [1; 2; 3; 4; 5; 6; 7; 8; 9]) (List.seq 0 19)
  ++ [10000000000000000000].

Definition get_inputs_money_amount (tx : Transaction) : Z :=
  foldl (fun money i =>
    let amount := match i with
                  | InBase _ => 0
                  | InKey k => ki_amount k
                  | InMultisignature m => mi_amount m
                  end in
    u64 (money + amount)) 0 (inputs (prefix tx)).

Definition get_outs_money_amount (tx : Transaction) : Z :=
  foldl (fun outputs_amount o => u64 (outputs_amount + out_amount o)) 0 (outputs (prefix tx)).

(** CryptoNoteTools.cpp *)
Definition getInputAmount (tx : Transaction) : Z :=
  foldl (fun amount i => match i with
                         | InKey k => u64 (amount + ki_amount k)
                         | InMultisignature m => u64 (amount + mi_amount m)
                         | InBase _ => amount
                         end) 0 (inputs (prefix tx)).

Definition getInputsAmounts (tx : Transaction) : list Z :=
  foldl (fun amounts i => match i with
                          | InKey k => amounts ++ [ki_amount k]
                          | InMultisignature m => amounts ++ [mi_amount m]
                          | InBase _ => amounts
                          end) [] (inputs (prefix tx)).

Definition getOutputAmount (tx : Transaction) : Z :=
  foldl (fun amount o => u64 (amount + out_amount o)) 0 (outputs (prefix tx)).

(** ** Decomposition into digits *)

Section decompose.
Context {S : Type} (chunk_handler dust_handler : Z -> S -> S).

(** [while (0 != amount)]: a 64-bit amount has at most twenty digits. *)
Fixpoint decompose_loop (fuel : nat) (amount dust_threshold order dust : Z) (is_dust_handled : bool)
    (s : S) : bool * Z * S :=
  match fuel with
  | O => (is_dust_handled, dust, s)
  | Datatypes.S fuel =>
      if amount =? 0 then (is_dust_handled, dust, s)
      else
        let chunk := u64 (amount mod 10 * order) in
        let amount := amount / 10 in
        let order := u64 (order * 10) in
        if u64 (dust + chunk) <=? dust_threshold
        then decompose_loop fuel amount dust_threshold order (u64 (dust + chunk)) is_dust_handled s
        else
          let '(is_dust_handled, s) :=
            if negb is_dust_handled && negb (0 =? dust)
            then (true, dust_handler dust s) else (is_dust_handled, s) in
          let s := if 0 =? chunk then s else chunk_handler chunk s in
          decompose_loop fuel amount dust_threshold order dust is_dust_handled s
  end.

Definition decompose_amount_into_digits (amount dust_threshold : Z) (s : S) : S :=
  if amount =? 0 then s
  else
    let '(is_dust_handled, dust, s) := decompose_loop 20 amount dust_threshold 1 0 false s in
    if negb is_dust_handled && negb (0 =? dust) then dust_handler dust s else s.
End decompose.

Definition push_back (x : Z) (l : list Z) : list Z := l ++ [x].

Definition decomposeAmount (amount dustThreshold : Z) (decomposedAmounts : list Z) : list Z :=
  decompose_amount_into_digits push_back push_back amount dustThreshold decomposedAmounts.

(** [std::lower_bound] on a sorted vector: the index of the first element not
    below the bound. *)
Definition lower_bound (l : list Z) (x : Z) : nat := partition_point (fun a => a <? x) l.

Definition is_valid_decomposed_amount (amount : Z) : bool :=
  match PRETTY_AMOUNTS !! lower_bound PRETTY_AMOUNTS amount with
  | None => false
  | Some a => negb (negb (amount =? a))
  end.

Fixpoint power_loop (n : nat) (a total : Z) : Z :=
  match n with
  | O => total
  | Datatypes.S n => power_loop n a (u64 (total * a))
  end.

Definition power_integral (a b : Z) : Z :=
  if b =? 0 then 1 else power_loop (Z.to_nat (b - 1)) a a.

(** ** Transaction checks *)

Definition check_inputs_types_supported (tx : TransactionPrefix) : bool :=
  forallb (fun i => match i with
                    | InMultisignature _ => negb (version tx <? TRANSACTION_VERSION_2)
                    | InKey _ => true
                    | InBase _ => false
                    end) (inputs tx).

(** The set of pairs already used; [insert(...).second] is false on a repeat. *)
Fixpoint multisignature_loop (inputsUsage : gset (Z * Z)) (ins : list TransactionInput) : bool :=
  match ins with
  | [] => true
  | InMultisignature i :: ins =>
      if decide ((mi_amount i, outputIndex i) ∈ inputsUsage) then false
      else multisignature_loop ({[(mi_amount i, outputIndex i)]} ∪ inputsUsage) ins
  | _ :: ins => multisignature_loop inputsUsage ins
  end.

Definition checkMultisignatureInputsDiff (tx : TransactionPrefix) : bool :=
  multisignature_loop ∅ (inputs tx).

Definition DEPOSIT_MAX_TOTAL_RATE : Z := 4.

(** The amount an input may contribute: the amount itself, and for a deposit also
    the largest legacy interest on it; [None] is an early [return false]. *)
Definition input_with_interest (i : TransactionInput) : option Z :=
  match i with
  | InBase _ => Some 0
  | InKey k => Some (ki_amount k)
  | InMultisignature m =>
      let amount := mi_amount m in
      if negb (mi_term m =? 0) then
        let '(hi, lo) := mul128 amount DEPOSIT_MAX_TOTAL_RATE in
        let '(maxInterestHi, maxInterestLo, _) := div128_32 hi lo 100 in
        if 0 <? maxInterestHi then None
        else if UINT64_MAX - maxInterestLo <? amount then None
        else Some (amount + maxInterestLo)
      else Some amount
  end.

Fixpoint inputs_overflow_loop (ins : list TransactionInput) (money : Z) : bool :=
  match ins with
  | [] => true
  | i :: ins =>
      match input_with_interest i with
      | None => false
      | Some amount => if u64 (amount + money) <? money then false
                       else inputs_overflow_loop ins (u64 (money + amount))
      end
  end.

Definition check_inputs_overflow (tx : TransactionPrefix) : bool := inputs_overflow_loop (inputs tx) 0.

Fixpoint outs_overflow_loop (outs : list TransactionOutput) (money : Z) : bool :=
  match outs with
  | [] => true
  | o :: outs => if u64 (out_amount o + money) <? money then false
                 else outs_overflow_loop outs (u64 (money + out_amount o))
  end.

Definition check_outs_overflow (tx : TransactionPrefix) : bool := outs_overflow_loop (outputs tx) 0.

Definition check_money_overflow (tx : TransactionPrefix) : bool :=
  check_inputs_overflow tx && check_outs_overflow tx.

(** ** Ring offsets *)

(** [for (i = 1; i < res.size(); i++) res[i] += res[i - 1];] *)
Definition relative_output_offsets_to_absolute (off : list Z) : list Z :=
  foldl (fun res i => <[i := u32 (res !!! i + res !!! (i - 1)%nat)]> res) off (List.seq 1 (length off - 1)).

(** [for (i = res.size() - 1; i != 0; i--) res[i] -= res[i - 1];] *)
Definition absolute_output_offsets_to_relative (off : list Z) : list Z :=
  match off with
  | [] => off
  | _ =>
      let res := merge_sort Z.le off in
      foldl (fun res i => <[i := u32 (res !!! i - res !!! (i - 1)%nat)]> res) res
        (rev (List.seq 1 (length res - 1)))
  end.

(** ** Blocks *)

Definition is_coinbase (tx : Transaction) : bool :=
  match inputs (prefix tx) with
  | [InBase _] => true
  | _ => false
  end.

Definition get_block_height (b : Block) : Z :=
  match inputs (prefix (baseTransaction b)) with
  | [InBase i] => blockIndex i
  | _ => 0
  end.

Definition NULL_HASH : Hash := replicate 32 0.

(** [getObjectHash]: the hash, [NULL_HASH] when the object does not serialize. *)
Definition getObjectHash {A} (c : Codec A) (a : A) : bool * Hash :=
  match toBinaryArray c a with
  | None => (false, NULL_HASH)
  | Some ba => (true, cn_fast_hash ba)
  end.

Definition get_tx_tree_hash (b : Block) : Hash :=
  let '(_, h) := getObjectHash serializeTransaction (baseTransaction b) in
  let txs_ids := h :: transactionHashes b in
  tree_hash txs_ids.

Definition get_block_hashing_blob (b : Block) : option bytes :=
  ba ← toBinaryArray serializeBlockHeader (header b);
  let treeRootHash := get_tx_tree_hash b in
  let transactionCount := get_varint_data (u64 (Z.of_nat (length (transactionHashes b)) + 1)) in
  Some (ba ++ treeRootHash ++ transactionCount).

(** [getObjectHash] of a byte array: its string serialization is hashed. *)
Definition get_block_hash (b : Block) : bool * Hash :=
  match get_block_hashing_blob b with
  | None => (false, NULL_HASH)
  | Some ba => getObjectHash str ba
  end.

Definition parseAndValidateTransactionFromBinaryArray (tx_blob : bytes) : option (Transaction * Hash * Hash) :=
  tx ← fromBinaryArray serializeTransaction tx_blob;
  let tx_hash := cn_fast_hash tx_blob in
  let '(_, tx_prefix_hash) := getObjectHash serializeTransactionPrefix (prefix tx) in
  Some (tx, tx_hash, tx_prefix_hash).

(** ** The decomposition *)

(** The non-zero digits of [a], the lowest at position [k]. *)
Fixpoint chunks_from (fuel k : nat) (a : Z) : list Z :=
  match fuel with
  | O => []
  | S fuel =>
      if a =? 0 then []
      else (if a mod 10 =? 0 then [] else [a mod 10 * 10 ^ Z.of_nat k]) ++ chunks_from fuel (S k) (a / 10)
  end.

Lemma pow10_S k : 10 ^ Z.of_nat (S k) = 10 * 10 ^ Z.of_nat k.
Proof. rewrite Nat2Z.inj_succ, Z.pow_succ_r by lia. done. Qed.

Lemma pow10_pos k : 0 < 10 ^ Z.of_nat k.
Proof. apply Z.pow_pos_nonneg; lia. Qed.

Lemma div_mod_10 a : a = 10 * (a / 10) + a mod 10 /\ 0 <= a mod 10 < 10.
Proof. pose proof (Z.div_mod a 10). pose proof (Z.mod_pos_bound a 10). lia. Qed.

Lemma chunks_from_sum fuel k a : 0 <= a < 10 ^ Z.of_nat fuel ->
  sumZ (chunks_from fuel k a) = a * 10 ^ Z.of_nat k.
Proof.
  revert k a. induction fuel as [|fuel IH]; intros k a Ha; cbn [chunks_from]; [simpl in *; lia|].
  destruct (Z.eqb_spec a 0) as [->|]; [done|]. rewrite pow10_S in Ha.
  destruct (div_mod_10 a). rewrite sumZ_app, IH by lia. rewrite pow10_S.
  destruct (Z.eqb_spec (a mod 10) 0); simpl sumZ; lia.
Qed.

(** Every element is a digit times a power of ten. *)
Definition is_chunk (c : Z) : Prop := exists d k, 1 <= d <= 9 /\ c = d * 10 ^ Z.of_nat k.

Lemma chunks_from_chunks fuel k a : 0 <= a -> Forall is_chunk (chunks_from fuel k a).
Proof.
  revert k a. induction fuel as [|fuel IH]; intros k a Ha; cbn [chunks_from]; [done|].
  destruct (a =? 0); [done|]. destruct (div_mod_10 a). apply Forall_app. split; [|apply IH; lia].
  destruct (Z.eqb_spec (a mod 10) 0); [done|]. constructor; [|done].
  exists (a mod 10), k. split; [lia | done].
Qed.

(** After the dust is settled the loop only emits chunks. *)
Lemma decompose_loop_chunks fuel A k t dust handled s : is_u64 A ->
  0 <= dust <= A -> t < dust + 10 ^ Z.of_nat k -> dust + A / 10 ^ Z.of_nat k * 10 ^ Z.of_nat k <= A ->
  (handled = true \/ dust = 0) ->
  decompose_loop push_back push_back fuel (A / 10 ^ Z.of_nat k) t (u64 (10 ^ Z.of_nat k)) dust handled s
  = (handled, dust, s ++ chunks_from fuel k (A / 10 ^ Z.of_nat k)).
Proof.
  intros HA. revert k s. induction fuel as [|fuel IH]; intros k s Hd Ht Hda Hh;
    cbn [decompose_loop chunks_from]; [by rewrite app_nil_r|].
  pose proof (pow10_pos k) as Hp. set (p := 10 ^ Z.of_nat k) in *. set (a := A / p) in *.
  assert (0 <= a) by (apply Z.div_pos; word).
  destruct (Z.eqb_spec a 0); [by rewrite app_nil_r|]. destruct (div_mod_10 a).
  assert (0 <= a mod 10 * p <= a * p)
    by (split; [apply Z.mul_nonneg_nonneg | apply Z.mul_le_mono_nonneg_r]; lia).
  assert (1 * p <= a * p) by (apply Z.mul_le_mono_nonneg_r; lia).
  rewrite (u64_id p), !(u64_id (a mod 10 * p)), !(u64_id (dust + a mod 10 * p)) by (unfold is_u64 in *; lia).
  assert (a / 10 = A / 10 ^ Z.of_nat (S k)) as Ea
    by (unfold a; rewrite Z.div_div, pow10_S by lia; f_equal; fold p; lia).
  replace (u64 (p * 10)) with (u64 (10 ^ Z.of_nat (S k))) by (rewrite pow10_S; fold p; f_equal; lia).
  assert (10 ^ Z.of_nat (S k) = 10 * p) as Ep by apply pow10_S.
  assert (Hnext : forall s, decompose_loop push_back push_back fuel (a / 10) t
      (u64 (10 ^ Z.of_nat (S k))) dust handled s
    = (handled, dust, s ++ chunks_from fuel (S k) (a / 10))).
  { intros s'. rewrite Ea. apply IH; [done | lia | | done]. rewrite <- Ea, Ep. nia. }
  destruct (Z.eqb_spec (a mod 10) 0) as [E0|E0].
  - rewrite E0, Z.mul_0_l, Z.add_0_r. rewrite Z.eqb_refl.
    destruct (Z.leb_spec dust t).
    + rewrite Hnext. by rewrite app_nil_l.
    + replace (negb handled && negb (0 =? dust)) with false
        by (destruct Hh as [-> | ->]; [done | by destruct handled]).
      rewrite Hnext. by rewrite app_nil_l.
  - destruct (Z.leb_spec (dust + a mod 10 * p) t); [nia|].
    replace (negb handled && negb (0 =? dust)) with false
      by (destruct Hh as [-> | ->]; [done | by destruct handled]).
    rewrite (proj2 (Z.eqb_neq 0 _)) by nia. unfold push_back.
    rewrite Hnext, <- app_assoc. done.
Qed.

(** The hand-over of the pending dust after the loop. *)
Definition finish (r : bool * Z * list Z) : list Z :=
  let '(is_dust_handled, dust, s) := r in
  if negb is_dust_handled && negb (0 =? dust) then push_back dust s else s.

Definition dust_list (dust : Z) : list Z := if dust =? 0 then [] else [dust].

Lemma mod_pow10_S A k :
  A mod 10 ^ Z.of_nat (S k) = A mod 10 ^ Z.of_nat k + (A / 10 ^ Z.of_nat k) mod 10 * 10 ^ Z.of_nat k.
Proof.
  pose proof (pow10_pos k). rewrite pow10_S, (Z.mul_comm 10), Z.rem_mul_r by lia. lia.
Qed.

Lemma finish_settled handled dust s : (handled = true \/ dust = 0) -> finish (handled, dust, s) = s.
Proof. by intros [-> | ->]; [|destruct handled]. Qed.

(** While nothing has been emitted, the dust is the amount modulo a power of ten. *)
Lemma decompose_loop_dust fuel A k t : is_u64 A -> 0 <= t ->
  A / 10 ^ Z.of_nat k < 10 ^ Z.of_nat fuel -> A mod 10 ^ Z.of_nat k <= t ->
  exists j fuel', A / 10 ^ Z.of_nat j < 10 ^ Z.of_nat fuel' /\ A mod 10 ^ Z.of_nat j <= t
    /\ finish (decompose_loop push_back push_back fuel (A / 10 ^ Z.of_nat k) t
         (u64 (10 ^ Z.of_nat k)) (A mod 10 ^ Z.of_nat k) false [])
       = dust_list (A mod 10 ^ Z.of_nat j) ++ chunks_from fuel' j (A / 10 ^ Z.of_nat j).
Proof.
  intros HA Ht. revert k. induction fuel as [|fuel IH]; intros k Hf Hd.
  all: pose proof (pow10_pos k) as Hp; pose proof (Z.div_mod A (10 ^ Z.of_nat k) ltac:(lia)) as HAp;
    pose proof (Z.mod_pos_bound A (10 ^ Z.of_nat k) Hp) as Hdp; pose proof (mod_pow10_S A k) as Hnext;
    pose proof (pow10_S k) as Ep;
    assert (A / 10 ^ Z.of_nat (S k) = A / 10 ^ Z.of_nat k / 10) as Ea
      by (rewrite Z.div_div, pow10_S by lia; f_equal; lia).
  all: assert (0 <= A / 10 ^ Z.of_nat k) by (apply Z.div_pos; word).
  all: set (p := 10 ^ Z.of_nat k) in *; set (a := A / p) in *; set (dust := A mod p) in *.
  all: assert (Hstop : forall fuel', a = 0 ->
      finish (false, dust, []) = dust_list dust ++ chunks_from fuel' k a)
    by (intros fuel' ->; replace (chunks_from fuel' k 0) with (@nil Z) by (by destruct fuel');
        unfold finish, dust_list; rewrite (Z.eqb_sym 0); destruct (dust =? 0); done).
  - exists k, O. split_and!; [done | done |]. apply Hstop. simpl in Hf. lia.
  - cbn [decompose_loop]. destruct (Z.eqb_spec a 0) as [E0|E0].
    { exists k, (S fuel). split_and!; [done | done |]. by apply Hstop. }
    destruct (div_mod_10 a) as [Ha10 Hr].
    assert (0 <= a mod 10 * p <= a * p)
      by (split; [apply Z.mul_nonneg_nonneg | apply Z.mul_le_mono_nonneg_r]; lia).
    assert (1 * p <= a * p) by (apply Z.mul_le_mono_nonneg_r; lia).
    rewrite (u64_id p), !(u64_id (a mod 10 * p)), !(u64_id (dust + a mod 10 * p)) by (unfold is_u64 in *; lia).
    replace (u64 (p * 10)) with (u64 (10 ^ Z.of_nat (S k))) by (rewrite Ep; f_equal; lia).
    rewrite <- Hnext, <- Ea. destruct (Z.leb_spec (A mod 10 ^ Z.of_nat (S k)) t) as [Hle|Hgt].
    + apply IH; [|done]. rewrite Ea. rewrite pow10_S in Hf. apply Z.div_lt_upper_bound; lia.
    + exists k, (S fuel). split_and!; [done | done |]. fold p. fold a. fold dust.
      assert (a mod 10 <> 0) by (intros E; rewrite E in Hnext; lia).
      rewrite (proj2 (Z.eqb_neq 0 (a mod 10 * p))) by nia.
      cbn [chunks_from]. rewrite (proj2 (Z.eqb_neq a 0)), (proj2 (Z.eqb_neq (a mod 10) 0)), <- Ea by done.
      assert (a mod 10 * p < 10 * p) by (apply Z.mul_lt_mono_pos_r; lia).
      assert (dust + A / 10 ^ Z.of_nat (S k) * 10 ^ Z.of_nat (S k) <= A).
      { pose proof (Z.div_mod A (10 ^ Z.of_nat (S k)) ltac:(pose proof (pow10_pos (S k)); lia)). lia. }
      unfold dust_list. rewrite (Z.eqb_sym 0). cbn [negb andb].
      destruct (Z.eqb_spec dust 0) as [Ed|Ed]; cbn [negb]; unfold push_back; cbn [app];
        rewrite decompose_loop_chunks, finish_settled by (done || lia || auto); done.
Qed.

Lemma decomposeAmount_shape amount t : is_u64 amount -> 0 <= t ->
  exists k fuel, amount / 10 ^ Z.of_nat k < 10 ^ Z.of_nat fuel /\ amount mod 10 ^ Z.of_nat k <= t
    /\ decomposeAmount amount t []
       = dust_list (amount mod 10 ^ Z.of_nat k) ++ chunks_from fuel k (amount / 10 ^ Z.of_nat k).
Proof.
  intros HA Ht. unfold decomposeAmount, decompose_amount_into_digits.
  destruct (Z.eqb_spec amount 0) as [->|].
  { exists O, O. by rewrite Z.mod_0_l, Z.div_0_l by done. }
  destruct (decompose_loop_dust 20 amount 0 t HA Ht) as (k & fuel & Hf & Hd & E).
  - change (10 ^ Z.of_nat 0) with 1. rewrite Z.div_1_r. change (10 ^ Z.of_nat 20) with 100000000000000000000.
    unfold is_u64 in HA. lia.
  - change (10 ^ Z.of_nat 0) with 1. rewrite Z.mod_1_r. lia.
  - exists k, fuel. split_and!; [done | done |]. rewrite <- E. change (10 ^ Z.of_nat 0) with 1.
    rewrite Z.div_1_r, Z.mod_1_r. rewrite (u64_id 1) by word. unfold finish. reflexivity.
Qed.

Lemma decomposition_sum amount k fuel : 0 <= amount -> amount / 10 ^ Z.of_nat k < 10 ^ Z.of_nat fuel ->
  sumZ (dust_list (amount mod 10 ^ Z.of_nat k) ++ chunks_from fuel k (amount / 10 ^ Z.of_nat k)) = amount.
Proof.
  intros Ha Hf. pose proof (pow10_pos k).
  assert (0 <= amount / 10 ^ Z.of_nat k) by (by apply Z.div_pos).
  rewrite sumZ_app, chunks_from_sum by lia.
  pose proof (Z.div_mod amount (10 ^ Z.of_nat k)). unfold dust_list.
  destruct (Z.eqb_spec (amount mod 10 ^ Z.of_nat k) 0); simpl sumZ; lia.
Qed.

Lemma decomposeAmount_sum amount t : is_u64 amount -> 0 <= t -> sumZ (decomposeAmount amount t []) = amount.
Proof.
  intros HA Ht. destruct (decomposeAmount_shape amount t HA Ht) as (k & fuel & Hf & Hd & ->).
  apply decomposition_sum; [word | done].
Qed.

(** Decomposition of amounts.  The chunks add up to the amount; all of them
    are a digit times a power of ten except the dust, which comes first and does
    not exceed the threshold; nothing is emitted for zero. *)
Theorem decomposeAmount_correct amount t : is_u64 amount -> 0 <= t ->
  sumZ (decomposeAmount amount t []) = amount
  /\ exists dust chunks, decomposeAmount amount t [] = dust_list dust ++ chunks
       /\ 0 <= dust <= t /\ Forall is_chunk chunks.
Proof.
  intros HA Ht. split; [by apply decomposeAmount_sum|].
  destruct (decomposeAmount_shape amount t HA Ht) as (k & fuel & Hf & Hd & ->).
  pose proof (pow10_pos k). pose proof (Z.mod_pos_bound amount (10 ^ Z.of_nat k) ltac:(lia)).
  eexists _, _. split; [done|]. split; [lia|]. apply chunks_from_chunks, Z.div_pos; word.
Qed.

Lemma decomposeAmount_correct_witness :
  sumZ (decomposeAmount 62387455827 500000 []) = 62387455827.
Proof. apply decomposeAmount_correct; word. Defined.

(** ** The amount table *)

Lemma lower_bound_elem l a : StronglySorted Z.lt l ->
  l !! lower_bound l a = Some a <-> a ∈ l.
Proof.
  unfold lower_bound. split; [apply list_elem_of_lookup_2|].
  induction H as [|x l Hs IH Hx]; [by intros ?%not_elem_of_nil|]. simpl.
  rewrite elem_of_cons. intros [-> | Ha].
  - by rewrite (proj2 (Z.ltb_ge x x)) by lia.
  - rewrite Forall_forall in Hx. specialize (Hx a Ha). rewrite (proj2 (Z.ltb_lt x a)) by done. by apply IH.
Qed.

Lemma PRETTY_AMOUNTS_sorted : StronglySorted Z.lt PRETTY_AMOUNTS.
Proof. apply Sorted_StronglySorted; [apply _|]. vm_compute. repeat constructor. Qed.

Lemma PRETTY_AMOUNTS_chunks a : a ∈ PRETTY_AMOUNTS <-> is_u64 a /\ is_chunk a.
Proof.
  split.
  - intros [H|H]%elem_of_app.
    + apply list_elem_of_In, in_flat_map in H as (k & Hk & H). apply in_seq in Hk.
      apply list_elem_of_In, list_elem_of_fmap in H as (d & -> & Hd).
      assert (1 <= d <= 9) by (repeat (apply elem_of_cons in Hd as [-> | Hd]; [lia|]); by apply not_elem_of_nil in Hd).
      split; [|by exists d, k]. pose proof (pow10_pos k).
      assert (10 ^ Z.of_nat k <= 10 ^ 18) by (apply Z.pow_le_mono_r; lia). unfold is_u64. nia.
    + apply list_elem_of_singleton in H as ->. split; [word|]. by exists 1, 19%nat.
  - intros [Ha (d & k & Hd & ->)].
    assert (k <= 19)%nat.
    { destruct (decide (k <= 19)%nat) as [|Hk]; [done|]. exfalso.
      assert (10 ^ 20 <= 10 ^ Z.of_nat k) by (apply Z.pow_le_mono_r; lia). unfold is_u64 in Ha. nia. }
    apply elem_of_app. destruct (decide (k = 19%nat)) as [->|].
    + right. assert (d = 1) as -> by (change (10 ^ Z.of_nat 19) with (10 ^ 19) in Ha; unfold is_u64 in Ha; lia).
      by apply list_elem_of_singleton.
    + left. apply list_elem_of_In, in_flat_map. exists k. split; [apply in_seq; lia|].
      apply list_elem_of_In, list_elem_of_fmap. exists d. split; [done|].
      assert (d = 1 \/ d = 2 \/ d = 3 \/ d = 4 \/ d = 5 \/ d = 6 \/ d = 7 \/ d = 8 \/ d = 9)
        as Hc by lia. repeat destruct Hc as [->|Hc]; try subst d; repeat constructor.
Qed.

Lemma is_valid_decomposed_amount_spec amount :
  is_valid_decomposed_amount amount = true <-> amount ∈ PRETTY_AMOUNTS.
Proof.
  rewrite <- (lower_bound_elem PRETTY_AMOUNTS) by apply PRETTY_AMOUNTS_sorted.
  unfold is_valid_decomposed_amount.
  destruct (PRETTY_AMOUNTS !! lower_bound PRETTY_AMOUNTS amount) as [a|]; [|done].
  rewrite negb_involutive, Z.eqb_eq. split; [by intros -> | by intros [= ->]].
Qed.

(** ** Overflow *)

Lemma outs_overflow_loop_spec outs money : Forall (fun o => is_u64 (out_amount o)) outs -> is_u64 money ->
  outs_overflow_loop outs money = true <-> money + sumZ (out_amount <$> outs) < 2 ^ 64.
Proof.
  intros H. revert money. induction H as [|o outs Ho H IH]; intros money Hm.
  { simpl. split; [word | done]. }
  cbn [outs_overflow_loop fmap list_fmap]. simpl sumZ.
  assert (0 <= sumZ (out_amount <$> outs))
    by (apply sumZ_nonneg, Forall_fmap; eapply Forall_impl; [exact H|]; unfold is_u64; simpl; lia).
  destruct (decide (money + out_amount o < 2 ^ 64)).
  - rewrite (u64_id (out_amount o + money)), (u64_id (money + out_amount o)) by word.
    rewrite (proj2 (Z.ltb_ge _ money)) by word. rewrite IH by word. rewrite Z.add_assoc. done.
  - assert (u64 (out_amount o + money) = out_amount o + money - 2 ^ 64) as -> by word.
    rewrite (proj2 (Z.ltb_lt _ money)) by word. split; [done | word].
Qed.

(** What an input can be worth with the largest legacy interest: four percent. *)
Definition input_worth (i : TransactionInput) : Z :=
  match i with
  | InBase _ => 0
  | InKey k => ki_amount k
  | InMultisignature m =>
      if mi_term m =? 0 then mi_amount m else mi_amount m + mi_amount m * DEPOSIT_MAX_TOTAL_RATE / 100
  end.

Definition input_amounts_ok (i : TransactionInput) : Prop :=
  match i with
  | InBase _ => True
  | InKey k => is_u64 (ki_amount k)
  | InMultisignature m => is_u64 (mi_amount m)
  end.

Lemma input_with_interest_spec i : input_amounts_ok i ->
  0 <= input_worth i
  /\ input_with_interest i = if input_worth i <? 2 ^ 64 then Some (input_worth i) else None.
Proof.
  unfold input_with_interest, input_worth, DEPOSIT_MAX_TOTAL_RATE.
  destruct i as [|k|m]; cbn [input_amounts_ok].
  - done.
  - intros Hk. rewrite (proj2 (Z.ltb_lt _ _)) by word. split; [word | done].
  - intros Hm. destruct (mi_term m =? 0); cbn [negb].
    { rewrite (proj2 (Z.ltb_lt _ _)) by word. split; [word | done]. }
    rewrite mul128_spec by word. rewrite div128_32_spec by word.
    set (a := mi_amount m) in *. cbv zeta.
    assert (a * 4 / 2 ^ 64 * 2 ^ 64 + (a * 4) mod 2 ^ 64 = a * 4) as ->
      by (pose proof (Z.div_mod (a * 4) (2 ^ 64)); lia).
    assert (0 <= a * 4 / 100 < 2 ^ 64) by word.
    rewrite (Z.div_small (a * 4 / 100)), (Z.mod_small (a * 4 / 100)) by done. simpl (0 <? 0).
    split; [word|]. unfold UINT64_MAX. destruct (Z.ltb_spec (a + a * 4 / 100) (2 ^ 64)).
    + by rewrite (proj2 (Z.ltb_ge _ a)) by word.
    + by rewrite (proj2 (Z.ltb_lt _ a)) by word.
Qed.

Lemma inputs_overflow_loop_spec ins money : Forall input_amounts_ok ins -> is_u64 money ->
  inputs_overflow_loop ins money = true <-> money + sumZ (input_worth <$> ins) < 2 ^ 64.
Proof.
  intros H. revert money. induction H as [|i ins Hi H IH]; intros money Hm.
  { simpl. split; [word | done]. }
  cbn [inputs_overflow_loop fmap list_fmap]. simpl sumZ.
  destruct (input_with_interest_spec i Hi) as [Hw ->].
  assert (0 <= sumZ (input_worth <$> ins))
    by (apply sumZ_nonneg, Forall_fmap; eapply Forall_impl; [exact H|]; intros; by apply input_with_interest_spec).
  destruct (Z.ltb_spec (input_worth i) (2 ^ 64)); [|split; [done | word]].
  destruct (decide (money + input_worth i < 2 ^ 64)).
  - rewrite (u64_id (input_worth i + money)), (u64_id (money + input_worth i)) by word.
    rewrite (proj2 (Z.ltb_ge _ money)) by word. rewrite IH by word. rewrite Z.add_assoc. done.
  - assert (u64 (input_worth i + money) = input_worth i + money - 2 ^ 64) as -> by word.
    rewrite (proj2 (Z.ltb_lt _ money)) by word. split; [done | word].
Qed.

Definition amounts_ok (tx : TransactionPrefix) : Prop :=
  Forall input_amounts_ok (inputs tx) /\ Forall (fun o => is_u64 (out_amount o)) (outputs tx).

(** C31: money overflow.  The check accepts exactly the transactions whose outputs
    add up below 2^64 and whose inputs, deposits counted with four percent
    interest, do so too: the comparison of wrapped sums is exact. *)
Theorem check_money_overflow_spec tx : amounts_ok tx ->
  check_money_overflow tx = true <->
  sumZ (input_worth <$> inputs tx) < 2 ^ 64 /\ sumZ (out_amount <$> outputs tx) < 2 ^ 64.
Proof.
  intros [Hi Ho]. unfold check_money_overflow, check_inputs_overflow, check_outs_overflow.
  rewrite andb_true_iff, inputs_overflow_loop_spec, outs_overflow_loop_spec by (done || word). done.
Qed.

Lemma check_money_overflow_spec_witness :
  let tx := prefix genesis_coinbase in
  check_money_overflow tx = true <->
  sumZ (input_worth <$> inputs tx) < 2 ^ 64 /\ sumZ (out_amount <$> outputs tx) < 2 ^ 64.
Proof. apply check_money_overflow_spec. split; repeat constructor; vm_compute; congruence. Defined.

(** ** Deposits spent twice in one transaction *)

Definition multisignature_refs (ins : list TransactionInput) : list (Z * Z) :=
  omap (fun i => match i with
                 | InMultisignature m => Some (mi_amount m, outputIndex m)
                 | _ => None
                 end) ins.

Lemma multisignature_loop_spec used ins :
  multisignature_loop used ins = true <->
  NoDup (multisignature_refs ins) /\ Forall (fun r => r ∉ used) (multisignature_refs ins).
Proof.
  revert used. induction ins as [|i ins IH]; intros used; cbn [multisignature_loop].
  { split; [split; constructor | done]. }
  destruct i as [|k|m]; [exact (IH used) | exact (IH used) |].
  change (multisignature_refs (InMultisignature m :: ins))
    with ((mi_amount m, outputIndex m) :: multisignature_refs ins).
  set (r := (mi_amount m, outputIndex m)). rewrite NoDup_cons, Forall_cons.
  destruct (decide (r ∈ used)); [split; [done | by intros [_ [? _]]]|].
  rewrite IH, !Forall_forall. set_solver.
Qed.

(** A transaction passes [checkMultisignatureInputsDiff] exactly when no two
    of its multisignature inputs spend the same output. *)
Theorem checkMultisignatureInputsDiff_spec tx :
  checkMultisignatureInputsDiff tx = true <-> NoDup (multisignature_refs (inputs tx)).
Proof.
  unfold checkMultisignatureInputsDiff. rewrite multisignature_loop_spec, Forall_forall. set_solver.
Qed.

(** ** Ring offsets *)

Lemma to_relative_loop res n : (n <= length res)%nat ->
  forall j, foldl (fun res i => <[i := u32 (res !!! i - res !!! (i - 1)%nat)]> res) res (rev (List.seq 1 n)) !! j
  = if decide (1 <= j <= n)%nat then (fun x => u32 (x - res !!! (j - 1)%nat)) <$> res !! j else res !! j.
Proof.
  revert res. induction n as [|n IH]; intros res Hn j; [by rewrite decide_False by lia|].
  rewrite seq_S, rev_app_distr. cbn [rev app foldl]. rewrite IH by (rewrite length_insert; lia).
  replace (1 + n)%nat with (S n) by lia. rewrite Nat.sub_succ, Nat.sub_0_r.
  destruct (decide (1 <= j <= n)%nat) as [Hj|Hj].
  - rewrite decide_True by lia. rewrite list_lookup_insert_ne by lia.
    by rewrite list_lookup_total_insert_ne by lia.
  - destruct (decide (j = S n)) as [->|].
    + rewrite decide_True by lia. rewrite Nat.sub_succ, Nat.sub_0_r.
      destruct (decide (S n < length res)%nat) as [Hl|Hl].
      * rewrite list_lookup_insert_eq by done. rewrite (list_lookup_lookup_total_lt res) by done. done.
      * rewrite !(proj2 (lookup_ge_None _ _)); [done | lia | rewrite length_insert; lia].
    + rewrite decide_False by lia. by rewrite list_lookup_insert_ne by lia.
Qed.

Lemma to_relative_lookup off j (srt := merge_sort Z.le off) :
  absolute_output_offsets_to_relative off !! j
  = if decide (j = 0)%nat then srt !! 0%nat else (fun x => u32 (x - srt !!! (j - 1)%nat)) <$> srt !! j.
Proof.
  unfold absolute_output_offsets_to_relative. destruct off as [|a off].
  { by destruct (decide (j = 0)%nat) as [->|]. }
  fold srt. rewrite to_relative_loop by lia.
  destruct (decide (j = 0)%nat) as [->|]; [by rewrite decide_False by lia|].
  destruct (decide (1 <= j <= length srt - 1)%nat); [done|].
  rewrite (proj2 (lookup_ge_None srt j)) by lia. done.
Qed.

(** Prefix sums modulo 2^32. *)
Lemma to_absolute_loop res n : (n < length res)%nat ->
  let out := foldl (fun res i => <[i := u32 (res !!! i + res !!! (i - 1)%nat)]> res) res (List.seq 1 n) in
  length out = length res /\ out !! 0%nat = res !! 0%nat
  /\ (forall j, (1 <= j <= n)%nat -> out !!! j = u32 (res !!! j + out !!! (j - 1)%nat))
  /\ (forall j, (n < j)%nat -> out !! j = res !! j).
Proof.
  induction n as [|n IH]; intros Hn; [split_and!; try done; lia|].
  destruct (IH ltac:(lia)) as (Hl & H0 & Hj & Hr). clear IH.
  cbv zeta. rewrite seq_S, foldl_app. cbn [foldl]. replace (1 + n)%nat with (S n) by lia.
  set (out := foldl _ res (List.seq 1 n)) in *.
  assert (out !!! S n = res !!! S n) as Es by (rewrite !list_lookup_total_alt, Hr by lia; done).
  rewrite Nat.sub_succ, Nat.sub_0_r, Es. split_and!.
  - by rewrite length_insert.
  - by rewrite list_lookup_insert_ne by lia.
  - intros j Hjn. destruct (decide (j = S n)) as [->|].
    + rewrite list_lookup_total_insert_eq by lia. rewrite Nat.sub_succ, Nat.sub_0_r.
      by rewrite list_lookup_total_insert_ne by lia.
    + rewrite !list_lookup_total_insert_ne by lia. apply Hj. lia.
  - intros j Hjn. rewrite list_lookup_insert_ne by lia. apply Hr. lia.
Qed.

(** Ring offsets round trip: the absolute offsets recovered from the relative
    ones are the original offsets, sorted; differences never wrap. *)
Theorem offsets_roundtrip off : Forall is_u32 off ->
  relative_output_offsets_to_absolute (absolute_output_offsets_to_relative off) = merge_sort Z.le off.
Proof.
  intros Hu. set (srt := merge_sort Z.le off). set (rel := absolute_output_offsets_to_relative off).
  assert (Hus : Forall is_u32 srt) by (unfold srt; by rewrite merge_sort_Permutation).
  assert (Hrel : forall j, rel !! j = if decide (j = 0)%nat then srt !! 0%nat
    else (fun x => u32 (x - srt !!! (j - 1)%nat)) <$> srt !! j) by apply to_relative_lookup.
  assert (Hlen : length rel = length srt).
  { apply Nat.le_antisymm; apply Nat.nlt_ge; intros Hlt.
    - apply lookup_lt_is_Some in Hlt as Hs. rewrite Hrel in Hs.
      rewrite (proj2 (lookup_ge_None srt (length srt))) in Hs by lia.
      destruct (decide _) as [E|]; [|by destruct Hs]. apply lookup_lt_is_Some in Hs. lia.
    - assert (rel !! length rel = None) as Hn by (by apply lookup_ge_None).
      rewrite Hrel in Hn. apply lookup_lt_is_Some in Hlt as [x Hx]. rewrite Hx in Hn.
      destruct (decide _) as [E|]; [|done]. rewrite E in Hx. congruence. }
  destruct (decide (length srt = 0)%nat) as [E0|E0].
  { assert (srt = [] /\ rel = []) as [-> ->]; [|done]. split; apply nil_length_inv; lia. }
  unfold relative_output_offsets_to_absolute.
  destruct (to_absolute_loop rel (length rel - 1) ltac:(lia)) as (Hl & H0 & Hj & _).
  set (out := foldl _ rel _) in *.
  assert (Hall : forall j, (j < length srt)%nat -> out !!! j = srt !!! j).
  { induction j as [|j IH]; intros Hjl.
    - rewrite !list_lookup_total_alt, H0, Hrel. done.
    - rewrite Hj, Nat.sub_succ, Nat.sub_0_r, IH by lia.
      rewrite (list_lookup_total_alt rel), Hrel, decide_False, Nat.sub_succ, Nat.sub_0_r by lia.
      rewrite (list_lookup_lookup_total_lt srt) by done. cbn [fmap option_fmap option_map default id].
      rewrite Forall_lookup in Hus.
      pose proof (Hus (S j) _ (list_lookup_lookup_total_lt srt (S j) Hjl)).
      pose proof (Hus j _ (list_lookup_lookup_total_lt srt j ltac:(lia))). word. }
  apply list_eq. intros j. destruct (decide (j < length srt)%nat) as [Hjl|Hjl].
  - rewrite !list_lookup_lookup_total_lt by lia. by rewrite Hall.
  - rewrite !(proj2 (lookup_ge_None _ _)); [done | lia | lia].
Qed.

Lemma offsets_roundtrip_witness :
  relative_output_offsets_to_absolute (absolute_output_offsets_to_relative [7; 3; 4294967295; 20])
  = merge_sort Z.le [7; 3; 4294967295; 20].
Proof. apply offsets_roundtrip. repeat constructor; word. Defined.

(** The hash of the hard-coded genesis block, computed through the serializer,
    the Merkle tree and Keccak, is the checkpoint the node carries for height 0
    (CryptoNoteConfig.h, [CHECKPOINTS]). *)
Theorem genesis_block_hash : get_block_hash genesis_block =
  (true, [0xb9; 0xdc; 0x43; 0x2e; 0x56; 0xe3; 0x7b; 0x52; 0x77; 0x19; 0x70; 0xce; 0x01; 0x4d; 0xd2; 0x3f;
          0xda; 0x51; 0x7c; 0xfd; 0x4f; 0xc5; 0xa9; 0xb2; 0x96; 0xf1; 0x95; 0x4b; 0x7d; 0x45; 0x05; 0xde]).
Proof. vm_compute. reflexivity. Qed.

End FormatUtils.
