(* ===== verification/Float.v ===== *)
(** IEEE 754 arithmetic of the language, as the interest routines use it: a finite
    floating-point number is [man * 2^ex]; every operation computes the exact
    result and rounds it to [prec] significant bits, to nearest with ties to even
    (24 bits for [float], 53 for [double]).  All values of these computations lie
    far inside the exponent range, so overflow and subnormal numbers do not occur
    and are not represented.  Every C++ operation rounds once: no excess precision
    and no fused operations. *)

From S2P Require Import Prelude.

Module Float.

Record fl := Fl { man : Z; ex : Z }.

(** [n * 2^s / d] as a pair numerator, denominator. *)
Definition scale (n d s : Z) : Z * Z :=
  if 0 <=? s then (n * 2 ^ s, d) else (n, d * 2 ^ (- s)).

(** To nearest, ties to even, of [num / den]. *)
Definition div_nearest (num den : Z) : Z :=
  let q := num / den in
  let r := num mod den in
  if 2 * r <? den then q else if den <? 2 * r then q + 1 else if Z.even q then q else q + 1.

(** The exponent that leaves exactly [prec] bits before the point. *)
Definition round_exponent (prec n d : Z) : Z :=
  let e := Z.log2 n - Z.log2 d - prec in
  let '(num, den) := scale n d (- e) in
  if num <? 2 ^ prec * den then e else e + 1.

(** The rational [n / d], [d] positive, rounded to [prec] bits. *)
Definition round (prec n d : Z) : fl :=
  if n =? 0 then Fl 0 0
  else
    let e := round_exponent prec (Z.abs n) d in
    let '(num, den) := scale (Z.abs n) d (- e) in
    Fl (Z.sgn n * div_nearest num den) e.

(** A dyadic number rounded. *)
Definition round_dyadic (prec m e : Z) : fl :=
  if 0 <=? e then round prec (m * 2 ^ e) 1 else round prec m (2 ^ (- e)).

Definition of_Z (prec n : Z) : fl := round prec n 1.
Definition convert (prec : Z) (a : fl) : fl := round_dyadic prec (man a) (ex a).
Definition opp (a : fl) : fl := Fl (- man a) (ex a).

Definition add (prec : Z) (a b : fl) : fl :=
  let e := Z.min (ex a) (ex b) in
  round_dyadic prec (man a * 2 ^ (ex a - e) + man b * 2 ^ (ex b - e)) e.

Definition sub (prec : Z) (a b : fl) : fl := add prec a (opp b).

Definition mul (prec : Z) (a b : fl) : fl := round_dyadic prec (man a * man b) (ex a + ex b).

(** The divisors of the program are positive. *)
Definition div (prec : Z) (a b : fl) : fl :=
  let '(n, d) := scale (man a) (man b) (ex a - ex b) in round prec n d.

(** Conversion to an integer type: towards zero. *)
Definition trunc (a : fl) : Z :=
  if 0 <=? ex a then man a * 2 ^ ex a else Z.quot (man a) (2 ^ (- ex a)).

Definition ltb (a b : fl) : bool :=
  let e := Z.min (ex a) (ex b) in man a * 2 ^ (ex a - e) <? man b * 2 ^ (ex b - e).

(** ** Bounds *)

(** The value of [f] is at most [n / d]. *)
Definition fl_le (f : fl) (n d : Z) : Prop :=
  0 <= man f /\ let '(num, den) := scale n d (- ex f) in man f * den <= num.

Lemma scale_pos n d s : 0 < n -> 0 < d -> 0 < (scale n d s).1 /\ 0 < (scale n d s).2.
Proof.
  intros. unfold scale. case_bool; simpl.
  - pose proof (Z.pow_pos_nonneg 2 s). nia.
  - pose proof (Z.pow_pos_nonneg 2 (- s)). nia.
Qed.

(** [n / d] lies strictly between [2^(k - 1)] and [2^(k + 1)], [k] the difference
    of the logarithms, so the rounding exponent leaves at least [prec] bits. *)
Lemma round_exponent_bits prec n d : 0 < prec -> 0 < n -> 0 < d ->
  let '(num, den) := scale n d (- round_exponent prec n d) in 2 ^ (prec - 1) * den <= num.
Proof.
  intros Hp Hn Hd. unfold round_exponent.
  pose proof (Z.log2_spec n Hn) as Hln. pose proof (Z.log2_spec d Hd) as Hld.
  set (e := Z.log2 n - Z.log2 d - prec).
  assert (Hbase : let '(num, den) := scale n d (- e) in 2 ^ (prec - 1) * den <= num).
  { pose proof (Z.log2_nonneg n). pose proof (Z.log2_nonneg d). unfold scale. case_bool.
    - assert (2 ^ (prec - 1) * 2 ^ Z.succ (Z.log2 d) = 2 ^ Z.log2 n * 2 ^ (- e)) as E
        by (rewrite <- !Z.pow_add_r by lia; f_equal; lia).
      pose proof (Z.pow_pos_nonneg 2 (- e)). pose proof (Z.pow_pos_nonneg 2 (prec - 1)). nia.
    - assert (2 ^ (prec - 1) * 2 ^ Z.succ (Z.log2 d) * 2 ^ e = 2 ^ Z.log2 n) as E
        by (rewrite <- !Z.pow_add_r by lia; f_equal; lia).
      replace (- - e) with e by lia.
      pose proof (Z.pow_pos_nonneg 2 e). pose proof (Z.pow_pos_nonneg 2 (prec - 1)). nia. }
  destruct (scale n d (- e)) as [num den] eqn:Es.
  destruct (Z.ltb_spec num (2 ^ prec * den)) as [Hlt|Hge]; [by rewrite Es|].
  assert (2 ^ prec = 2 * 2 ^ (prec - 1)) as Ep
    by (rewrite <- Z.pow_succ_r by lia; f_equal; lia).
  unfold scale in *. destruct (Z.leb_spec 0 (- e)), (Z.leb_spec 0 (- (e + 1))); injection Es as <- <-; try lia.
  - assert (2 ^ (- e) = 2 * 2 ^ (- (e + 1))) by (rewrite <- Z.pow_succ_r by lia; f_equal; lia). lia.
  - replace e with 0 in * by lia. simpl in *. lia.
  - assert (2 ^ (- - (e + 1)) = 2 * 2 ^ (- - e)) by (rewrite <- Z.pow_succ_r by lia; f_equal; lia). lia.
Qed.

Lemma div_nearest_upper num den : 0 <= num -> 0 < den ->
  0 <= div_nearest num den /\ 2 * (div_nearest num den * den) <= 2 * num + den.
Proof.
  intros Hn Hd. unfold div_nearest. pose proof (Z.div_mod num den ltac:(lia)).
  pose proof (Z.mod_pos_bound num den Hd). pose proof (Z.div_pos num den Hn Hd).
  set (q := num / den) in *. set (r := num mod den) in *.
  destruct (Z.ltb_spec (2 * r) den); [lia|]. destruct (Z.ltb_spec den (2 * r)); [lia|].
  destruct (Z.even q); lia.
Qed.

(** Rounding adds at most one part in [2^prec]. *)
Lemma round_upper prec n d : 0 < prec -> 0 <= n -> 0 < d ->
  fl_le (round prec n d) (n * (2 ^ prec + 1)) (d * 2 ^ prec).
Proof.
  intros Hp Hn Hd. unfold round, fl_le. destruct (Z.eqb_spec n 0) as [->|Hn0].
  { simpl. lia. }
  rewrite Z.abs_eq, Z.sgn_pos by lia.
  pose proof (round_exponent_bits prec n d Hp ltac:(lia) Hd) as Hbits.
  set (e := round_exponent prec n d) in *.
  pose proof (scale_pos n d (- e) ltac:(lia) Hd) as [Hsn Hsd].
  destruct (scale n d (- e)) as [num den] eqn:Es. simpl in Hsn, Hsd. cbn [man ex].
  destruct (div_nearest_upper num den ltac:(lia) Hsd) as [Hq0 Hq].
  rewrite Z.mul_1_l. split; [done|].
  assert (2 ^ prec = 2 * 2 ^ (prec - 1)) as Ep
    by (rewrite <- Z.pow_succ_r by lia; f_equal; lia).
  assert (scale (n * (2 ^ prec + 1)) (d * 2 ^ prec) (- e) = (num * (2 ^ prec + 1), den * 2 ^ prec)) as ->.
  { unfold scale in *. destruct (0 <=? - e); injection Es as <- <-; f_equal; lia. }
  pose proof (Z.pow_pos_nonneg 2 (prec - 1)). rewrite Ep in *.
  set (q := div_nearest num den) in *. set (h := 2 ^ (prec - 1)) in *.
  assert (h * (2 * (q * den)) <= h * (2 * num + den)) by (apply Z.mul_le_mono_nonneg_l; lia). lia.
Qed.

Lemma fl_le_trunc f n d : 0 < d -> 0 <= n -> fl_le f n d -> trunc f * d <= n.
Proof.
  intros Hd Hn [Hm H]. unfold trunc, scale in *. destruct (Z.leb_spec 0 (ex f)).
  - destruct (Z.leb_spec 0 (- ex f)).
    + replace (ex f) with 0 in * by lia. simpl in *. lia.
    + rewrite Z.opp_involutive in H. lia.
  - rewrite (proj2 (Z.leb_le 0 (- ex f))) in H by lia.
    pose proof (Z.pow_pos_nonneg 2 (- ex f)) as Hp. rewrite Z.quot_div_nonneg by lia.
    pose proof (Z.mul_div_le (man f) (2 ^ (- ex f)) ltac:(lia)).
    set (t := man f / 2 ^ (- ex f)) in *. set (p := 2 ^ (- ex f)) in *.
    assert (p * (t * d) <= p * n); [|nia]. nia.
Qed.

Lemma trunc_nonneg f : 0 <= man f -> 0 <= trunc f.
Proof.
  intros. unfold trunc. case_bool.
  - apply Z.mul_nonneg_nonneg; [done | apply Z.pow_nonneg; lia].
  - pose proof (Z.pow_pos_nonneg 2 (- ex f)). rewrite Z.quot_div_nonneg by lia. apply Z.div_pos; lia.
Qed.

(** The bound with the exponent split into its positive and negative part. *)
Lemma fl_le_alt f n d : fl_le f n d <->
  0 <= man f /\ man f * 2 ^ Z.max 0 (ex f) * d <= n * 2 ^ Z.max 0 (- ex f).
Proof.
  unfold fl_le, scale. destruct (Z.leb_spec 0 (- ex f)).
  - rewrite Z.max_l, Z.max_r by lia. rewrite Z.pow_0_r, Z.mul_1_r. done.
  - rewrite Z.max_r, Z.max_l by lia. rewrite Z.pow_0_r, Z.mul_1_r, Z.opp_involutive.
    split; intros [? ?]; (split; [done | lia]).
Qed.

Lemma fl_le_mul f g n1 d1 n2 d2 : 0 < d1 -> 0 < d2 -> fl_le f n1 d1 -> fl_le g n2 d2 ->
  fl_le (Fl (man f * man g) (ex f + ex g)) (n1 * n2) (d1 * d2).
Proof.
  intros Hd1 Hd2 [Hf Hf']%fl_le_alt [Hg Hg']%fl_le_alt. apply fl_le_alt. cbn [man ex].
  split; [by apply Z.mul_nonneg_nonneg|].
  set (t := Z.max 0 (ex f) + Z.max 0 (ex g) - Z.max 0 (ex f + ex g)).
  assert (2 ^ Z.max 0 (ex f) * 2 ^ Z.max 0 (ex g) = 2 ^ Z.max 0 (ex f + ex g) * 2 ^ t) as E1
    by (rewrite <- !Z.pow_add_r by lia; f_equal; lia).
  assert (2 ^ Z.max 0 (- ex f) * 2 ^ Z.max 0 (- ex g) = 2 ^ Z.max 0 (- (ex f + ex g)) * 2 ^ t) as E2
    by (rewrite <- !Z.pow_add_r by lia; f_equal; lia).
  assert (0 < 2 ^ t) as Ht by (apply Z.pow_pos_nonneg; lia).
  apply (Z.mul_le_mono_pos_r _ _ (2 ^ t)); [done|].
  assert (forall x, 0 <= 2 ^ Z.max 0 x) as Hp by (intros; apply Z.pow_nonneg; lia).
  assert (0 <= man f * 2 ^ Z.max 0 (ex f) * d1)
    by (apply Z.mul_nonneg_nonneg; [apply Z.mul_nonneg_nonneg; [lia | apply Hp] | lia]).
  assert (0 <= man g * 2 ^ Z.max 0 (ex g) * d2)
    by (apply Z.mul_nonneg_nonneg; [apply Z.mul_nonneg_nonneg; [lia | apply Hp] | lia]).
  replace (man f * man g * 2 ^ Z.max 0 (ex f + ex g) * (d1 * d2) * 2 ^ t)
    with (man f * man g * (d1 * d2) * (2 ^ Z.max 0 (ex f + ex g) * 2 ^ t)) by ring.
  replace (n1 * n2 * 2 ^ Z.max 0 (- (ex f + ex g)) * 2 ^ t)
    with (n1 * n2 * (2 ^ Z.max 0 (- (ex f + ex g)) * 2 ^ t)) by ring.
  rewrite <- E1, <- E2.
  replace (man f * man g * (d1 * d2) * (2 ^ Z.max 0 (ex f) * 2 ^ Z.max 0 (ex g)))
    with ((man f * 2 ^ Z.max 0 (ex f) * d1) * (man g * 2 ^ Z.max 0 (ex g) * d2)) by ring.
  replace (n1 * n2 * (2 ^ Z.max 0 (- ex f) * 2 ^ Z.max 0 (- ex g)))
    with ((n1 * 2 ^ Z.max 0 (- ex f)) * (n2 * 2 ^ Z.max 0 (- ex g))) by ring.
  by apply Z.mul_le_mono_nonneg.
Qed.

Lemma fl_le_trans f n d n' d' : 0 < d -> 0 < d' -> fl_le f n d -> n * d' <= n' * d -> fl_le f n' d'.
Proof.
  intros Hd Hd' [Hm H]%fl_le_alt Hle. apply fl_le_alt. split; [done|].
  assert (0 <= 2 ^ Z.max 0 (- ex f)) by (apply Z.pow_nonneg; lia).
  apply (Z.mul_le_mono_pos_r _ _ d); [done|].
  assert (man f * 2 ^ Z.max 0 (ex f) * d * d' <= n * 2 ^ Z.max 0 (- ex f) * d')
    by (apply Z.mul_le_mono_nonneg_r; lia).
  assert (n * d' * 2 ^ Z.max 0 (- ex f) <= n' * d * 2 ^ Z.max 0 (- ex f))
    by (apply Z.mul_le_mono_nonneg_r; lia). lia.
Qed.

Lemma round_dyadic_upper prec m e n d : 0 < prec -> 0 < d -> fl_le (Fl m e) n d ->
  fl_le (round_dyadic prec m e) (n * (2 ^ prec + 1)) (d * 2 ^ prec).
Proof.
  intros Hp Hd [Hm H]%fl_le_alt. cbn [man ex] in *. unfold round_dyadic.
  assert (0 < 2 ^ prec) by (apply Z.pow_pos_nonneg; lia).
  destruct (Z.leb_spec 0 e).
  - rewrite Z.max_r, Z.max_l, Z.pow_0_r, Z.mul_1_r in H by lia.
    assert (0 <= 2 ^ e) by (apply Z.pow_nonneg; lia).
    eapply fl_le_trans; [| | apply round_upper |]; try lia; try nia.
  - rewrite Z.max_l, Z.max_r, Z.pow_0_r, Z.mul_1_r in H by lia.
    assert (0 < 2 ^ (- e)) by (apply Z.pow_pos_nonneg; lia).
    eapply fl_le_trans; [| | apply round_upper |]; try lia; try nia.
Qed.

(** A product of two bounded numbers, rounded. *)
Lemma mul_upper prec f g n1 d1 n2 d2 : 0 < prec -> 0 < d1 -> 0 < d2 ->
  fl_le f n1 d1 -> fl_le g n2 d2 ->
  fl_le (mul prec f g) (n1 * n2 * (2 ^ prec + 1)) (d1 * d2 * 2 ^ prec).
Proof. intros. apply round_dyadic_upper; [done | nia |]. by apply fl_le_mul. Qed.

Definition fl_leb (f : fl) (n d : Z) : bool :=
  (0 <=? man f) && let '(num, den) := scale n d (- ex f) in man f * den <=? num.

Lemma fl_leb_le f n d : fl_leb f n d = true -> fl_le f n d.
Proof.
  unfold fl_leb, fl_le. rewrite andb_true_iff, Z.leb_le.
  destruct (scale n d (- ex f)). by rewrite Z.leb_le.
Qed.

End Float.
