(* ===== verification/Currency.v ===== *)
(** src/CryptoNoteCore/Currency.{h,cpp} with the constants of CryptoNoteConfig.h and
    [getPenalizedAmount] of CryptoNoteBasicImpl.cpp: the parameters of the network,
    block rewards, deposit interest, fees, size limits and fusion transactions.
    Amounts and sizes are 64-bit, heights and terms 32-bit unsigned integers; the
    [assert]s of the code are theorems here. *)

From S2P Require Import Prelude.
From S2P Require Import IntUtil.
From S2P Require Import Varint.
From S2P Require Import Serialization.
From S2P Require Import CryptoNote.
From S2P Require Import CryptoNoteSerialization.
From S2P Require Import CryptoNoteFormatUtils.
From S2P Require Import Float.
Import IntUtil BinarySerializer CryptoNoteSerialization FormatUtils.

(** ** CryptoNoteConfig.h *)

Module Config.

Definition CRYPTONOTE_MAX_BLOCK_NUMBER : Z := 500000000.
Definition CRYPTONOTE_MAX_BLOCK_BLOB_SIZE : Z := 500000000.
Definition CRYPTONOTE_MAX_TX_SIZE : Z := 1000000000.
Definition CRYPTONOTE_PUBLIC_ADDRESS_BASE58_PREFIX : Z := 0x7ad4.
Definition CRYPTONOTE_MINED_MONEY_UNLOCK_WINDOW : Z := 10.
Definition CRYPTONOTE_BLOCK_FUTURE_TIME_LIMIT : Z := 60 * 60 * 2.
Definition CRYPTONOTE_BLOCK_FUTURE_TIME_LIMIT_V1 : Z := 360.
Definition BLOCKCHAIN_TIMESTAMP_CHECK_WINDOW : Z := 30.
Definition BLOCKCHAIN_TIMESTAMP_CHECK_WINDOW_V1 : Z := 11.
Definition MONEY_SUPPLY : Z := 200000000000000.
Definition ZAWY_DIFFICULTY_BLOCK_INDEX : Z := 0.
Definition ZAWY_DIFFICULTY_FIX : Z := 1.
Definition ZAWY_DIFFICULTY_BLOCK_VERSION : Z := 0.
Definition CRYPTONOTE_REWARD_BLOCKS_WINDOW : Z := 100.
Definition CRYPTONOTE_BLOCK_GRANTED_FULL_REWARD_ZONE : Z := 100000.
Definition CRYPTONOTE_COINBASE_BLOB_RESERVED_SIZE : Z := 600.
Definition CRYPTONOTE_DISPLAY_DECIMAL_POINT : Z := 6.
Definition POINT : Z := 1000.
Definition COIN : Z := 1000000.
Definition MINIMUM_FEE : Z := 10.
Definition MINIMUM_FEE_V1 : Z := 100.
Definition MINIMUM_FEE_V2 : Z := 1000.
Definition MINIMUM_FEE_BANKING : Z := 1000.
Definition DEFAULT_DUST_THRESHOLD : Z := 10.
Definition DIFFICULTY_TARGET : Z := 120.
Definition EXPECTED_NUMBER_OF_BLOCKS_PER_DAY : Z := 24 * 60 * 60 / DIFFICULTY_TARGET.
Definition DIFFICULTY_WINDOW : Z := EXPECTED_NUMBER_OF_BLOCKS_PER_DAY.
Definition DIFFICULTY_WINDOW_V1 : Z := DIFFICULTY_WINDOW.
Definition DIFFICULTY_WINDOW_V2 : Z := DIFFICULTY_WINDOW.
Definition DIFFICULTY_WINDOW_V3 : Z := 60.
Definition DIFFICULTY_WINDOW_V4 : Z := 60.
Definition DIFFICULTY_BLOCKS_COUNT : Z := DIFFICULTY_WINDOW_V3 + 1.
Definition DIFFICULTY_BLOCKS_COUNT_V1 : Z := DIFFICULTY_WINDOW_V4 + 1.
Definition DIFFICULTY_CUT : Z := 60.
Definition DIFFICULTY_CUT_V1 : Z := DIFFICULTY_CUT.
Definition DIFFICULTY_CUT_V2 : Z := DIFFICULTY_CUT.
Definition DIFFICULTY_LAG : Z := 15.
Definition DEPOSIT_MIN_AMOUNT : Z := 1 * COIN.
Definition DEPOSIT_MIN_TERM : Z := 5040.
Definition DEPOSIT_MAX_TERM : Z := 1 * 12 * 21900.
Definition DEPOSIT_MAX_TERM_V1 : Z := 64800 * 20.
Definition DEPOSIT_MIN_TERM_V3 : Z := 21900.
Definition DEPOSIT_MAX_TERM_V3 : Z := 1 * 12 * 21900.
Definition DEPOSIT_HEIGHT_V3 : Z := 413400.
Definition DEPOSIT_MIN_TOTAL_RATE_FACTOR : Z := 0.
Definition DEPOSIT_HEIGHT_V4 : Z := 1162162.
Definition BLOCK_WITH_MISSING_INTEREST : Z := 425799.
Definition MULTIPLIER_FACTOR : Z := 100.
Definition END_MULTIPLIER_BLOCK : Z := 12750.
Definition MAX_BLOCK_SIZE_INITIAL : Z := CRYPTONOTE_BLOCK_GRANTED_FULL_REWARD_ZONE * 10.
Definition MAX_BLOCK_SIZE_GROWTH_SPEED_NUMERATOR : Z := 100 * 1024.
Definition MAX_BLOCK_SIZE_GROWTH_SPEED_DENOMINATOR : Z := 365 * 24 * 60 * 60 / DIFFICULTY_TARGET.
Definition CRYPTONOTE_LOCKED_TX_ALLOWED_DELTA_BLOCKS : Z := 1.
Definition CRYPTONOTE_LOCKED_TX_ALLOWED_DELTA_SECONDS : Z :=
  DIFFICULTY_TARGET * CRYPTONOTE_LOCKED_TX_ALLOWED_DELTA_BLOCKS.
Definition CRYPTONOTE_MAX_TX_SIZE_LIMIT : Z :=
  CRYPTONOTE_BLOCK_GRANTED_FULL_REWARD_ZONE - CRYPTONOTE_COINBASE_BLOB_RESERVED_SIZE.
Definition CRYPTONOTE_MEMPOOL_TX_LIVETIME : Z := 60 * 60 * 12.
Definition CRYPTONOTE_MEMPOOL_TX_FROM_ALT_BLOCK_LIVETIME : Z := 60 * 60 * 12.
Definition CRYPTONOTE_NUMBER_OF_PERIODS_TO_FORGET_TX_DELETED_FROM_POOL : Z := 7.
Definition FUSION_TX_MAX_SIZE : Z := CRYPTONOTE_BLOCK_GRANTED_FULL_REWARD_ZONE * 30 / 100.
Definition FUSION_TX_MIN_INPUT_COUNT : Z := 12.
Definition FUSION_TX_MIN_IN_OUT_COUNT_RATIO : Z := 4.
Definition UPGRADE_HEIGHT_V2 : Z := 1.
Definition UPGRADE_HEIGHT_V3 : Z := 12750.
Definition UPGRADE_HEIGHT_V4 : Z := 45000.
Definition UPGRADE_HEIGHT_V6 : Z := 104200.
Definition UPGRADE_HEIGHT_V7 : Z := 195765.
Definition UPGRADE_HEIGHT_V8 : Z := 661300.
Definition UPGRADE_VOTING_THRESHOLD : Z := 90.
Definition UPGRADE_VOTING_WINDOW : Z := EXPECTED_NUMBER_OF_BLOCKS_PER_DAY.
Definition UPGRADE_WINDOW : Z := EXPECTED_NUMBER_OF_BLOCKS_PER_DAY.
Definition TESTNET_UPGRADE_HEIGHT_V2 : Z := 1.
Definition TESTNET_UPGRADE_HEIGHT_V3 : Z := 12.
Definition TESTNET_UPGRADE_HEIGHT_V6 : Z := 48.
Definition TESTNET_UPGRADE_HEIGHT_V7 : Z := 60.
Definition TESTNET_UPGRADE_HEIGHT_V8 : Z := 72.
Definition TESTNET_DEPOSIT_MIN_TERM_V3 : Z := 30.
Definition TESTNET_DEPOSIT_MAX_TERM_V3 : Z := 12 * 30.
Definition TESTNET_DEPOSIT_HEIGHT_V3 : Z := 60.
Definition TESTNET_DEPOSIT_HEIGHT_V4 : Z := 300000.
Definition TESTNET_BLOCK_WITH_MISSING_INTEREST : Z := 0.
Definition START_BLOCK_REWARD : Z := 5000 * POINT.
Definition FOUNDATION_TRUST : Z := 12000000 * COIN.
Definition MAX_BLOCK_REWARD : Z := 15 * COIN.
Definition MAX_BLOCK_REWARD_V1 : Z := 6 * COIN.
Definition REWARD_INCREASE_INTERVAL : Z := 21900.
Definition GENESIS_TIMESTAMP : Z := 1527078920.
Definition TESTNET_GENESIS_TIMESTAMP : Z := 1632048808.

End Config.
Import Config.

(** The numeric members of [class Currency]. *)
Record Currency := MkCurrency {
  m_maxBlockHeight : Z;
  m_maxBlockBlobSize : Z;
  m_maxTxSize : Z;
  m_publicAddressBase58Prefix : Z;
  m_minedMoneyUnlockWindow : Z;
  m_timestampCheckWindow : Z;
  m_timestampCheckWindow_v1 : Z;
  m_blockFutureTimeLimit : Z;
  m_blockFutureTimeLimit_v1 : Z;
  m_moneySupply : Z;
  m_rewardBlocksWindow : Z;
  m_zawyDifficultyBlockIndex : Z;
  m_zawyDifficultyV2 : Z;
  m_zawyDifficultyBlockVersion : Z;
  m_blockGrantedFullRewardZone : Z;
  m_minerTxBlobReservedSize : Z;
  m_numberOfDecimalPlaces : Z;
  m_coin : Z;
  m_minimumFee : Z;
  m_minimumFeeV1 : Z;
  m_minimumFeeV2 : Z;
  m_minimumFeeBanking : Z;
  m_defaultDustThreshold : Z;
  m_difficultyTarget : Z;
  m_difficultyWindow : Z;
  m_difficultyLag : Z;
  m_difficultyCut : Z;
  m_depositMinAmount : Z;
  m_depositMinTerm : Z;
  m_depositMaxTerm : Z;
  m_depositMaxTermV1 : Z;
  m_depositMinTermV3 : Z;
  m_depositMaxTermV3 : Z;
  m_depositMinTotalRateFactor : Z;
  m_depositMaxTotalRate : Z;
  m_depositHeightV3 : Z;
  m_depositHeightV4 : Z;
  m_blockWithMissingInterest : Z;
  m_maxBlockSizeInitial : Z;
  m_maxBlockSizeGrowthSpeedNumerator : Z;
  m_maxBlockSizeGrowthSpeedDenominator : Z;
  m_lockedTxAllowedDeltaSeconds : Z;
  m_lockedTxAllowedDeltaBlocks : Z;
  m_mempoolTxLiveTime : Z;
  m_mempoolTxFromAltBlockLiveTime : Z;
  m_numberOfPeriodsToForgetTxDeletedFromPool : Z;
  m_upgradeHeightV2 : Z;
  m_upgradeHeightV3 : Z;
  m_upgradeHeightV6 : Z;
  m_upgradeHeightV7 : Z;
  m_upgradeHeightV8 : Z;
  m_upgradeVotingThreshold : Z;
  m_upgradeVotingWindow : Z;
  m_upgradeWindow : Z;
  m_transactionMaxSize : Z;
  m_fusionTxMaxSize : Z;
  m_fusionTxMinInputCount : Z;
  m_fusionTxMinInOutCountRatio : Z;
  m_testnet : bool;
}.

Module CurrencyImpl.

(** [numberOfDecimalPlaces]: the loop that computes [m_coin]. *)
Fixpoint coin_loop (n : nat) (coin : Z) : Z :=
  match n with
  | O => coin
  | S n => coin_loop n (u64 (coin * 10))
  end.

(** The constructor of [CurrencyBuilder] followed by [testnet(val)]. *)
Definition CurrencyBuilder (val : bool) : Currency :=
  let net (main test : Z) := if val then test else main in
  {| m_maxBlockHeight := CRYPTONOTE_MAX_BLOCK_NUMBER;
     m_maxBlockBlobSize := CRYPTONOTE_MAX_BLOCK_BLOB_SIZE;
     m_maxTxSize := CRYPTONOTE_MAX_TX_SIZE;
     m_publicAddressBase58Prefix := CRYPTONOTE_PUBLIC_ADDRESS_BASE58_PREFIX;
     m_minedMoneyUnlockWindow := CRYPTONOTE_MINED_MONEY_UNLOCK_WINDOW;
     m_timestampCheckWindow := BLOCKCHAIN_TIMESTAMP_CHECK_WINDOW;
     m_timestampCheckWindow_v1 := BLOCKCHAIN_TIMESTAMP_CHECK_WINDOW_V1;
     m_blockFutureTimeLimit := CRYPTONOTE_BLOCK_FUTURE_TIME_LIMIT;
     m_blockFutureTimeLimit_v1 := CRYPTONOTE_BLOCK_FUTURE_TIME_LIMIT_V1;
     m_moneySupply := MONEY_SUPPLY;
     m_rewardBlocksWindow := CRYPTONOTE_REWARD_BLOCKS_WINDOW;
     m_zawyDifficultyBlockIndex := ZAWY_DIFFICULTY_BLOCK_INDEX;
     m_zawyDifficultyV2 := ZAWY_DIFFICULTY_FIX;
     m_zawyDifficultyBlockVersion := ZAWY_DIFFICULTY_BLOCK_VERSION;
     m_blockGrantedFullRewardZone := CRYPTONOTE_BLOCK_GRANTED_FULL_REWARD_ZONE;
     m_minerTxBlobReservedSize := CRYPTONOTE_COINBASE_BLOB_RESERVED_SIZE;
     m_numberOfDecimalPlaces := CRYPTONOTE_DISPLAY_DECIMAL_POINT;
     m_coin := coin_loop (Z.to_nat CRYPTONOTE_DISPLAY_DECIMAL_POINT) 1;
     m_minimumFee := MINIMUM_FEE;
     m_minimumFeeV1 := MINIMUM_FEE_V1;
     m_minimumFeeV2 := MINIMUM_FEE_V2;
     m_minimumFeeBanking := MINIMUM_FEE_BANKING;
     m_defaultDustThreshold := DEFAULT_DUST_THRESHOLD;
     m_difficultyTarget := DIFFICULTY_TARGET;
     m_difficultyWindow := DIFFICULTY_WINDOW;
     m_difficultyLag := DIFFICULTY_LAG;
     m_difficultyCut := DIFFICULTY_CUT;
     m_depositMinAmount := DEPOSIT_MIN_AMOUNT;
     m_depositMinTerm := net DEPOSIT_MIN_TERM TESTNET_DEPOSIT_MIN_TERM_V3;
     m_depositMaxTerm := net DEPOSIT_MAX_TERM TESTNET_DEPOSIT_MAX_TERM_V3;
     m_depositMaxTermV1 := DEPOSIT_MAX_TERM_V1;
     m_depositMinTermV3 := net DEPOSIT_MIN_TERM_V3 TESTNET_DEPOSIT_MIN_TERM_V3;
     m_depositMaxTermV3 := net DEPOSIT_MAX_TERM_V3 TESTNET_DEPOSIT_MAX_TERM_V3;
     m_depositMinTotalRateFactor := DEPOSIT_MIN_TOTAL_RATE_FACTOR;
     m_depositMaxTotalRate := DEPOSIT_MAX_TOTAL_RATE;
     m_depositHeightV3 := net DEPOSIT_HEIGHT_V3 TESTNET_DEPOSIT_HEIGHT_V3;
     m_depositHeightV4 := net DEPOSIT_HEIGHT_V4 TESTNET_DEPOSIT_HEIGHT_V4;
     m_blockWithMissingInterest := net BLOCK_WITH_MISSING_INTEREST TESTNET_BLOCK_WITH_MISSING_INTEREST;
     m_maxBlockSizeInitial := MAX_BLOCK_SIZE_INITIAL;
     m_maxBlockSizeGrowthSpeedNumerator := MAX_BLOCK_SIZE_GROWTH_SPEED_NUMERATOR;
     m_maxBlockSizeGrowthSpeedDenominator := MAX_BLOCK_SIZE_GROWTH_SPEED_DENOMINATOR;
     m_lockedTxAllowedDeltaSeconds := CRYPTONOTE_LOCKED_TX_ALLOWED_DELTA_SECONDS;
     m_lockedTxAllowedDeltaBlocks := CRYPTONOTE_LOCKED_TX_ALLOWED_DELTA_BLOCKS;
     m_mempoolTxLiveTime := CRYPTONOTE_MEMPOOL_TX_LIVETIME;
     m_mempoolTxFromAltBlockLiveTime := CRYPTONOTE_MEMPOOL_TX_FROM_ALT_BLOCK_LIVETIME;
     m_numberOfPeriodsToForgetTxDeletedFromPool :=
       CRYPTONOTE_NUMBER_OF_PERIODS_TO_FORGET_TX_DELETED_FROM_POOL;
     m_upgradeHeightV2 := net UPGRADE_HEIGHT_V2 TESTNET_UPGRADE_HEIGHT_V2;
     m_upgradeHeightV3 := net UPGRADE_HEIGHT_V3 TESTNET_UPGRADE_HEIGHT_V3;
     m_upgradeHeightV6 := net UPGRADE_HEIGHT_V6 TESTNET_UPGRADE_HEIGHT_V6;
     m_upgradeHeightV7 := net UPGRADE_HEIGHT_V7 TESTNET_UPGRADE_HEIGHT_V7;
     m_upgradeHeightV8 := net UPGRADE_HEIGHT_V8 TESTNET_UPGRADE_HEIGHT_V8;
     m_upgradeVotingThreshold := UPGRADE_VOTING_THRESHOLD;
     m_upgradeVotingWindow := UPGRADE_VOTING_WINDOW;
     m_upgradeWindow := UPGRADE_WINDOW;
     m_transactionMaxSize := CRYPTONOTE_MAX_TX_SIZE_LIMIT;
     m_fusionTxMaxSize := FUSION_TX_MAX_SIZE;
     m_fusionTxMinInputCount := FUSION_TX_MIN_INPUT_COUNT;
     m_fusionTxMinInOutCountRatio := FUSION_TX_MIN_IN_OUT_COUNT_RATIO;
     m_testnet := val |}.

(** ** CryptoNoteBasicImpl.cpp *)

(** The assertions (sizes that fit 32 bits, a block of at most twice the median, a penalised
    amount below the amount) are not modelled. *)
Definition getPenalizedAmount (amount medianSize currentBlockSize : Z) : Z :=
  if amount =? 0 then 0
  else if currentBlockSize <=? medianSize then amount
  else
    let '(productHi, productLo) :=
      mul128 amount (u64 (currentBlockSize * u64 (u64 (2 * medianSize) - currentBlockSize))) in
    let '(penalizedAmountHi, penalizedAmountLo, _) := div128_32 productHi productLo (u32 medianSize) in
    let '(_, penalizedAmountLo, _) := div128_32 penalizedAmountHi penalizedAmountLo (u32 medianSize) in
    penalizedAmountLo.

(** ** Rewards *)

Definition REWARD_INCREASING_FACTOR : list Z := (fun i => 250000 * Z.of_nat i) <$> List.seq 0 49.

Section currency.
Context (c : Currency).

Definition timestampCheckWindow (blockMajorVersion : Z) : Z :=
  if BLOCK_MAJOR_VERSION_4 <=? blockMajorVersion
  then m_timestampCheckWindow_v1 c else m_timestampCheckWindow c.

Definition blockFutureTimeLimit (blockMajorVersion : Z) : Z :=
  if BLOCK_MAJOR_VERSION_4 <=? blockMajorVersion
  then m_blockFutureTimeLimit_v1 c else m_blockFutureTimeLimit c.

Definition difficultyBlocksCountByBlockVersion (blockMajorVersion : Z) : Z :=
  if BLOCK_MAJOR_VERSION_8 <=? blockMajorVersion then DIFFICULTY_BLOCKS_COUNT_V1
  else if BLOCK_MAJOR_VERSION_4 <=? blockMajorVersion then DIFFICULTY_BLOCKS_COUNT
  else u64 (m_difficultyWindow c + m_difficultyLag c).

(** Reading [REWARD_INCREASING_FACTOR] out of range is [None]. *)
Definition baseRewardFunction (alreadyGeneratedCoins height : Z) : option Z :=
  if height =? 1 then Some FOUNDATION_TRUST
  else
    base_reward ←
      (if m_upgradeHeightV8 c <? height then Some MAX_BLOCK_REWARD_V1
       else
         let incrIntervals := height / REWARD_INCREASE_INTERVAL in
         factor ← REWARD_INCREASING_FACTOR !! Z.to_nat incrIntervals;
         Some (u64 (START_BLOCK_REWARD + factor)));
    let base_reward := Z.min base_reward MAX_BLOCK_REWARD in
    Some (Z.min base_reward (u64 (m_moneySupply c - alreadyGeneratedCoins))).

Definition upgradeHeight (majorVersion : Z) : Z :=
  if majorVersion =? BLOCK_MAJOR_VERSION_2 then m_upgradeHeightV2 c
  else if majorVersion =? BLOCK_MAJOR_VERSION_3 then m_upgradeHeightV3 c
  else if majorVersion =? BLOCK_MAJOR_VERSION_4 then m_upgradeHeightV6 c
  else if majorVersion =? BLOCK_MAJOR_VERSION_7 then m_upgradeHeightV7 c
  else if majorVersion =? BLOCK_MAJOR_VERSION_8 then m_upgradeHeightV8 c
  else u32 (-1).

(** The reward and the emission change; [None] when the block is too big. *)
Definition getBlockReward (medianSize currentBlockSize alreadyGeneratedCoins fee height : Z) :
    option (Z * Z) :=
  baseReward ← baseRewardFunction alreadyGeneratedCoins height;
  let medianSize := Z.max medianSize (m_blockGrantedFullRewardZone c) in
  if u64 (2 * medianSize) <? currentBlockSize then None
  else
    let penalizedBaseReward := getPenalizedAmount baseReward medianSize currentBlockSize in
    let penalizedFee := getPenalizedAmount fee medianSize currentBlockSize in
    let emissionChange := i64 (penalizedBaseReward - (fee - penalizedFee)) in
    let reward := u64 (penalizedBaseReward + penalizedFee) in
    Some (reward, emissionChange).

(** ** Interest *)

Section interest.
(** [pow] of the C library, on [double]s. *)
Context (pow : Float.fl -> Float.fl -> Float.fl).

(** [static_cast<float>(x)] of a [double] literal [n / d]. *)
Definition float_literal (n d : Z) : Float.fl := Float.convert 24 (Float.round 53 n d).

Definition quantity_tier (amount4Humans : Z) : Float.fl :=
  let a := amount4Humans in
  let between lo hi := (lo <=? a) && (a <? hi) in
  let qTier := Float.of_Z 24 1 in
  let qTier := if (110000 <? a) && (a <? 180000) then float_literal 101 100 else qTier in
  let qTier := if between 180000 260000 then float_literal 102 100 else qTier in
  let qTier := if between 260000 350000 then float_literal 103 100 else qTier in
  let qTier := if between 350000 450000 then float_literal 104 100 else qTier in
  let qTier := if between 450000 560000 then float_literal 105 100 else qTier in
  let qTier := if between 560000 680000 then float_literal 106 100 else qTier in
  let qTier := if between 680000 810000 then float_literal 107 100 else qTier in
  let qTier := if between 810000 950000 then float_literal 108 100 else qTier in
  let qTier := if between 950000 1100000 then float_literal 109 100 else qTier in
  let qTier := if between 1100000 1260000 then float_literal 11 10 else qTier in
  let qTier := if between 1260000 1430000 then float_literal 111 100 else qTier in
  let qTier := if between 1430000 1610000 then float_literal 112 100 else qTier in
  let qTier := if between 1610000 1800000 then float_literal 113 100 else qTier in
  let qTier := if between 1800000 2000000 then float_literal 114 100 else qTier in
  if 2000000 <? a then float_literal 115 100 else qTier.

Definition calculateInterestV2 (amount term : Z) : Z :=
  if term mod 64800 =? 0 then
    let amount4Humans := amount / 1000000 in
    let qTier := quantity_tier amount4Humans in
    let mq := float_literal 14473 10000 in
    let termQuarters := Float.of_Z 24 (term / 64800) in
    let hundred := Float.of_Z 53 100 in
    let m8 := Float.convert 24
      (Float.sub 53
        (Float.mul 53 hundred (pow (Float.add 53 (Float.of_Z 53 1) (Float.div 53 mq hundred)) termQuarters))
        hundred) in
    let m5 := Float.mul 24 termQuarters (Float.round 24 1 2) in
    let m7 := Float.mul 24 m8
      (Float.add 24 (Float.of_Z 24 1) (Float.div 24 m5 (Float.of_Z 24 100))) in
    let rate := Float.mul 24 m7 qTier in
    let interest := Float.mul 24 (Float.of_Z 24 amount) (Float.div 24 rate (Float.of_Z 24 100)) in
    u64 (Float.trunc interest)
  else if term mod 5040 =? 0 then
    let actualAmount := Float.of_Z 24 amount in
    let weeks := Float.of_Z 24 (term / 5040) in
    let baseInterest := float_literal 696 10000 in
    let interestPerWeek := float_literal 2 10000 in
    let interestRate := Float.add 24 baseInterest (Float.mul 24 weeks interestPerWeek) in
    let interest := Float.mul 24 actualAmount
      (Float.div 24 (Float.mul 24 weeks interestRate) (Float.of_Z 24 100)) in
    u64 (Float.trunc interest)
  else 0.

(** The effective interest rate of a monthly deposit. *)
Definition effective_rate (amount4Humans term : Z) : Float.fl :=
  let baseInterest := float_literal 29 1000 in
  let baseInterest := if (10000 <=? amount4Humans) && (amount4Humans <? 20000)
                      then float_literal 39 1000 else baseInterest in
  let baseInterest := if 20000 <=? amount4Humans then float_literal 49 1000 else baseInterest in
  let months := Float.of_Z 24 (term / m_depositMinTermV3 c) in
  let months := if Float.ltb (Float.of_Z 24 12) months then Float.of_Z 24 12 else months in
  let ear := Float.add 24 baseInterest
    (Float.mul 24 (Float.sub 24 months (Float.of_Z 24 1)) (Float.round 24 1 1000)) in
  Float.mul 24 (Float.div 24 ear (Float.of_Z 24 12)) months.

Definition calculateInterestV3 (amount term : Z) : Z :=
  let amount4Humans := amount / m_coin c in
  let eir := effective_rate amount4Humans term in
  let interest := Float.mul 24 (Float.of_Z 24 amount) eir in
  u64 (Float.trunc interest).

Definition calculateInterest (amount term lockHeight : Z) : Z :=
  let term := if m_depositMaxTermV1 c <? term then m_depositMaxTermV1 c else term in
  if (term mod m_depositMinTermV3 c =? 0) && (m_depositHeightV3 c <? lockHeight)
  then calculateInterestV3 amount term
  else if term mod 64800 =? 0 then calculateInterestV2 amount term
  else if term mod 5040 =? 0 then calculateInterestV2 amount term
  else
    let termRate := u64 (term * m_depositMaxTotalRate c) in
    if termRate <? m_depositMinTotalRateFactor c then 0
    else
      let a := termRate - m_depositMinTotalRateFactor c in
      let '(bHi, bLo) := mul128 amount a in
      let '(cHi, cLo, _) := div128_32 bHi bLo (u32 (100 * m_depositMaxTerm c)) in
      if lockHeight <=? END_MULTIPLIER_BLOCK then
        let '(interestHi, interestLo) := mul128 cLo MULTIPLIER_FACTOR in
        if negb (interestHi =? 0) then UINT64_MAX else interestLo
      else cLo.

Definition getInterestForInput (input : MultisignatureInput) (height : Z) : Z :=
  if (mi_term input =? 0) || (m_depositMaxTermV1 c <? mi_term input) then 0
  else
    let lockHeight := u32 (height - mi_term input) in
    let lockHeight := if height =? m_blockWithMissingInterest c then height else lockHeight in
    calculateInterest (mi_amount input) (mi_term input) lockHeight.

Definition calculateTotalTransactionInterest (tx : Transaction) (height : Z) : Z :=
  foldl (fun interest i =>
    match i with
    | InMultisignature m =>
        if negb (mi_term m =? 0) then u64 (interest + getInterestForInput m height) else interest
    | _ => interest
    end) 0 (inputs (prefix tx)).

(** [input_amount_visitor] *)
Definition getTransactionInputAmount (i : TransactionInput) (height : Z) : Z :=
  match i with
  | InBase _ => 0
  | InKey k => ki_amount k
  | InMultisignature m =>
      if mi_term m =? 0 then mi_amount m else u64 (mi_amount m + getInterestForInput m height)
  end.

Definition getTransactionAllInputsAmount (tx : Transaction) (height : Z) : Z :=
  foldl (fun amount i => u64 (amount + getTransactionInputAmount i height)) 0 (inputs (prefix tx)).

Definition is_deposit_input (i : TransactionInput) : bool :=
  match i with
  | InMultisignature m => negb (mi_term m =? 0)
  | _ => false
  end.

(** [None] is the [false] of an overspend. *)
Definition getTransactionFee_opt (tx : Transaction) (height : Z) : option Z :=
  if is_coinbase tx then Some 0
  else
    let amount_in :=
      foldl (fun a i => u64 (a + getTransactionInputAmount i height)) 0 (inputs (prefix tx)) in
    let amount_out := foldl (fun a o => u64 (a + out_amount o)) 0 (outputs (prefix tx)) in
    if amount_in <? amount_out then
      if existsb is_deposit_input (inputs (prefix tx)) then Some MINIMUM_FEE else None
    else Some (amount_in - amount_out).

Definition getTransactionFee (tx : Transaction) (height : Z) : Z :=
  default 0 (getTransactionFee_opt tx height).
End interest.

(** ** Sizes *)

Definition maxBlockCumulativeSize (height : Z) : Z :=
  u64 (m_maxBlockSizeInitial c
       + u64 (height * m_maxBlockSizeGrowthSpeedNumerator c) / m_maxBlockSizeGrowthSpeedDenominator c).

Definition getApproximateMaximumInputCount (transactionSize outputCount mixinCount : Z) : Z :=
  let KEY_IMAGE_SIZE := 32 in
  let OUTPUT_KEY_SIZE := 32 in
  let AMOUNT_SIZE := 8 + 2 in
  let GLOBAL_INDEXES_VECTOR_SIZE_SIZE := 1 in
  let GLOBAL_INDEXES_INITIAL_VALUE_SIZE := 4 in
  let GLOBAL_INDEXES_DIFFERENCE_SIZE := 4 in
  let SIGNATURE_SIZE := 64 in
  let EXTRA_TAG_SIZE := 1 in
  let INPUT_TAG_SIZE := 1 in
  let OUTPUT_TAG_SIZE := 1 in
  let PUBLIC_KEY_SIZE := 32 in
  let TRANSACTION_VERSION_SIZE := 1 in
  let TRANSACTION_UNLOCK_TIME_SIZE := 8 in
  let outputsSize := u64 (outputCount * (OUTPUT_TAG_SIZE + OUTPUT_KEY_SIZE + AMOUNT_SIZE)) in
  let headerSize := TRANSACTION_VERSION_SIZE + TRANSACTION_UNLOCK_TIME_SIZE + EXTRA_TAG_SIZE + PUBLIC_KEY_SIZE in
  let inputSize := u64 (INPUT_TAG_SIZE + AMOUNT_SIZE + KEY_IMAGE_SIZE + SIGNATURE_SIZE
    + GLOBAL_INDEXES_VECTOR_SIZE_SIZE + GLOBAL_INDEXES_INITIAL_VALUE_SIZE
    + mixinCount * (GLOBAL_INDEXES_DIFFERENCE_SIZE + SIGNATURE_SIZE)) in
  u64 (transactionSize - headerSize - outputsSize) / inputSize.

Definition validateOutput (amount : Z) (output : MultisignatureOutput) (height : Z) : bool :=
  if negb (mo_term output =? 0) then
    let term_ok :=
      if m_depositHeightV4 c <? height then
        negb ((mo_term output <? m_depositMinTermV3 c) || (m_depositMaxTermV3 c <? mo_term output)
              || negb (mo_term output mod m_depositMinTermV3 c =? 0))
      else negb ((mo_term output <? m_depositMinTerm c) || (m_depositMaxTermV1 c <? mo_term output)) in
    if negb term_ok then false
    else if amount <? m_depositMinAmount c then false
    else true
  else true.

Definition getGenesisTimestamp : Z :=
  if m_testnet c then TESTNET_GENESIS_TIMESTAMP else GENESIS_TIMESTAMP.

Definition minNumberVotingBlocks : Z :=
  u32 (u32 (m_upgradeVotingWindow c * m_upgradeVotingThreshold c) + 99) / 100.
Definition maxUpgradeDistance : Z := u32 (7 * m_upgradeWindow c).
Definition calculateUpgradeHeight (voteCompleteHeight : Z) : Z := u32 (voteCompleteHeight + m_upgradeWindow c).

(** ** Fusion transactions *)

(** The loop over the input amounts: [None] when one is dust. *)
Fixpoint fusion_inputs (amounts : list Z) (inputAmount : Z) : option Z :=
  match amounts with
  | [] => Some inputAmount
  | amount :: amounts =>
      if amount <? m_defaultDustThreshold c then None
      else fusion_inputs amounts (u64 (inputAmount + amount))
  end.

Definition isFusionAmounts (inputsAmounts outputsAmounts : list Z) (size : Z) : bool :=
  if m_fusionTxMaxSize c <? size then false
  else if Z.of_nat (length inputsAmounts) <? m_fusionTxMinInputCount c then false
  else if Z.of_nat (length inputsAmounts)
          <? u64 (Z.of_nat (length outputsAmounts) * m_fusionTxMinInOutCountRatio c) then false
  else
    match fusion_inputs inputsAmounts 0 with
    | None => false
    | Some inputAmount =>
        let expectedOutputsAmounts := decomposeAmount inputAmount (m_defaultDustThreshold c) [] in
        bool_decide (merge_sort Z.le expectedOutputsAmounts = outputsAmounts)
    end.

(** [getObjectBinarySize]: the largest [size_t] when the object does not serialize. *)
Definition getObjectBinarySize (tx : Transaction) : Z :=
  match toBinaryArray serializeTransaction tx with
  | None => UINT64_MAX
  | Some ba => Z.of_nat (length ba)
  end.

Definition isFusionTransaction (tx : Transaction) : bool :=
  isFusionAmounts (getInputsAmounts tx) (out_amount <$> outputs (prefix tx)) (getObjectBinarySize tx).

(** The power of ten on success. *)
Definition isAmountApplicableInFusionTransactionInput (amount threshold height : Z) : option Z :=
  if threshold <=? amount then None
  else if (height <? UPGRADE_HEIGHT_V4) && (amount <? m_defaultDustThreshold c) then None
  else
    let it := lower_bound PRETTY_AMOUNTS amount in
    match PRETTY_AMOUNTS !! it with
    | None => None
    | Some a => if negb (amount =? a) then None else Some (u8 (Z.of_nat it / 9))
    end.

(** ** The outputs of a miner transaction *)

(** [while (maxOuts < outAmounts.size())]: merges the last two amounts; one
    element goes per round. *)
Fixpoint merge_outs (fuel : nat) (maxOuts : nat) (outAmounts : list Z) : list Z :=
  match fuel with
  | O => outAmounts
  | S fuel =>
      if (maxOuts <? length outAmounts)%nat then
        let n := length outAmounts in
        let outAmounts :=
          <[(n - 2)%nat := u64 (outAmounts !!! (n - 2)%nat + outAmounts !!! (n - 1)%nat)]> outAmounts in
        merge_outs fuel maxOuts (take (n - 1) outAmounts)
      else outAmounts
  end.

Definition miner_out_amounts (blockReward : Z) (maxOuts : nat) : option (list Z) :=
  let outAmounts := decomposeAmount blockReward (m_defaultDustThreshold c) [] in
  if negb (1 <=? maxOuts)%nat then None
  else Some (merge_outs (length outAmounts) maxOuts outAmounts).
End currency.

(** ** The size penalty *)

(** The penalty as a rational function of the sizes, rounded down. *)
Definition penalized (amount m cur : Z) : Z :=
  if cur <=? m then amount else amount * (cur * (2 * m - cur)) / (m * m).

Lemma penalty_factor m cur : m < cur <= 2 * m -> 0 <= cur * (2 * m - cur) < m * m.
Proof. nia. Qed.

Lemma penalized_bounds amount m cur : 0 <= amount -> 0 < m -> cur <= 2 * m ->
  0 <= penalized amount m cur <= amount /\ (m < cur -> 0 < amount -> penalized amount m cur < amount).
Proof.
  intros Ha Hm Hc. unfold penalized. destruct (Z.leb_spec cur m); [lia|].
  pose proof (penalty_factor m cur ltac:(lia)) as Hf. set (k := cur * (2 * m - cur)) in *.
  set (mm := m * m) in *. assert (0 < mm) by (unfold mm; nia).
  split; [split|].
  - apply Z.div_pos; [|done]. apply Z.mul_nonneg_nonneg; lia.
  - apply Z.div_le_upper_bound; [done|]. rewrite (Z.mul_comm mm). apply Z.mul_le_mono_nonneg_l; lia.
  - intros _ Hp. apply Z.div_lt_upper_bound; [done|]. rewrite (Z.mul_comm mm).
    apply Z.mul_lt_mono_pos_l; lia.
Qed.

Lemma recombine n : n / 2 ^ 64 * 2 ^ 64 + n mod 2 ^ 64 = n.
Proof. pose proof (Z.div_mod n (2 ^ 64) ltac:(lia)). lia. Qed.

(** The two 128-by-32-bit divisions compute it, and the asserts on the result
    hold. *)
Lemma getPenalizedAmount_spec amount m cur : is_u64 amount -> 0 < m -> is_u32 m -> 0 <= cur <= 2 * m ->
  getPenalizedAmount amount m cur = penalized amount m cur.
Proof.
  intros Ha Hm Hm32 Hc. unfold getPenalizedAmount, penalized.
  destruct (Z.eqb_spec amount 0) as [->|Ha0].
  { rewrite Z.mul_0_l, Z.div_0_l by nia. by destruct (cur <=? m). }
  destruct (Z.leb_spec cur m); [done|].
  pose proof (penalty_factor m cur ltac:(lia)) as Hf.
  assert (m * m < 2 ^ 64) by (unfold is_u32 in Hm32; nia).
  rewrite (u64_id (2 * m)), (u64_id (2 * m - cur)), (u64_id (cur * _)), (u32_id m) by (unfold is_u64, is_u32 in *; lia).
  set (k := cur * (2 * m - cur)) in *. unfold is_u64, is_u32 in *.
  rewrite mul128_spec by (unfold is_u64; lia).
  assert (0 <= amount * k < 2 ^ 64 * 2 ^ 64) as HP by nia.
  rewrite div128_32_spec; [| | |lia]; cycle 1.
  { split; [apply Z.div_pos; lia | apply Z.div_lt_upper_bound; lia]. }
  { apply Z.mod_pos_bound. lia. }
  cbv zeta. rewrite recombine.
  assert (0 <= amount * k / m <= amount * k) as HQ
    by (split; [apply Z.div_pos; lia | apply Z.div_le_upper_bound; nia]).
  rewrite div128_32_spec; [| | |lia]; cycle 1.
  { split; [apply Z.div_pos; lia | apply Z.div_lt_upper_bound; lia]. }
  { apply Z.mod_pos_bound. lia. }
  cbv zeta. rewrite recombine, Z.div_div by lia.
  apply Z.mod_small. split; [apply Z.div_pos; nia|]. apply Z.div_lt_upper_bound; nia.
Qed.

(** the size penalty.  Under the asserted preconditions the 128-bit routine
    returns [amount * cur * (2 * median - cur) / median^2] for a block above the
    median and the amount otherwise; the result never exceeds the amount and is
    strictly smaller above the median. *)
Theorem getPenalizedAmount_correct amount m cur :
  is_u64 amount -> 0 < m -> is_u32 m -> 0 <= cur <= 2 * m ->
  getPenalizedAmount amount m cur =
    (if cur <=? m then amount else amount * (cur * (2 * m - cur)) / (m * m))
  /\ getPenalizedAmount amount m cur <= amount
  /\ (m < cur -> 0 < amount -> getPenalizedAmount amount m cur < amount).
Proof.
  intros Ha Hm Hm32 Hc. rewrite getPenalizedAmount_spec by done.
  destruct (penalized_bounds amount m cur) as [? ?]; [word | lia | lia |]. split_and!; [done | lia | done].
Qed.

Lemma getPenalizedAmount_correct_witness :
  getPenalizedAmount 15000000 100000 150000 = 15000000 * (150000 * (2 * 100000 - 150000)) / (100000 * 100000).
Proof. apply getPenalizedAmount_correct; word. Defined.

(** ** Block rewards *)

Lemma reward_table i : (i < 49)%nat -> REWARD_INCREASING_FACTOR !! i = Some (250000 * Z.of_nat i).
Proof.
  intros Hi. unfold REWARD_INCREASING_FACTOR. rewrite list_lookup_fmap.
  rewrite lookup_seq_lt by done. done.
Qed.

(** The base reward in closed form. *)
Definition base_reward (c : Currency) (generated height : Z) : Z :=
  if height =? 1 then FOUNDATION_TRUST
  else Z.min (Z.min (if m_upgradeHeightV8 c <? height then MAX_BLOCK_REWARD_V1
                     else START_BLOCK_REWARD + 250000 * (height / REWARD_INCREASE_INTERVAL))
               MAX_BLOCK_REWARD)
         (m_moneySupply c - generated).

Lemma baseRewardFunction_spec c generated height :
  m_upgradeHeightV8 c < 49 * REWARD_INCREASE_INTERVAL -> is_u64 (m_moneySupply c) ->
  0 <= generated <= m_moneySupply c -> is_u32 height ->
  baseRewardFunction c generated height = Some (base_reward c generated height).
Proof.
  intros Hv8 Hs Hg Hh. unfold baseRewardFunction, base_reward, REWARD_INCREASE_INTERVAL in *.
  destruct (height =? 1); [done|]. rewrite (u64_id (m_moneySupply c - generated)) by word.
  destruct (Z.ltb_spec (m_upgradeHeightV8 c) height); [done|].
  assert (0 <= height / 21900 < 49) by word.
  rewrite reward_table by lia. cbn [mbind option_bind]. rewrite Z2Nat.id by lia.
  rewrite u64_id by (unfold START_BLOCK_REWARD, POINT; word). done.
Qed.

Lemma base_reward_bounds c generated height : 0 <= m_moneySupply c - generated -> is_u32 height ->
  0 <= base_reward c generated height <= FOUNDATION_TRUST
  /\ (height <> 1 -> base_reward c generated height <= m_moneySupply c - generated).
Proof.
  intros Hg Hh. unfold base_reward, FOUNDATION_TRUST, MAX_BLOCK_REWARD, MAX_BLOCK_REWARD_V1,
    START_BLOCK_REWARD, COIN, POINT, REWARD_INCREASE_INTERVAL.
  assert (0 <= height / 21900) by word.
  destruct (Z.eqb_spec height 1); [lia|]. destruct (_ <? height); lia.
Qed.



(** ** Deposit interest *)

Definition base_interest (amount4Humans : Z) : Float.fl :=
  if 20000 <=? amount4Humans then float_literal 49 1000
  else if 10000 <=? amount4Humans then float_literal 39 1000
  else float_literal 29 1000.

(** The rate for a whole number of months, before and after the cap. *)
Definition cap_months (months : Float.fl) : Float.fl :=
  if Float.ltb (Float.of_Z 24 12) months then Float.of_Z 24 12 else months.

Definition rate_for (base months : Float.fl) : Float.fl :=
  let ear := Float.add 24 base
    (Float.mul 24 (Float.sub 24 months (Float.of_Z 24 1)) (Float.round 24 1 1000)) in
  Float.mul 24 (Float.div 24 ear (Float.of_Z 24 12)) months.

Lemma effective_rate_eq c a term :
  effective_rate c a term = rate_for (base_interest a) (cap_months (Float.of_Z 24 (term / m_depositMinTermV3 c))).
Proof.
  unfold effective_rate, base_interest, rate_for, cap_months.
  destruct (Z.leb_spec 20000 a); [done|]. destruct (Z.leb_spec 10000 a); [|done].
  by rewrite (proj2 (Z.ltb_lt a 20000)).
Qed.

Lemma above_twelve :
  forall_range (fun m => Float.ltb (Float.of_Z 24 12) (Float.of_Z 24 m)) (Z.to_nat 43188) 13 = true.
Proof. vm_compute. reflexivity. Qed.

Lemma cap_months_spec m : 0 <= m <= 43200 -> cap_months (Float.of_Z 24 m) = Float.of_Z 24 (Z.min m 12).
Proof.
  intros Hm. unfold cap_months. destruct (Z.leb_spec m 12).
  - rewrite Z.min_l by done.
    assert (negb (Float.ltb (Float.of_Z 24 12) (Float.of_Z 24 m)) = true) as H1%negb_true_iff.
    { apply (forall_range_spec (fun m => negb (Float.ltb (Float.of_Z 24 12) (Float.of_Z 24 m))) 13 0);
        [by vm_compute | lia]. }
    by rewrite H1.
  - rewrite Z.min_r by lia.
    by rewrite (forall_range_spec _ _ _ above_twelve m) by lia.
Qed.

(** All rates of the monthly deposits are at most [6.00001] percent. *)
Definition rate_small (base : Float.fl) (m : Z) : bool :=
  Float.fl_leb (rate_for base (Float.of_Z 24 m)) 600001 10000000.

Lemma rate_small_checked a : forall_range (rate_small (base_interest a)) 13 0 = true.
Proof.
  unfold base_interest. destruct (20000 <=? a); [vm_compute; reflexivity|].
  destruct (10000 <=? a); vm_compute; reflexivity.
Qed.

Lemma rate_for_upper a m : 0 <= m <= 12 ->
  Float.fl_le (rate_for (base_interest a) (Float.of_Z 24 m)) 600001 10000000.
Proof.
  intros Hm. apply Float.fl_leb_le. fold (rate_small (base_interest a) m).
  apply (forall_range_spec _ 13 0); [apply rate_small_checked | lia].
Qed.

Lemma months_range t term : 0 <= term <= DEPOSIT_MAX_TERM_V1 ->
  0 <= term / m_depositMinTermV3 (CurrencyBuilder t) <= 43200.
Proof.
  unfold DEPOSIT_MAX_TERM_V1. intros. destruct t; simpl; unfold DEPOSIT_MIN_TERM_V3, TESTNET_DEPOSIT_MIN_TERM_V3; word.
Qed.

Lemma calculateInterestV3_upper t amount term : is_u64 amount -> 0 <= term <= DEPOSIT_MAX_TERM_V1 ->
  0 <= calculateInterestV3 (CurrencyBuilder t) amount term
  /\ calculateInterestV3 (CurrencyBuilder t) amount term * 1000000 <= amount * 60001.
Proof.
  intros Ha Ht. unfold calculateInterestV3. rewrite effective_rate_eq.
  pose proof (months_range t term Ht) as Hm. rewrite cap_months_spec by done.
  set (r := rate_for _ _).
  assert (Float.fl_le r 600001 10000000) as Hr by (apply rate_for_upper; lia).
  assert (Float.fl_le (Float.of_Z 24 amount) (amount * (2 ^ 24 + 1)) (1 * 2 ^ 24)) as Hx
    by (apply Float.round_upper; word).
  set (f := Float.mul 24 (Float.of_Z 24 amount) r) in *.
  assert (Float.fl_le f (amount * (2 ^ 24 + 1) * 600001 * (2 ^ 24 + 1)) (1 * 2 ^ 24 * 10000000 * 2 ^ 24)) as Hp
    by (by apply Float.mul_upper).
  apply Float.fl_le_trunc in Hp as Hu; [|lia | word].
  pose proof (Float.trunc_nonneg f (proj1 Hp)) as Hn. unfold is_u64 in Ha.
  rewrite u64_id by (unfold is_u64; lia). lia.
Qed.

(** Monthly deposits.  On both networks and for every term the interest of a
    deposit is at most 6.0001 percent of the amount, single-precision rounding
    included, so it never overflows and never exceeds the deposit. *)
Theorem calculateInterestV3_bound t amount term : is_u64 amount -> 0 <= term <= DEPOSIT_MAX_TERM_V1 ->
  0 <= calculateInterestV3 (CurrencyBuilder t) amount term
  /\ calculateInterestV3 (CurrencyBuilder t) amount term * 1000000 <= amount * 60001.
Proof. apply calculateInterestV3_upper. Qed.

Lemma calculateInterestV3_bound_witness :
  0 <= calculateInterestV3 (CurrencyBuilder false) 20000000000 262800
  /\ calculateInterestV3 (CurrencyBuilder false) 20000000000 262800 * 1000000 <= 20000000000 * 60001.
Proof. apply calculateInterestV3_bound; [word | unfold DEPOSIT_MAX_TERM_V1; lia]. Defined.

(** The legacy rule: neither months nor weeks nor quarters. *)
Definition legacy_term (c : Currency) (term lockHeight : Z) : Prop :=
  term mod 64800 <> 0 /\ term mod 5040 <> 0
  /\ (term mod m_depositMinTermV3 c <> 0 \/ lockHeight <= m_depositHeightV3 c).

(** legacy interest.  On the main network a term that is no multiple of the
    later products earns [amount * 4 * term / (100 * 262800)] rounded down, a
    hundred times that in the early-deposit era, saturating at the 64-bit
    maximum; the 128-bit intermediate results are exact and the asserted high
    word is zero. *)
Theorem calculateInterest_legacy pow amount term lockHeight :
  let c := CurrencyBuilder false in
  is_u64 amount -> 0 <= term <= DEPOSIT_MAX_TERM_V1 -> legacy_term c term lockHeight ->
  let interest := amount * (4 * term) / (100 * DEPOSIT_MAX_TERM) in
  interest <= amount
  /\ calculateInterest c pow amount term lockHeight =
     if END_MULTIPLIER_BLOCK <? lockHeight then interest
     else if 100 * interest <? 2 ^ 64 then 100 * interest else UINT64_MAX.
Proof.
  intros c Ha Ht (H1 & H2 & H3) interest.
  change (100 * DEPOSIT_MAX_TERM) with 26280000 in *. unfold DEPOSIT_MAX_TERM_V1 in Ht.
  assert (0 <= interest <= amount) as Hi.
  { unfold interest. unfold is_u64 in Ha. split; [apply Z.div_pos; nia|].
    apply Z.div_le_upper_bound; nia. }
  split; [lia|]. unfold calculateInterest.
  change (m_depositMaxTermV1 c) with 1296000. rewrite (proj2 (Z.ltb_ge 1296000 term)) by lia.
  rewrite (proj2 (Z.eqb_neq (term mod 64800) 0)), (proj2 (Z.eqb_neq (term mod 5040) 0)) by done.
  replace ((term mod m_depositMinTermV3 c =? 0) && (m_depositHeightV3 c <? lockHeight)) with false
    by (symmetry; apply andb_false_iff; rewrite Z.eqb_neq, Z.ltb_ge; done).
  change (m_depositMaxTotalRate c) with 4. change (m_depositMinTotalRateFactor c) with 0.
  change (u32 (100 * m_depositMaxTerm c)) with 26280000.
  rewrite (u64_id (term * 4)) by word. rewrite (proj2 (Z.ltb_ge (term * 4) 0)), Z.sub_0_r by lia.
  rewrite mul128_spec by word.
  assert (0 <= amount * (term * 4) < 2 ^ 64 * 2 ^ 64) by (unfold is_u64 in Ha; nia).
  rewrite div128_32_spec; [| | |lia]; cycle 1.
  { split; [apply Z.div_pos; lia | apply Z.div_lt_upper_bound; lia]. }
  { apply Z.mod_pos_bound. lia. }
  cbv zeta. rewrite recombine, (Z.mul_comm term 4). fold interest.
  rewrite (Z.mod_small interest) by word.
  rewrite Z.ltb_antisym. destruct (lockHeight <=? END_MULTIPLIER_BLOCK); [|done]. cbn [negb].
  unfold MULTIPLIER_FACTOR. rewrite mul128_spec by word. rewrite (Z.mul_comm interest 100).
  destruct (Z.ltb_spec (100 * interest) (2 ^ 64)).
  - rewrite Z.div_small, Z.mod_small by lia. done.
  - rewrite (proj2 (Z.eqb_neq (100 * interest / 2 ^ 64) 0)) by word. done.
Qed.

Lemma calculateInterest_legacy_witness :
  calculateInterest (CurrencyBuilder false) (fun x _ => x) 1000000000 21901 20000
  = 1000000000 * (4 * 21901) / (100 * DEPOSIT_MAX_TERM).
Proof.
  apply (calculateInterest_legacy (fun x _ => x) 1000000000 21901 20000);
    [word | unfold DEPOSIT_MAX_TERM_V1; lia |].
  split_and!; [by vm_compute | by vm_compute | left; by vm_compute].
Defined.

(** A deposit output accepted under the fixed terms: the term is a whole number of
    months, from one to twelve. *)
Lemma validateOutput_months t amount o height :
  let c := CurrencyBuilder t in
  m_depositHeightV4 c < height -> mo_term o <> 0 -> validateOutput c amount o height = true ->
  DEPOSIT_MIN_AMOUNT <= amount
  /\ exists months, 1 <= months <= 12 /\ mo_term o = months * m_depositMinTermV3 c.
Proof.
  intros c Hh Ht. unfold validateOutput.
  rewrite (proj2 (Z.eqb_neq _ 0)), (proj2 (Z.ltb_lt _ height)) by done. cbn [negb].
  rewrite negb_involutive. destruct (_ || _) eqn:E; [done|].
  destruct (Z.ltb_spec amount (m_depositMinAmount c)) as [|Ha]; [done|]. intros _. split; [exact Ha|].
  apply orb_false_iff in E as [[E1 E2]%orb_false_iff E3%negb_false_iff].
  apply Z.ltb_ge in E1, E2. apply Z.eqb_eq in E3.
  assert (0 < m_depositMinTermV3 c /\ m_depositMaxTermV3 c = 12 * m_depositMinTermV3 c) as [Hp Hm]
    by (destruct t; by vm_compute).
  exists (mo_term o / m_depositMinTermV3 c).
  pose proof (Z.div_mod (mo_term o) (m_depositMinTermV3 c) ltac:(lia)). nia.
Qed.

(** Deposit terms.  Past the height of the fixed terms the node accepts a
    deposit output only for one to twelve months and at least the minimum amount,
    and such a deposit, spent after its term, earns the monthly interest. *)
Theorem validateOutput_interest t pow amount o height lockHeight :
  let c := CurrencyBuilder t in
  m_depositHeightV4 c < height -> mo_term o <> 0 -> validateOutput c amount o height = true ->
  height <= lockHeight ->
  DEPOSIT_MIN_AMOUNT <= amount
  /\ (exists months, 1 <= months <= 12 /\ mo_term o = months * m_depositMinTermV3 c)
  /\ calculateInterest c pow amount (mo_term o) lockHeight = calculateInterestV3 c amount (mo_term o).
Proof.
  intros c Hh Ht Hv Hl. destruct (validateOutput_months t amount o height Hh Ht Hv) as [Ha (n & Hn & E)].
  split_and!; [done | by exists n |]. fold c in E. unfold calculateInterest.
  assert (0 < m_depositMinTermV3 c <= 21900 /\ m_depositMaxTermV1 c = 1296000
    /\ m_depositHeightV3 c < m_depositHeightV4 c) as (Hp & Hm & Hv3) by (destruct t; by vm_compute).
  rewrite (proj2 (Z.ltb_ge _ (mo_term o))), E, Z.mod_mul by nia. rewrite (proj2 (Z.ltb_lt _ lockHeight)) by lia. done.
Qed.

Lemma validateOutput_interest_witness :
  calculateInterest (CurrencyBuilder false) (fun x _ => x) 1000000 43800 1200000
  = calculateInterestV3 (CurrencyBuilder false) 1000000 43800.
Proof.
  apply (validateOutput_interest false (fun x _ => x) 1000000 (MkMultisignatureOutput [] 1 43800) 1200000 1200000);
    by vm_compute.
Defined.

(** ** Fees *)

Lemma foldl_u64_sum {A} (f : A -> Z) l a :
  u64 (foldl (fun a x => u64 (a + f x)) a l) = u64 (a + sumZ (f <$> l)).
Proof.
  revert a. induction l as [|x l IH]; intros a; simpl; [by rewrite Z.add_0_r|].
  rewrite IH. unfold u64. by rewrite Zplus_mod_idemp_l, Z.add_assoc.
Qed.

Lemma foldl_u64_exact {A} (f : A -> Z) l : Forall (fun x => 0 <= f x) l -> sumZ (f <$> l) < 2 ^ 64 ->
  foldl (fun a x => u64 (a + f x)) 0 l = sumZ (f <$> l).
Proof.
  intros Hf Hs.
  assert (0 <= sumZ (f <$> l)) by (apply sumZ_nonneg; by apply Forall_fmap).
  assert (is_u64 (foldl (fun a x => u64 (a + f x)) 0 l)) as Hr.
  { assert (forall a, is_u64 a -> is_u64 (foldl (fun a x => u64 (a + f x)) a l)) as H0; [|apply H0; word].
    clear. induction l as [|x l IH]; intros a Ha; [done|]. apply IH. word. }
  pose proof (foldl_u64_sum f l 0) as E. rewrite u64_id, u64_id in E by (done || word). lia.
Qed.

(** Fees.  For a transaction whose input and output sums fit 64 bits, the fee
    is the exact difference when the inputs, deposits counted with their interest,
    cover the outputs; otherwise only a deposit withdrawal passes, with the fixed
    minimum fee. *)
Theorem getTransactionFee_correct c pow tx height :
  let ins := (fun i => getTransactionInputAmount c pow i height) <$> inputs (prefix tx) in
  let outs := out_amount <$> outputs (prefix tx) in
  is_coinbase tx = false -> Forall (fun x => 0 <= x) ins -> Forall (fun x => 0 <= x) outs ->
  sumZ ins < 2 ^ 64 -> sumZ outs < 2 ^ 64 ->
  getTransactionFee_opt c pow tx height =
    if sumZ outs <=? sumZ ins then Some (sumZ ins - sumZ outs)
    else if existsb is_deposit_input (inputs (prefix tx)) then Some MINIMUM_FEE else None.
Proof.
  intros ins outs Hc Hi Ho Hsi Hso. unfold getTransactionFee_opt. rewrite Hc.
  unfold ins in Hi. unfold outs in Ho. rewrite Forall_fmap in Hi. rewrite Forall_fmap in Ho.
  rewrite (foldl_u64_exact (fun i => getTransactionInputAmount c pow i height)) by (exact Hi || exact Hsi).
  rewrite (foldl_u64_exact out_amount) by (exact Ho || exact Hso). fold ins. fold outs.
  rewrite (Z.leb_antisym (sumZ ins)). by destruct (sumZ ins <? sumZ outs).
Qed.

Lemma getTransactionFee_correct_witness :
  let out := MkTransactionOutput 70 (OutKey (MkKeyOutput [])) in
  let tx := MkTransaction (MkTransactionPrefix 1 0 [InKey (MkKeyInput 100 [] [])] [out] []) [[]] in
  getTransactionFee_opt (CurrencyBuilder false) (fun x _ => x) tx 5 = Some 30.
Proof.
  intros out tx. change (Some 30) with (if sumZ [70] <=? sumZ [100] then Some (sumZ [100] - sumZ [70]) else
    if existsb is_deposit_input (inputs (prefix tx)) then Some MINIMUM_FEE else None).
  apply (getTransactionFee_correct (CurrencyBuilder false) (fun x _ => x) tx 5);
    [done | apply Forall_cons_2; [by vm_compute | apply Forall_nil_2] ..| by vm_compute | by vm_compute].
Defined.

(** ** Fusion transactions *)

Lemma fusion_inputs_spec c amounts a total : fusion_inputs c amounts a = Some total ->
  is_u64 a -> Forall (fun x => m_defaultDustThreshold c <= x) amounts /\ is_u64 total /\ total = u64 (a + sumZ amounts).
Proof.
  revert a. induction amounts as [|x amounts IH]; intros a; cbn [fusion_inputs].
  - intros [= <-] Ha. simpl. split_and!; [constructor | done | by rewrite Z.add_0_r, u64_id].
  - destruct (Z.ltb_spec x (m_defaultDustThreshold c)); [done|]. intros H' Ha.
    apply IH in H' as (Hf & Ht & E); [|word]. split_and!; [by constructor | done |].
    rewrite E. simpl. unfold u64. by rewrite Zplus_mod_idemp_l, Z.add_assoc.
Qed.

(** Fusion transactions.  A transaction recognised as fusion has at least
    twelve inputs and four inputs per output, no dust among the inputs, outputs in
    increasing order, and, when the inputs fit 64 bits, pays no fee: the outputs
    add up to the inputs. *)
Theorem isFusionAmounts_conserves t ins outs size :
  let c := CurrencyBuilder t in
  sumZ ins < 2 ^ 64 -> Z.of_nat (length outs) < 2 ^ 32 -> isFusionAmounts c ins outs size = true ->
  size <= FUSION_TX_MAX_SIZE /\ (12 <= length ins)%nat /\ (4 * length outs <= length ins)%nat
  /\ Forall (fun x => DEFAULT_DUST_THRESHOLD <= x) ins /\ Sorted Z.le outs /\ sumZ outs = sumZ ins.
Proof.
  intros c Hs Ho. unfold isFusionAmounts.
  change (m_fusionTxMaxSize c) with FUSION_TX_MAX_SIZE. change (m_fusionTxMinInputCount c) with 12.
  change (m_fusionTxMinInOutCountRatio c) with 4.
  destruct (Z.ltb_spec FUSION_TX_MAX_SIZE size); [done|].
  destruct (Z.ltb_spec (Z.of_nat (length ins)) 12); [done|].
  rewrite u64_id by word. destruct (Z.ltb_spec (Z.of_nat (length ins)) (Z.of_nat (length outs) * 4)); [done|].
  destruct (fusion_inputs c ins 0) as [total|] eqn:E; [|done].
  apply fusion_inputs_spec in E as (Hf & Ht & ->); [|word].
  assert (0 <= sumZ ins) by (apply sumZ_nonneg; eapply Forall_impl; [exact Hf|];
    change (m_defaultDustThreshold c) with 10; simpl; lia).
  rewrite Z.add_0_l, u64_id by word. intros H'%bool_decide_eq_true. subst outs.
  split_and!; [done | lia | lia | done | apply Sorted_merge_sort, _ |].
  rewrite merge_sort_Permutation. apply decomposeAmount_sum; [word | done].
Qed.

Lemma isFusionAmounts_conserves_witness :
  sumZ [200; 1000] = sumZ (replicate 12 100).
Proof.
  apply (isFusionAmounts_conserves false (replicate 12 100) [200; 1000] 10000); by vm_compute.
Defined.

Definition pretty_at (i : nat) : bool :=
  match PRETTY_AMOUNTS !! i with
  | Some a => a =? Z.of_nat (i mod 9 + 1) * 10 ^ Z.of_nat (i / 9)
  | None => false
  end.

Lemma pretty_lookup i a : PRETTY_AMOUNTS !! i = Some a ->
  (i < 172)%nat /\ a = Z.of_nat (i mod 9 + 1) * 10 ^ Z.of_nat (i / 9).
Proof.
  intros H. apply lookup_lt_Some in H as Hi. change (length PRETTY_AMOUNTS) with 172%nat in Hi.
  split; [done|]. assert (forallb pretty_at (List.seq 0 172) = true) as Hc by (vm_compute; reflexivity).
  rewrite forallb_forall in Hc. specialize (Hc i ltac:(apply in_seq; lia)).
  unfold pretty_at in Hc. rewrite H in Hc. by apply Z.eqb_eq.
Qed.

Lemma leading_digit_unique d d' p p' : 1 <= d <= 9 -> 1 <= d' <= 9 -> 0 <= p -> 0 <= p' ->
  d * 10 ^ p = d' * 10 ^ p' -> p = p'.
Proof.
  assert (forall d d' p p', 1 <= d <= 9 -> 1 <= d' <= 9 -> 0 <= p -> p < p' -> d * 10 ^ p <> d' * 10 ^ p') as H.
  { intros e e' q q' He He' Hq Hlt.
    assert (10 ^ (q + 1) <= 10 ^ q') by (apply Z.pow_le_mono_r; lia).
    rewrite Z.pow_add_r in * by lia. assert (0 < 10 ^ q) by (apply Z.pow_pos_nonneg; lia). nia. }
  intros Hd Hd' Hp Hp' E. destruct (Z.lt_trichotomy p p') as [Hlt|[->|Hlt]]; [|done|].
  - exfalso. by apply (H d d' p p').
  - exfalso. by apply (H d' d p' p).
Qed.

(** the amounts a wallet may fuse.  An amount below the threshold qualifies
    exactly when it is a digit times a power of ten (and, before block 45000, not
    dust); the power of ten returned is that exponent. *)
Theorem isAmountApplicable_spec t amount threshold height p : is_u64 amount ->
  isAmountApplicableInFusionTransactionInput (CurrencyBuilder t) amount threshold height = Some p <->
  amount < threshold /\ (UPGRADE_HEIGHT_V4 <= height \/ DEFAULT_DUST_THRESHOLD <= amount)
  /\ 0 <= p /\ exists d, 1 <= d <= 9 /\ amount = d * 10 ^ p.
Proof.
  intros Ha. unfold isAmountApplicableInFusionTransactionInput.
  change (m_defaultDustThreshold (CurrencyBuilder t)) with DEFAULT_DUST_THRESHOLD.
  destruct (Z.leb_spec threshold amount); [split; [done | lia]|].
  destruct ((height <? UPGRADE_HEIGHT_V4) && (amount <? DEFAULT_DUST_THRESHOLD)) eqn:E.
  { apply andb_true_iff in E as [E1%Z.ltb_lt E2%Z.ltb_lt]. split; [done | lia]. }
  apply andb_false_iff in E. rewrite Z.ltb_ge, Z.ltb_ge in E.
  set (it := lower_bound PRETTY_AMOUNTS amount). split.
  - destruct (PRETTY_AMOUNTS !! it) as [a|] eqn:El; [|done].
    destruct (Z.eqb_spec amount a) as [<-|]; [|done]. cbn [negb]. intros [= <-].
    apply pretty_lookup in El as [Hi Ea].
    assert (it / 9 < 20)%nat by (apply Nat.Div0.div_lt_upper_bound; lia).
    assert (Z.of_nat it / 9 = Z.of_nat (it / 9)) as E9 by (by rewrite Nat2Z.inj_div).
    rewrite E9, u8_id by word. split_and!; [done | done | lia |].
    exists (Z.of_nat (it mod 9 + 1)). pose proof (Nat.mod_upper_bound it 9). split; [lia | exact Ea].
  - intros (_ & _ & Hp & d & Hd & Ed).
    assert (amount ∈ PRETTY_AMOUNTS) as Hin.
    { apply PRETTY_AMOUNTS_chunks. split; [done|]. exists d, (Z.to_nat p). rewrite Z2Nat.id by lia. done. }
    apply (lower_bound_elem PRETTY_AMOUNTS) in Hin as El; [|apply PRETTY_AMOUNTS_sorted].
    fold it in El. rewrite El, Z.eqb_refl. cbn [negb]. apply pretty_lookup in El as [Hi Ea].
    pose proof (Nat.mod_upper_bound it 9).
    assert (Z.of_nat (it / 9) = p) as Ep.
    { apply (leading_digit_unique (Z.of_nat (it mod 9 + 1)) d); try lia; congruence. }
    assert (it / 9 < 20)%nat by (apply Nat.Div0.div_lt_upper_bound; lia).
    assert (Z.of_nat it / 9 = Z.of_nat (it / 9)) as -> by (by rewrite Nat2Z.inj_div).
    rewrite u8_id by word. by rewrite Ep.
Qed.

Lemma isAmountApplicable_spec_witness :
  isAmountApplicableInFusionTransactionInput (CurrencyBuilder false) 7000 10000 50000 = Some 3 <->
  7000 < 10000 /\ (UPGRADE_HEIGHT_V4 <= 50000 \/ DEFAULT_DUST_THRESHOLD <= 7000)
  /\ 0 <= 3 /\ exists d, 1 <= d <= 9 /\ 7000 = d * 10 ^ 3.
Proof. apply isAmountApplicable_spec. word. Defined.

(** ** Miner outputs *)

Lemma merge_outs_spec fuel maxOuts l : (1 <= maxOuts)%nat -> (length l <= fuel + maxOuts)%nat ->
  Forall (fun x => 0 <= x) l -> sumZ l < 2 ^ 64 ->
  let out := merge_outs fuel maxOuts l in
  (length out <= maxOuts)%nat /\ sumZ out = sumZ l /\ Forall (fun x => 0 <= x) out.
Proof.
  intros Hm. revert l. induction fuel as [|fuel IH]; intros l Hl Hn Hs; cbn [merge_outs]; [split_and!; done|].
  destruct (Nat.ltb_spec maxOuts (length l)); [|split_and!; [lia | done | done]].
  destruct (list_snoc_cases l) as [->|(l' & y & ->)]; [simpl in *; lia|].
  destruct (list_snoc_cases l') as [->|(l'' & x & ->)]; [simpl in *; lia|].
  rewrite !length_app in *. cbn [length] in *.
  set (n := (length l'' + 1 + 1)%nat).
  apply Forall_app in Hn as [Hn Hy]. apply Forall_app in Hn as [Hn Hx].
  apply Forall_cons in Hy as [Hy _]. apply Forall_cons in Hx as [Hx _].
  assert (0 <= sumZ l'') by (by apply sumZ_nonneg). rewrite !sumZ_app in *. simpl sumZ in *.
  assert (E : take (n - 1) (<[(n - 2)%nat := u64 (((l'' ++ [x]) ++ [y]) !!! (n - 2)%nat
      + ((l'' ++ [x]) ++ [y]) !!! (n - 1)%nat)]> ((l'' ++ [x]) ++ [y])) = l'' ++ [x + y]).
  { assert (n - 2 = length l'' /\ n - 1 = length (l'' ++ [x]))%nat as [E2 E1] by (rewrite length_app; simpl; lia).
    rewrite E1, E2, <- app_assoc.
    assert ((l'' ++ [x] ++ [y]) !!! length l'' = x) as ->
      by (rewrite list_lookup_total_alt, lookup_app_r, Nat.sub_diag by lia; done).
    assert ((l'' ++ [x] ++ [y]) !!! length (l'' ++ [x]) = y) as ->
      by (rewrite app_assoc, list_lookup_total_alt, lookup_app_r, Nat.sub_diag by lia; done).
    rewrite u64_id by word.
    rewrite insert_app_r_alt, Nat.sub_diag by lia. cbn [app insert list_insert].
    replace (length (l'' ++ [x])) with (length (l'' ++ [x + y])) by (by rewrite !length_app).
    change (l'' ++ [x + y; y]) with (l'' ++ [x + y] ++ [y]). rewrite app_assoc. apply take_app_length. }
  rewrite E. destruct (IH (l'' ++ [x + y])) as (H1 & H2 & H3).
  - rewrite length_app. simpl. lia.
  - apply Forall_app. split; [done|]. constructor; [lia | done].
  - rewrite sumZ_app. simpl. lia.
  - split_and!; [done | rewrite H2, sumZ_app; simpl; lia | done].
Qed.

Lemma decomposeAmount_nonneg amount t : is_u64 amount -> 0 <= t ->
  Forall (fun x => 0 <= x) (decomposeAmount amount t []).
Proof.
  intros Ha Ht. destruct (decomposeAmount_shape amount t Ha Ht) as (k & fuel & _ & _ & ->).
  pose proof (pow10_pos k). pose proof (Z.mod_pos_bound amount (10 ^ Z.of_nat k) ltac:(lia)).
  apply Forall_app. split.
  - unfold dust_list. destruct (_ =? 0); repeat constructor. lia.
  - eapply Forall_impl; [apply chunks_from_chunks, Z.div_pos; word|].
    intros x (d & j & Hd & ->). pose proof (pow10_pos j). nia.
Qed.

(** miner outputs.  For a positive limit the amounts a miner transaction pays
    are at most that many and add up to the block reward, so the check that
    follows in [constructMinerTx] never rejects. *)
Theorem miner_out_amounts_sum t blockReward maxOuts : is_u64 blockReward -> (1 <= maxOuts)%nat ->
  exists outs, miner_out_amounts (CurrencyBuilder t) blockReward maxOuts = Some outs
    /\ (length outs <= maxOuts)%nat /\ sumZ outs = blockReward.
Proof.
  intros Hb Hm. unfold miner_out_amounts. rewrite (proj2 (Nat.leb_le 1 maxOuts)) by done. cbn [negb].
  change (m_defaultDustThreshold (CurrencyBuilder t)) with 10. eexists. split; [done|].
  destruct (merge_outs_spec (length (decomposeAmount blockReward 10 [])) maxOuts (decomposeAmount blockReward 10 []))
    as (H1 & H2 & _); [done | lia | by apply decomposeAmount_nonneg | rewrite decomposeAmount_sum by done; word |].
  split; [done|]. rewrite H2. by apply decomposeAmount_sum.
Qed.

Lemma miner_out_amounts_sum_witness :
  exists outs, miner_out_amounts (CurrencyBuilder false) 5250123 1 = Some outs
    /\ (length outs <= 1)%nat /\ sumZ outs = 5250123.
Proof. apply miner_out_amounts_sum; [word | lia]. Defined.

End CurrencyImpl.
