(* ===== verification/CurrencyBuilder.v ===== *)
(** The setters of [CurrencyBuilder] (src/CryptoNoteCore/Currency.h and
    Currency.cpp).  A setter assigns one numeric member of the currency under
    construction; three of them throw on an invalid value. *)

From S2P Require Import Prelude.
From S2P Require Import Currency.
Import Config CurrencyImpl.

Module Builder.

(** The member a setter assigns. *)
Inductive Field :=
  | F_maxBlockHeight
  | F_maxBlockBlobSize
  | F_maxTxSize
  | F_publicAddressBase58Prefix
  | F_minedMoneyUnlockWindow
  | F_timestampCheckWindow
  | F_timestampCheckWindow_v1
  | F_blockFutureTimeLimit
  | F_blockFutureTimeLimit_v1
  | F_moneySupply
  | F_rewardBlocksWindow
  | F_zawyDifficultyBlockIndex
  | F_zawyDifficultyV2
  | F_zawyDifficultyBlockVersion
  | F_blockGrantedFullRewardZone
  | F_minerTxBlobReservedSize
  | F_numberOfDecimalPlaces
  | F_coin
  | F_minimumFee
  | F_minimumFeeV1
  | F_minimumFeeV2
  | F_minimumFeeBanking
  | F_defaultDustThreshold
  | F_difficultyTarget
  | F_difficultyWindow
  | F_difficultyLag
  | F_difficultyCut
  | F_depositMinAmount
  | F_depositMinTerm
  | F_depositMaxTerm
  | F_depositMaxTermV1
  | F_depositMinTermV3
  | F_depositMaxTermV3
  | F_depositMinTotalRateFactor
  | F_depositMaxTotalRate
  | F_depositHeightV3
  | F_depositHeightV4
  | F_blockWithMissingInterest
  | F_maxBlockSizeInitial
  | F_maxBlockSizeGrowthSpeedNumerator
  | F_maxBlockSizeGrowthSpeedDenominator
  | F_lockedTxAllowedDeltaSeconds
  | F_lockedTxAllowedDeltaBlocks
  | F_mempoolTxLiveTime
  | F_mempoolTxFromAltBlockLiveTime
  | F_numberOfPeriodsToForgetTxDeletedFromPool
  | F_upgradeHeightV2
  | F_upgradeHeightV3
  | F_upgradeHeightV6
  | F_upgradeHeightV7
  | F_upgradeHeightV8
  | F_upgradeVotingThreshold
  | F_upgradeVotingWindow
  | F_upgradeWindow
  | F_transactionMaxSize
  | F_fusionTxMaxSize
  | F_fusionTxMinInputCount
  | F_fusionTxMinInOutCountRatio.

#[export] Instance Field_eq : EqDecision Field.
Proof. intros f g; unfold Decision; decide equality. Defined.

Definition get (f : Field) (c : Currency) : Z :=
  match f with
  | F_maxBlockHeight => m_maxBlockHeight c
  | F_maxBlockBlobSize => m_maxBlockBlobSize c
  | F_maxTxSize => m_maxTxSize c
  | F_publicAddressBase58Prefix => m_publicAddressBase58Prefix c
  | F_minedMoneyUnlockWindow => m_minedMoneyUnlockWindow c
  | F_timestampCheckWindow => m_timestampCheckWindow c
  | F_timestampCheckWindow_v1 => m_timestampCheckWindow_v1 c
  | F_blockFutureTimeLimit => m_blockFutureTimeLimit c
  | F_blockFutureTimeLimit_v1 => m_blockFutureTimeLimit_v1 c
  | F_moneySupply => m_moneySupply c
  | F_rewardBlocksWindow => m_rewardBlocksWindow c
  | F_zawyDifficultyBlockIndex => m_zawyDifficultyBlockIndex c
  | F_zawyDifficultyV2 => m_zawyDifficultyV2 c
  | F_zawyDifficultyBlockVersion => m_zawyDifficultyBlockVersion c
  | F_blockGrantedFullRewardZone => m_blockGrantedFullRewardZone c
  | F_minerTxBlobReservedSize => m_minerTxBlobReservedSize c
  | F_numberOfDecimalPlaces => m_numberOfDecimalPlaces c
  | F_coin => m_coin c
  | F_minimumFee => m_minimumFee c
  | F_minimumFeeV1 => m_minimumFeeV1 c
  | F_minimumFeeV2 => m_minimumFeeV2 c
  | F_minimumFeeBanking => m_minimumFeeBanking c
  | F_defaultDustThreshold => m_defaultDustThreshold c
  | F_difficultyTarget => m_difficultyTarget c
  | F_difficultyWindow => m_difficultyWindow c
  | F_difficultyLag => m_difficultyLag c
  | F_difficultyCut => m_difficultyCut c
  | F_depositMinAmount => m_depositMinAmount c
  | F_depositMinTerm => m_depositMinTerm c
  | F_depositMaxTerm => m_depositMaxTerm c
  | F_depositMaxTermV1 => m_depositMaxTermV1 c
  | F_depositMinTermV3 => m_depositMinTermV3 c
  | F_depositMaxTermV3 => m_depositMaxTermV3 c
  | F_depositMinTotalRateFactor => m_depositMinTotalRateFactor c
  | F_depositMaxTotalRate => m_depositMaxTotalRate c
  | F_depositHeightV3 => m_depositHeightV3 c
  | F_depositHeightV4 => m_depositHeightV4 c
  | F_blockWithMissingInterest => m_blockWithMissingInterest c
  | F_maxBlockSizeInitial => m_maxBlockSizeInitial c
  | F_maxBlockSizeGrowthSpeedNumerator => m_maxBlockSizeGrowthSpeedNumerator c
  | F_maxBlockSizeGrowthSpeedDenominator => m_maxBlockSizeGrowthSpeedDenominator c
  | F_lockedTxAllowedDeltaSeconds => m_lockedTxAllowedDeltaSeconds c
  | F_lockedTxAllowedDeltaBlocks => m_lockedTxAllowedDeltaBlocks c
  | F_mempoolTxLiveTime => m_mempoolTxLiveTime c
  | F_mempoolTxFromAltBlockLiveTime => m_mempoolTxFromAltBlockLiveTime c
  | F_numberOfPeriodsToForgetTxDeletedFromPool => m_numberOfPeriodsToForgetTxDeletedFromPool c
  | F_upgradeHeightV2 => m_upgradeHeightV2 c
  | F_upgradeHeightV3 => m_upgradeHeightV3 c
  | F_upgradeHeightV6 => m_upgradeHeightV6 c
  | F_upgradeHeightV7 => m_upgradeHeightV7 c
  | F_upgradeHeightV8 => m_upgradeHeightV8 c
  | F_upgradeVotingThreshold => m_upgradeVotingThreshold c
  | F_upgradeVotingWindow => m_upgradeVotingWindow c
  | F_upgradeWindow => m_upgradeWindow c
  | F_transactionMaxSize => m_transactionMaxSize c
  | F_fusionTxMaxSize => m_fusionTxMaxSize c
  | F_fusionTxMinInputCount => m_fusionTxMinInputCount c
  | F_fusionTxMinInOutCountRatio => m_fusionTxMinInOutCountRatio c
  end.

(** [m_currency.m_<field> = val] *)
Definition assign (f : Field) (val : Z) (c : Currency) : Currency :=
  let m (g : Field) := if decide (f = g) then val else get g c in
  {| m_maxBlockHeight := m F_maxBlockHeight;
     m_maxBlockBlobSize := m F_maxBlockBlobSize;
     m_maxTxSize := m F_maxTxSize;
     m_publicAddressBase58Prefix := m F_publicAddressBase58Prefix;
     m_minedMoneyUnlockWindow := m F_minedMoneyUnlockWindow;
     m_timestampCheckWindow := m F_timestampCheckWindow;
     m_timestampCheckWindow_v1 := m F_timestampCheckWindow_v1;
     m_blockFutureTimeLimit := m F_blockFutureTimeLimit;
     m_blockFutureTimeLimit_v1 := m F_blockFutureTimeLimit_v1;
     m_moneySupply := m F_moneySupply;
     m_rewardBlocksWindow := m F_rewardBlocksWindow;
     m_zawyDifficultyBlockIndex := m F_zawyDifficultyBlockIndex;
     m_zawyDifficultyV2 := m F_zawyDifficultyV2;
     m_zawyDifficultyBlockVersion := m F_zawyDifficultyBlockVersion;
     m_blockGrantedFullRewardZone := m F_blockGrantedFullRewardZone;
     m_minerTxBlobReservedSize := m F_minerTxBlobReservedSize;
     m_numberOfDecimalPlaces := m F_numberOfDecimalPlaces;
     m_coin := m F_coin;
     m_minimumFee := m F_minimumFee;
     m_minimumFeeV1 := m F_minimumFeeV1;
     m_minimumFeeV2 := m F_minimumFeeV2;
     m_minimumFeeBanking := m F_minimumFeeBanking;
     m_defaultDustThreshold := m F_defaultDustThreshold;
     m_difficultyTarget := m F_difficultyTarget;
     m_difficultyWindow := m F_difficultyWindow;
     m_difficultyLag := m F_difficultyLag;
     m_difficultyCut := m F_difficultyCut;
     m_depositMinAmount := m F_depositMinAmount;
     m_depositMinTerm := m F_depositMinTerm;
     m_depositMaxTerm := m F_depositMaxTerm;
     m_depositMaxTermV1 := m F_depositMaxTermV1;
     m_depositMinTermV3 := m F_depositMinTermV3;
     m_depositMaxTermV3 := m F_depositMaxTermV3;
     m_depositMinTotalRateFactor := m F_depositMinTotalRateFactor;
     m_depositMaxTotalRate := m F_depositMaxTotalRate;
     m_depositHeightV3 := m F_depositHeightV3;
     m_depositHeightV4 := m F_depositHeightV4;
     m_blockWithMissingInterest := m F_blockWithMissingInterest;
     m_maxBlockSizeInitial := m F_maxBlockSizeInitial;
     m_maxBlockSizeGrowthSpeedNumerator := m F_maxBlockSizeGrowthSpeedNumerator;
     m_maxBlockSizeGrowthSpeedDenominator := m F_maxBlockSizeGrowthSpeedDenominator;
     m_lockedTxAllowedDeltaSeconds := m F_lockedTxAllowedDeltaSeconds;
     m_lockedTxAllowedDeltaBlocks := m F_lockedTxAllowedDeltaBlocks;
     m_mempoolTxLiveTime := m F_mempoolTxLiveTime;
     m_mempoolTxFromAltBlockLiveTime := m F_mempoolTxFromAltBlockLiveTime;
     m_numberOfPeriodsToForgetTxDeletedFromPool := m F_numberOfPeriodsToForgetTxDeletedFromPool;
     m_upgradeHeightV2 := m F_upgradeHeightV2;
     m_upgradeHeightV3 := m F_upgradeHeightV3;
     m_upgradeHeightV6 := m F_upgradeHeightV6;
     m_upgradeHeightV7 := m F_upgradeHeightV7;
     m_upgradeHeightV8 := m F_upgradeHeightV8;
     m_upgradeVotingThreshold := m F_upgradeVotingThreshold;
     m_upgradeVotingWindow := m F_upgradeVotingWindow;
     m_upgradeWindow := m F_upgradeWindow;
     m_transactionMaxSize := m F_transactionMaxSize;
     m_fusionTxMaxSize := m F_fusionTxMaxSize;
     m_fusionTxMinInputCount := m F_fusionTxMinInputCount;
     m_fusionTxMinInOutCountRatio := m F_fusionTxMinInOutCountRatio;
     m_testnet := m_testnet c |}.

Definition set_testnet (val : bool) (c : Currency) : Currency :=
  {| m_maxBlockHeight := m_maxBlockHeight c;
     m_maxBlockBlobSize := m_maxBlockBlobSize c;
     m_maxTxSize := m_maxTxSize c;
     m_publicAddressBase58Prefix := m_publicAddressBase58Prefix c;
     m_minedMoneyUnlockWindow := m_minedMoneyUnlockWindow c;
     m_timestampCheckWindow := m_timestampCheckWindow c;
     m_timestampCheckWindow_v1 := m_timestampCheckWindow_v1 c;
     m_blockFutureTimeLimit := m_blockFutureTimeLimit c;
     m_blockFutureTimeLimit_v1 := m_blockFutureTimeLimit_v1 c;
     m_moneySupply := m_moneySupply c;
     m_rewardBlocksWindow := m_rewardBlocksWindow c;
     m_zawyDifficultyBlockIndex := m_zawyDifficultyBlockIndex c;
     m_zawyDifficultyV2 := m_zawyDifficultyV2 c;
     m_zawyDifficultyBlockVersion := m_zawyDifficultyBlockVersion c;
     m_blockGrantedFullRewardZone := m_blockGrantedFullRewardZone c;
     m_minerTxBlobReservedSize := m_minerTxBlobReservedSize c;
     m_numberOfDecimalPlaces := m_numberOfDecimalPlaces c;
     m_coin := m_coin c;
     m_minimumFee := m_minimumFee c;
     m_minimumFeeV1 := m_minimumFeeV1 c;
     m_minimumFeeV2 := m_minimumFeeV2 c;
     m_minimumFeeBanking := m_minimumFeeBanking c;
     m_defaultDustThreshold := m_defaultDustThreshold c;
     m_difficultyTarget := m_difficultyTarget c;
     m_difficultyWindow := m_difficultyWindow c;
     m_difficultyLag := m_difficultyLag c;
     m_difficultyCut := m_difficultyCut c;
     m_depositMinAmount := m_depositMinAmount c;
     m_depositMinTerm := m_depositMinTerm c;
     m_depositMaxTerm := m_depositMaxTerm c;
     m_depositMaxTermV1 := m_depositMaxTermV1 c;
     m_depositMinTermV3 := m_depositMinTermV3 c;
     m_depositMaxTermV3 := m_depositMaxTermV3 c;
     m_depositMinTotalRateFactor := m_depositMinTotalRateFactor c;
     m_depositMaxTotalRate := m_depositMaxTotalRate c;
     m_depositHeightV3 := m_depositHeightV3 c;
     m_depositHeightV4 := m_depositHeightV4 c;
     m_blockWithMissingInterest := m_blockWithMissingInterest c;
     m_maxBlockSizeInitial := m_maxBlockSizeInitial c;
     m_maxBlockSizeGrowthSpeedNumerator := m_maxBlockSizeGrowthSpeedNumerator c;
     m_maxBlockSizeGrowthSpeedDenominator := m_maxBlockSizeGrowthSpeedDenominator c;
     m_lockedTxAllowedDeltaSeconds := m_lockedTxAllowedDeltaSeconds c;
     m_lockedTxAllowedDeltaBlocks := m_lockedTxAllowedDeltaBlocks c;
     m_mempoolTxLiveTime := m_mempoolTxLiveTime c;
     m_mempoolTxFromAltBlockLiveTime := m_mempoolTxFromAltBlockLiveTime c;
     m_numberOfPeriodsToForgetTxDeletedFromPool := m_numberOfPeriodsToForgetTxDeletedFromPool c;
     m_upgradeHeightV2 := m_upgradeHeightV2 c;
     m_upgradeHeightV3 := m_upgradeHeightV3 c;
     m_upgradeHeightV6 := m_upgradeHeightV6 c;
     m_upgradeHeightV7 := m_upgradeHeightV7 c;
     m_upgradeHeightV8 := m_upgradeHeightV8 c;
     m_upgradeVotingThreshold := m_upgradeVotingThreshold c;
     m_upgradeVotingWindow := m_upgradeVotingWindow c;
     m_upgradeWindow := m_upgradeWindow c;
     m_transactionMaxSize := m_transactionMaxSize c;
     m_fusionTxMaxSize := m_fusionTxMaxSize c;
     m_fusionTxMinInputCount := m_fusionTxMinInputCount c;
     m_fusionTxMinInOutCountRatio := m_fusionTxMinInOutCountRatio c;
     m_testnet := val |}.

Definition numberOfDecimalPlaces (val : Z) (c : Currency) : Currency :=
  assign F_coin (coin_loop (Z.to_nat val) 1) (assign F_numberOfDecimalPlaces val c).

(** [None] is [std::invalid_argument]. *)
Definition difficultyWindow (val : Z) (c : Currency) : option Currency :=
  if val <? 2 then None else Some (assign F_difficultyWindow val c).

Definition upgradeVotingThreshold (val : Z) (c : Currency) : option Currency :=
  if (val <=? 0) || (100 <? val) then None else Some (assign F_upgradeVotingThreshold val c).

Definition upgradeWindow (val : Z) (c : Currency) : option Currency :=
  if val <=? 0 then None else Some (assign F_upgradeWindow val c).

Definition testnet (val : bool) (c : Currency) : Currency :=
  let c := set_testnet val c in
  if val then
    foldl (fun c '(f, v) => assign f v c) c
      [(F_depositMinTerm, TESTNET_DEPOSIT_MIN_TERM_V3); (F_depositMaxTerm, TESTNET_DEPOSIT_MAX_TERM_V3);
       (F_depositMinTermV3, TESTNET_DEPOSIT_MIN_TERM_V3); (F_depositMaxTermV3, TESTNET_DEPOSIT_MAX_TERM_V3);
       (F_depositHeightV3, TESTNET_DEPOSIT_HEIGHT_V3); (F_depositHeightV4, TESTNET_DEPOSIT_HEIGHT_V4);
       (F_blockWithMissingInterest, TESTNET_BLOCK_WITH_MISSING_INTEREST);
       (F_upgradeHeightV2, TESTNET_UPGRADE_HEIGHT_V2); (F_upgradeHeightV3, TESTNET_UPGRADE_HEIGHT_V3);
       (F_upgradeHeightV6, TESTNET_UPGRADE_HEIGHT_V6); (F_upgradeHeightV7, TESTNET_UPGRADE_HEIGHT_V7);
       (F_upgradeHeightV8, TESTNET_UPGRADE_HEIGHT_V8)]
  else c.

Lemma get_assign f g v c : get g (assign f v c) = if decide (f = g) then v else get g c.
Proof. by destruct g. Qed.

(** The testnet currency is the main one with the testnet members assigned. *)
Lemma testnet_currency : testnet true (CurrencyBuilder false) = CurrencyBuilder true.
Proof. by vm_compute. Qed.

(** A builder that does not throw keeps the invariants the algorithms rely on. *)
Definition valid (c : Currency) : Prop :=
  2 <= m_difficultyWindow c /\ 0 < m_upgradeVotingThreshold c <= 100 /\ 0 < m_upgradeWindow c.

Lemma builder_valid c :
  valid c ->
  (forall v c', difficultyWindow v c = Some c' -> valid c') /\
  (forall v c', upgradeVotingThreshold v c = Some c' -> valid c') /\
  (forall v c', upgradeWindow v c = Some c' -> valid c').
Proof.
  intros (H1 & H2 & H3). unfold difficultyWindow, upgradeVotingThreshold, upgradeWindow, valid.
  split; [|split]; intros v c' H; case_match; simplify_eq; bool_to_prop; simpl; lia.
Qed.

End Builder.
