(* ===== verification/Difficulty.v ===== *)
(** src/CryptoNoteCore/Difficulty.cpp and the retargeting algorithms of
    Currency.cpp: the proof-of-work test on 256-bit hashes, the windowed average
    with cut outliers, LWMA-3 and LWMA-1.  Vectors are lists of 64-bit integers;
    reading a vector out of range is [None]. *)

From S2P Require Import Prelude.
From S2P Require Import IntUtil.
From S2P Require Import Varint.
From S2P Require Import Serialization.
From S2P Require Import CryptoNote.
From S2P Require Import Currency.
Import IntUtil Stream Config CurrencyImpl.

Module Difficulty.

(** ** check_hash *)

(** [mul]: low and high word of the product ([unsigned __int128]). *)
Definition mul (a b : Z) : Z * Z := ((a * b) mod 2 ^ 64, (a * b) / 2 ^ 64).

Definition cadd (a b : Z) : bool := u64 (a + b) <? a.

Definition cadc (a b : Z) (c : bool) : bool :=
  (u64 (a + b) <? a) || (c && (u64 (a + b) =? u64 (-1))).

(** The [i]-th 64-bit word of the hash, on a little-endian machine. *)
Definition hash_word (hash : bytes) (i : nat) : Z := le_value (take 8 (drop (8 * i) hash)).

Definition check_hash (hash : bytes) (difficulty : Z) : bool :=
  let '(top, high) := mul (hash_word hash 3) difficulty in
  if negb (high =? 0) then false
  else
    let '(_, cur) := mul (hash_word hash 0) difficulty in
    let '(low, high) := mul (hash_word hash 1) difficulty in
    let carry := cadd cur low in
    let cur := high in
    let '(low, high) := mul (hash_word hash 2) difficulty in
    let carry := cadc cur low carry in
    let carry := cadc high top carry in
    negb carry.

(** ** The windowed average *)

Section currency.
Context (c : Currency).

Definition difficultyWindowByBlockVersion (blockMajorVersion : Z) : Z :=
  if BLOCK_MAJOR_VERSION_8 <=? blockMajorVersion then DIFFICULTY_WINDOW_V4
  else if BLOCK_MAJOR_VERSION_4 <=? blockMajorVersion then DIFFICULTY_WINDOW_V3
  else if BLOCK_MAJOR_VERSION_2 <=? blockMajorVersion then m_difficultyWindow c
  else if blockMajorVersion =? BLOCK_MAJOR_VERSION_1 then DIFFICULTY_WINDOW_V2
  else DIFFICULTY_WINDOW_V1.

Definition difficultyCutByBlockVersion (blockMajorVersion : Z) : Z :=
  if BLOCK_MAJOR_VERSION_2 <=? blockMajorVersion then m_difficultyCut c
  else if blockMajorVersion =? BLOCK_MAJOR_VERSION_1 then DIFFICULTY_CUT_V2
  else DIFFICULTY_CUT_V1.

(** The window that remains after [cut] outliers on both sides. *)
Definition cut_range (len window cut : Z) : Z * Z :=
  let kept := u64 (window - u64 (2 * cut)) in
  if len <=? kept then (0, len)
  else
    let cutBegin := u64 (len - kept + 1) / 2 in
    (cutBegin, u64 (cutBegin + kept)).

(** The time span and the work of the window, both between [cutBegin] and
    [cutEnd - 1]; the timestamps are sorted first. *)
Definition window_work (timestamps cumulativeDifficulties : list Z) (cutBegin cutEnd : Z) : option (Z * Z) :=
  let timestamps := merge_sort Z.le timestamps in
  t1 ← timestamps !! Z.to_nat (cutEnd - 1);
  t0 ← timestamps !! Z.to_nat cutBegin;
  let timeSpan := u64 (t1 - t0) in
  let timeSpan := if timeSpan =? 0 then 1 else timeSpan in
  d1 ← cumulativeDifficulties !! Z.to_nat (cutEnd - 1);
  d0 ← cumulativeDifficulties !! Z.to_nat cutBegin;
  Some (timeSpan, u64 (d1 - d0)).

(** [nextDifficulty(timestamps, cumulativeDifficulties)] *)
Definition nextDifficulty_simple (timestamps cumulativeDifficulties : list Z) : option Z :=
  let window := Z.to_nat (m_difficultyWindow c) in
  let '(timestamps, cumulativeDifficulties) :=
    if (window <? length timestamps)%nat
    then (take window timestamps, take window cumulativeDifficulties)
    else (timestamps, cumulativeDifficulties) in
  let len := Z.of_nat (length timestamps) in
  if len <=? 1 then Some 1
  else
    let '(cutBegin, cutEnd) := cut_range len (m_difficultyWindow c) (m_difficultyCut c) in
    '(timeSpan, totalWork) ← window_work timestamps cumulativeDifficulties cutBegin cutEnd;
    let '(high, low) := mul128 totalWork (m_difficultyTarget c) in
    if negb (high =? 0) || (u64 (low + timeSpan - 1) <? low) then Some 0
    else Some (u64 (low + timeSpan - 1) / timeSpan).

(** The last [n] elements, [v.end() - n .. v.end()]. *)
Definition last_n (n : nat) (l : list Z) : list Z := drop (length l - n) l.

(** The branch with the hard-coded window of 17 blocks and no cut. *)
Definition zawy_index_branch (timestamps_o cumulativeDifficulties_o : list Z) (size : nat) : option Z :=
  let c_difficultyWindow := 17 in
  let t_difficultyWindow := if (size <? 17)%nat then size else 17%nat in
  let timestamps_tmp := last_n t_difficultyWindow timestamps_o in
  let cumulativeDifficulties_tmp := last_n t_difficultyWindow cumulativeDifficulties_o in
  let len := Z.of_nat (length timestamps_tmp) in
  if len <=? 1 then Some 1
  else
    let '(cutBegin, cutEnd) := cut_range len c_difficultyWindow 0 in
    '(timeSpan, totalWork) ← window_work timestamps_tmp cumulativeDifficulties_tmp cutBegin cutEnd;
    let '(high, low) := mul128 totalWork (m_difficultyTarget c) in
    if negb (high =? 0) || (UINT64_MAX - low <? timeSpan - 1) then Some 0
    else
      let nextDiffZ := low / timeSpan in
      Some (if nextDiffZ <=? 100 then 100 else nextDiffZ).

(** [nextDifficulty(version, blockIndex, timestamps, cumulativeDifficulties)] *)
Definition nextDifficulty (version blockIndex : Z) (timestamps_o cumulativeDifficulties_o : list Z) : option Z :=
  if (12750 <=? blockIndex) && (blockIndex <? 13500) then Some 2160
  else
    let c_difficultyWindow := difficultyWindowByBlockVersion version in
    let c_difficultyCut := difficultyCutByBlockVersion version in
    let window := Z.to_nat c_difficultyWindow in
    let '(timestamps, cumulativeDifficulties) :=
      if (window <? length timestamps_o)%nat
      then (take window timestamps_o, take window cumulativeDifficulties_o)
      else (timestamps_o, cumulativeDifficulties_o) in
    let len := Z.of_nat (length timestamps) in
    if len <=? 1 then Some 1
    else
      let '(cutBegin, cutEnd) := cut_range len c_difficultyWindow c_difficultyCut in
      '(timeSpan, totalWork) ← window_work timestamps cumulativeDifficulties cutBegin cutEnd;
      let '(high, low) := mul128 totalWork (m_difficultyTarget c) in
      if negb (high =? 0) || (UINT64_MAX - low <? timeSpan - 1) then Some 0
      else
        let c_zawyDifficultyBlockVersion :=
          if negb (m_zawyDifficultyV2 c =? 0) then 2 else m_zawyDifficultyBlockVersion c in
        if (c_zawyDifficultyBlockVersion <=? version) && negb (c_zawyDifficultyBlockVersion =? 0)
        then Some (low / timeSpan)
        else if negb (m_zawyDifficultyBlockIndex c =? 0) && (m_zawyDifficultyBlockIndex c <=? blockIndex)
        then zawy_index_branch timestamps_o cumulativeDifficulties_o (length timestamps)
        else Some (u64 (low + timeSpan - 1) / timeSpan).

(** ** LWMA-3 *)

(** The loop over [i = 1 .. N]; [rest] is the vector from index [i].  Returns [L]
    and [sum_3_ST]. *)
Fixpoint lwma3_loop (n : nat) (T N i : Z) (rest : list Z) (previous_timestamp L sum_3_ST : Z) : option (Z * Z) :=
  match n with
  | O => Some (L, sum_3_ST)
  | S n =>
      match rest with
      | [] => None
      | ts :: rest =>
          let this_timestamp := if previous_timestamp <? ts then ts else u64 (previous_timestamp + 1) in
          let ST := Z.min (6 * T) (u64 (this_timestamp - previous_timestamp)) in
          let L := u64 (L + u64 (ST * i)) in
          let sum_3_ST := if N - 3 <? i then u64 (sum_3_ST + ST) else sum_3_ST in
          lwma3_loop n T N (i + 1) rest this_timestamp L sum_3_ST
      end
  end.

Definition nextDifficultyLWMA3 (timestamps cumulative_difficulties : list Z) : option Z :=
  let T := 120 in
  let N := 60 in
  let size := Z.of_nat (length timestamps) in
  if size <=? 10 then Some 100
  else
    let N := if size <? N + 1 then size - 1 else N in
    previous_timestamp ← timestamps !! 0%nat;
    '(L, sum_3_ST) ← lwma3_loop (Z.to_nat N) T N 1 (drop 1 timestamps) previous_timestamp 0 0;
    cdN ← cumulative_difficulties !! Z.to_nat N;
    cd0 ← cumulative_difficulties !! 0%nat;
    let den := u64 (100 * 2 * L) in
    if den =? 0 then None
    else
      let next_D := u64 (u64 (u64 (u64 (cdN - cd0) * T) * (N + 1)) * 99) / den in
      cdN1 ← cumulative_difficulties !! Z.to_nat (N - 1);
      let prev_D := u64 (cdN - cdN1) in
      let next_D := Z.max (u64 (prev_D * 67) / 100) (Z.min next_D (u64 (prev_D * 150) / 100)) in
      Some (if sum_3_ST <? 8 * T / 10 then Z.max next_D (u64 (prev_D * 108) / 100) else next_D).

(** ** LWMA-1 *)

Fixpoint lwma1_loop (n : nat) (T i : Z) (rest : list Z) (previous_timestamp L : Z) : option Z :=
  match n with
  | O => Some L
  | S n =>
      match rest with
      | [] => None
      | ts :: rest =>
          let this_timestamp := if previous_timestamp <? ts then ts else u64 (previous_timestamp + 1) in
          let L := u64 (L + u64 (i * Z.min (6 * T) (u64 (this_timestamp - previous_timestamp)))) in
          lwma1_loop n T (i + 1) rest this_timestamp L
      end
  end.

(** [while (i > 1)]: [i] runs from 10^9 down to 10. *)
Fixpoint round_loop (fuel : nat) (i next_D : Z) : Z :=
  match fuel with
  | O => next_D
  | S fuel =>
      if 1 <? i then
        if u64 (i * 100) <? next_D then u64 (u64 (next_D + i / 2) / i * i)
        else round_loop fuel (i / 10) next_D
      else next_D
  end.

Definition nextDifficultyLWMA1 (timestamps cumulative_difficulties : list Z) (height : Z) : option Z :=
  let T := 120 in
  let N := 60 in
  let difficulty_guess := if m_testnet c then 10 else 7200000 in
  if (m_upgradeHeightV8 c <=? height) && (height <? u64 (m_upgradeHeightV8 c + N)) then Some difficulty_guess
  else
    t0 ← timestamps !! 0%nat;
    let previous_timestamp := u64 (t0 - T) in
    L ← lwma1_loop 60 T 1 (drop 1 timestamps) previous_timestamp 0;
    let L := if L <? N * N * T / 20 then N * N * T / 20 else L in
    cdN ← cumulative_difficulties !! 60%nat;
    cd0 ← cumulative_difficulties !! 0%nat;
    let avg_D := u64 (cdN - cd0) / N in
    let next_D :=
      if 2000000 * N * N * T <? avg_D
      then u64 (avg_D / (200 * L) * (N * (N + 1) * T * 99))
      else u64 (u64 (u64 (u64 (avg_D * N) * (N + 1)) * T) * 99) / (200 * L) in
    Some (round_loop 10 1000000000 next_D).
End currency.

(** ** The proof-of-work test *)

Lemma cadc_spec a b c : is_u64 a -> is_u64 b -> cadc a b c = (2 ^ 64 <=? a + b + Z.b2z c).
Proof.
  intros Ha Hb. unfold cadc. change (u64 (-1)) with (2 ^ 64 - 1).
  destruct (decide (a + b < 2 ^ 64)).
  - rewrite u64_id by word. rewrite (proj2 (Z.ltb_ge (a + b) a)) by word. simpl orb.
    destruct c; cbn [Z.b2z andb].
    + destruct (Z.eqb_spec (a + b) (2 ^ 64 - 1)); symmetry; [apply Z.leb_le | apply Z.leb_gt]; lia.
    + symmetry. apply Z.leb_gt. lia.
  - assert (u64 (a + b) = a + b - 2 ^ 64) as -> by word.
    rewrite (proj2 (Z.ltb_lt _ a)) by word. simpl orb. symmetry. apply Z.leb_le. destruct c; simpl Z.b2z; lia.
Qed.

Lemma cadd_spec a b : is_u64 a -> is_u64 b -> cadd a b = (2 ^ 64 <=? a + b).
Proof.
  intros Ha Hb. rewrite <- (Z.add_0_r (a + b)). change 0 with (Z.b2z false).
  rewrite <- cadc_spec by done. unfold cadc, cadd. by rewrite andb_false_l, orb_false_r.
Qed.

Lemma hash_words hash : length hash = 32%nat -> is_bytes hash ->
  le_value hash = hash_word hash 0 + 2 ^ 64 * (hash_word hash 1
    + 2 ^ 64 * (hash_word hash 2 + 2 ^ 64 * hash_word hash 3))
  /\ forall i, (i < 4)%nat -> is_u64 (hash_word hash i).
Proof.
  intros Hl Hb. split.
  - unfold hash_word. rewrite (take_ge (drop (8 * 3) hash)) by (rewrite length_drop; lia).
    rewrite <- (take_drop 8 hash) at 1.
    rewrite <- (take_drop 8 (drop 8 hash)) at 1. rewrite <- (take_drop 8 (drop 8 (drop 8 hash))) at 1.
    rewrite !le_value_app, !length_take, !length_drop, !drop_drop, Hl. done.
  - intros i Hi. pose proof (le_value_range (take 8 (drop (8 * i) hash))) as Hr.
    rewrite length_take, length_drop, Hl in Hr.
    replace (8 `min` (32 - 8 * i))%nat with 8%nat in Hr by lia.
    apply Hr, Forall_take, Forall_drop, Hb.
Qed.

(** Proof of work.  A hash passes exactly when, read as a 256-bit
    little-endian number, its product with the difficulty stays below [2^256]. *)
Theorem check_hash_spec hash difficulty : length hash = 32%nat -> is_bytes hash -> is_u64 difficulty ->
  check_hash hash difficulty = true <-> le_value hash * difficulty < 2 ^ 256.
Proof.
  intros Hl Hb Hd. destruct (hash_words hash Hl Hb) as [-> Hw].
  pose proof (Hw 0%nat ltac:(lia)) as H0. pose proof (Hw 1%nat ltac:(lia)) as H1.
  pose proof (Hw 2%nat ltac:(lia)) as H2. pose proof (Hw 3%nat ltac:(lia)) as H3. clear Hw.
  unfold check_hash, mul.
  set (w0 := hash_word hash 0) in *. set (w1 := hash_word hash 1) in *.
  set (w2 := hash_word hash 2) in *. set (w3 := hash_word hash 3) in *. clearbody w0 w1 w2 w3.
  assert (Hsplit : forall w, is_u64 w -> exists hi lo, w * difficulty = hi * 2 ^ 64 + lo
    /\ is_u64 hi /\ is_u64 lo /\ (w * difficulty) / 2 ^ 64 = hi /\ (w * difficulty) mod 2 ^ 64 = lo).
  { intros w Hw. exists ((w * difficulty) / 2 ^ 64), ((w * difficulty) mod 2 ^ 64). unfold is_u64 in *.
    pose proof (Z.div_mod (w * difficulty) (2 ^ 64) ltac:(lia)).
    split_and!; [lia | apply Z.div_pos; nia | apply Z.div_lt_upper_bound; nia
                | apply Z.mod_pos_bound; lia .. | done | done]. }
  destruct (Hsplit w0 H0) as (h0 & l0 & E0 & ? & ? & -> & _).
  destruct (Hsplit w1 H1) as (h1 & l1 & E1 & ? & ? & -> & ->).
  destruct (Hsplit w2 H2) as (h2 & l2 & E2 & ? & ? & -> & ->).
  destruct (Hsplit w3 H3) as (h3 & l3 & E3 & ? & ? & -> & ->).
  replace ((w0 + 2 ^ 64 * (w1 + 2 ^ 64 * (w2 + 2 ^ 64 * w3))) * difficulty)
    with (w0 * difficulty + 2 ^ 64 * (w1 * difficulty + 2 ^ 64 * (w2 * difficulty + 2 ^ 64 * (w3 * difficulty))))
    by ring.
  rewrite E0, E1, E2, E3. clear E0 E1 E2 E3 Hsplit. unfold is_u64 in *.
  destruct (Z.eqb_spec h3 0) as [->|]; cbn [negb]; [|split; [done | lia]].
  rewrite cadd_spec, !cadc_spec by done. rewrite negb_true_iff, Z.leb_gt.
  destruct (Z.leb_spec (2 ^ 64) (h0 + l1)); cbn [Z.b2z];
    [destruct (Z.leb_spec (2 ^ 64) (h1 + l2 + 1)) | destruct (Z.leb_spec (2 ^ 64) (h1 + l2 + 0))];
    cbn [Z.b2z]; lia.
Qed.

Lemma check_hash_spec_witness :
  check_hash (replicate 31 0 ++ [1]) 200 = true <-> le_value (replicate 31 0 ++ [1]) * 200 < 2 ^ 256.
Proof. apply check_hash_spec; [done | bytes_compute | word]. Defined.

(** ** The windowed average *)

Lemma strongly_sorted_lookup {A} (R : A -> A -> Prop) l i j x y : StronglySorted R l ->
  l !! i = Some x -> l !! j = Some y -> (i < j)%nat -> R x y.
Proof.
  intros H. revert i j. induction H as [|z l Hs IH Hz]; intros i j Hi Hj Hij; [done|].
  destruct j as [|j]; [lia|]. destruct i as [|i].
  - injection Hi as <-. rewrite Forall_lookup in Hz. by apply (Hz j).
  - apply (IH i j); [done | done | lia].
Qed.

(** The indices of the window over [w] blocks, of at most 600. *)
Definition cut_begin (w : nat) : nat := if (w <=? 600)%nat then 0%nat else ((w - 600 + 1) / 2)%nat.
Definition cut_end (w : nat) : nat := if (w <=? 600)%nat then w else (cut_begin w + 600)%nat.

Lemma cut_bounds w : (2 <= w <= 720)%nat -> (cut_begin w + 2 <= cut_end w <= w)%nat.
Proof.
  intros Hw. unfold cut_end, cut_begin. destruct (Nat.leb_spec w 600); [lia|].
  pose proof (Nat.div_mod_eq (w - 600 + 1) 2). lia.
Qed.

Lemma cut_range_spec w : (2 <= w <= 720)%nat ->
  cut_range (Z.of_nat w) 720 60 = (Z.of_nat (cut_begin w), Z.of_nat (cut_end w)).
Proof.
  intros Hw. unfold cut_range, cut_end, cut_begin. change (u64 (720 - u64 (2 * 60))) with 600.
  destruct (Nat.leb_spec w 600).
  - rewrite (proj2 (Z.leb_le _ 600)) by lia. done.
  - rewrite (proj2 (Z.leb_gt _ 600)) by lia. rewrite u64_id by word.
    assert ((Z.of_nat w - 600 + 1) / 2 = Z.of_nat ((w - 600 + 1) / 2)) as ->
      by (rewrite Nat2Z.inj_div; f_equal; lia).
    pose proof (Nat.div_mod_eq (w - 600 + 1) 2). rewrite u64_id by word. f_equal. lia.
Qed.

Lemma window_work_spec ts cd b e : length ts = length cd -> (b + 2 <= e <= length ts)%nat ->
  Forall is_u64 ts -> Forall is_u64 cd -> StronglySorted Z.lt cd ->
  let srt := merge_sort Z.le ts in
  let span := Z.max 1 (srt !!! (e - 1)%nat - srt !!! b) in
  let work := cd !!! (e - 1)%nat - cd !!! b in
  0 < work /\ is_u64 work /\ is_u64 span
  /\ window_work ts cd (Z.of_nat b) (Z.of_nat e) = Some (span, work).
Proof.
  intros Hl Hbe Hts Hcd Hs srt span work. unfold window_work. fold srt.
  replace (Z.to_nat (Z.of_nat e - 1)) with (e - 1)%nat by lia. rewrite Nat2Z.id.
  assert (Hlen : length srt = length ts) by (unfold srt; by rewrite merge_sort_Permutation).
  assert (Forall is_u64 srt) as Hus by (unfold srt; by rewrite merge_sort_Permutation).
  assert (StronglySorted Z.le srt) as Hss by (apply StronglySorted_merge_sort; apply _).
  pose proof (list_lookup_lookup_total_lt srt (e - 1) ltac:(lia)) as L1.
  pose proof (list_lookup_lookup_total_lt srt b ltac:(lia)) as L0.
  pose proof (list_lookup_lookup_total_lt cd (e - 1) ltac:(lia)) as D1.
  pose proof (list_lookup_lookup_total_lt cd b ltac:(lia)) as D0.
  rewrite L1, L0, D1, D0. cbn [mbind option_bind].
  pose proof (strongly_sorted_lookup _ _ _ _ _ _ Hss L0 L1 ltac:(lia)).
  pose proof (strongly_sorted_lookup _ _ _ _ _ _ Hs D0 D1 ltac:(lia)).
  rewrite Forall_lookup in Hus, Hcd.
  pose proof (Hus _ _ L1). pose proof (Hus _ _ L0). pose proof (Hcd _ _ D1). pose proof (Hcd _ _ D0).
  unfold span, work. rewrite !u64_id by word.
  split_and!; [lia | word | word |]. do 2 f_equal.
  destruct (Z.eqb_spec (srt !!! (e - 1)%nat - srt !!! b) 0); lia.
Qed.

(** The windowed difficulty.  With as many timestamps as strictly increasing
    cumulative difficulties, at least two, the retargeting of block versions 1 to
    3 reads only inside the vectors (the asserts hold) and returns work times 120
    seconds over the time span of the middle 600 of the last 720 blocks, rounded
    up for version 1 and down from version 2 on, or 0 on 64-bit overflow. *)
Theorem nextDifficulty_spec t version blockIndex ts cd :
  1 <= version < 4 -> ~ 12750 <= blockIndex < 13500 ->
  length ts = length cd -> (2 <= length ts)%nat ->
  Forall is_u64 ts -> Forall is_u64 cd -> StronglySorted Z.lt cd ->
  let w := (length ts `min` 720)%nat in
  let b := cut_begin w in
  let e := cut_end w in
  let srt := merge_sort Z.le (take 720 ts) in
  let span := Z.max 1 (srt !!! (e - 1)%nat - srt !!! b) in
  let work := take 720 cd !!! (e - 1)%nat - take 720 cd !!! b in
  (b + 2 <= e <= w)%nat /\ 0 < work
  /\ nextDifficulty (CurrencyBuilder t) version blockIndex ts cd =
     Some (if 2 ^ 64 <=? work * 120 + span - 1 then 0
           else if version =? 1 then (work * 120 + span - 1) / span else work * 120 / span).
Proof.
  intros Hv Hbi Hl Hn Hts Hcd Hs w b e srt span work.
  assert (2 <= w <= 720)%nat as Hw by (unfold w; lia).
  pose proof (cut_bounds w Hw) as Hbe. fold b e in Hbe.
  destruct (window_work_spec (take 720 ts) (take 720 cd) b e) as (Hwork & Hwu & Hsu & Hww);
    [rewrite !length_take; lia | rewrite length_take; lia | by apply Forall_take | by apply Forall_take | |].
  { rewrite <- (take_drop 720 cd) in Hs. by apply StronglySorted_app in Hs as (? & ? & ?). }
  fold srt span work in Hwork, Hwu, Hsu, Hww. split_and!; [lia | lia | done |].
  unfold nextDifficulty.
  replace ((12750 <=? blockIndex) && (blockIndex <? 13500)) with false
    by (symmetry; apply andb_false_iff; rewrite Z.leb_gt, Z.ltb_ge; lia).
  assert (difficultyWindowByBlockVersion (CurrencyBuilder t) version = 720) as ->.
  { unfold difficultyWindowByBlockVersion, BLOCK_MAJOR_VERSION_8, BLOCK_MAJOR_VERSION_4, BLOCK_MAJOR_VERSION_2.
    rewrite (proj2 (Z.leb_gt 8 version)), (proj2 (Z.leb_gt 4 version)) by lia.
    destruct (2 <=? version); [done|]. by destruct (_ =? _). }
  assert (difficultyCutByBlockVersion (CurrencyBuilder t) version = 60) as ->.
  { unfold difficultyCutByBlockVersion. destruct (_ <=? version); [done|]. by destruct (_ =? _). }
  change (Z.to_nat 720) with 720%nat.
  assert (Htake : (if (720 <? length ts)%nat then (take 720 ts, take 720 cd) else (ts, cd))
    = (take 720 ts, take 720 cd)).
  { destruct (Nat.ltb_spec 720 (length ts)); [done|]. by rewrite !take_ge by lia. }
  rewrite Htake. replace (length (take 720 ts)) with w by (rewrite length_take; unfold w; lia).
  rewrite (proj2 (Z.leb_gt (Z.of_nat w) 1)), cut_range_spec by lia. fold b e. rewrite Hww.
  cbn [mbind option_bind]. change (m_difficultyTarget (CurrencyBuilder t)) with 120.
  change (m_zawyDifficultyV2 (CurrencyBuilder t)) with 1.
  change (m_zawyDifficultyBlockIndex (CurrencyBuilder t)) with 0. cbn [Z.eqb negb andb].
  rewrite mul128_spec by word. set (n := work * 120). unfold is_u64 in Hwu, Hsu.
  destruct (Z.leb_spec (2 ^ 64) (n + span - 1)) as [Hov|Hok].
  - destruct (Z.eqb_spec (n / 2 ^ 64) 0) as [E|E]; cbn [negb orb]; [|done].
    unfold UINT64_MAX. rewrite (proj2 (Z.ltb_lt _ (span - 1))) by word. done.
  - rewrite (Z.div_small n), (Z.mod_small n) by lia. cbn [Z.eqb negb orb]. unfold UINT64_MAX.
    rewrite (proj2 (Z.ltb_ge _ (span - 1))) by lia. rewrite andb_true_r.
    destruct (Z.eqb_spec version 1) as [->|]; [|by rewrite (proj2 (Z.leb_le 2 version)) by lia].
    by rewrite u64_id by word.
Qed.

Lemma nextDifficulty_spec_witness :
  nextDifficulty (CurrencyBuilder false) 2 100 [10; 130; 250] [1000; 2000; 3000] = Some 1000.
Proof. apply (nextDifficulty_spec false 2 100 [10; 130; 250] [1000; 2000; 3000]);
  [lia | lia | done | simpl; lia | repeat constructor; word | repeat constructor; word | repeat constructor].
Defined.

(** ** LWMA *)

(** One corrected solve time lies between 1 and six target times, and the
    timestamps stay in range. *)
Lemma solve_time prev ts : 0 <= prev < 2 ^ 63 + 100 -> 0 <= ts < 2 ^ 63 ->
  let this := if prev <? ts then ts else u64 (prev + 1) in
  0 <= this <= Z.max ts (prev + 1) /\ 1 <= Z.min (6 * 120) (u64 (this - prev)) <= 720.
Proof.
  intros Hp Ht. cbv zeta. destruct (Z.ltb_spec prev ts).
  - rewrite u64_id by word. lia.
  - rewrite (u64_id (prev + 1)) by word. rewrite u64_id by word. lia.
Qed.

Definition times_ok (ts : list Z) : Prop := Forall (fun t => 0 <= t < 2 ^ 63) ts.

Lemma lwma1_loop_bounds n i rest prev L : times_ok rest -> (n <= length rest)%nat ->
  1 <= i -> i + Z.of_nat n <= 61 -> 0 <= prev < 2 ^ 63 + i -> 0 <= L <= 720 * 60 * i ->
  exists L', lwma1_loop n 120 i rest prev L = Some L'
    /\ L <= L' /\ 2 * L' <= 2 * L + 720 * (Z.of_nat n * (2 * i + Z.of_nat n - 1)).
Proof.
  revert i rest prev L. induction n as [|n IH]; intros i rest prev L Ht Hl Hi Hin Hp HL.
  { exists L. simpl. split; [done | lia]. }
  destruct rest as [|ts rest]; [simpl in Hl; lia|]. apply Forall_cons in Ht as [Hts Ht].
  cbn [lwma1_loop]. destruct (solve_time prev ts) as [Hthis HST]; [lia | done |].
  set (this := if prev <? ts then ts else u64 (prev + 1)) in *.
  set (ST := Z.min (6 * 120) (u64 (this - prev))) in *.
  assert (i * 1 <= i * ST <= 60 * 720) by nia.
  rewrite (u64_id (i * ST)), (u64_id (L + i * ST)) by word.
  destruct (IH (i + 1) rest this (L + i * ST)) as (L' & -> & HL');
    [done | simpl in Hl; lia | lia | lia | lia | lia |].
  exists L'. split; [done|]. split; [lia|].
  replace (Z.of_nat (S n) * (2 * i + Z.of_nat (S n) - 1))
    with (2 * i + Z.of_nat n * (2 * (i + 1) + Z.of_nat n - 1)) by (rewrite Nat2Z.inj_succ; ring).
  assert (i * ST <= i * 720) by (apply Z.mul_le_mono_nonneg_l; lia). lia.
Qed.

Lemma round_loop_bounds fuel i d : 0 <= d < 2 ^ 63 -> 0 <= i <= 1000000000 ->
  199 * d <= 200 * round_loop fuel i d <= 201 * d.
Proof.
  intros Hd. revert i. induction fuel as [|fuel IH]; intros i Hi; cbn [round_loop]; [lia|].
  destruct (Z.ltb_spec 1 i); [|lia]. rewrite (u64_id (i * 100)) by word.
  destruct (Z.ltb_spec (i * 100) d); [|apply IH; word].
  pose proof (Z.div_mod (d + i / 2) i ltac:(lia)). pose proof (Z.mod_pos_bound (d + i / 2) i ltac:(lia)).
  assert (0 <= i / 2 <= i) by word. assert (i - 1 <= 2 * (i / 2) <= i) by word.
  rewrite (u64_id (d + i / 2)) by word.
  assert ((d + i / 2) / i * i = d + i / 2 - (d + i / 2) mod i) as -> by lia.
  rewrite u64_id by word. lia.
Qed.

Lemma some_bind {A B} (f : A -> option B) x : (Some x ≫= f) = f x.
Proof. done. Qed.

(** The division and the rounding of LWMA-1. *)
Lemma lwma1_ratio avg L : 0 <= avg <= 424250337475 -> 21600 <= L <= 1317600 ->
  let d := round_loop 10 1000000000
    (if 2000000 * 60 * 60 * 120 <? avg then u64 (avg / (200 * L) * (60 * (60 + 1) * 120 * 99))
     else u64 (u64 (u64 (u64 (avg * 60) * (60 + 1)) * 120) * 99) / (200 * L)) in
  164 * avg <= 1000 * d + 1000 /\ 100 * d <= 1012 * avg.
Proof.
  intros Ha HL. cbv zeta. rewrite (proj2 (Z.ltb_ge _ avg)) by lia.
  rewrite (u64_id (avg * 60)), (u64_id (avg * 60 * (60 + 1))), (u64_id (avg * 60 * (60 + 1) * 120)),
    (u64_id (avg * 60 * (60 + 1) * 120 * 99)) by (unfold is_u64; lia).
  set (q := avg * 60 * (60 + 1) * 120 * 99 / (200 * L)).
  pose proof (Z.div_mod (avg * 60 * (60 + 1) * 120 * 99) (200 * L) ltac:(lia)) as Hq.
  pose proof (Z.mod_pos_bound (avg * 60 * (60 + 1) * 120 * 99) (200 * L) ltac:(lia)) as Hr. fold q in Hq.
  assert (0 <= q) by (apply Z.div_pos; lia). clearbody q.
  assert (q * 21600 <= q * L <= q * 1317600) by (split; apply Z.mul_le_mono_nonneg_l; lia).
  pose proof (round_loop_bounds 10 1000000000 q) as Hd.
  generalize dependent (round_loop 10 1000000000 q). intros d Hd. lia.
Qed.

(** The largest average difficulty for which the products of LWMA-1 fit 64 bits. *)
Definition LWMA1_SAFE_AVG : Z := (2 ^ 64 - 1) / (60 * 61 * 120 * 99).

(** LWMA-1.  For 61 timestamps below 2^63 and cumulative difficulties whose
    average step fits the safe range, a block outside the fork window always gets
    a difficulty, computed without division by zero or overflow, and it lies
    between 16.4% and 10.12 times the average of the window. *)
Theorem nextDifficultyLWMA1_bounds c ts cd height :
  let avg := (cd !!! 60%nat - cd !!! 0%nat) / 60 in
  length ts = 61%nat -> length cd = 61%nat -> times_ok ts -> 120 <= ts !!! 0%nat ->
  Forall is_u64 cd -> cd !!! 0%nat <= cd !!! 60%nat -> avg <= LWMA1_SAFE_AVG ->
  ~ (m_upgradeHeightV8 c <= height < u64 (m_upgradeHeightV8 c + 60)) ->
  exists d, nextDifficultyLWMA1 c ts cd height = Some d
    /\ 164 * avg <= 1000 * d + 1000 /\ 100 * d <= 1012 * avg.
Proof.
  intros avg Hl Hlc Hts Ht0 Hcd Hmono Havg Hh. unfold nextDifficultyLWMA1.
  replace ((m_upgradeHeightV8 c <=? height) && (height <? u64 (m_upgradeHeightV8 c + 60))) with false
    by (symmetry; apply andb_false_iff; rewrite Z.leb_gt, Z.ltb_ge; lia).
  pose proof (list_lookup_lookup_total_lt ts 0 ltac:(lia)) as L0.
  pose proof (list_lookup_lookup_total_lt cd 60 ltac:(lia)) as D1.
  pose proof (list_lookup_lookup_total_lt cd 0 ltac:(lia)) as D0.
  rewrite L0, D1, D0, some_bind. cbv zeta.
  assert (0 <= ts !!! 0%nat < 2 ^ 63) by (unfold times_ok in Hts; rewrite Forall_lookup in Hts; by apply (Hts 0%nat)).
  destruct (lwma1_loop_bounds 60 1 (drop 1 ts) (u64 (ts !!! 0%nat - 120)) 0) as (L & -> & HL);
    [by apply Forall_drop | rewrite length_drop; lia | lia | lia | word | lia |].
  rewrite !some_bind. change (60 * 60 * 120 / 20) with 21600.
  set (L' := if L <? 21600 then 21600 else L).
  assert (21600 <= L' <= 1317600) as HL' by (unfold L'; destruct (Z.ltb_spec L 21600); lia).
  clearbody L'. clear HL. rewrite Forall_lookup in Hcd. pose proof (Hcd _ _ D1). pose proof (Hcd _ _ D0).
  rewrite (u64_id (cd !!! 60%nat - cd !!! 0%nat)) by word. fold avg.
  assert (0 <= avg) by (unfold avg; word). clearbody avg.
  eexists. split; [reflexivity|]. apply lwma1_ratio; [|done].
  split; [done|]. etransitivity; [exact Havg | by vm_compute].
Qed.

Lemma nextDifficultyLWMA1_bounds_witness :
  let ts := (fun i => 1000000 + 120 * Z.of_nat i) <$> seq 0 61 in
  let cd := (fun i => 7000000 * Z.of_nat i) <$> seq 0 61 in
  exists d, nextDifficultyLWMA1 (CurrencyBuilder false) ts cd 1000000 = Some d
    /\ 164 * 7000000 <= 1000 * d + 1000 /\ 100 * d <= 1012 * 7000000.
Proof.
  intros ts cd. apply (nextDifficultyLWMA1_bounds (CurrencyBuilder false) ts cd 1000000);
    [done | done | | by vm_compute | | by vm_compute | by vm_compute | by vm_compute; intuition].
  - refine (bool_decide_eq_true_1 _ _). vm_compute. reflexivity.
  - refine (bool_decide_eq_true_1 _ _). vm_compute. reflexivity.
Defined.

(** LWMA-1 overflow.  The threshold above which the code switches to the
    overflow-free formula, [2000000 * N * N * T], is larger than the safe range.
    Between the two the 64-bit product wraps: a chain with a constant difficulty
    of 500,000,000,000 and perfect 120-second blocks gets 75,000,000,000 as its
    next difficulty. *)
Theorem nextDifficultyLWMA1_overflow :
  let ts := (fun i => 1000000 + 120 * Z.of_nat i) <$> seq 0 61 in
  let cd := (fun i => 500000000000 * Z.of_nat i) <$> seq 0 61 in
  LWMA1_SAFE_AVG < 500000000000 <= 2000000 * 60 * 60 * 120
  /\ nextDifficultyLWMA1 (CurrencyBuilder false) ts cd 1000000 = Some 75000000000.
Proof. split; [vm_compute; split; congruence | vm_compute; reflexivity]. Qed.

Lemma lwma3_loop_bounds n N i rest prev L sum : times_ok rest -> (n <= length rest)%nat ->
  1 <= i -> i + Z.of_nat n <= 61 -> 0 <= prev < 2 ^ 63 + i -> 0 <= L <= 720 * 60 * i ->
  exists L' sum', lwma3_loop n 120 N i rest prev L sum = Some (L', sum')
    /\ L + Z.of_nat n <= L' <= 720 * 60 * 61.
Proof.
  revert i rest prev L sum. induction n as [|n IH]; intros i rest prev L sum Ht Hl Hi Hin Hp HL.
  { exists L, sum. simpl. split; [done | lia]. }
  destruct rest as [|ts rest]; [simpl in Hl; lia|]. apply Forall_cons in Ht as [Hts Ht].
  cbn [lwma3_loop]. destruct (solve_time prev ts) as [Hthis HST]; [lia | done |].
  set (this := if prev <? ts then ts else u64 (prev + 1)) in *.
  set (ST := Z.min (6 * 120) (u64 (this - prev))) in *.
  assert (1 <= ST * i <= 60 * 720) by nia.
  rewrite (u64_id (ST * i)), (u64_id (L + ST * i)) by word.
  set (sum1 := if N - 3 <? i then u64 (sum + ST) else sum).
  destruct (IH (i + 1) rest this (L + ST * i) sum1) as (L' & sum' & -> & HL');
    [done | simpl in Hl; lia | lia | lia | lia | lia |].
  exists L', sum'. split; [done|]. lia.
Qed.

(** The clamping of LWMA-3. *)
Lemma lwma3_clamp prev_D x (jump : bool) : 0 <= prev_D -> prev_D * 150 < 2 ^ 64 ->
  let d := Z.max (u64 (prev_D * 67) / 100) (Z.min x (u64 (prev_D * 150) / 100)) in
  let d := if jump then Z.max d (u64 (prev_D * 108) / 100) else d in
  prev_D * 67 / 100 <= d <= prev_D * 150 / 100.
Proof.
  intros H1 H2. cbv zeta. rewrite (u64_id (prev_D * 67)), (u64_id (prev_D * 108)), (u64_id (prev_D * 150)) by word.
  assert (prev_D * 67 / 100 <= prev_D * 108 / 100 <= prev_D * 150 / 100)
    by (split; apply Z.div_le_mono; lia). destruct jump; lia.
Qed.

(** LWMA-3.  For more than ten timestamps below 2^63 and as many increasing
    cumulative difficulties, the algorithm always produces a difficulty (no
    division by zero, no access out of range, whatever the order of the
    timestamps), and it stays between 67% and 150% of the difficulty of the
    last block of the window. *)
Theorem nextDifficultyLWMA3_bounds ts cd :
  let N := Nat.min (length ts - 1) 60 in
  let prev_D := cd !!! N - cd !!! (N - 1)%nat in
  (10 < length ts)%nat -> length cd = length ts -> times_ok ts ->
  0 <= prev_D -> prev_D * 150 < 2 ^ 64 ->
  exists d, nextDifficultyLWMA3 ts cd = Some d /\ prev_D * 67 / 100 <= d <= prev_D * 150 / 100.
Proof.
  intros N prev_D Hl Hlc Hts Hp0 Hp. unfold nextDifficultyLWMA3.
  rewrite (proj2 (Z.leb_gt _ 10)) by lia. cbv zeta.
  replace (if Z.of_nat (length ts) <? 60 + 1 then Z.of_nat (length ts) - 1 else 60) with (Z.of_nat N)
    by (destruct (Z.ltb_spec (Z.of_nat (length ts)) (60 + 1)); lia).
  rewrite Nat2Z.id. replace (Z.to_nat (Z.of_nat N - 1)) with (N - 1)%nat by lia.
  assert (10 <= N < length ts)%nat as HN by lia. assert (N <= 60)%nat as HN60 by lia.
  rewrite (list_lookup_lookup_total_lt ts 0), (list_lookup_lookup_total_lt cd 0),
    (list_lookup_lookup_total_lt cd N), (list_lookup_lookup_total_lt cd (N - 1)) by lia.
  subst prev_D. clearbody N. rewrite some_bind.
  assert (0 <= ts !!! 0%nat < 2 ^ 63)
    by (unfold times_ok in Hts; rewrite Forall_lookup in Hts; apply (Hts 0%nat), list_lookup_lookup_total_lt; lia).
  destruct (lwma3_loop_bounds N (Z.of_nat N) 1 (drop 1 ts) (ts !!! 0%nat) 0 0) as (L & sum & -> & HL);
    [by apply Forall_drop | rewrite length_drop; lia | lia | lia | lia | lia |].
  rewrite !some_bind. rewrite (u64_id (100 * 2 * L)) by word.
  rewrite (proj2 (Z.eqb_neq _ 0)) by lia. rewrite (u64_id (cd !!! N - _)) by word.
  eexists. split; [reflexivity|]. by apply lwma3_clamp.
Qed.

Lemma nextDifficultyLWMA3_bounds_witness :
  let ts := (fun i => 1000000 + (if Nat.even i then 300 else 0) + 60 * Z.of_nat i) <$> seq 0 61 in
  let cd := (fun i => 7000 * Z.of_nat i) <$> seq 0 61 in
  exists d, nextDifficultyLWMA3 ts cd = Some d /\ 7000 * 67 / 100 <= d <= 7000 * 150 / 100.
Proof.
  intros ts cd. apply (nextDifficultyLWMA3_bounds ts cd); [cbv; lia | done | | by vm_compute | by vm_compute].
  refine (bool_decide_eq_true_1 _ _). vm_compute. reflexivity.
Defined.

End Difficulty.
