(* ===== verification/DepositIndex.v ===== *)
(** * The deposit index

    [CryptoNoteCore/DepositIndex.cpp]: the per-height totals of locked deposits
    and of the interest promised for them.  The index stores one entry per block
    that changes the total, with running sums, and is searched by height.

    The contract is stated against the plain history of the chain, the list of
    the (amount, interest) pairs of its blocks: a step relation [reaches] runs the
    operations of the class beside the corresponding operations on the history,
    and every query is proved equal to a sum over that history. *)

From stdpp Require Import base list sorting.
From Stdlib Require Import ZArith Lia.
From S2P Require Import Prelude.
Local Open Scope Z_scope.

Module DepositIndex.

Record DepositIndexEntry := MkDepositIndexEntry {
  height : Z;     (* uint32_t *)
  amount : Z;     (* int64_t *)
  interest : Z    (* uint64_t *)
}.

Record DepositIndex := MkDepositIndex {
  index : list DepositIndexEntry;
  blockCount : Z  (* uint32_t *)
}.

Definition empty : DepositIndex := MkDepositIndex [] 0.

Definition fullDepositAmount (d : DepositIndex) : Z :=
  match last (index d) with None => 0 | Some e => amount e end.

Definition fullInterestAmount (d : DepositIndex) : Z :=
  match last (index d) with None => 0 | Some e => interest e end.

(** [sumWillOverflow] on [int64_t] and on [uint64_t]. *)
Definition sumWillOverflow_i64 (x y : Z) : bool :=
  if (0 <? y) && (INT64_MAX - y <? x) then true
  else (y <? 0) && (x <? INT64_MIN - y).

Definition sumWillOverflow_u64 (x y : Z) : bool := UINT64_MAX - y <? x.

(** A failed [assert] is [None]. *)
Definition pushBlock (am int : Z) (d : DepositIndex) : option DepositIndex :=
  let lastAmount := fullDepositAmount d in
  let lastInterest := fullInterestAmount d in
  if sumWillOverflow_i64 am lastAmount then None
  else if sumWillOverflow_u64 int lastInterest then None
  else if am + lastAmount <? 0 then None
  else
    let index' :=
      if am =? 0 then index d
      else index d ++ [MkDepositIndexEntry (blockCount d) (am + lastAmount) (int + lastInterest)] in
    Some (MkDepositIndex index' (u32 (blockCount d + 1))).

Definition pop_back {A} (l : list A) : list A := take (length l - 1) l.

Definition popBlock (d : DepositIndex) : option DepositIndex :=
  if blockCount d =? 0 then None
  else
    let count := blockCount d - 1 in
    match last (index d) with
    | Some e => Some (MkDepositIndex (if height e =? count then pop_back (index d) else index d) count)
    | None => Some (MkDepositIndex (index d) count)
    end.

Definition size (d : DepositIndex) : Z := blockCount d.

(** [std::upper_bound] with the comparison [height < left.height]. *)
Definition upperBound (h : Z) (d : DepositIndex) : nat :=
  partition_point (fun e => negb (h <? height e)) (index d).

(** The iterator is stepped back over an entry at [from] itself. *)
Definition popBlocks (from : Z) (d : DepositIndex) : Z * DepositIndex :=
  if blockCount d <=? from then (0, d)
  else
    let it := upperBound from d in
    let it :=
      match it with
      | O => it
      | S k => match index d !! k with
               | Some e => if height e =? from then k else it
               | None => it
               end
      end in
    let diff := blockCount d - from in
    (diff, MkDepositIndex (take it (index d)) (blockCount d - diff)).

Definition depositAmountAtHeight (h : Z) (d : DepositIndex) : Z :=
  if blockCount d =? 0 then 0
  else match upperBound h d with
       | O => 0
       | S k => match index d !! k with Some e => amount e | None => 0 end
       end.

Definition depositInterestAtHeight (h : Z) (d : DepositIndex) : Z :=
  if blockCount d =? 0 then 0
  else match upperBound h d with
       | O => 0
       | S k => match index d !! k with Some e => interest e | None => 0 end
       end.

(** ** The history of the chain *)

(** One (amount, interest) pair per block. *)
Definition history := list (Z * Z).

Definition total_amount (bs : history) : Z := sumZ bs.*1.

(** The interest of the blocks that change the total: [pushBlock] records the
    interest of a block only together with a change of the amount. *)
Definition recorded_interest (b : Z * Z) : Z := if b.1 =? 0 then 0 else b.2.
Definition total_interest (bs : history) : Z := sumZ (recorded_interest <$> bs).

Fixpoint entries (h a i : Z) (bs : history) : list DepositIndexEntry :=
  match bs with
  | [] => []
  | (am, int) :: bs =>
      if am =? 0 then entries (h + 1) a i bs
      else MkDepositIndexEntry h (a + am) (i + int) :: entries (h + 1) (a + am) (i + int) bs
  end.

Definition represents (d : DepositIndex) (bs : history) : Prop :=
  index d = entries 0 0 0 bs /\ blockCount d = Z.of_nat (length bs).

(** The operations on the index beside those on the history. *)
Inductive reaches : DepositIndex -> history -> Prop :=
| reaches_empty : reaches empty []
| reaches_push d bs am int d' :
    reaches d bs -> blockCount d < UINT32_MAX -> pushBlock am int d = Some d' ->
    reaches d' (bs ++ [(am, int)])
| reaches_pop d bs d' : reaches d bs -> popBlock d = Some d' -> reaches d' (pop_back bs)
| reaches_popBlocks d bs from : reaches d bs -> 0 <= from ->
    reaches (popBlocks from d).2 (take (Z.to_nat from) bs).

(** ** Lemmas *)

Lemma total_amount_app bs cs : total_amount (bs ++ cs) = total_amount bs + total_amount cs.
Proof. unfold total_amount. by rewrite fmap_app, sumZ_app. Qed.

Lemma total_interest_app bs cs : total_interest (bs ++ cs) = total_interest bs + total_interest cs.
Proof. unfold total_interest. by rewrite fmap_app, sumZ_app. Qed.

Lemma total_amount_cons b bs : total_amount (b :: bs) = b.1 + total_amount bs.
Proof. done. Qed.

Lemma total_interest_cons b bs : total_interest (b :: bs) = recorded_interest b + total_interest bs.
Proof. done. Qed.

Lemma entries_app h a i bs cs :
  entries h a i (bs ++ cs) =
  entries h a i bs ++ entries (h + Z.of_nat (length bs)) (a + total_amount bs) (i + total_interest bs) cs.
Proof.
  revert h a i. induction bs as [|[am int] bs IH]; intros h a i; cbn [app entries length].
  { by rewrite !Z.add_0_r. }
  rewrite total_amount_cons, total_interest_cons. unfold recorded_interest. cbn [fst snd].
  destruct (Z.eqb_spec am 0) as [->|]; cbn [app]; rewrite IH; repeat (f_equal; try lia).
Qed.

(** An accessor of the last entry is the running sum. *)
Lemma entries_last h a i bs :
  match last (entries h a i bs) with None => a | Some e => amount e end = a + total_amount bs /\
  match last (entries h a i bs) with None => i | Some e => interest e end = i + total_interest bs.
Proof.
  induction bs as [|[am int] bs IH] using rev_ind.
  { unfold total_amount, total_interest. simpl. lia. }
  rewrite entries_app, total_amount_app, total_interest_app, total_amount_cons, total_interest_cons.
  change (total_amount []) with 0. change (total_interest []) with 0. unfold recorded_interest.
  cbn [fst snd entries]. destruct (Z.eqb_spec am 0) as [->|]; cbn [app].
  - rewrite app_nil_r. lia.
  - rewrite last_snoc. cbn [amount interest]. lia.
Qed.

Lemma entries_heights h a i bs :
  Forall (fun e => h <= height e < h + Z.of_nat (length bs)) (entries h a i bs).
Proof.
  revert h a i. induction bs as [|[am int] bs IH]; intros h a i; [constructor|]. simpl.
  assert (forall a' i', Forall (fun e => h <= height e < h + Z.of_nat (S (length bs))) (entries (h + 1) a' i' bs))
    as Hrest by (intros a' i'; eapply Forall_impl; [apply IH | simpl; intros; lia]).
  destruct (am =? 0); [done|]. constructor; [simpl; lia | done].
Qed.

(** The search by height splits the entries as it splits the history. *)
Lemma upperBound_split d bs h : represents d bs -> 0 <= h ->
  let k := Z.to_nat (h + 1) in
  upperBound h d = length (entries 0 0 0 (take k bs)) /\
  take (upperBound h d) (index d) = entries 0 0 0 (take k bs).
Proof.
  intros [Hi _] Hh k. unfold upperBound.
  rewrite <- (take_drop k bs), entries_app in Hi. rewrite Hi.
  set (l := entries 0 0 0 (take k bs)). set (r := entries _ _ _ (drop k bs)).
  assert (partition_point (fun e => negb (h <? height e)) (l ++ r) = length l) as ->.
  { rewrite partition_point_app_r.
    - destruct r as [|e r'] eqn:Er; [simpl; lia|]. rewrite partition_point_false_head; [lia|].
      apply negb_false_iff, Z.ltb_lt. pose proof (entries_heights (0 + Z.of_nat (length (take k bs)))
        (0 + total_amount (take k bs)) (0 + total_interest (take k bs)) (drop k bs)) as Hr.
      fold r in Hr. rewrite Er in Hr. apply Forall_cons in Hr as [Hr _].
      destruct (decide (k <= length bs)%nat) as [Hk|Hk].
      + rewrite length_take_le in Hr by done. lia.
      + unfold r in Er. rewrite drop_ge in Er by lia. done.
    - eapply Forall_impl; [apply entries_heights|]. intros e. simpl. rewrite length_take.
      intros. apply negb_true_iff, Z.ltb_ge. lia. }
  split; [done|]. apply take_app_length.
Qed.
(** Dropping the last entry when it belongs to the last block. *)
Definition trim (c : Z) (l : list DepositIndexEntry) : list DepositIndexEntry :=
  match last l with
  | Some e => if height e =? c then pop_back l else l
  | None => l
  end.

Lemma pop_back_snoc {A} (l : list A) x : pop_back (l ++ [x]) = l.
Proof. unfold pop_back. rewrite length_app. simpl. replace (_ - 1)%nat with (length l) by lia. apply take_app_length. Qed.

Lemma trim_entries k b : trim (Z.of_nat (length k)) (entries 0 0 0 (k ++ [b])) = entries 0 0 0 k.
Proof.
  destruct b as [am int]. rewrite entries_app. cbn [entries]. unfold trim.
  destruct (Z.eqb_spec am 0) as [Ham|Ham].
  - rewrite app_nil_r. destruct (last (entries 0 0 0 k)) as [e|] eqn:El; [|done].
    apply last_snoc_inv in El as [l El]. pose proof (entries_heights 0 0 0 k) as H. rewrite El in H.
    apply Forall_app in H as [_ H]. apply Forall_cons in H as [H _].
    rewrite (proj2 (Z.eqb_neq _ _)) by lia. done.
  - rewrite last_snoc. cbn [height]. rewrite Z.eqb_refl. apply pop_back_snoc.
Qed.

Lemma full_amounts d bs : represents d bs ->
  fullDepositAmount d = total_amount bs /\ fullInterestAmount d = total_interest bs.
Proof. intros [Hi _]. unfold fullDepositAmount, fullInterestAmount. rewrite Hi. apply (entries_last 0 0 0). Qed.

Lemma push_represents d bs am int d' : represents d bs -> blockCount d < UINT32_MAX ->
  pushBlock am int d = Some d' -> represents d' (bs ++ [(am, int)]).
Proof.
  intros Hr Hc. destruct (full_amounts d bs Hr) as [Ha Hi]. unfold pushBlock. rewrite Ha, Hi.
  destruct Hr as [Hidx Hcount]. repeat case_match; try done. all: intros [= <-]; split; simpl.
  2, 4: rewrite length_app; simpl; rewrite u32_id by (unfold UINT32_MAX in Hc; word); lia.
  all: rewrite entries_app; cbn [entries].
  - rewrite H2, app_nil_r. done.
  - rewrite H2, Hidx, Hcount, !Z.add_0_l, (Z.add_comm am), (Z.add_comm int). done.
Qed.

Lemma pop_represents d bs d' : represents d bs -> popBlock d = Some d' -> represents d' (pop_back bs).
Proof.
  intros [Hidx Hcount]. unfold popBlock. destruct (Z.eqb_spec (blockCount d) 0); [done|].
  destruct (list_snoc_cases bs) as [->|(k & b & ->)]; [simpl in Hcount; lia|].
  rewrite length_app in Hcount. simpl in Hcount. replace (blockCount d - 1) with (Z.of_nat (length k)) by lia.
  intros Hd. assert (d' = MkDepositIndex (trim (Z.of_nat (length k)) (index d)) (Z.of_nat (length k))) as ->.
  { unfold trim. by destruct (last (index d)); simplify_eq. }
  rewrite pop_back_snoc. split; [|done]. cbn [index]. rewrite Hidx. apply trim_entries.
Qed.

Lemma popBlocks_represents d bs from : represents d bs -> 0 <= from ->
  represents (popBlocks from d).2 (take (Z.to_nat from) bs)
  /\ (popBlocks from d).1 = Z.max 0 (blockCount d - from).
Proof.
  intros Hr Hf. destruct (upperBound_split d bs from Hr Hf) as [Hu Ht]. destruct Hr as [Hidx Hcount].
  unfold popBlocks. destruct (Z.leb_spec (blockCount d) from).
  { cbn [fst snd]. rewrite take_ge by lia. split; [by split | lia]. }
  cbv zeta. cbn [fst snd]. split; [|lia].
  destruct (lookup_lt_is_Some_2 bs (Z.to_nat from)) as [b Hb]; [lia|].
  split; cbn [index blockCount]; [|rewrite length_take_le by lia; lia].
  replace (Z.to_nat (from + 1)) with (S (Z.to_nat from)) in * by lia.
  rewrite (take_S_r _ _ _ Hb) in Ht. pose proof (trim_entries (take (Z.to_nat from) bs) b) as Htr.
  rewrite <- Ht, length_take_le, Z2Nat.id in Htr by lia. rewrite <- Htr. clear - Hu.
  pose proof (partition_point_le (fun e => negb (from <? height e)) (index d)) as Hle. fold (upperBound from d) in Hle.
  unfold trim. destruct (upperBound from d) as [|k]; [by rewrite take_0|].
  destruct (lookup_lt_is_Some_2 (index d) k) as [e He]; [lia|].
  rewrite He, (take_S_r _ _ _ He), last_snoc, pop_back_snoc, <- (take_S_r _ _ _ He). by destruct (height e =? from).
Qed.

Lemma reaches_history d bs : reaches d bs -> represents d bs.
Proof.
  induction 1 as [|d bs am int d' _ IH Hc Hp|d bs d' _ IH Hp|d bs from _ IH Hf]; [done|..].
  - eapply push_represents; eassumption.
  - eapply pop_represents; eassumption.
  - apply popBlocks_represents; assumption.
Qed.

Lemma at_height d bs h : represents d bs -> 0 <= h ->
  depositAmountAtHeight h d = total_amount (take (Z.to_nat (h + 1)) bs)
  /\ depositInterestAtHeight h d = total_interest (take (Z.to_nat (h + 1)) bs).
Proof.
  intros Hr Hh. destruct (upperBound_split d bs h Hr Hh) as [Hu Ht]. destruct Hr as [Hidx Hcount].
  unfold depositAmountAtHeight, depositInterestAtHeight.
  destruct (Z.eqb_spec (blockCount d) 0).
  { destruct bs; [by rewrite take_nil | simpl in Hcount; lia]. }
  pose proof (entries_last 0 0 0 (take (Z.to_nat (h + 1)) bs)) as HL. rewrite <- Ht in HL.
  rewrite !Z.add_0_l in HL. destruct HL as [<- <-]. clear - Hu.
  pose proof (partition_point_le (fun e => negb (h <? height e)) (index d)) as Hle. fold (upperBound h d) in Hle.
  destruct (upperBound h d) as [|k]; [by rewrite take_0|].
  destruct (lookup_lt_is_Some_2 (index d) k) as [e He]; [lia|].
  by rewrite He, (take_S_r _ _ _ He), last_snoc.
Qed.

(** The interest that the index does not have: that of the blocks with a zero net amount. *)
Definition lost_interest (bs : list (Z * Z)) : Z := sumZ (filter (fun b => b.1 = 0) bs).*2.

Lemma total_interest_lost (bs : list (Z * Z)) : total_interest bs = sumZ bs.*2 - lost_interest bs.
Proof.
  unfold lost_interest. induction bs as [|b bs IH]; [reflexivity|]. rewrite total_interest_cons, IH. unfold recorded_interest.
  destruct (Z.eqb_spec b.1 0) as [E|E]; [rewrite filter_cons_True by done|rewrite filter_cons_False by done]; cbn; unfold sumZ; cbn; lia.
Qed.

Lemma lost_interest_none bs : (forall b, b ∈ bs -> b.1 = 0 -> b.2 = 0) -> lost_interest bs = 0.
Proof.
  intros Hz. unfold lost_interest. assert (forall b, b ∈ filter (fun b => b.1 = 0) bs -> b.2 = 0) as H by (intros b [Hb Hin]%list_elem_of_filter; by apply Hz).
  induction (filter _ bs) as [|b l IH]; [reflexivity|]. cbn. change (b.2 + sumZ l.*2 = 0). rewrite (H b) by left. rewrite IH; [lia|]. intros b' Hb'. apply H. by right.
Qed.

(** C32: The deposit index against the history.  However blocks are pushed, popped and rolled
    back, the amount reported at a height is the sum over the blocks of the current chain up
    to that height, the full amount is the sum over the whole chain, and the size is its
    length.  The interest reported is the sum over the same blocks less [lost_interest], the
    interest of those among them whose net amount is zero: [pushBlock] drops it.  So the
    interest is the full sum exactly when these blocks had none in sum, as when each block
    with interest changes the amount. *)
Theorem depositIndex_refines_history d bs h : reaches d bs -> 0 <= h -> let upto := take (Z.to_nat (h + 1)) bs in
  depositAmountAtHeight h d = sumZ upto.*1 /\ depositInterestAtHeight h d = sumZ upto.*2 - lost_interest upto
  /\ fullDepositAmount d = sumZ bs.*1 /\ fullInterestAmount d = sumZ bs.*2 - lost_interest bs
  /\ size d = Z.of_nat (length bs)
  /\ ((forall b, b ∈ bs -> b.1 = 0 -> b.2 = 0) -> depositInterestAtHeight h d = sumZ upto.*2 /\ fullInterestAmount d = sumZ bs.*2).
Proof.
  intros Hr%reaches_history Hh upto. destruct (at_height d bs h Hr Hh) as [Ha Hi], (full_amounts d bs Hr) as [Hfa Hfi]. rewrite total_interest_lost in Hi, Hfi. fold upto in Ha, Hi.
  destruct Hr as [_ Hs]. split_and!; [done..|]. intros Hz. rewrite lost_interest_none in Hfi by done. rewrite lost_interest_none in Hi; [lia|].
  intros b Hb. apply Hz. by eapply elem_of_take in Hb as (i & Hb & _); eapply list_elem_of_lookup_2.
Qed.

(** Pushing a list of blocks that do not overflow. *)
Definition pushAll (bs : history) : DepositIndex :=
  foldl (fun d b => default d (pushBlock b.1 b.2 d)) empty bs.

(** Four blocks, the second with a zero net amount, and a roll-back to height 3. *)
Lemma depositIndex_refines_history_witness :
  let d := pushAll [(500, 7); (0, 9); (-200, 1); (40, 2)] in
  depositAmountAtHeight 2 (popBlocks 3 d).2 = 300 /\ fullInterestAmount (popBlocks 3 d).2 = 17 - 9.
Proof.
  intros d.
  destruct (depositIndex_refines_history (popBlocks 3 d).2
    (take 3 [(500, 7); (0, 9); (-200, 1); (40, 2)]) 2) as (H1 & _ & _ & H2 & _ & _); [|lia|].
  - apply (reaches_popBlocks d _ 3); [|lia].
    apply (reaches_push (pushAll [(500, 7); (0, 9); (-200, 1)]) [(500, 7); (0, 9); (-200, 1)]);
      [|by vm_compute|vm_compute; reflexivity].
    apply (reaches_push (pushAll [(500, 7); (0, 9)]) [(500, 7); (0, 9)]); [|by vm_compute|vm_compute; reflexivity].
    apply (reaches_push (pushAll [(500, 7)]) [(500, 7)]); [|by vm_compute|vm_compute; reflexivity].
    apply (reaches_push empty []); [apply reaches_empty|by vm_compute|vm_compute; reflexivity].
  - split; [exact H1 | exact H2].
Defined.

End DepositIndex.
