(* ===== verification/ChainIndex.v ===== *)
(** * Indexes of block hashes

    - Module [BlockIndex]: [CryptoNoteCore/BlockIndex.cpp] and [BlockIndex.h], the
      ordered and uniquely hashed container of the identifiers of the main chain,
      with the sparse chain a node sends to a peer and the search for the first
      common block the peer does in it.
    - Module [SynchronizationState]: [Transfers/SynchronizationState.cpp], the
      chain of block identifiers a wallet has processed, and
      [BlockchainSynchronizer::updateConsumers] of
      [Transfers/BlockchainSynchronizer.cpp], which merges an interval of blocks
      received from the node into the state of every consumer. *)

From stdpp Require Import base list.
From Stdlib Require Import ZArith Lia.
From S2P Require Import Prelude.
Local Open Scope Z_scope.

Module BlockIndex.
Section hashes.
Context {Hash : Type} `{EqDecision Hash}.

(** [m_container]: the random-access index of the multi-index container; its
    second index makes the elements unique. *)
Abbreviation ContainerT := (list Hash).
Implicit Type m_container : ContainerT.

Definition pop m_container : ContainerT := take (length m_container - 1) m_container.

Definition hasBlock (h : Hash) m_container : bool := bool_decide (h ∈ m_container).

(** Inserting into the hashed unique index fails when the hash is there. *)
Definition push (h : Hash) m_container : bool * ContainerT :=
  if hasBlock h m_container then (false, m_container) else (true, m_container ++ [h]).

Definition getBlockHeight (h : Hash) m_container : option Z :=
  (fun p => u32 (Z.of_nat p.1)) <$> list_find (fun x => x = h) m_container.

Definition size m_container : Z := u32 (Z.of_nat (length m_container)).

Definition getBlockId (height : Z) m_container : option Hash := m_container !! Z.to_nat height.

Definition getBlockIds (startBlockIndex maxCount : Z) m_container : list Hash :=
  if Z.of_nat (length m_container) <=? startBlockIndex then []
  else
    let count := Z.min maxCount (Z.of_nat (length m_container) - startBlockIndex) in
    take (Z.to_nat count) (drop (Z.to_nat startBlockIndex) m_container).

Fixpoint findSupplement (ids : list Hash) m_container : option Z :=
  match ids with
  | [] => None
  | id :: ids =>
      match getBlockHeight id m_container with
      | Some offset => Some offset
      | None => findSupplement ids m_container
      end
  end.

(** The loop [for (i = 1; i <= sparseChainEnd; i *= 2)]: [sparseChainEnd] is at
    most 2^32, so 33 rounds reach its end; the heights it visits. *)
Fixpoint sparse_loop (fuel : nat) (i sparseChainEnd : Z) : list Z :=
  match fuel with
  | O => []
  | S fuel => if i <=? sparseChainEnd then (sparseChainEnd - i) :: sparse_loop fuel (i * 2) sparseChainEnd else []
  end.

(** An unknown start block fails the [assert]. *)
Definition buildSparseChain (startBlockId : Hash) m_container : option (list Hash) :=
  startBlockHeight ← getBlockHeight startBlockId m_container;
  let sparseChainEnd := u32 (startBlockHeight + 1) in
  result ← mapM (fun h => m_container !! Z.to_nat h) (sparse_loop 33 1 sparseChainEnd);
  genesis ← m_container !! 0%nat;
  back ← last result;
  Some (if decide (back = genesis) then result else result ++ [genesis]).

Definition getTailId m_container : option Hash := last m_container.

(** ** Lemmas *)

Lemma push_NoDup h c : NoDup c -> NoDup (push h c).2.
Proof.
  intros Hc. unfold push, hasBlock. case_bool_decide as Hn; cbn [snd]; [done|].
  apply NoDup_app. split; [done|]. split; [|apply NoDup_singleton]. intros x Hx Hh. apply list_elem_of_singleton in Hh as ->. by destruct Hn.
Qed.

Lemma getBlockHeight_Some h c k : Z.of_nat (length c) < 2 ^ 32 -> NoDup c ->
  getBlockHeight h c = Some k <-> 0 <= k /\ c !! Z.to_nat k = Some h.
Proof.
  intros Hl Hnd. unfold getBlockHeight. rewrite fmap_Some. split.
  - intros ([i x] & Hf & ->). apply list_find_Some in Hf as (Hi & -> & _). cbn [fst].
    pose proof (lookup_lt_Some _ _ _ Hi). rewrite u32_id by word. rewrite Nat2Z.id. split; [lia | done].
  - intros [Hk Hx]. exists (Z.to_nat k, h). pose proof (lookup_lt_Some _ _ _ Hx).
    split; [|cbn [fst]; rewrite Z2Nat.id, u32_id by (unfold is_u32; lia); done].
    apply list_find_Some. split_and!; [done | done |]. intros j y Hj Hjk ->.
    pose proof (NoDup_lookup _ _ _ _ Hnd Hx Hj). lia.
Qed.

Lemma getBlockHeight_None h c : getBlockHeight h c = None <-> h ∉ c.
Proof.
  unfold getBlockHeight. rewrite fmap_None, list_find_None, Forall_forall. set_solver.
Qed.

Lemma findSupplement_app l k c :
  findSupplement (l ++ k) c = match findSupplement l c with Some o => Some o | None => findSupplement k c end.
Proof. induction l as [|x l IH]; simpl; [done|]. by destruct (getBlockHeight x c). Qed.

Lemma findSupplement_known l x c : x ∈ l -> x ∈ c -> is_Some (findSupplement l c).
Proof.
  intros Hl Hc. induction Hl as [x l|x y l Hl IH]; simpl.
  - destruct (getBlockHeight x c) eqn:E; [eauto|]. by apply getBlockHeight_None in E.
  - destruct (getBlockHeight y c); eauto.
Qed.

Lemma sparse_loop_range fuel i n : 1 <= i -> Forall (fun h => 0 <= h < n) (sparse_loop fuel i n).
Proof.
  revert i. induction fuel as [|fuel IH]; intros i Hi; simpl; [constructor|].
  destruct (Z.leb_spec i n); [|constructor]. constructor; [lia|]. apply IH. lia.
Qed.

(** ** Finding the common block *)

Section chains.
Context (ours theirs : ContainerT).

(** A block identifier fixes its height and, through the hash of the previous
    block, every block below it. *)
Definition hash_chained : Prop := forall i j x, ours !! i = Some x -> theirs !! j = Some x ->
  i = j /\ take i ours = take j theirs.

Definition common (k : Z) : Prop :=
  0 <= k /\ exists x, ours !! Z.to_nat k = Some x /\ theirs !! Z.to_nat k = Some x.

Hypothesis Hchained : hash_chained.
Hypothesis Hnodup : NoDup theirs.
Hypothesis Hlen : Z.of_nat (length theirs) < 2 ^ 32.

Lemma common_below k i : common k -> 0 <= i <= k -> common i.
Proof.
  intros (Hk & x & Ho & Ht) Hi. destruct (decide (i = k)) as [->|Hne]; [by split; [|exists x]|].
  destruct (Hchained _ _ _ Ho Ht) as [_ Hpre]. split; [lia|].
  destruct (lookup_lt_is_Some_2 ours (Z.to_nat i)) as [y Hy].
  { pose proof (lookup_lt_Some _ _ _ Ho). lia. }
  exists y. split; [done|]. rewrite <- (lookup_take_lt theirs (Z.to_nat k)), <- Hpre, lookup_take_lt by lia. done.
Qed.

Lemma common_height k x : 0 <= k -> ours !! Z.to_nat k = Some x ->
  (common k /\ getBlockHeight x theirs = Some k) \/ (~ common k /\ getBlockHeight x theirs = None).
Proof.
  intros Hk Hx. destruct (getBlockHeight x theirs) as [j|] eqn:E.
  - left. apply getBlockHeight_Some in E as [Hj E]; [|done|done].
    destruct (Hchained _ _ _ Hx E) as [Heq _]. assert (j = k) as -> by lia. split; [|done]. split; [done|]. eauto.
  - right. split; [|done]. intros (_ & y & Ho & Ht). simplify_eq.
    apply getBlockHeight_None in E. destruct E. by eapply list_elem_of_lookup_2.
Qed.

(** [near n off]: going back from the tip at height [n - 1], [off] is a common
    block at most twice as far as any common block. *)
Definition near (n off : Z) : Prop :=
  common off /\ off < n /\ forall k, common k -> k < n -> n - off <= 2 * (n - k).

Lemma find_sparse fuel i n g : 1 <= i -> n < i * 2 ^ Z.of_nat fuel -> 0 < n ->
  Z.of_nat (length ours) >= n -> ours !! 0%nat = Some g -> common 0 ->
  (i = 1 \/ exists p, i = p * 2 /\ p <= n /\ ~ common (n - p)) ->
  exists hs off, mapM (fun h => ours !! Z.to_nat h) (sparse_loop fuel i n) = Some hs
    /\ findSupplement (hs ++ [g]) theirs = Some off /\ near n off.
Proof.
  intros Hi Hfuel Hn Hlo Hg H0 Hprev.
  assert (forall off, common off -> n - off <= i -> off < n -> near n off) as Hnear.
  { intros off Hoff Hle Hlt. split; [done|]. split; [done|]. intros k Hk Hkn.
    destruct Hprev as [->|(p & -> & Hpn & Hp)]; [lia|].
    destruct (decide (n - p <= k)); [|lia]. destruct Hp. apply (common_below k); [done|lia]. }
  revert i Hi Hfuel Hprev Hnear. induction fuel as [|fuel IH]; intros i Hi Hfuel Hprev Hnear; simpl.
  - exists [], 0. simpl. destruct (common_height 0 g ltac:(lia) Hg) as [[_ ->]|[]]; [|done].
    split_and!; [done | done |]. apply Hnear; [done | lia | lia].
  - destruct (Z.leb_spec i n) as [Hin|Hin].
    + destruct (lookup_lt_is_Some_2 ours (Z.to_nat (n - i))) as [x Hx]; [lia|]. simpl. rewrite Hx. simpl.
      assert (0 <= n - i) as Hni by lia.
      destruct (common_height (n - i) x Hni Hx) as [[Hc Hh]|[Hc Hh]].
      * destruct (mapM_is_Some_2 (fun h => ours !! Z.to_nat h) (sparse_loop fuel (i * 2) n)) as [hs Hhs].
        { eapply Forall_impl; [apply sparse_loop_range; lia|]. intros h [? ?]. apply lookup_lt_is_Some_2. lia. }
        exists (x :: hs), (n - i). rewrite Hhs. simpl. rewrite Hh. split_and!; [done | done |].
        apply Hnear; [done | lia | lia].
      * destruct (IH (i * 2)) as (hs & off & Hhs & Hf & Ho).
        { lia. } { rewrite Nat2Z.inj_succ, Z.pow_succ_r in Hfuel; lia. }
        { right. exists i. split_and!; [lia | done | done]. }
        { intros off Hoff Hle Hlt. split; [done|]. split; [done|]. intros k Hk Hkn.
          destruct (decide (n - i <= k)); [|lia]. destruct Hc. apply (common_below k); [done|lia]. }
        exists (x :: hs), off. rewrite Hhs. simpl. by rewrite Hh.
    + exists [], 0. simpl. destruct (common_height 0 g ltac:(lia) Hg) as [[_ ->]|[]]; [|done].
      split_and!; [done | done |]. apply Hnear; [done | lia | lia].
Qed.

End chains.

(** C34: Synchronisation finds the fork point.  For two chains with the same
    genesis block, the sparse chain a node builds from one of its blocks always
    contains a block the peer knows; the offset the peer answers with is a block
    both chains have at the same height, and, counted from the start block, it is
    at most twice as far back as the last block the two chains share. *)
Theorem sparse_chain_supplement (ours theirs : list Hash) (s : Z) (start genesis : Hash) :
  hash_chained ours theirs -> NoDup ours -> NoDup theirs ->
  Z.of_nat (length ours) < 2 ^ 32 -> Z.of_nat (length theirs) < 2 ^ 32 ->
  ours !! 0%nat = Some genesis -> theirs !! 0%nat = Some genesis ->
  0 <= s -> ours !! Z.to_nat s = Some start ->
  exists chain off, buildSparseChain start ours = Some chain
    /\ findSupplement chain theirs = Some off /\ near ours theirs (s + 1) off.
Proof.
  intros Hch Ho Ht Hlo Hlt Hg Hg' Hs Hst. pose proof (lookup_lt_Some _ _ _ Hst).
  destruct (find_sparse ours theirs Hch Ht Hlt 33 1 (s + 1) genesis) as (hs & off & Hhs & Hf & Hn);
    [lia | change (2 ^ Z.of_nat 33) with 8589934592; lia | lia | lia | done | split; [lia | eauto] | by left |].
  assert (getBlockHeight start ours = Some s) as Hh by (by apply getBlockHeight_Some).
  unfold buildSparseChain. rewrite Hh. cbn [mbind option_bind]. rewrite u32_id by word. rewrite Hhs. cbn [mbind option_bind].
  rewrite Hg. cbn [mbind option_bind]. destruct (last hs) as [b|] eqn:Hb; cbn [mbind option_bind].
  2:{ apply last_None in Hb as ->. apply mapM_Some, Forall2_length in Hhs. change 33%nat with (S 32) in Hhs. cbn [sparse_loop] in Hhs.
      rewrite (proj2 (Z.leb_le 1 (s + 1))) in Hhs by lia. done. }
  destruct (decide (b = genesis)) as [->|]; [|by exists (hs ++ [genesis]), off].
  exists hs, off. split; [done|]. split; [|done]. rewrite findSupplement_app in Hf.
  apply last_snoc_inv in Hb as [k ->].
  destruct (findSupplement_known (k ++ [genesis]) genesis theirs) as [o Eo]; [set_solver | by eapply list_elem_of_lookup_2 |].
  rewrite Eo in *. done.
Qed.

End hashes.

Lemma sparse_chain_supplement_witness :
  let ours := List.seq 0 20 in
  let theirs := List.seq 0 10 ++ [110; 111]%nat in
  exists chain off, buildSparseChain 19%nat ours = Some chain
    /\ findSupplement chain theirs = Some off /\ near ours theirs (19 + 1) off.
Proof.
  intros ours theirs.
  apply (sparse_chain_supplement ours theirs 19 19%nat 0%nat);
    [| by apply NoDup_seq | | done | done | done | done | lia | done].
  - intros i j x Hi Hj. apply lookup_seq in Hi as [-> Hi]. simpl in Hj.
    unfold theirs in Hj. apply lookup_app_Some in Hj as [Hj|[Hl Hj]].
    + apply lookup_seq in Hj as [Hj Hj']. simpl in *. subst j. split; [done|].
      do 10 (destruct i as [|i]; [done|]). lia.
    + rewrite length_seq in Hj. destruct (j - 10)%nat as [|[|]]; simplify_eq/=; lia.
  - refine (bool_decide_eq_true_1 _ _). vm_compute. reflexivity.
Defined.

End BlockIndex.

Module SynchronizationState.
Section state.
Context {Hash : Type} `{EqDecision Hash}.

Record CheckResult := MkCheckResult {
  detachRequired : bool;
  detachHeight : Z;
  hasNewBlocks : bool;
  newBlockHeight : Z
}.

Record BlockchainInterval := MkBlockchainInterval {
  startHeight : Z;
  blocks : list Hash
}.

(** The state is [m_blockchain]. *)
Implicit Type m_blockchain : list Hash.

(** The loop of [getShortHistory]; every round moves the offset by at least one,
    so the size of the chain is enough fuel.  [None] is a read past the end. *)
Fixpoint history_loop (fuel : nat) (sz i current_multiplier current_back_offset : Z) m_blockchain :
    option (list Hash) :=
  match fuel with
  | O => Some []
  | S fuel =>
      if current_back_offset <? sz then
        h ← m_blockchain !! Z.to_nat (sz - current_back_offset);
        let '(mult, offset) :=
          if i <? 10 then (current_multiplier, u32 (current_back_offset + 1))
          else (u32 (current_multiplier * 2), u32 (current_back_offset + u32 (current_multiplier * 2))) in
        rest ← history_loop fuel sz (u32 (i + 1)) mult offset m_blockchain;
        Some (h :: rest)
      else Some []
  end.

(** [genesis_included] is never set: the loop stops before the offset reaches [sz]. *)
Definition getShortHistory (localHeight : Z) m_blockchain : option (list Hash) :=
  let sz := Z.min (u32 (Z.of_nat (length m_blockchain))) (u32 (localHeight + 1)) in
  if sz =? 0 then Some []
  else
    history ← history_loop (Z.to_nat sz) sz 0 1 1 m_blockchain;
    genesis ← m_blockchain !! 0%nat;
    Some (history ++ [genesis]).

(** The first height in [i, iterationEnd) at which the chain and the interval differ. *)
Fixpoint first_difference (n : nat) (i start : Z) (bs : list Hash) m_blockchain : option Z :=
  match n with
  | O => None
  | S n =>
      match m_blockchain !! Z.to_nat i, bs !! Z.to_nat (i - start) with
      | Some x, Some y => if decide (x = y) then first_difference n (i + 1) start bs m_blockchain else Some i
      | _, _ => None
      end
  end.

Definition checkInterval (interval : BlockchainInterval) m_blockchain : option CheckResult :=
  let size := Z.of_nat (length m_blockchain) in
  if size <? startHeight interval then None
  else
    let intervalEnd := u32 (startHeight interval + u32 (Z.of_nat (length (blocks interval)))) in
    let iterationEnd := Z.min (u32 size) intervalEnd in
    match first_difference (Z.to_nat (iterationEnd - startHeight interval)) (startHeight interval)
            (startHeight interval) (blocks interval) m_blockchain with
    | Some i => Some (MkCheckResult true i true i)
    | None =>
        if size <? intervalEnd then Some (MkCheckResult false 0 true (u32 size))
        else Some (MkCheckResult false 0 false 0)
    end.

Definition detach (height : Z) m_blockchain : option (list Hash) :=
  if height <? Z.of_nat (length m_blockchain) then Some (take (Z.to_nat height) m_blockchain) else None.

Definition addBlocks (blockHashes : list Hash) (height : Z) m_blockchain : option (list Hash) :=
  if Z.of_nat (length m_blockchain) =? height then Some (m_blockchain ++ blockHashes) else None.

Definition getHeight m_blockchain : Z := u32 (Z.of_nat (length m_blockchain)).

(** ** The consumers of the blockchain *)

(** [IBlockchainConsumer] of [Transfers/IBlockchainSynchronizer.h]: what the
    synchronizer calls of a consumer.  [onNewBlocks] returns whether it succeeded. *)
Class IBlockchainConsumer (C B : Type) := {
  onBlockchainDetach : Z -> C -> C;
  onNewBlocks : list B -> Z -> C -> bool * C
}.

(** What a consumer promises: it holds a sequence of blocks, cut by a detach and
    extended by a successful [onNewBlocks] at its end. *)
Class ConsumerOk (C B : Type) `{IBlockchainConsumer C B} := {
  view : C -> list B;
  view_detach h c : view (onBlockchainDetach h c) = take (Z.to_nat h) (view c);
  view_new bs start c c' : onNewBlocks bs start c = (true, c') ->
    start = Z.of_nat (length (view c)) -> view c' = view c ++ bs
}.

Inductive UpdateConsumersResult := nothingChanged | addedNewBlocks | errorOccurred.

Section consumers.
Context {C B : Type} `{!IBlockchainConsumer C B}.

(** The body of the loop for one consumer and its state; the boolean tells
    whether something changed, [inr] is an early return after a failed consumer.
    A failed [assert] of the state is [None]. *)
Definition updateConsumer (interval : BlockchainInterval) (bs : list B) (kv : C * list Hash) :
    option ((bool + unit) * (C * list Hash)) :=
  let '(c, st) := kv in
  result ← checkInterval interval st;
  '(c, st) ← (if detachRequired result then
                st ← detach (detachHeight result) st;
                Some (onBlockchainDetach (detachHeight result) c, st)
              else Some (c, st));
  if hasNewBlocks result then
    let startOffset := Z.to_nat (newBlockHeight result - startHeight interval) in
    match onNewBlocks (drop startOffset bs) (newBlockHeight result) c with
    | (true, c) =>
        st ← addBlocks (drop startOffset (blocks interval)) (newBlockHeight result) st;
        Some (inl true, (c, st))
    | (false, c) => Some (inr tt, (c, st))
    end
  else Some (inl false, (c, st)).

Fixpoint updateConsumers_loop (interval : BlockchainInterval) (bs : list B) (smthChanged : bool)
    (m_consumers : list (C * list Hash)) : option (UpdateConsumersResult * list (C * list Hash)) :=
  match m_consumers with
  | [] => Some (if smthChanged then addedNewBlocks else nothingChanged, [])
  | kv :: rest =>
      '(r, kv) ← updateConsumer interval bs kv;
      match r with
      | inr _ => Some (errorOccurred, kv :: rest)
      | inl changed =>
          '(r, rest) ← updateConsumers_loop interval bs (smthChanged || changed) rest;
          Some (r, kv :: rest)
      end
  end.

Definition updateConsumers (interval : BlockchainInterval) (bs : list B) m_consumers :=
  updateConsumers_loop interval bs false m_consumers.

End consumers.

(** ** Lemmas *)

(** The chain after an interval: unchanged when it contains the interval, and
    otherwise the part below the interval followed by the interval. *)
Definition merged (interval : BlockchainInterval) m_blockchain : list Hash :=
  let c := take (Z.to_nat (startHeight interval)) m_blockchain ++ blocks interval in
  if decide (c `prefix_of` m_blockchain) then m_blockchain else c.

Lemma first_difference_spec n i start (bs c : list Hash) : 0 <= start <= i ->
  i + Z.of_nat n <= Z.of_nat (length c) -> i + Z.of_nat n <= start + Z.of_nat (length bs) ->
  match first_difference n i start bs c with
  | None => forall j, i <= j < i + Z.of_nat n -> c !! Z.to_nat j = bs !! Z.to_nat (j - start)
  | Some k => i <= k < i + Z.of_nat n /\ c !! Z.to_nat k <> bs !! Z.to_nat (k - start)
      /\ forall j, i <= j < k -> c !! Z.to_nat j = bs !! Z.to_nat (j - start)
  end.
Proof.
  revert i. induction n as [|n IH]; intros i Hi Hc Hb; simpl; [intros; lia|].
  destruct (lookup_lt_is_Some_2 c (Z.to_nat i)) as [x Hx]; [lia|].
  destruct (lookup_lt_is_Some_2 bs (Z.to_nat (i - start))) as [y Hy]; [lia|].
  rewrite Hx, Hy. destruct (decide (x = y)) as [->|Hne].
  - specialize (IH (i + 1) ltac:(lia) ltac:(lia) ltac:(lia)).
    destruct (first_difference n (i + 1) start bs c) as [k|].
    + destruct IH as (Hk & Hd & IH). split; [lia|]. split; [done|]. intros j Hj.
      destruct (decide (j = i)) as [->|]; [congruence | apply IH; lia].
    + intros j Hj. destruct (decide (j = i)) as [->|]; [congruence | apply IH; lia].
  - split; [lia|]. split; [congruence | intros; lia].
Qed.

Lemma agree_take start k (bs c : list Hash) : 0 <= start <= k -> k <= Z.of_nat (length c) ->
  k <= start + Z.of_nat (length bs) ->
  (forall j, start <= j < k -> c !! Z.to_nat j = bs !! Z.to_nat (j - start)) ->
  take (Z.to_nat k) c = take (Z.to_nat start) c ++ take (Z.to_nat (k - start)) bs.
Proof.
  intros Hk Hc Hb Hj. apply list_eq. intros i. destruct (decide (i < Z.to_nat k)%nat) as [Hik|Hik].
  - rewrite lookup_take_lt by done. destruct (decide (i < Z.to_nat start)%nat) as [His|His].
    + rewrite lookup_app_l by (rewrite length_take; lia). by rewrite lookup_take_lt.
    + rewrite lookup_app_r by (rewrite length_take; lia). rewrite length_take_le by lia.
      rewrite lookup_take_lt by lia. rewrite <- (Nat2Z.id i) at 1. rewrite Hj by lia. f_equal. lia.
  - rewrite !lookup_ge_None_2; [done | rewrite length_app, !length_take; lia | rewrite length_take; lia].
Qed.

(** The three outcomes of the check, each with the chain it leads to. *)
Definition outcome (interval : BlockchainInterval) m_blockchain (r : CheckResult) : Prop :=
  let size := Z.of_nat (length m_blockchain) in
  if hasNewBlocks r then
    let k := newBlockHeight r in
    startHeight interval <= k <= size
    /\ detachRequired r = (k <? size) /\ (detachRequired r = true -> detachHeight r = k)
    /\ merged interval m_blockchain
       = take (Z.to_nat k) m_blockchain ++ drop (Z.to_nat (k - startHeight interval)) (blocks interval)
  else detachRequired r = false /\ merged interval m_blockchain = m_blockchain.

Lemma merged_differs interval c k : 0 <= startHeight interval <= k ->
  k <= Z.of_nat (length c) -> k <= startHeight interval + Z.of_nat (length (blocks interval)) ->
  (forall j, startHeight interval <= j < k -> c !! Z.to_nat j = blocks interval !! Z.to_nat (j - startHeight interval)) ->
  c !! Z.to_nat k <> blocks interval !! Z.to_nat (k - startHeight interval) ->
  k < startHeight interval + Z.of_nat (length (blocks interval)) ->
  merged interval c = take (Z.to_nat k) c ++ drop (Z.to_nat (k - startHeight interval)) (blocks interval).
Proof.
  intros Hk Hc Hb Hj Hd Hlt. unfold merged.
  rewrite (agree_take _ _ _ _ Hk Hc Hb Hj), <- app_assoc, take_drop.
  destruct (decide _) as [Hp|]; [|done]. destruct Hd.
  destruct (lookup_lt_is_Some_2 (blocks interval) (Z.to_nat (k - startHeight interval))) as [y Hy]; [lia|].
  rewrite Hy. apply (prefix_lookup_Some (take (Z.to_nat (startHeight interval)) c ++ blocks interval)); [|done].
  rewrite lookup_app_r by (rewrite length_take; lia). rewrite length_take_le by lia.
  replace (Z.to_nat k - Z.to_nat (startHeight interval))%nat with (Z.to_nat (k - startHeight interval)) by lia. done.
Qed.

Lemma checkInterval_outcome interval c :
  0 <= startHeight interval <= Z.of_nat (length c) -> Z.of_nat (length c) < 2 ^ 32 ->
  startHeight interval + Z.of_nat (length (blocks interval)) < 2 ^ 32 ->
  exists r, checkInterval interval c = Some r /\ outcome interval c r.
Proof.
  intros Hs Hl Hlb. unfold checkInterval. rewrite (proj2 (Z.ltb_ge _ _)) by lia.
  rewrite (u32_id (Z.of_nat (length (blocks interval)))) by word. rewrite !u32_id by word.
  set (n := Z.to_nat _). pose proof (first_difference_spec n (startHeight interval) (startHeight interval)
    (blocks interval) c ltac:(lia) ltac:(lia) ltac:(lia)) as Hf.
  destruct (first_difference _ _ _ _ _) as [k|].
  - destruct Hf as (Hk & Hd & Hj). eexists. split; [done|]. unfold outcome. cbn [hasNewBlocks newBlockHeight detachRequired detachHeight].
    rewrite (proj2 (Z.ltb_lt _ _)) by lia. split_and!; [lia | lia | done | done |].
    apply merged_differs; try lia; done.
  - assert (forall k, startHeight interval <= k <= Z.of_nat n + startHeight interval ->
      take (Z.to_nat k) c = take (Z.to_nat (startHeight interval)) c ++ take (Z.to_nat (k - startHeight interval)) (blocks interval)) as Ha
      by (intros k Hk; apply agree_take; [lia | lia | lia | intros; apply Hf; lia]).
    destruct (Z.ltb_spec (Z.of_nat (length c)) (startHeight interval + Z.of_nat (length (blocks interval)))); eexists; (split; [done|]);
      unfold outcome; cbn [hasNewBlocks newBlockHeight detachRequired detachHeight].
    + rewrite Z.ltb_irrefl. split_and!; [lia | lia | done | done |].
      apply merged_differs; try lia; [intros; apply Hf; lia|].
      rewrite lookup_ge_None_2 by lia. apply not_eq_sym, not_eq_None_Some, lookup_lt_is_Some_2. lia.
    + split; [done|]. unfold merged. destruct (decide _) as [|Hn]; [done|]. destruct Hn.
      specialize (Ha (startHeight interval + Z.of_nat (length (blocks interval))) ltac:(lia)).
      rewrite (firstn_all2 (blocks interval)) in Ha by lia. rewrite <- Ha. apply prefix_take.
Qed.

Section update.
Context {C B : Type} `{ConsumerOk C B} (hash : B -> Hash).

(** A consumer holds the blocks of its state. *)
Definition in_step (kv : C * list Hash) : Prop := hash <$> view kv.1 = kv.2.

Lemma updateConsumer_spec interval bs c st :
  blocks interval = hash <$> bs -> in_step (c, st) ->
  0 <= startHeight interval <= Z.of_nat (length st) -> Z.of_nat (length st) < 2 ^ 32 ->
  startHeight interval + Z.of_nat (length (blocks interval)) < 2 ^ 32 ->
  exists r kv', updateConsumer interval bs (c, st) = Some (r, kv')
    /\ (forall changed, r = inl changed -> in_step kv' /\ kv'.2 = merged interval st
         /\ (changed = false -> kv' = (c, st))).
Proof.
  intros Hb Hin Hs Hl Hlb. destruct (checkInterval_outcome interval st Hs Hl Hlb) as (r & Hr & Ho).
  unfold updateConsumer. rewrite Hr. cbn [mbind option_bind]. unfold outcome in Ho.
  destruct (hasNewBlocks r); [|destruct Ho as [-> Hm]; cbn [mbind option_bind]; eexists _, _; split; [done|]; intros ? [= <-]; done].
  destruct Ho as (Hk & Hd & Hdk & Hm). set (k := newBlockHeight r) in *.
  set (c1 := if detachRequired r then onBlockchainDetach (detachHeight r) c else c).
  assert (hash <$> view c1 = take (Z.to_nat k) st) as Hv1.
  { unfold c1, in_step in *. cbn [fst snd] in Hin. rewrite <- Hin. destruct (detachRequired r) eqn:E.
    - rewrite view_detach, fmap_take, Hdk by done. done.
    - rewrite take_ge; [done|]. rewrite Hin. symmetry in Hd. apply Z.ltb_ge in Hd. lia. }
  match goal with |- context [mbind ?f (if _ then ?x else _)] =>
    assert ((if detachRequired r then x else Some (c, st)) = Some (c1, take (Z.to_nat k) st)) as Hst end.
  { unfold c1. destruct (detachRequired r) eqn:E.
    - unfold detach. rewrite Hdk by done. rewrite (proj2 (Z.ltb_lt _ _)) by (symmetry in Hd; apply Z.ltb_lt in Hd; lia). done.
    - rewrite take_ge; [done|]. symmetry in Hd. apply Z.ltb_ge in Hd. lia. }
  rewrite Hst. cbn [mbind option_bind].
  destruct (onNewBlocks _ _ c1) as [[] c2] eqn:En; [|eexists _, _; split; [done|]; by intros ? [=]].
  unfold addBlocks. rewrite length_take_le by lia. rewrite Z2Nat.id, Z.eqb_refl by lia. cbn [mbind option_bind].
  eexists _, _. split; [done|]. intros ? [= <-]. split; [|split; [done | done]].
  unfold in_step. cbn [fst snd]. rewrite (view_new _ _ _ _ En).
  - by rewrite fmap_app, fmap_drop, Hv1, Hb.
  - rewrite <- (length_fmap hash), Hv1, length_take_le by lia. lia.
Qed.

Definition fits_interval (interval : BlockchainInterval) (kv : C * list Hash) : Prop :=
  startHeight interval <= Z.of_nat (length kv.2) < 2 ^ 32.

Lemma updateConsumers_loop_spec interval bs changed consumers :
  blocks interval = hash <$> bs -> Forall in_step consumers -> Forall (fits_interval interval) consumers ->
  0 <= startHeight interval -> startHeight interval + Z.of_nat (length (blocks interval)) < 2 ^ 32 ->
  exists r consumers', updateConsumers_loop interval bs changed consumers = Some (r, consumers')
    /\ (r <> errorOccurred ->
        Forall2 (fun kv kv' => in_step kv' /\ kv'.2 = merged interval kv.2) consumers consumers')
    /\ (r = nothingChanged -> changed = false /\ consumers' = consumers).
Proof.
  intros Hb Hin Hf Hs Hlb. revert changed. induction consumers as [|[c st] rest IH]; intros changed; cbn [updateConsumers_loop].
  { eexists _, _. split; [done|]. split; [constructor|]. by destruct changed. }
  apply Forall_cons in Hin as [Hc Hin]. apply Forall_cons in Hf as [Hfc Hf].
  destruct (updateConsumer_spec interval bs c st Hb Hc) as (r & kv' & -> & Hr); [unfold fits_interval in Hfc; simpl in Hfc; lia.. |].
  cbn [mbind option_bind]. destruct r as [ch|[]].
  - destruct (IH Hin Hf (changed || ch)) as (r & rest' & -> & H1 & H2). cbn [mbind option_bind].
    destruct (Hr ch eq_refl) as (Hi & Hm & Hn).
    eexists _, _. split; [done|]. split; [intros Hne; constructor; [by split | by apply H1]|].
    intros ->. destruct (H2 eq_refl) as [Hor ->]. apply orb_false_iff in Hor as [-> ->]. by rewrite Hn.
  - eexists _, _. split; [done|]. split; by intros.
Qed.

(** C33: A wallet follows the node.  Given an interval of blocks that starts at or
    below the end of every consumer's chain, [updateConsumers] never fails an
    assertion; unless a consumer reports an error, every consumer ends with
    exactly the blocks of its state, and that state is unchanged when it already
    contains the interval and otherwise is the part below the interval followed by
    the interval, whatever the fork was.  [nothingChanged] means what it says. *)
Theorem updateConsumers_follows interval bs consumers :
  blocks interval = hash <$> bs -> Forall in_step consumers -> Forall (fits_interval interval) consumers ->
  0 <= startHeight interval -> startHeight interval + Z.of_nat (length (blocks interval)) < 2 ^ 32 ->
  exists r consumers', updateConsumers interval bs consumers = Some (r, consumers')
    /\ (r <> errorOccurred ->
        Forall2 (fun kv kv' => in_step kv' /\ kv'.2 = merged interval kv.2) consumers consumers')
    /\ (r = nothingChanged -> consumers' = consumers).
Proof.
  intros Hb Hin Hf Hs Hlb.
  destruct (updateConsumers_loop_spec interval bs false consumers Hb Hin Hf Hs Hlb) as (r & cs & H1 & H2 & H3).
  exists r, cs. split; [done|]. split; [done|]. intros Hr. by apply H3.
Qed.
End update.
End state.

(** A consumer that logs the blocks it is given. *)
#[local] Instance log_consumer : IBlockchainConsumer (list nat) nat := {
  onBlockchainDetach h c := take (Z.to_nat h) c;
  onNewBlocks bs start c := (true, c ++ bs)
}.

#[local] Instance log_consumer_ok : ConsumerOk (list nat) nat.
Proof. refine {| view := fun c => c |}; [done | by intros ? ? ? ? [= <-]]. Defined.

Lemma updateConsumers_follows_witness :
  exists r consumers',
    updateConsumers (MkBlockchainInterval 2 [12; 13; 14]%nat) [12; 13; 14]%nat
      [([0; 1; 2; 3], [0; 1; 2; 3])]%nat = Some (r, consumers')
    /\ (r <> errorOccurred -> (snd <$> consumers') = [[0; 1; 12; 13; 14]%nat]).
Proof.
  destruct (updateConsumers_follows id (MkBlockchainInterval 2 [12; 13; 14]%nat) [12; 13; 14]%nat
    [([0; 1; 2; 3], [0; 1; 2; 3])]%nat) as (r & cs & H1 & H2 & _);
    [done | by repeat constructor | repeat constructor; unfold fits_interval; simpl; lia | simpl; lia | simpl; lia |].
  exists r, cs. split; [exact H1|]. intros Hr. specialize (H2 Hr).
  inversion H2 as [|? ? ? ? [_ Hm] Hrest]; subst. inversion Hrest; subst. simpl. rewrite Hm. reflexivity.
Defined.

End SynchronizationState.
