(* ===== verification/StringTools.v ===== *)
(** src/Common/StringTools.cpp and src/Common/Base64.cpp: hexadecimal text,
    Base64, and splitting at a delimiter.  Strings are lists of character codes
    in [0, 256); a thrown exception, a [false] result and a read outside a table
    are [None]. *)

From S2P Require Import Prelude.
From S2P Require Import Varint.
From S2P Require Import Base58.
Import Base58.

Module StringTools.

(** ** Hexadecimal *)

(** The table of 256 values. *)
Definition characterValues : list Z :=
  replicate 48 0xff ++ [0; 1; 2; 3; 4; 5; 6; 7; 8; 9] ++ replicate 7 0xff ++ [10; 11; 12; 13; 14; 15]
  ++ replicate 26 0xff ++ [10; 11; 12; 13; 14; 15] ++ replicate 153 0xff.

Definition fromHex_char (character : Z) : option Z :=
  let value := characterValues !!! Z.to_nat character in
  if 0x0f <? value then None else Some value.

(** The loop over the pairs of characters. *)
Fixpoint fromHex_loop (text : bytes) : option bytes :=
  match text with
  | c1 :: c2 :: text =>
      value1 ← fromHex_char c1;
      value2 ← fromHex_char c2;
      data ← fromHex_loop text;
      Some (Z.lor (Z.shiftl value1 4) value2 :: data)
  | _ => Some []
  end.

Definition fromHex (text : bytes) : option bytes :=
  if Nat.odd (length text) then None else fromHex_loop text.

Definition fromHex_buffer (text : bytes) (bufferSize : nat) : option bytes :=
  if Nat.odd (length text) then None
  else if (bufferSize <? length text / 2)%nat then None
  else fromHex_loop text.

Definition podFromHex (size : nat) (text : bytes) : option bytes :=
  data ← fromHex_buffer text size;
  if (length data =? size)%nat then Some data else None.

Definition hex_digits : bytes := codes "0123456789abcdef".

Fixpoint toHex (data : bytes) : bytes :=
  match data with
  | [] => []
  | b :: data =>
      hex_digits !!! Z.to_nat (Z.shiftr b 4) :: hex_digits !!! Z.to_nat (Z.land b 15) :: toHex data
  end.

(** ** Splitting at a delimiter *)

(** [text.find(delimiter, offset)]. *)
Definition find (text : bytes) (delimiter : Z) (offset : nat) : option nat :=
  (fun p => (offset + p.1)%nat) <$> list_find (fun c => c = delimiter) (drop offset text).

(** The first overload: the part before the delimiter, and the rest. *)
Definition extract (text : bytes) (delimiter : Z) : bytes * bytes :=
  match find text delimiter 0 with
  | Some delimiterPosition => (take delimiterPosition text, drop (delimiterPosition + 1) text)
  | None => (text, [])
  end.

(** The second overload: the returned text and the new [offset].  The offset is
    assigned before it is used as the start of the substring. *)
Definition extract_at (text : bytes) (delimiter : Z) (offset : nat) : bytes * nat :=
  match find text delimiter offset with
  | Some delimiterPosition =>
      let offset := (delimiterPosition + 1)%nat in
      (take delimiterPosition (drop offset text), offset)
  | None =>
      let offset := length text in
      (drop offset text, offset)
  end.

(** ** Base64 *)

Definition base64chars : bytes := codes "ABCDEFGHIJKLMNOPQRSTUVWXYZabcdefghijklmnopqrstuvwxyz0123456789+/".

Definition is_base64 (c : Z) : bool :=
  ((48 <=? c) && (c <=? 57)) || ((65 <=? c) && (c <=? 90)) || ((97 <=? c) && (c <=? 122))
  || (c =? 43) || (c =? 47).

(** [(unsigned char)base64chars.find(c)]; [npos] becomes 255. *)
Definition base64_index (c : Z) : Z :=
  match list_find (fun x => x = c) base64chars with Some (i, _) => Z.of_nat i | None => 255 end.

(** The three bytes of four indices; [unsigned char] arithmetic. *)
Definition char_array_3 (char_array_4 : list Z) : bytes :=
  let a i := char_array_4 !!! i in
  [u8 (Z.shiftl (a 0%nat) 2 + Z.shiftr (Z.land (a 1%nat) 0x30) 4);
   u8 (Z.shiftl (Z.land (a 1%nat) 0xf) 4 + Z.shiftr (Z.land (a 2%nat) 0x3c) 2);
   u8 (Z.shiftl (Z.land (a 2%nat) 0x3) 6 + a 3%nat)].

(** The text left over, the last partial group, is padded with zero characters. *)
Definition base64_tail (char_array_4 : bytes) : bytes :=
  match length char_array_4 with
  | O => []
  | S i => take i (char_array_3 (base64_index <$> (char_array_4 ++ replicate (4 - S i) 0)))
  end.

(** [char_array_4] holds the [i] characters read so far of the current group. *)
Fixpoint base64_loop (encoded_string char_array_4 ret : bytes) : bytes :=
  match encoded_string with
  | c :: encoded_string =>
      if negb (c =? 61) && is_base64 c then
        let char_array_4 := char_array_4 ++ [c] in
        if (length char_array_4 =? 4)%nat
        then base64_loop encoded_string [] (ret ++ char_array_3 (base64_index <$> char_array_4))
        else base64_loop encoded_string char_array_4 ret
      else ret ++ base64_tail char_array_4
  | [] => ret ++ base64_tail char_array_4
  end.

Definition base64Decode (encoded_string : bytes) : bytes := base64_loop encoded_string [] [].

(** [tools::base_64::encode].  [static_cast<size_t>] of a [char], which is signed. *)
Definition size_of_char (b : Z) : Z := if b <? 128 then b else u64 (b - 256).

Definition encodingTable (i : Z) : option Z := base64chars !! Z.to_nat i.

(** One round of the loop for the (at most three) bytes at [i]. *)
Definition encode_group (data : bytes) : option bytes :=
  a ← size_of_char <$> data !! 0%nat;
  let b := default 0 (size_of_char <$> data !! 1%nat) in
  let c := default 0 (size_of_char <$> data !! 2%nat) in
  r0 ← encodingTable (Z.shiftr a 2);
  r1 ← encodingTable (Z.lor (Z.shiftl (Z.land a 0x3) 4) (Z.shiftr b 4));
  if (1 <? length data)%nat then
    r2 ← encodingTable (Z.lor (Z.shiftl (Z.land b 0xF) 2) (Z.shiftr c 6));
    if (2 <? length data)%nat then
      r3 ← encodingTable (Z.land c 0x3F);
      Some [r0; r1; r2; r3]
    else Some [r0; r1; r2]
  else Some [r0; r1].

Fixpoint encode_groups (data : bytes) : option bytes :=
  match data with
  | a :: b :: c :: rest =>
      group ← encode_group [a; b; c];
      result ← encode_groups rest;
      Some (group ++ result)
  | [] => Some []
  | _ => encode_group data
  end.

Definition base64_encode (data : bytes) : option bytes :=
  let resultSize := (4 * ((length data + 2) / 3))%nat in
  result ← encode_groups data;
  Some (result ++ replicate (resultSize - length result) 61).

(** ** Lemmas on hexadecimal text *)

Definition lower (c : Z) : Z := if (65 <=? c) && (c <=? 90) then c + 32 else c.

Lemma hex_char c : is_u8 c -> forall v, fromHex_char c = Some v <->
  0 <= v < 16 /\ hex_digits !!! Z.to_nat v = lower c.
Proof.
  intros Hc v. destruct (decide (0 <= v < 16)) as [Hv|Hv].
  - assert (forall v c, 0 <= v < 0 + Z.of_nat 16 -> is_u8 c ->
      bool_decide (fromHex_char c = Some v) = (hex_digits !!! Z.to_nat v =? lower c)) as H.
    { intros w d Hw Hd.
      assert (forall_range (fun w => forallb (fun d => Bool.eqb (bool_decide (fromHex_char d = Some w))
        (hex_digits !!! Z.to_nat w =? lower d)) (seqZ 0 256)) 16 0 = true) as H by (vm_compute; reflexivity).
      pose proof (forall_range_spec _ _ _ H w Hw) as Hd'. apply Bool.eqb_prop. exact (byte_forall _ Hd' d Hd). }
    specialize (H v c ltac:(lia) Hc). rewrite <- Z.eqb_eq, <- H, bool_decide_eq_true. tauto.
  - split; [|tauto]. unfold fromHex_char. intros H.
    pose proof (byte_forall (fun c => match fromHex_char c with Some v => (0 <=? v) && (v <? 16) | None => true end)
      ltac:(vm_compute; reflexivity) c Hc) as Hr. unfold fromHex_char in Hr. rewrite H in Hr.
    apply andb_true_iff in Hr. lia.
Qed.

Lemma nibbles b : is_u8 b -> 0 <= Z.shiftr b 4 < 16 /\ 0 <= Z.land b 15 < 16
  /\ Z.lor (Z.shiftl (Z.shiftr b 4) 4) (Z.land b 15) = b.
Proof.
  intros Hb. pose proof (byte_forall (fun b => (0 <=? Z.shiftr b 4) && (Z.shiftr b 4 <? 16) && (0 <=? Z.land b 15)
    && (Z.land b 15 <? 16) && (Z.lor (Z.shiftl (Z.shiftr b 4) 4) (Z.land b 15) =? b))
    ltac:(vm_compute; reflexivity) b Hb) as H. cbv beta in H. bool_to_prop. lia.
Qed.

Lemma nibbles_of v w : 0 <= v < 16 -> 0 <= w < 16 -> let b := Z.lor (Z.shiftl v 4) w in
  is_u8 b /\ Z.shiftr b 4 = v /\ Z.land b 15 = w.
Proof.
  intros Hv Hw.
  assert (forall_range (fun v => forall_range (fun w => let b := Z.lor (Z.shiftl v 4) w in
    (0 <=? b) && (b <? 256) && (Z.shiftr b 4 =? v) && (Z.land b 15 =? w)) 16 0) 16 0 = true) as H by (vm_compute; reflexivity).
  pose proof (forall_range_spec _ _ _ (forall_range_spec _ _ _ H v ltac:(lia)) w ltac:(lia)) as Hr.
  cbv beta zeta in *. bool_to_prop. unfold is_u8. lia.
Qed.

Lemma fromHex_loop_spec n text data : length text = (2 * n)%nat -> is_bytes text ->
  fromHex_loop text = Some data <-> is_bytes data /\ toHex data = lower <$> text.
Proof.
  revert text data. induction n as [|n IH]; intros text data Hl Ht.
  { destruct text; [|simpl in Hl; lia]. split; [intros [= <-]; split; [constructor | done]|].
    intros [_ H]. by destruct data. }
  destruct text as [|c1 [|c2 text]]; simpl in Hl; try lia.
  apply Forall_cons in Ht as [H1 Ht]. apply Forall_cons in Ht as [H2 Ht].
  specialize (fun d => IH text d ltac:(lia) Ht). cbn [fromHex_loop]. split.
  - intros H. repeat (apply bind_Some in H as (? & ? & H)). simplify_eq.
    apply hex_char in H0 as [Hv E1]; [|done]. apply hex_char in H3 as [Hw E2]; [|done].
    apply IH in H4 as [Hd E]. destruct (nibbles_of _ _ Hv Hw) as (Hb & Ehi & Elo).
    split; [by constructor|]. cbn [toHex]. rewrite Ehi, Elo, E1, E2, E. done.
  - intros [Hd E]. destruct data as [|b data]; [done|]. apply Forall_cons in Hd as [Hb Hd].
    cbn [toHex] in E. rewrite !fmap_cons in E. injection E as E1 E2 E.
    destruct (nibbles b Hb) as (Hhi & Hlo & Eb).
    assert (fromHex_char c1 = Some (Z.shiftr b 4)) as -> by (by apply hex_char).
    assert (fromHex_char c2 = Some (Z.land b 15)) as -> by (by apply hex_char).
    assert (fromHex_loop text = Some data) as -> by (by apply IH). simpl. by rewrite Eb.
Qed.

Lemma toHex_length data : length (toHex data) = (2 * length data)%nat.
Proof. induction data; simpl; lia. Qed.

(** Hexadecimal text.  A string parses to some bytes exactly when the bytes
    print to the string in lower case: parsing inverts printing, accepts both
    cases, and rejects odd lengths and every other character. *)
Theorem fromHex_toHex text data : is_bytes text ->
  fromHex text = Some data <-> is_bytes data /\ toHex data = lower <$> text.
Proof.
  intros Ht. unfold fromHex. destruct (Nat.odd (length text)) eqn:Eo.
  - split; [done|]. intros [_ E]. apply (f_equal length) in E. rewrite toHex_length, length_fmap in E.
    rewrite <- E, Nat.odd_mul in Eo. done.
  - apply (fromHex_loop_spec (length text / 2)); [|done].
    rewrite <- Nat.negb_even in Eo. apply negb_false_iff, Nat.even_spec in Eo as [k ->].
    rewrite (Nat.mul_comm 2 k), Nat.div_mul by lia. lia.
Qed.

Lemma fromHex_toHex_witness :
  fromHex (codes "b9Dc43") = Some [0xb9; 0xdc; 0x43] <->
  is_bytes [0xb9; 0xdc; 0x43] /\ toHex [0xb9; 0xdc; 0x43] = lower <$> codes "b9Dc43".
Proof. apply (fromHex_toHex (codes "b9Dc43") [0xb9; 0xdc; 0x43]). bytes_compute. Defined.

Lemma podFromHex_spec size text data : is_bytes text ->
  podFromHex size text = Some data <-> length data = size /\ is_bytes data /\ toHex data = lower <$> text.
Proof.
  intros Ht. unfold podFromHex, fromHex_buffer. destruct (Nat.odd (length text)) eqn:Eo.
  - split; [done|]. intros (_ & _ & E). apply (f_equal length) in E. rewrite toHex_length, length_fmap in E.
    rewrite <- E, Nat.odd_mul in Eo. done.
  - rewrite <- Nat.negb_even in Eo. apply negb_false_iff, Nat.even_spec in Eo as [k Ek].
    pose proof (fun d => fromHex_loop_spec k text d Ek Ht) as Hf.
    rewrite Ek, (Nat.mul_comm 2 k), Nat.div_mul by lia. destruct (Nat.ltb_spec size k).
    + split; [done|]. intros (<- & _ & E). apply (f_equal length) in E. rewrite toHex_length, length_fmap in E. lia.
    + split.
      * intros Hd. apply bind_Some in Hd as (d & Hd & Hs). destruct (Nat.eqb_spec (length d) size); [|done].
        simplify_eq. by apply Hf in Hd.
      * intros (<- & Hd). apply Hf in Hd as ->. simpl. by rewrite Nat.eqb_refl.
Qed.

(** ** Splitting *)

(** The delimiter is located, but the text returned starts after it: the fields
    of 1,2,3 come out as 2, 3 and the empty string. *)
Theorem extract_at_skips_field :
  let text := codes "1,2,3" in
  extract_at text 44 0 = (codes "2", 2%nat) /\ extract_at text 44 2 = (codes "3", 4%nat)
  /\ extract_at text 44 4 = ([], 5%nat)
  /\ extract text 44 = (codes "1", codes "2,3").
Proof. vm_compute. auto. Qed.

(** What the splitting by the first overload is: the fields and the delimiters
    make up the text again. *)
Lemma extract_spec text delimiter :
  let '(sub, rest) := extract text delimiter in
  (delimiter ∉ sub) /\ (text = sub ++ delimiter :: rest \/ (text = sub /\ rest = [] /\ (delimiter ∉ text))).
Proof.
  unfold extract, find. rewrite drop_0. destruct (list_find _ text) as [[i x]|] eqn:E.
  - apply list_find_Some in E as (Hi & -> & Hlt). cbn [fmap option_fmap option_map fst Nat.add]. split.
    + intros Hin. apply list_elem_of_lookup in Hin as [j Hj]. apply lookup_take_Some in Hj as [Hj Hji].
      by eapply Hlt.
    + left. rewrite <- (take_drop_middle _ _ _ Hi) at 1. by rewrite Nat.add_1_r.
  - apply list_find_None in E. rewrite Forall_forall in E. cbn [fmap option_fmap option_map].
    split; [|right; split_and!; try done]; intros Hin; by apply E in Hin.
Qed.

(** ** Base64 *)

Definition table (k : Z) : Z := base64chars !!! Z.to_nat k.

Lemma table_spec k : 0 <= k < 64 ->
  encodingTable k = Some (table k) /\ base64_index (table k) = k
  /\ (negb (table k =? 61) && is_base64 (table k)) = true.
Proof.
  intros Hk.
  assert (forall_range (fun k => bool_decide (encodingTable k = Some (table k)) && (base64_index (table k) =? k)
    && (negb (table k =? 61) && is_base64 (table k))) 64 0 = true) as H by (vm_compute; reflexivity).
  pose proof (forall_range_spec _ _ _ H k ltac:(lia)) as Hr. cbv beta in Hr.
  apply andb_true_iff in Hr as [Hr H3]. apply andb_true_iff in Hr as [H1 H2].
  apply bool_decide_eq_true in H1. apply Z.eqb_eq in H2. exact (conj H1 (conj H2 H3)).
Qed.

Lemma table_end k : 64 <= k -> encodingTable k = None.
Proof. intros. apply lookup_ge_None_2. change (length base64chars) with 64%nat. lia. Qed.

Lemma lor_ge_r a b : 0 <= a -> 0 <= b -> b <= Z.lor a b.
Proof.
  intros Ha Hb. pose proof (Z.add_lor_land a b). pose proof (Z.land_nonneg a b).
  assert (Z.land a b <= a); [|lia]. pose proof (Z.land_lnot_diag a).
  pose proof (Z.add_lor_land (Z.land a b) (Z.ldiff a b)) as E. rewrite Z.lor_comm, Z.lor_ldiff_and in E.
  pose proof (Z.ldiff_nonneg a b). assert (Z.land (Z.land a b) (Z.ldiff a b) = 0); [|lia].
  apply Z.bits_inj'. intros n Hn. rewrite !Z.land_spec, Z.ldiff_spec, Z.bits_0.
  destruct (Z.testbit a n), (Z.testbit b n); done.
Qed.

(** The four indices of three seven-bit bytes give the bytes back. *)
Lemma group_indices a b c : 0 <= a < 128 -> 0 <= b < 128 -> 0 <= c < 128 ->
  let i1 := Z.lor (Z.shiftl (Z.land a 0x3) 4) (Z.shiftr b 4) in
  let i2 := Z.lor (Z.shiftl (Z.land b 0xF) 2) (Z.shiftr c 6) in
  Z.shiftr a 2 = a / 4 /\ i1 = a mod 4 * 16 + b / 16 /\ i2 = b mod 16 * 4 + c / 64 /\ Z.land c 0x3F = c mod 64.
Proof.
  intros Ha Hb Hc. cbv zeta. change 3 with (Z.ones 2). change 0xF with (Z.ones 4). change 0x3F with (Z.ones 6).
  rewrite !Z.land_ones, !Z.shiftr_div_pow2 by lia.
  rewrite !lor_shiftl_add_l by (first [lia | split; [apply Z.div_pos | apply Z.div_lt_upper_bound]; lia]). done.
Qed.

Lemma sextet_bits x : 0 <= x < 64 ->
  Z.shiftr (Z.land x 0x30) 4 = x / 16 /\ Z.land x 0xf = x mod 16
  /\ Z.shiftr (Z.land x 0x3c) 2 = x / 4 mod 16 /\ Z.land x 0x3 = x mod 4.
Proof.
  intros Hx.
  assert (forall_range (fun x => (Z.shiftr (Z.land x 0x30) 4 =? x / 16) && (Z.land x 0xf =? x mod 16)
    && (Z.shiftr (Z.land x 0x3c) 2 =? x / 4 mod 16) && (Z.land x 0x3 =? x mod 4)) 64 0 = true) as H by (vm_compute; reflexivity).
  pose proof (forall_range_spec _ _ _ H x ltac:(lia)) as Hr. clear H. cbv beta in Hr. bool_to_prop. split_and!; assumption.
Qed.

Lemma char_array_3_group a b c x3 : 0 <= a < 128 -> 0 <= b < 128 -> 0 <= c < 128 ->
  char_array_3 [a / 4; a mod 4 * 16 + b / 16; b mod 16 * 4 + c / 64; x3]
  = [a; b; u8 (c / 64 * 64 + x3)].
Proof.
  intros Ha Hb Hc. unfold char_array_3. simpl.
  destruct (sextet_bits (a mod 4 * 16 + b / 16)) as (-> & -> & _ & _); [word|].
  destruct (sextet_bits (b mod 16 * 4 + c / 64)) as (_ & _ & -> & ->); [word|].
  rewrite !Z.shiftl_mul_pow2 by lia.
  assert (b / 16 < 16 /\ c / 64 < 4) as [Hb' Hc'] by word.
  replace (a / 4 * 2 ^ 2 + (a mod 4 * 16 + b / 16) / 16) with a by word.
  replace ((a mod 4 * 16 + b / 16) mod 16 * 2 ^ 4 + (b mod 16 * 4 + c / 64) / 4 mod 16) with b by word.
  replace ((b mod 16 * 4 + c / 64) mod 4 * 2 ^ 6 + x3) with (c / 64 * 64 + x3) by word.
  by rewrite !u8_id by word.
Qed.

Lemma base64_loop_group i0 i1 i2 i3 rest ret :
  0 <= i0 < 64 -> 0 <= i1 < 64 -> 0 <= i2 < 64 -> 0 <= i3 < 64 ->
  base64_loop (table i0 :: table i1 :: table i2 :: table i3 :: rest) [] ret
  = base64_loop rest [] (ret ++ char_array_3 [i0; i1; i2; i3]).
Proof.
  intros H0 H1 H2 H3.
  destruct (table_spec i0 H0) as (_ & E0 & B0), (table_spec i1 H1) as (_ & E1 & B1),
    (table_spec i2 H2) as (_ & E2 & B2), (table_spec i3 H3) as (_ & E3 & B3).
  cbn [base64_loop]. rewrite B0, B1, B2, B3. cbn [app length Nat.eqb]. rewrite !fmap_cons, E0, E1, E2, E3. done.
Qed.

Definition seven_bit (data : bytes) : Prop := Forall (fun b => b < 128) data.

Lemma size_of_char_small b : b < 128 -> size_of_char b = b.
Proof. intros. unfold size_of_char. by rewrite (proj2 (Z.ltb_lt _ _)). Qed.

Lemma size_of_char_large b : 128 <= b < 256 -> 2 ^ 63 <= size_of_char b.
Proof. intros. unfold size_of_char. rewrite (proj2 (Z.ltb_ge _ _)) by lia. word. Qed.

Lemma size_of_char_nonneg b : is_u8 b -> 0 <= size_of_char b.
Proof. unfold size_of_char. destruct (b <? 128); word. Qed.

(** A character above 127 makes an index of the table run far past its end. *)
Lemma encode_group_eight_bit group : is_bytes group -> (0 < length group <= 3)%nat -> ~ seven_bit group ->
  encode_group group = None.
Proof.
  intros Hb Hl Hn. unfold seven_bit in Hn. unfold is_bytes in Hb.
  assert (forall x, 2 ^ 63 <= x -> encodingTable (Z.shiftr x 2) = None) as Ha.
  { intros x Hx. apply table_end. rewrite Z.shiftr_div_pow2 by lia. word. }
  assert (forall y x k, 0 <= y -> 0 <= k <= 6 -> 2 ^ 63 <= x -> encodingTable (Z.lor y (Z.shiftr x k)) = None) as Hx.
  { intros y x k Hy Hk Hx. apply table_end. etransitivity; [|apply lor_ge_r; [done | apply Z.shiftr_nonneg; lia]].
    rewrite Z.shiftr_div_pow2 by lia. apply Z.div_le_lower_bound; [lia|].
    assert (2 ^ k <= 2 ^ 6) by (apply Z.pow_le_mono_r; lia). lia. }
  assert (forall z m k, 0 <= m -> 0 <= k -> 0 <= Z.shiftl (Z.land z m) k) as Hpos.
  { intros. apply Z.shiftl_nonneg, Z.land_nonneg. lia. }
  assert (forall c, is_u8 c -> ~ c < 128 -> 2 ^ 63 <= size_of_char c) as Hbig by (intros; apply size_of_char_large; word).
  unfold encode_group.
  destruct group as [|a [|b [|c [|]]]]; simpl in Hl; try lia; rewrite !Forall_cons in Hb;
    cbn [lookup list_lookup fmap option_fmap option_map mbind option_bind default from_option id length Nat.ltb Nat.leb].
  all: destruct (decide (a < 128)); [|rewrite Ha by (apply Hbig; tauto); done].
  all: destruct (encodingTable (Z.shiftr _ 2)); [|done]; cbn [mbind option_bind].
  - destruct Hn. by repeat constructor.
  - destruct (decide (b < 128)); [destruct Hn; by repeat constructor|].
    rewrite (Hx _ (size_of_char b) 4); [done | apply Hpos; lia | lia | apply Hbig; tauto].
  - destruct (decide (b < 128)); [|rewrite (Hx _ (size_of_char b) 4); [done | apply Hpos; lia | lia | apply Hbig; tauto]].
    destruct (encodingTable (Z.lor _ (Z.shiftr _ 4))); [|done]. cbn [mbind option_bind].
    destruct (decide (c < 128)); [destruct Hn; by repeat constructor|].
    rewrite (Hx _ (size_of_char c) 6); [done | apply Hpos; lia | lia | apply Hbig; tauto].
Qed.

Lemma encode_group_seven_bit a b c : is_bytes [a; b; c] -> seven_bit [a; b; c] ->
  let i1 := a mod 4 * 16 + b / 16 in
  encode_group [a; b; c] = Some [table (a / 4); table i1; table (b mod 16 * 4 + c / 64); table (c mod 64)]
  /\ encode_group [a; b] = Some [table (a / 4); table i1; table (b mod 16 * 4)]
  /\ encode_group [a] = Some [table (a / 4); table (a mod 4 * 16)].
Proof.
  intros Hb Hs. cbv zeta. unfold is_bytes, is_u8, seven_bit in *. rewrite !Forall_cons in *.
  destruct (group_indices a b c) as (E0 & E1 & E2 & E3); [lia..|].
  destruct (group_indices a b 0) as (_ & _ & E2' & _); [lia..|].
  destruct (group_indices a 0 0) as (_ & E1' & _ & _); [lia..|].
  unfold encode_group.
  cbn [lookup list_lookup fmap option_fmap option_map mbind option_bind default from_option id length Nat.ltb Nat.leb].
  rewrite !size_of_char_small by lia. rewrite E0, E1, E2, E2', E1', E3.
  change (0 / 64) with 0. change (0 / 16) with 0. rewrite !Z.add_0_r.
  rewrite !(fun k H => proj1 (table_spec k H)) by word. done.
Qed.

(** What encoding some data means, for data in the middle of a decoding. *)
Definition encodes (data : bytes) : Prop :=
  match encode_groups data with
  | Some e => seven_bit data /\ (length e <= 4 * ((length data + 2) / 3))%nat
      /\ forall ret, base64_loop (e ++ replicate (4 * ((length data + 2) / 3) - length e) 61) [] ret = ret ++ data
  | None => ~ seven_bit data
  end.

Lemma encodes_nil : encodes [].
Proof. unfold encodes. simpl. split_and!; [apply Forall_nil_2 | lia | reflexivity]. Qed.

Lemma encodes_one a : is_bytes [a] -> encodes [a].
Proof.
  intros Hb. unfold encodes. cbn [encode_groups].
  destruct (decide (seven_bit [a])) as [Hs|Hs]; [|by rewrite encode_group_eight_bit by (done || simpl; lia)].
  unfold is_bytes, seven_bit in *. rewrite !Forall_cons in *. destruct Hb as [Ha _], Hs as [Ha' _].
  destruct (encode_group_seven_bit a 0 0) as (_ & _ & ->);
    [repeat apply Forall_cons_2; try apply Forall_nil_2; word.. |].
  split_and!; [repeat apply Forall_cons_2; first [assumption | apply Forall_nil_2] | simpl; lia |]. intros ret.
  destruct (table_spec (a / 4)) as (_ & E0 & B0); [word|]. destruct (table_spec (a mod 4 * 16)) as (_ & E1 & B1); [word|].
  simpl. rewrite B0, B1. cbn [app length Nat.eqb]. f_equal. unfold base64_tail. cbn [length app Nat.sub replicate].
  rewrite !fmap_cons, E0, E1. pose proof (char_array_3_group a 0 0 255 ltac:(word) ltac:(lia) ltac:(lia)) as E.
  apply (f_equal (take 1)) in E. change (0 / 16) with 0 in E. rewrite Z.add_0_r in E. exact E.
Qed.

Lemma encodes_two a b : is_bytes [a; b] -> encodes [a; b].
Proof.
  intros Hb. unfold encodes. cbn [encode_groups].
  destruct (decide (seven_bit [a; b])) as [Hs|Hs]; [|by rewrite encode_group_eight_bit by (done || simpl; lia)].
  unfold is_bytes, seven_bit in *. rewrite !Forall_cons in *. destruct Hb as (Ha & Hb & _), Hs as (Ha' & Hb' & _).
  destruct (encode_group_seven_bit a b 0) as (_ & -> & _);
    [repeat apply Forall_cons_2; try apply Forall_nil_2; word.. |].
  split_and!; [repeat apply Forall_cons_2; first [assumption | apply Forall_nil_2] | simpl; lia |]. intros ret.
  destruct (table_spec (a / 4)) as (_ & E0 & B0); [word|]. destruct (table_spec (a mod 4 * 16 + b / 16)) as (_ & E1 & B1); [word|].
  destruct (table_spec (b mod 16 * 4)) as (_ & E2 & B2); [word|].
  simpl. rewrite B0, B1, B2. cbn [app length Nat.eqb]. f_equal. unfold base64_tail. cbn [length app Nat.sub replicate].
  rewrite !fmap_cons, E0, E1, E2. pose proof (char_array_3_group a b 0 255 ltac:(word) ltac:(word) ltac:(lia)) as E.
  apply (f_equal (take 2)) in E. change (0 / 64) with 0 in E. rewrite Z.add_0_r in E. exact E.
Qed.

Lemma encodes_group a b c rest : is_bytes [a; b; c] -> encodes rest -> encodes ([a; b; c] ++ rest).
Proof.
  intros Hg IH. unfold encodes in *. cbn [encode_groups app].
  destruct (decide (seven_bit [a; b; c])) as [Hs|Hs].
  2:{ rewrite encode_group_eight_bit by (done || simpl; lia). simpl. intros H. unfold seven_bit in *.
      destruct Hs. change (a :: b :: c :: rest) with ([a; b; c] ++ rest) in H. by apply Forall_app in H as [? _]. }
  destruct (encode_group_seven_bit a b c Hg Hs) as (-> & _ & _). cbn [mbind option_bind].
  change (a :: b :: c :: rest) with ([a; b; c] ++ rest).
  destruct (encode_groups rest) as [e|]; cbn [mbind option_bind].
  - destruct IH as (Hr & Hle & Hd). rewrite !length_app. simpl length.
    replace (3 + length rest + 2)%nat with (length rest + 2 + 1 * 3)%nat by lia. rewrite Nat.div_add by lia.
    split_and!; [by apply Forall_app | lia |]. intros ret. rewrite <- app_assoc.
    replace (4 * ((length rest + 2) / 3 + 1) - (4 + length e))%nat with (4 * ((length rest + 2) / 3) - length e)%nat by lia.
    unfold is_bytes, seven_bit in Hg, Hs. rewrite !Forall_cons in *. cbn [app].
    rewrite base64_loop_group by word. rewrite Hd, char_array_3_group by word.
    rewrite <- app_assoc. replace (u8 (c / 64 * 64 + c mod 64)) with c by word. done.
  - intros H. apply IH. unfold seven_bit in *. by apply Forall_app in H as [_ H].
Qed.

Lemma encodes_all n data : (length data <= n)%nat -> is_bytes data -> encodes data.
Proof.
  revert data. induction n as [|n IH]; intros data Hl Hb.
  { destruct data; [exact encodes_nil | simpl in Hl; lia]. }
  destruct data as [|a [|b [|c rest]]]; [exact encodes_nil | exact (encodes_one a Hb) | exact (encodes_two a b Hb) |].
  change (a :: b :: c :: rest) with ([a; b; c] ++ rest) in *. apply Forall_app in Hb as [Hg Hb].
  apply encodes_group; [done|]. apply IH; [simpl in Hl; lia | done].
Qed.

(** Base64.  Encoding succeeds exactly on seven-bit data, and then decoding
    gives the data back; a byte above 127 is sign-extended by the conversion of
    [char] and indexes far outside the encoding table. *)
Theorem base64_encode_spec data : is_bytes data ->
  match base64_encode data with
  | Some e => seven_bit data /\ base64Decode e = data
  | None => ~ seven_bit data
  end.
Proof.
  intros Hb. pose proof (encodes_all (length data) data ltac:(lia) Hb) as H. unfold encodes in H.
  unfold base64_encode, base64Decode. destruct (encode_groups data) as [e|]; simpl; [|done].
  destruct H as (Hs & _ & Hd). split; [done|]. exact (Hd []).
Qed.

Lemma base64_encode_spec_witness :
  match base64_encode (codes "conceal") with
  | Some e => seven_bit (codes "conceal") /\ base64Decode e = codes "conceal"
  | None => ~ seven_bit (codes "conceal")
  end /\ base64_encode (codes "conceal") = Some (codes "Y29uY2VhbA==").
Proof. split; [apply (base64_encode_spec (codes "conceal")); bytes_compute | vm_compute; reflexivity]. Defined.

End StringTools.
