(* ===== verification/Amounts.v ===== *)
(** src/CryptoNoteCore/Currency.cpp, [formatAmount] and [parseAmount]: money
    amounts as text with a decimal point.  Strings are lists of character codes,
    as in [StringTools]. *)

From S2P Require Import Prelude.
From S2P Require Import Varint.
From S2P Require Import Base58.
From S2P Require Import StringTools.
From S2P Require Import Currency.
Import Base58 StringTools.

Module Amounts.

(** ** The parts of the standard library *)

(** [std::to_string]: a [uint64_t] has at most twenty digits. *)
Fixpoint decimal (fuel : nat) (v : Z) : bytes :=
  match fuel with
  | O => []
  | S fuel => (if v <? 10 then [] else decimal fuel (v / 10)) ++ [48 + v mod 10]
  end.

Definition to_string (v : Z) : bytes := decimal 20 v.

Definition isdigit (c : Z) : bool := (48 <=? c) && (c <=? 57).
Definition isspace (c : Z) : bool := (c =? 32) || ((9 <=? c) && (c <=? 13)).

(** The number a string of digits denotes. *)
Definition decimal_value (s : bytes) : Z := foldl (fun acc c => acc * 10 + (c - 48)) 0 s.

(** [stream >> value] on a non-empty string of digits: the fail bit is set when
    the number does not fit. *)
Definition fromString (s : bytes) : option Z :=
  let v := decimal_value s in if v <? 2 ^ 64 then Some v else None.

Fixpoint drop_spaces (s : bytes) : bytes :=
  match s with
  | c :: s' => if isspace c then drop_spaces s' else s
  | [] => []
  end.

(** [boost::algorithm::trim]. *)
Definition trim (s : bytes) : bytes := rev (drop_spaces (rev (drop_spaces s))).

Section amounts.
Context (c : Currency).
Let places : nat := Z.to_nat (m_numberOfDecimalPlaces c).

Definition formatAmount (amount : Z) : bytes :=
  let s := to_string amount in
  let s := if (length s <? places + 1)%nat then replicate (places + 1 - length s) 48 ++ s else s in
  let p := (length s - places)%nat in
  take p s ++ [46] ++ drop p s.

(** The overload for [int64_t]. *)
Definition formatAmount_signed (amount : Z) : bytes :=
  let s := formatAmount (Z.abs amount) in
  if amount <? 0 then 45 :: s else s.

(** [while (m_numberOfDecimalPlaces < fractionSize && '0' == strAmount.back())];
    every round shortens the fraction, so its size is enough fuel. *)
Fixpoint strip_loop (fuel : nat) (strAmount : bytes) (fractionSize : nat) : bytes * nat :=
  match fuel with
  | O => (strAmount, fractionSize)
  | S fuel =>
      if (places <? fractionSize)%nat && bool_decide (last strAmount = Some 48)
      then strip_loop fuel (take (length strAmount - 1) strAmount) (fractionSize - 1)
      else (strAmount, fractionSize)
  end.

Definition parseAmount (str : bytes) : option Z :=
  let strAmount := trim str in
  '(strAmount, fractionSize) ←
    match find strAmount 46 0 with
    | Some pointIndex =>
        let fractionSize := (length strAmount - pointIndex - 1)%nat in
        let '(strAmount, fractionSize) := strip_loop fractionSize strAmount fractionSize in
        if (places <? fractionSize)%nat then None
        else Some (take pointIndex strAmount ++ drop (pointIndex + 1) strAmount, fractionSize)
    | None => Some (strAmount, 0%nat)
    end;
  if bool_decide (strAmount = []) then None
  else if negb (forallb isdigit strAmount) then None
  else
    let strAmount :=
      if (fractionSize <? places)%nat then strAmount ++ replicate (places - fractionSize) 48 else strAmount in
    fromString strAmount.

(** ** Lemmas *)

Definition digits_only (s : bytes) : Prop := Forall (fun c => isdigit c = true) s.

Lemma isdigit_not c' : isdigit c' = true -> isspace c' = false /\ c' <> 46.
Proof.
  unfold isdigit, isspace. intros H. bool_to_prop. split; [|lia].
  apply orb_false_iff. rewrite andb_false_iff, Z.eqb_neq, Z.leb_gt. lia.
Qed.

Lemma decimal_value_snoc s d : decimal_value (s ++ [d]) = decimal_value s * 10 + (d - 48).
Proof. unfold decimal_value. by rewrite foldl_snoc. Qed.

Lemma decimal_value_zeros n s : decimal_value (replicate n 48 ++ s) = decimal_value s.
Proof. unfold decimal_value. rewrite foldl_app. f_equal. by induction n. Qed.

Lemma decimal_value_append s n : decimal_value (s ++ replicate n 48) = decimal_value s * 10 ^ Z.of_nat n.
Proof.
  induction n as [|n IH]; [rewrite app_nil_r; simpl; lia|].
  rewrite replicate_S_end, app_assoc, decimal_value_snoc, IH, Nat2Z.inj_succ, Z.pow_succ_r by lia. lia.
Qed.

Lemma decimal_spec fuel v : (0 < fuel)%nat -> 0 <= v < 10 ^ Z.of_nat fuel ->
  decimal_value (decimal fuel v) = v /\ digits_only (decimal fuel v) /\ decimal fuel v <> [].
Proof.
  revert v. induction fuel as [|fuel IH]; intros v Hf Hv; [lia|].
  assert (isdigit (48 + v mod 10) = true) as Hd by (unfold isdigit; pose proof (Z.mod_pos_bound v 10); lia).
  cbn [decimal]. destruct (Z.ltb_spec v 10).
  - rewrite Z.mod_small in * by lia. simpl. unfold decimal_value. simpl. split_and!; [lia | by constructor | done].
  - rewrite Nat2Z.inj_succ, Z.pow_succ_r in Hv by lia.
    assert (0 <= v / 10 < 10 ^ Z.of_nat fuel) as Hv' by (split; [apply Z.div_pos | apply Z.div_lt_upper_bound]; lia).
    destruct fuel as [|fuel]; [simpl in Hv'; pose proof (Z.div_mod v 10); lia|].
    destruct (IH (v / 10) ltac:(lia) Hv') as (Hval & Hds & _).
    rewrite decimal_value_snoc, Hval. pose proof (Z.div_mod v 10). split_and!; [lia | | by destruct (decimal _ _)].
    apply Forall_app. split; [done | by constructor].
Qed.

Lemma drop_spaces_id s : Forall (fun c => isspace c = false) s -> drop_spaces s = s.
Proof. intros H. destruct H as [|x l Hx]; [done|]. simpl. by rewrite Hx. Qed.

Lemma trim_id s : Forall (fun c => isspace c = false) s -> trim s = s.
Proof.
  intros H. unfold trim. rewrite (drop_spaces_id s) by done. rewrite drop_spaces_id by (by apply Forall_rev).
  apply rev_involutive.
Qed.

Lemma strip_loop_spec ip fr fuel : (length fr <= fuel)%nat ->
  exists g, strip_loop fuel (ip ++ 46 :: fr) (length fr) = (ip ++ 46 :: g, length g)
    /\ (if forallb (Z.eqb 48) (drop places fr) then g = take places fr else (places < length g)%nat).
Proof.
  revert fuel. induction fr as [|x fr IH] using rev_ind; intros fuel Hf.
  { exists []. rewrite drop_nil, take_nil. split; [|done]. by destruct fuel. }
  rewrite length_app in *. simpl in *. destruct fuel as [|fuel]; [lia|]. cbn [strip_loop].
  replace (last (ip ++ 46 :: fr ++ [x])) with (Some x) by (by rewrite app_comm_cons, app_assoc, last_snoc).
  destruct (Nat.ltb_spec places (length fr + 1)) as [Hp|Hp].
  - rewrite (drop_app_le fr), (take_app_le fr), forallb_app by lia. cbn [forallb]. case_bool_decide as Hx; simplify_eq; cbn [andb].
    + rewrite Z.eqb_refl, !andb_true_r. destruct (IH fuel ltac:(lia)) as (g & Hg & Hif). exists g. split; [|done].
      rewrite <- Hg. f_equal; [|lia]. change (46 :: fr ++ [48]) with ((46 :: fr) ++ [48]). rewrite app_assoc.
      set (l := ip ++ 46 :: fr). rewrite length_app.
      replace (length l + length [48%Z] - 1)%nat with (length l) by (simpl; lia). apply take_app_length.
    + rewrite (proj2 (Z.eqb_neq 48 x)) by congruence. rewrite andb_false_l, andb_false_r.
      exists (fr ++ [x]). rewrite length_app. simpl. split; [done | lia].
  - rewrite (drop_ge (fr ++ [x])), (take_ge (fr ++ [x])) by (rewrite length_app; simpl; lia). exists (fr ++ [x]).
    split; [by rewrite (length_app fr) | done].
Qed.

Lemma find_point ip fr : digits_only ip -> find (ip ++ 46 :: fr) 46 0 = Some (length ip).
Proof.
  intros H. unfold find. rewrite drop_0.
  assert (list_find (fun c => c = 46) (ip ++ 46 :: fr) = Some (length ip, 46)) as ->; [|done].
  apply list_find_Some. split_and!; [by apply list_lookup_middle | done |].
  intros j y Hj Hlt ->. rewrite lookup_app_l in Hj by done.
  unfold digits_only in H. rewrite Forall_lookup in H. specialize (H _ _ Hj). apply isdigit_not in H as [_ H]. done.
Qed.

Lemma digits_no_space ip fr : digits_only ip -> digits_only fr ->
  Forall (fun c => isspace c = false) (ip ++ 46 :: fr).
Proof.
  intros Hi Hf. apply Forall_app. split; [|constructor; [done|]];
    (eapply Forall_impl; [eassumption|]; intros c' Hc; by apply isdigit_not in Hc as [? _]).
Qed.

Lemma parseAmount_digits ip fr : digits_only ip -> digits_only fr ->
  let f := take places fr in
  parseAmount (ip ++ 46 :: fr) =
  if forallb (Z.eqb 48) (drop places fr) && negb (bool_decide (ip ++ f = [])) then
    let v := decimal_value (ip ++ f) * 10 ^ Z.of_nat (places - length f) in
    if v <? 2 ^ 64 then Some v else None
  else None.
Proof.
  intros Hi Hf f. unfold parseAmount. rewrite trim_id by (by apply digits_no_space).
  rewrite find_point by done. rewrite length_app. cbn [length].
  replace (length ip + S (length fr) - length ip - 1)%nat with (length fr) by lia.
  destruct (strip_loop_spec ip fr (length fr) ltac:(lia)) as (g & -> & Hg).
  destruct (forallb _ (drop places fr)); cbn [andb].
  2:{ rewrite (proj2 (Nat.ltb_lt _ _)) by done. done. }
  subst g. fold f. assert (length f <= places)%nat as Hlf by (unfold f; rewrite length_take; lia).
  rewrite (proj2 (Nat.ltb_ge _ _)) by done. cbn [mbind option_bind].
  rewrite take_app_length. replace (drop (length ip + 1) (ip ++ 46 :: f)) with f by (by rewrite drop_app_add).
  case_bool_decide as Hne; [done|]. cbn [negb].
  assert (digits_only (ip ++ f)) as Hd by (apply Forall_app; split; [done | by apply Forall_take]).
  assert (forallb isdigit (ip ++ f) = true) as ->.
  { apply forallb_forall. intros x Hx. apply list_elem_of_In in Hx. unfold digits_only in Hd. rewrite Forall_forall in Hd. auto. }
  cbn [negb].
  unfold fromString. destruct (Nat.ltb_spec (length f) places).
  - by rewrite decimal_value_append.
  - replace (places - length f)%nat with 0%nat by lia. rewrite Z.mul_1_r. done.
Qed.

Lemma formatAmount_shape amount : 0 <= amount < 2 ^ 64 ->
  exists ip fr, formatAmount amount = ip ++ 46 :: fr /\ digits_only ip /\ digits_only fr
    /\ ip <> [] /\ length fr = places /\ decimal_value (ip ++ fr) = amount.
Proof.
  intros Ha. destruct (decimal_spec 20 amount) as (Hv & Hd & Hne); [lia | change (10 ^ Z.of_nat 20) with 100000000000000000000; lia |].
  unfold formatAmount, to_string. set (s := decimal 20 amount) in *.
  set (s' := if (length s <? places + 1)%nat then _ else s).
  assert (digits_only s' /\ decimal_value s' = amount /\ (places + 1 <= length s')%nat) as (Hd' & Hv' & Hl').
  { unfold s'. destruct (Nat.ltb_spec (length s) (places + 1)); [|done].
    rewrite decimal_value_zeros, length_app, length_replicate. split_and!; [|done | lia].
    apply Forall_app. split; [|done]. by apply Forall_replicate. }
  clearbody s'. exists (take (length s' - places) s'), (drop (length s' - places) s').
  split_and!; [done | by apply Forall_take | by apply Forall_drop | | rewrite length_drop; lia | by rewrite take_drop].
  intros H. apply (f_equal length) in H. rewrite length_take in H. simpl in H. lia.
Qed.

End amounts.

(** Amounts as text.  Parsing what [formatAmount] prints gives the amount back
    for every 64-bit amount; and on any digits around a decimal point
    [parseAmount] computes exactly the number written, accepts additional
    zeros in the fraction, and fails when a non-zero digit lies beyond the smallest
    unit, when there is no digit or when the amount does not fit 64 bits. *)
Theorem parseAmount_correct (c : Currency) :
  let places := Z.to_nat (m_numberOfDecimalPlaces c) in
  (forall amount, 0 <= amount < 2 ^ 64 -> parseAmount c (formatAmount c amount) = Some amount)
  /\ forall ip fr, digits_only ip -> digits_only fr ->
      let f := take places fr in
      parseAmount c (ip ++ 46 :: fr) =
      if forallb (Z.eqb 48) (drop places fr) && negb (bool_decide (ip ++ f = [])) then
        let v := decimal_value (ip ++ f) * 10 ^ Z.of_nat (places - length f) in
        if v <? 2 ^ 64 then Some v else None
      else None.
Proof.
  intros places. split; [|intros; by apply parseAmount_digits]. intros amount Ha.
  destruct (formatAmount_shape c amount Ha) as (ip & fr & -> & Hi & Hf & Hne & Hl & Hv).
  rewrite parseAmount_digits by done. fold places in Hl |- *. rewrite drop_ge, take_ge by lia. cbn [forallb andb].
  rewrite bool_decide_eq_false_2 by (by destruct ip). cbn [negb]. rewrite Hl, Nat.sub_diag, Hv, Z.mul_1_r.
  by rewrite (proj2 (Z.ltb_lt _ _)) by lia.
Qed.

End Amounts.
