(* ===== verification/TransactionExtra.v ===== *)
(** src/CryptoNoteCore/TransactionExtra.cpp: the tagged fields in the [extra] bytes
    of a transaction, and the payment identifiers kept in them.  The encryption of
    messages is in [ConstructTransaction]. *)

From S2P Require Import Prelude.
From S2P Require Import Varint.
From S2P Require Import Serialization.
From S2P Require Import CryptoNote.
From S2P Require Import CryptoNoteSerialization.
From S2P Require Import Base58.
From S2P Require Import StringTools.
Import Varint Stream BinarySerializer CryptoNoteSerialization StringTools.

Module TransactionExtra.

Definition TX_EXTRA_PADDING_MAX_COUNT : Z := 255.
Definition TX_EXTRA_NONCE_MAX_COUNT : Z := 255.
Definition TX_EXTRA_TAG_PADDING : Z := 0.
Definition TX_EXTRA_TAG_PUBKEY : Z := 1.
Definition TX_EXTRA_NONCE : Z := 2.
Definition TX_EXTRA_MERGE_MINING_TAG : Z := 3.
Definition TX_EXTRA_MESSAGE_TAG : Z := 4.
Definition TX_EXTRA_TTL : Z := 5.
Definition TX_EXTRA_NONCE_PAYMENT_ID : Z := 0.

Record MergeMiningTag := MkMergeMiningTag {
  depth : Z;
  merkleRoot : Hash
}.

Inductive TransactionExtraField :=
| TransactionExtraPadding (size : Z)
| TransactionExtraPublicKey (publicKey : PublicKey)
| TransactionExtraNonce (nonce : bytes)
| TransactionExtraMergeMiningTag (tag : MergeMiningTag)
| tx_extra_message (data : bytes)
| TransactionExtraTTL (ttl : Z).

(** [doSerialize] and [serialize] of the merge-mining tag: the two members are
    written into a string of their own, which is read back as a stream. *)
Definition doSerialize : Codec MergeMiningTag :=
  struct (fun p => MkMergeMiningTag p.1 p.2) (fun t => (depth t, merkleRoot t)) (BinarySerializer.seq (uint 64) pod32).

Definition serializeMergeMiningTag : Codec MergeMiningTag :=
  MkCodec (fun t => field ← put doSerialize t; put str field)
    (fun input =>
       '(field, rest) ← get str input;
       '(t, _) ← get doSerialize field;
       Some (t, rest)).

(** ** Parsing *)

(** The padding loop: zero bytes up to the end of the input; [size] counts the tag. *)
Fixpoint padding_loop (input : bytes) (size : Z) : option (Z * bytes) :=
  match input with
  | [] => Some (size, [])
  | b :: input' =>
      if size <=? TX_EXTRA_PADDING_MAX_COUNT then
        if b =? 0 then padding_loop input' (size + 1) else None
      else Some (size, input)
  end.

(** One field after its tag; [None] is a [return false] or an exception.  An
    unknown tag is skipped. *)
Definition parse_field (c : Z) (input : bytes) : option (list TransactionExtraField * bytes) :=
  if c =? TX_EXTRA_TAG_PADDING then
    '(size, input) ← padding_loop input 1;
    if TX_EXTRA_PADDING_MAX_COUNT <? size then None else Some ([TransactionExtraPadding size], input)
  else if c =? TX_EXTRA_TAG_PUBKEY then
    '(k, input) ← get pod32 input; Some ([TransactionExtraPublicKey k], input)
  else if c =? TX_EXTRA_NONCE then
    '(size, input) ← read_u8 input;
    '(nonce, input) ← (if 0 <? size then read (Z.to_nat size) input else Some ([], input));
    Some ([TransactionExtraNonce nonce], input)
  else if c =? TX_EXTRA_MERGE_MINING_TAG then
    '(t, input) ← get serializeMergeMiningTag input; Some ([TransactionExtraMergeMiningTag t], input)
  else if c =? TX_EXTRA_MESSAGE_TAG then
    '(data, input) ← get str input; Some ([tx_extra_message data], input)
  else if c =? TX_EXTRA_TTL then
    '(_, input) ← readVarint 8 input;
    '(ttl, input) ← readVarint 64 input;
    Some ([TransactionExtraTTL ttl], input)
  else Some ([], input).

(** The result and the fields read so far, which a failure leaves in place.  Each
    round consumes its tag, so the length of the input is enough fuel. *)
Fixpoint parse_loop (fuel : nat) (input : bytes) (fields : list TransactionExtraField) :
    bool * list TransactionExtraField :=
  match fuel with
  | O => (true, fields)
  | S fuel =>
      match input with
      | [] => (true, fields)
      | c :: input =>
          match parse_field c input with
          | Some (f, input) => parse_loop fuel input (fields ++ f)
          | None => (false, fields)
          end
      end
  end.

Definition parseTransactionExtra (transactionExtra : bytes) : bool * list TransactionExtraField :=
  parse_loop (length transactionExtra) transactionExtra [].

(** ** Writing *)

(** [resize] by 33 and two assignments into the new tail. *)
Definition addTransactionPublicKeyToExtra (tx_extra : bytes) (tx_pub_key : PublicKey) : bytes :=
  tx_extra ++ TX_EXTRA_TAG_PUBKEY :: tx_pub_key.

Definition addExtraNonceToTransactionExtra (tx_extra extra_nonce : bytes) : option bytes :=
  if TX_EXTRA_NONCE_MAX_COUNT <? Z.of_nat (length extra_nonce) then None
  else Some (tx_extra ++ TX_EXTRA_NONCE :: u8 (Z.of_nat (length extra_nonce)) :: extra_nonce).

Definition appendMergeMiningTagToExtra (tx_extra : bytes) (mm_tag : MergeMiningTag) : option bytes :=
  blob ← toBinaryArray serializeMergeMiningTag mm_tag;
  Some (tx_extra ++ TX_EXTRA_MERGE_MINING_TAG :: blob).

Definition append_message_to_extra (tx_extra data : bytes) : option bytes :=
  blob ← toBinaryArray str data;
  Some (tx_extra ++ TX_EXTRA_MESSAGE_TAG :: blob).

Definition appendTTLToExtra (tx_extra : bytes) (ttl : Z) : bytes :=
  let ttlData := get_varint_data ttl in
  let extraFieldSize := get_varint_data (Z.of_nat (length ttlData)) in
  tx_extra ++ TX_EXTRA_TTL :: extraFieldSize ++ ttlData.

(** [ExtraSerializerVisitor]. *)
Definition write_field (tx_extra : bytes) (f : TransactionExtraField) : option bytes :=
  match f with
  | TransactionExtraPadding size =>
      if TX_EXTRA_PADDING_MAX_COUNT <? size then None else Some (tx_extra ++ replicate (Z.to_nat size) 0)
  | TransactionExtraPublicKey k => Some (addTransactionPublicKeyToExtra tx_extra k)
  | TransactionExtraNonce nonce => addExtraNonceToTransactionExtra tx_extra nonce
  | TransactionExtraMergeMiningTag t => appendMergeMiningTagToExtra tx_extra t
  | tx_extra_message data => append_message_to_extra tx_extra data
  | TransactionExtraTTL ttl => Some (appendTTLToExtra tx_extra ttl)
  end.

Fixpoint writeTransactionExtra (tx_extra : bytes) (fields : list TransactionExtraField) : option bytes :=
  match fields with
  | [] => Some tx_extra
  | f :: fields => tx_extra ← write_field tx_extra f; writeTransactionExtra tx_extra fields
  end.

(** ** Looking fields up *)

Definition NULL_KEY : bytes := replicate 32 0.

Fixpoint find_map {A B} (f : A -> option B) (l : list A) : option B :=
  match l with
  | [] => None
  | x :: l => match f x with Some y => Some y | None => find_map f l end
  end.

Definition as_public_key (f : TransactionExtraField) : option PublicKey :=
  match f with TransactionExtraPublicKey k => Some k | _ => None end.
Definition as_nonce (f : TransactionExtraField) : option bytes :=
  match f with TransactionExtraNonce n => Some n | _ => None end.
Definition as_merge_mining_tag (f : TransactionExtraField) : option MergeMiningTag :=
  match f with TransactionExtraMergeMiningTag t => Some t | _ => None end.

(** The result of the parser is ignored. *)
Definition getTransactionPublicKeyFromExtra (tx_extra : bytes) : PublicKey :=
  default NULL_KEY (find_map as_public_key (parseTransactionExtra tx_extra).2).

Definition getMergeMiningTagFromExtra (tx_extra : bytes) : option MergeMiningTag :=
  find_map as_merge_mining_tag (parseTransactionExtra tx_extra).2.

(** ** Payment identifiers *)

Definition setPaymentIdToTransactionExtraNonce (payment_id : Hash) : bytes :=
  TX_EXTRA_NONCE_PAYMENT_ID :: payment_id.

Definition getPaymentIdFromTransactionExtraNonce (extra_nonce : bytes) : option Hash :=
  if negb (length extra_nonce =? 33)%nat then None
  else
    match extra_nonce with
    | b :: payment_id => if TX_EXTRA_NONCE_PAYMENT_ID =? b then Some payment_id else None
    | [] => None
    end.

Definition parsePaymentId (paymentIdString : bytes) : option Hash := podFromHex 32 paymentIdString.

Definition createTxExtraWithPaymentId (paymentIdString extra : bytes) : option bytes :=
  paymentIdBin ← parsePaymentId paymentIdString;
  addExtraNonceToTransactionExtra extra (setPaymentIdToTransactionExtraNonce paymentIdBin).

Definition getPaymentIdFromTxExtra (extra : bytes) : option Hash :=
  match parseTransactionExtra extra with
  | (false, _) => None
  | (true, fields) =>
      match find_map as_nonce fields with
      | Some nonce => getPaymentIdFromTransactionExtraNonce nonce
      | None => None
      end
  end.

Definition addPaymentIdToExtra (paymentId extra : bytes) : option bytes :=
  extraVector ← createTxExtraWithPaymentId paymentId [];
  Some (extra ++ extraVector).

(** [BlockchainExplorerDataBuilder::getPaymentId]: as above, but a failed parse
    does not stop it. *)
Definition getPaymentId (tx : Transaction) : option Hash :=
  nonce ← find_map as_nonce (parseTransactionExtra (extra (prefix tx))).2;
  getPaymentIdFromTransactionExtraNonce nonce.

(** ** Round trip *)

Definition wf_tag (t : MergeMiningTag) : Prop := is_u64 (depth t) /\ wf_pod 32 (merkleRoot t).

(** What a field may hold; one byte gives the size of a nonce, and strings are
    bounded by the reader. *)
Definition wf_field (f : TransactionExtraField) : Prop :=
  match f with
  | TransactionExtraPadding size => 1 <= size <= TX_EXTRA_PADDING_MAX_COUNT
  | TransactionExtraPublicKey k => wf_pod 32 k
  | TransactionExtraNonce nonce => is_bytes nonce /\ Z.of_nat (length nonce) <= TX_EXTRA_NONCE_MAX_COUNT
  | TransactionExtraMergeMiningTag t => wf_tag t
  | tx_extra_message data => is_bytes data /\ small data
  | TransactionExtraTTL ttl => is_u64 ttl
  end.

Definition is_padding (f : TransactionExtraField) : bool :=
  match f with TransactionExtraPadding _ => true | _ => false end.

(** Padding runs to the end of the input, so it can only come last. *)
Fixpoint padding_last (fields : list TransactionExtraField) : Prop :=
  match fields with
  | [] => True
  | f :: rest => (is_padding f = true -> rest = []) /\ padding_last rest
  end.

Lemma doSerialize_ok : CodecOk doSerialize wf_tag.
Proof.
  eapply CodecOk_iff; [|apply struct_ok; [by intros [] | by intros [] | apply seq_ok; [apply uint_ok; lia | apply binary_ok]]].
  intros [d r]. done.
Qed.

Lemma mergeMiningTag_get_put t rest : wf_tag t ->
  exists bs, put serializeMergeMiningTag t = Some bs /\ get serializeMergeMiningTag (bs ++ rest) = Some (t, rest).
Proof.
  intros Ht. pose proof doSerialize_ok as Hok. destruct (codec_total (c := doSerialize) t Ht) as (field & Hf & Hb).
  assert (small field) as Hs.
  { change (put doSerialize t) with (Some (writeVarint (depth t) ++ merkleRoot t)) in Hf. injection Hf as <-.
    destruct Ht as [Hd [Hr _]]. unfold small, max_size.
    rewrite length_app, Hr, writeVarint_eq by done. pose proof (groups7_length 9 (depth t)). lia. }
  eexists. cbn [serializeMergeMiningTag put get]. rewrite Hf. cbn [mbind option_bind]. split; [reflexivity|].
  rewrite (codec_get_put (c := str) field _ rest) by done. cbn [mbind option_bind].
  rewrite <- (app_nil_r field). by rewrite (codec_get_put (c := doSerialize) t field []).
Qed.

Lemma padding_loop_zeros n size : size + Z.of_nat n <= TX_EXTRA_PADDING_MAX_COUNT + 1 ->
  padding_loop (replicate n 0) size = Some (size + Z.of_nat n, []).
Proof.
  revert size. induction n as [|n IH]; intros size Hs; simpl; [by rewrite Z.add_0_r|].
  rewrite (proj2 (Z.leb_le _ _)) by lia. rewrite IH by lia. do 2 f_equal. lia.
Qed.

(** The branches of the parser. *)
Lemma parse_pubkey input : parse_field TX_EXTRA_TAG_PUBKEY input =
  ('(k, input) ← read 32 input; Some ([TransactionExtraPublicKey k], input)).
Proof. reflexivity. Qed.

Lemma parse_nonce input : parse_field TX_EXTRA_NONCE input =
  ('(size, input) ← read_u8 input;
   '(nonce, input) ← (if 0 <? size then read (Z.to_nat size) input else Some ([], input));
   Some ([TransactionExtraNonce nonce], input)).
Proof. reflexivity. Qed.

Lemma parse_merge_mining_tag input : parse_field TX_EXTRA_MERGE_MINING_TAG input =
  ('(t, input) ← get serializeMergeMiningTag input; Some ([TransactionExtraMergeMiningTag t], input)).
Proof. reflexivity. Qed.

Lemma parse_message input : parse_field TX_EXTRA_MESSAGE_TAG input =
  ('(data, input) ← get str input; Some ([tx_extra_message data], input)).
Proof. reflexivity. Qed.

Lemma parse_ttl input : parse_field TX_EXTRA_TTL input =
  ('(_, input) ← readVarint 8 input;
   '(ttl, input) ← readVarint 64 input;
   Some ([TransactionExtraTTL ttl], input)).
Proof. reflexivity. Qed.

(** A field other than padding is written as a tag and a body that parse back. *)
Lemma write_parse_field f ex rest : wf_field f -> is_padding f = false ->
  exists c body, write_field ex f = Some (ex ++ c :: body) /\ parse_field c (body ++ rest) = Some ([f], rest).
Proof.
  intros Hf Hp. destruct f as [size|k|nonce|t|data|ttl]; [done|..]; cbn [wf_field] in Hf; cbn [write_field].
  - exists TX_EXTRA_TAG_PUBKEY, k. split; [done|]. destruct Hf as [Hl _]. by rewrite parse_pubkey, (read_app 32 k rest Hl).
  - destruct Hf as [Hb Hl]. exists TX_EXTRA_NONCE, (u8 (Z.of_nat (length nonce)) :: nonce).
    unfold addExtraNonceToTransactionExtra. rewrite (proj2 (Z.ltb_ge _ _)) by done. split; [done|].
    unfold TX_EXTRA_NONCE_MAX_COUNT in Hl. rewrite u8_id by word.
    rewrite parse_nonce, <- app_comm_cons, read_u8_cons by word. cbn [mbind option_bind].
    destruct (Z.ltb_spec 0 (Z.of_nat (length nonce))).
    + by rewrite Nat2Z.id, read_app by done.
    + by destruct nonce; [|simpl in *; lia].
  - destruct (mergeMiningTag_get_put t rest Hf) as (bs & Hput & Hget).
    exists TX_EXTRA_MERGE_MINING_TAG, bs. unfold appendMergeMiningTagToExtra, toBinaryArray.
    by rewrite Hput, parse_merge_mining_tag, Hget.
  - destruct Hf as [Hb Hs]. destruct (codec_total (c := str) data (conj Hb Hs)) as (bs & Hput & _).
    exists TX_EXTRA_MESSAGE_TAG, bs. unfold append_message_to_extra, toBinaryArray.
    by rewrite Hput, parse_message, (codec_get_put (c := str) data bs rest).
  - pose proof (write_varint_length ttl Hf) as Hl.
    exists TX_EXTRA_TTL, (get_varint_data (Z.of_nat (length (get_varint_data ttl))) ++ get_varint_data ttl). split; [done|].
    unfold get_varint_data. rewrite parse_ttl, <- app_assoc, write_varint_writeVarint by word.
    rewrite read_write_Varint by word. cbn [mbind option_bind].
    by rewrite write_varint_writeVarint, read_write_Varint by word.
Qed.

Lemma parse_padding size : 1 <= size <= TX_EXTRA_PADDING_MAX_COUNT ->
  exists n, replicate (Z.to_nat size) 0 = 0 :: replicate n 0
    /\ parse_field 0 (replicate n 0) = Some ([TransactionExtraPadding size], []).
Proof.
  intros Hs. exists (Z.to_nat (size - 1)). replace (Z.to_nat size) with (S (Z.to_nat (size - 1))) by lia. split; [done|].
  unfold parse_field. rewrite Z.eqb_refl, padding_loop_zeros by lia. cbn [mbind option_bind].
  replace (1 + Z.of_nat (Z.to_nat (size - 1))) with size by lia. by rewrite (proj2 (Z.ltb_ge _ _)) by lia.
Qed.

Lemma write_parse_loop fields ex : Forall wf_field fields -> padding_last fields ->
  exists bs, writeTransactionExtra ex fields = Some (ex ++ bs)
    /\ forall fuel acc, (length bs <= fuel)%nat -> parse_loop fuel bs acc = (true, acc ++ fields).
Proof.
  intros Hf. revert ex. induction Hf as [|f fields Hw Hf IH]; intros ex Hp; cbn [writeTransactionExtra].
  { exists []. rewrite app_nil_r. split; [done|]. intros [|fuel] acc _; simpl; by rewrite app_nil_r. }
  destruct Hp as [Hpad Hp]. destruct (is_padding f) eqn:Ef.
  - rewrite (Hpad eq_refl). destruct f as [size| | | | |]; try done. cbn [write_field wf_field] in *.
    rewrite (proj2 (Z.ltb_ge _ _)) by lia. cbn [mbind option_bind writeTransactionExtra].
    destruct (parse_padding size Hw) as (n & -> & Hn). eexists. split; [done|].
    intros [|fuel] acc Hl; [simpl in Hl; lia|]. cbn [parse_loop]. rewrite Hn.
    destruct fuel; done.
  - destruct (write_parse_field f ex [] Hw Ef) as (c0 & b0 & Hwr & _). rewrite Hwr. cbn [mbind option_bind].
    destruct (IH (ex ++ c0 :: b0) Hp) as (bs & Hbs & Hparse).
    destruct (write_parse_field f ex bs Hw Ef) as (c & body & Hwr' & Hpf). rewrite Hwr in Hwr'.
    apply (inj Some), (inj (app ex)) in Hwr'. injection Hwr' as -> ->.
    exists (c :: body ++ bs). rewrite Hbs, <- app_assoc. split; [done|].
    intros [|fuel] acc Hl; [simpl in Hl; lia|]. cbn [parse_loop]. rewrite Hpf, Hparse, <- app_assoc; [done|].
    simpl in Hl. rewrite length_app in Hl. lia.
Qed.

(** C40: The fields of [extra] survive.  Any fields within their size limits, with
    padding only at the end, are written, and parsing what was written returns
    exactly these fields. *)
Theorem transactionExtra_roundtrip fields : Forall wf_field fields -> padding_last fields ->
  exists bs, writeTransactionExtra [] fields = Some bs /\ parseTransactionExtra bs = (true, fields).
Proof.
  intros Hf Hp. destruct (write_parse_loop fields [] Hf Hp) as (bs & Hw & Hparse).
  exists bs. split; [done|]. by apply (Hparse (length bs) []).
Qed.

Lemma transactionExtra_roundtrip_witness :
  exists bs, writeTransactionExtra [] [TransactionExtraPublicKey (replicate 32 7); TransactionExtraNonce [1; 2; 3];
      TransactionExtraTTL 1700000000; TransactionExtraPadding 3] = Some bs
    /\ parseTransactionExtra bs = (true, [TransactionExtraPublicKey (replicate 32 7); TransactionExtraNonce [1; 2; 3];
      TransactionExtraTTL 1700000000; TransactionExtraPadding 3]).
Proof.
  apply transactionExtra_roundtrip.
  - repeat apply Forall_cons_2; [split; [done | bytes_compute] | split; [bytes_compute | by vm_compute] | cbn; word | by vm_compute | apply Forall_nil_2].
  - repeat split; done.
Defined.

(** ** Fields added to an extra *)

(** What the reader takes does not depend on the bytes behind it. *)
Definition extends {A} (r : reader A) : Prop := forall input a rest, r input = Some (a, rest) ->
  (length rest <= length input)%nat /\ forall more, r (input ++ more) = Some (a, rest ++ more).

Lemma extends_ret {A} (a : A) : extends (fun input => Some (a, input)).
Proof. intros input a' rest [= <- <-]. split; [lia|done]. Qed.

Lemma extends_bind {A B} (r : reader A) (k : A -> reader B) : extends r -> (forall a, extends (k a)) -> extends (fun input => '(a, rest) ← r input; k a rest).
Proof.
  intros Hr Hk input b rest E. destruct (r input) as [[a mid]|] eqn:Er; [|done]. cbn in E. apply Hr in Er as [Hl Hm]. apply Hk in E as [Hl' Hm'].
  split; [lia|]. intros more. rewrite Hm. cbn. apply Hm'.
Qed.

Lemma extends_read n : extends (read n).
Proof.
  intros input l rest [Hl ->]%read_inv. split; [rewrite length_app; lia|]. intros more. rewrite <- app_assoc. by apply read_app.
Qed.

Lemma extends_varint bits : extends (readVarint bits).
Proof.
  unfold readVarint. generalize 0 at 1 as shift. generalize 0 as temp. intros temp shift input. revert temp shift.
  induction input as [|piece input IH]; intros temp shift v rest; cbn [readVarint_loop app]; [done|].
  destruct (_ && _); [done|]. cbv zeta. destruct (_ =? 0).
  - destruct (_ && _); [done|]. intros [= <- <-]. split; [cbn; lia|done].
  - intros [Hl Hm]%IH. split; [cbn; lia|exact Hm].
Qed.

Lemma extends_read_u8 : extends read_u8.
Proof. apply (extends_bind (read 1) (fun b input => Some (le_value b, input))); [apply extends_read|intros b; apply extends_ret]. Qed.

Lemma extends_str : extends (get str).
Proof.
  apply (extends_bind (readVarint 64) (fun size => if max_size <? size then throw else if 0 <? size then read (Z.to_nat size) else mret [])); [apply extends_varint|].
  intros size. destruct (_ <? _); [done|]. destruct (_ <? _); [apply extends_read|apply extends_ret].
Qed.

Lemma extends_mergeMiningTag : extends (get serializeMergeMiningTag).
Proof.
  apply (extends_bind (get str) (fun field rest => '(t, _) ← get doSerialize field; Some (t, rest))); [apply extends_str|].
  intros field. destruct (get doSerialize field) as [[t rest]|]; [apply extends_ret|done].
Qed.

#[local] Hint Resolve extends_ret extends_bind extends_read extends_varint extends_read_u8 extends_str extends_mergeMiningTag : core.

(** Every field but padding, which runs to the end of the input. *)
Lemma extends_parse_field c : c <> TX_EXTRA_TAG_PADDING -> extends (parse_field c).
Proof.
  intros Hc. unfold parse_field. rewrite (proj2 (Z.eqb_neq _ _) Hc).
  destruct (c =? TX_EXTRA_TAG_PUBKEY); [apply (extends_bind (read 32) (fun k input => Some ([TransactionExtraPublicKey k], input))); auto|].
  destruct (c =? TX_EXTRA_NONCE).
  { apply (extends_bind read_u8 (fun size input => '(nonce, input) ← (if 0 <? size then read (Z.to_nat size) input else Some ([], input)); Some ([TransactionExtraNonce nonce], input))); [auto|].
    intros size. destruct (0 <? size); [|apply extends_ret]. apply (extends_bind (read _) (fun nonce input => Some ([TransactionExtraNonce nonce], input))); auto. }
  destruct (c =? TX_EXTRA_MERGE_MINING_TAG); [apply (extends_bind (get serializeMergeMiningTag) (fun t input => Some ([TransactionExtraMergeMiningTag t], input))); auto|].
  destruct (c =? TX_EXTRA_MESSAGE_TAG); [apply (extends_bind (get str) (fun data input => Some ([tx_extra_message data], input))); auto|].
  destruct (c =? TX_EXTRA_TTL); [|auto].
  apply (extends_bind (readVarint 8) (fun _ input => '(ttl, input) ← readVarint 64 input; Some ([TransactionExtraTTL ttl], input))); [auto|].
  intros _. apply (extends_bind (readVarint 64) (fun ttl input => Some ([TransactionExtraTTL ttl], input))); auto.
Qed.

Lemma parse_padding_inv input fs rest : parse_field TX_EXTRA_TAG_PADDING input = Some (fs, rest) -> exists size, fs = [TransactionExtraPadding size].
Proof.
  unfold parse_field. rewrite Z.eqb_refl. destruct (padding_loop input 1) as [[size ?]|]; [|done]. cbn. destruct (_ <? _); [done|]. intros [= <- _]. by exists size.
Qed.

Lemma parse_loop_fields fuel input acc : exists fs, (parse_loop fuel input acc).2 = acc ++ fs.
Proof.
  revert input acc. induction fuel as [|fuel IH]; intros input acc; [exists []; by rewrite app_nil_r|]. destruct input as [|c input]; cbn [parse_loop]; [exists []; by rewrite app_nil_r|].
  destruct (parse_field c input) as [[f rest]|]; [|exists []; by rewrite app_nil_r]. destruct (IH rest (acc ++ f)) as [fs ->]. exists (f ++ fs). by rewrite app_assoc.
Qed.

(** Behind an extra that parses, without padding, the parser goes on. *)
Lemma parse_loop_app more gs : (forall fuel acc, (length more <= fuel)%nat -> parse_loop fuel more acc = (true, acc ++ gs)) ->
  forall fuel input acc fs, (length input <= fuel)%nat -> parse_loop fuel input acc = (true, acc ++ fs) -> Forall (fun f => is_padding f = false) fs ->
  forall fuel', (length (input ++ more) <= fuel')%nat -> parse_loop fuel' (input ++ more) acc = (true, acc ++ fs ++ gs).
Proof.
  intros Hmore fuel. induction fuel as [|fuel IH]; intros input acc fs Hl E Hp fuel' Hf.
  { destruct input; [|cbn in Hl; lia]. cbn in E. injection E as E. rewrite <- (app_nil_r acc) in E at 1. apply (inj (app acc)) in E as <-. by apply Hmore. }
  destruct input as [|c input]; cbn [parse_loop app] in E.
  { injection E as E. rewrite <- (app_nil_r acc) in E at 1. apply (inj (app acc)) in E as <-. by apply Hmore. }
  destruct (parse_field c input) as [[f rest]|] eqn:Ef; [|done]. destruct (parse_loop_fields fuel rest (acc ++ f)) as [fs' Efs]. rewrite E in Efs. cbn [snd] in Efs.
  rewrite <- app_assoc in Efs. apply (inj (app acc)) in Efs as ->. apply Forall_app in Hp as [Hpf Hp].
  assert (c <> TX_EXTRA_TAG_PADDING) as Hc. { intros ->. apply parse_padding_inv in Ef as [size ->]. by inversion_clear Hpf. }
  destruct (extends_parse_field c Hc _ _ _ Ef) as [Hlen Happ]. destruct fuel' as [|fuel']; [cbn in Hf; lia|]. cbn [app parse_loop]. rewrite Happ.
  rewrite app_assoc in E. rewrite (IH rest (acc ++ f) fs'); [by rewrite <- !app_assoc|cbn in Hl; lia|done|done|]. cbn in Hf. rewrite length_app in Hf |- *. lia.
Qed.

(** Fields written behind an extra that parses, without padding, are read back behind its fields. *)
Lemma write_parse_behind extra fs gs ex : parseTransactionExtra extra = (true, fs) -> Forall (fun f => is_padding f = false) fs ->
  Forall wf_field gs -> padding_last gs -> writeTransactionExtra extra gs = Some ex -> parseTransactionExtra ex = (true, fs ++ gs).
Proof.
  intros Ep Hp Hg Hl Ew. destruct (write_parse_loop gs extra Hg Hl) as (bs & Ew' & Hbs). rewrite Ew in Ew'. injection Ew' as ->.
  unfold parseTransactionExtra in *. by rewrite (parse_loop_app bs gs Hbs (length extra) extra [] fs).
Qed.

(** The payment identifier put into [extra] is the one found there. *)
Lemma paymentId_roundtrip text id : is_bytes text -> parsePaymentId text = Some id ->
  exists extra, createTxExtraWithPaymentId text [] = Some extra /\ getPaymentIdFromTxExtra extra = Some id.
Proof.
  intros Ht Hp. pose proof Hp as Hid. apply podFromHex_spec in Hp as (Hl & Hb & _); [|done].
  destruct (write_parse_loop [TransactionExtraNonce (0 :: id)] []) as (bs & Hw & Hparse).
  { apply Forall_cons_2; [|apply Forall_nil_2]. split; [by apply Forall_cons_2|]. simpl length. rewrite Hl. by vm_compute. }
  { by split. }
  exists bs. unfold createTxExtraWithPaymentId.
  rewrite Hid.
  cbn [writeTransactionExtra write_field] in Hw. cbn [mbind option_bind].
  unfold setPaymentIdToTransactionExtraNonce, TX_EXTRA_NONCE_PAYMENT_ID.
  destruct (addExtraNonceToTransactionExtra [] (0 :: id)); [|done]. split; [done|].
  unfold getPaymentIdFromTxExtra, parseTransactionExtra. rewrite Hparse by lia. cbn [app find_map as_nonce].
  unfold getPaymentIdFromTransactionExtraNonce. simpl length. by rewrite Hl.
Qed.
End TransactionExtra.
