(* ===== verification/BlockchainIndices.v ===== *)
(** src/CryptoNoteCore/BlockchainIndices.cpp: the secondary indexes of the
    blockchain.  A multimap is the list of its pairs; the ordered one is kept
    sorted by key, equal keys in the order of insertion. *)

From S2P Require Import Prelude.
From S2P Require Import Varint.
From S2P Require Import Serialization.
From S2P Require Import CryptoNote.
From S2P Require Import CryptoNoteSerialization.
From S2P Require Import CryptoNoteFormatUtils.
From S2P Require Import TransactionExtra.
Import CryptoNoteSerialization FormatUtils TransactionExtra.

(** ** Multimaps *)

Section multimap.
Context {K V : Type} `{EqDecision K} `{EqDecision V}.

(** Erases the first pair of the equal range whose value is [v]. *)
Fixpoint erase_first (k : K) (v : V) (l : list (K * V)) : option (list (K * V)) :=
  match l with
  | [] => None
  | p :: l => if decide (p = (k, v)) then Some l else cons p <$> erase_first k v l
  end.

Definition equal_range (k : K) (l : list (K * V)) : list V :=
  (filter (fun p => p.1 = k) l).*2.

Lemma erase_first_app k v l r : (k, v) ∉ l -> erase_first k v (l ++ (k, v) :: r) = Some (l ++ r).
Proof.
  induction l as [|p l IH]; intros Hn; simpl; [by rewrite decide_True|].
  rewrite decide_False, IH by set_solver. done.
Qed.

Lemma erase_first_Permutation k v l l' : erase_first k v l = Some l' -> l ≡ₚ (k, v) :: l'.
Proof.
  revert l'. induction l as [|p l IH]; intros l' H; simpl in H; [done|].
  destruct (decide (p = (k, v))) as [->|]; simplify_eq; [done|].
  apply fmap_Some in H as (l0 & H & ->). rewrite (IH l0 H). constructor.
Qed.

Lemma erase_first_None k v l : erase_first k v l = None -> (k, v) ∉ l.
Proof.
  induction l as [|p l IH]; intros H; simpl in H; [set_solver|].
  destruct (decide (p = (k, v))); [done|]. apply fmap_None in H. set_solver.
Qed.
End multimap.

(** [std::multimap::emplace]: after the elements with a key not greater. *)
Definition ordered_insert {V} (k : Z) (v : V) (l : list (Z * V)) : list (Z * V) :=
  let n := partition_point (fun p => p.1 <=? k) l in
  take n l ++ (k, v) :: drop n l.

Lemma ordered_insert_Permutation {V} k (v : V) l : ordered_insert k v l ≡ₚ (k, v) :: l.
Proof.
  unfold ordered_insert. set (n := partition_point _ l).
  rewrite <- Permutation_middle, take_drop. done.
Qed.

Lemma filter_none {A} (P : A -> Prop) `{!forall x, Decision (P x)} l : Forall (fun x => ~ P x) l -> filter P l = [].
Proof. induction 1; [done|]. by rewrite filter_cons_False. Qed.

Definition key_sorted {V} (l : list (Z * V)) : Prop := StronglySorted (fun p q => p.1 <= q.1) l.

Lemma ordered_insert_sorted {V} k (v : V) l : key_sorted l -> key_sorted (ordered_insert k v l).
Proof.
  unfold key_sorted, ordered_insert. induction 1 as [|p l Hs IH Hp]; simpl; [repeat constructor|].
  destruct (Z.leb_spec p.1 k) as [Hle|Hlt]; simpl.
  - constructor; [exact IH|]. apply Forall_app. split; [by apply Forall_take|]. constructor; [done | by apply Forall_drop].
  - repeat constructor; [done | done | simpl; lia |]. eapply Forall_impl; [exact Hp|]. simpl. intros. lia.
Qed.

Lemma erase_first_sorted {V} `{EqDecision V} k (v : V) l l' : key_sorted l -> erase_first k v l = Some l' -> key_sorted l'.
Proof.
  unfold key_sorted. intros Hs. revert l'. induction Hs as [|p l Hs IH Hp]; intros l' E; simpl in E; [done|].
  destruct (decide (p = (k, v))); [by simplify_eq|]. apply fmap_Some in E as (r & E & ->). constructor; [by apply IH|].
  apply erase_first_Permutation in E. rewrite E in Hp. by apply Forall_cons in Hp as [_ Hp].
Qed.

Module PaymentIdIndex.
Abbreviation index := (list (Hash * Hash)).

Definition add (transaction : Transaction) (idx : index) : bool * index :=
  match getPaymentId transaction with
  | None => (false, idx)
  | Some paymentId => (true, idx ++ [(paymentId, (getObjectHash serializeTransaction transaction).2)])
  end.

Definition remove (transaction : Transaction) (idx : index) : bool * index :=
  match getPaymentId transaction with
  | None => (false, idx)
  | Some paymentId =>
      match erase_first paymentId (getObjectHash serializeTransaction transaction).2 idx with
      | Some idx => (true, idx)
      | None => (false, idx)
      end
  end.

Definition find (paymentId : Hash) (idx : index) : bool * list Hash :=
  let hashes := equal_range paymentId idx in (negb (bool_decide (hashes = [])), hashes).
End PaymentIdIndex.

Module TimestampBlocksIndex.
Abbreviation index := (list (Z * Hash)).

Definition add (timestamp : Z) (hash : Hash) (idx : index) : index := ordered_insert timestamp hash idx.

Definition remove (timestamp : Z) (hash : Hash) (idx : index) : bool * index :=
  match erase_first timestamp hash idx with
  | Some idx => (true, idx)
  | None => (false, idx)
  end.

(** The hashes and [hashesNumberWithinTimestamps]; [None] is [false] without results. *)
Definition find (timestampBegin timestampEnd hashesNumberLimit : Z) (idx : index) : option (bool * list Hash * Z) :=
  if timestampEnd <? timestampBegin then None
  else
    let b := partition_point (fun p => p.1 <? timestampBegin) idx in
    let e := partition_point (fun p => p.1 <=? timestampEnd) idx in
    let range := take (e - b) (drop b idx) in
    let hashes := (take (Z.to_nat hashesNumberLimit) range).*2 in
    Some (negb (bool_decide (hashes = [])), hashes, u32 (Z.of_nat (length range))).

Lemma remove_add t h idx : (t, h) ∉ idx -> remove t h (add t h idx) = (true, idx).
Proof.
  intros Hn. unfold remove, add, ordered_insert. set (n := partition_point _ idx).
  rewrite erase_first_app; [by rewrite take_drop|]. intros Hin. apply Hn. rewrite <- (take_drop n idx). set_solver.
Qed.

(** On a sorted index a query returns the hashes with a timestamp in the interval,
    in order of time, cut at the limit, and counts them all. *)
Lemma find_spec b e limit idx : key_sorted idx -> b <= e ->
  find b e limit idx =
  let within := filter (fun p => b <= p.1 <= e) idx in
  let hashes := (take (Z.to_nat limit) within).*2 in
  Some (negb (bool_decide (hashes = [])), hashes, u32 (Z.of_nat (length within))).
Proof.
  intros Hs Hbe. unfold find. rewrite (proj2 (Z.ltb_ge _ _)) by done. cbv zeta.
  assert (take (partition_point (fun p => p.1 <=? e) idx - partition_point (fun p => p.1 <? b) idx)
    (drop (partition_point (fun p => p.1 <? b) idx) idx) = filter (fun p => b <= p.1 <= e) idx) as ->; [|done].
  induction Hs as [|p l Hs IH Hp]; [done|]. simpl. rewrite filter_cons.
  destruct (Z.ltb_spec p.1 b) as [Hb|Hb].
  - rewrite (proj2 (Z.leb_le _ _)) by lia. rewrite decide_False by lia. done.
  - destruct (Z.leb_spec p.1 e) as [He|He].
    + rewrite decide_True by lia. simpl. f_equal. rewrite <- IH.
      assert (partition_point (fun q => q.1 <? b) l = 0%nat) as ->; [|by rewrite Nat.sub_0_r].
      destruct Hp as [|q l Hq]; [done|]. simpl. by rewrite (proj2 (Z.ltb_ge _ _)) by lia.
    + rewrite decide_False by lia. simpl. symmetry. apply filter_none. eapply Forall_impl; [exact Hp|]. simpl. lia.
Qed.
End TimestampBlocksIndex.

Module GeneratedTransactionsIndex.
Record index := MkIndex {
  counts : gmap Z Z;
  lastGeneratedTxNumber : Z
}.

Definition empty : index := MkIndex ∅ 0.

(** [boost::get<BaseInput>(inputs.front()).blockIndex]; [None] is undefined
    behaviour or an exception. *)
Definition coinbase_height (block : Block) : option Z :=
  match head (inputs (prefix (baseTransaction block))) with
  | Some (InBase i) => Some (blockIndex i)
  | _ => None
  end.

Definition add (block : Block) (idx : index) : option (bool * index) :=
  blockHeight ← coinbase_height block;
  if negb (Z.of_nat (size (counts idx)) =? blockHeight) then Some (false, idx)
  else
    let number := u64 (lastGeneratedTxNumber idx + Z.of_nat (length (transactionHashes block)) + 1) in
    match counts idx !! blockHeight with
    | Some _ => Some (false, idx)
    | None => Some (true, MkIndex (<[blockHeight := number]> (counts idx)) number)
    end.

Definition remove (block : Block) (idx : index) : option (bool * index) :=
  blockHeight ← coinbase_height block;
  if negb (blockHeight =? u64 (Z.of_nat (size (counts idx)) - 1)) then Some (false, idx)
  else
    _ ← counts idx !! blockHeight;
    let counts' := delete blockHeight (counts idx) in
    if blockHeight =? 0 then Some (true, MkIndex counts' 0)
    else
      previous ← counts' !! (blockHeight - 1);
      Some (true, MkIndex counts' previous).

Definition find (height : Z) (idx : index) : option Z := counts idx !! height.

(** [clear] empties the map only. *)
Definition clear (idx : index) : index := MkIndex ∅ (lastGeneratedTxNumber idx).

(** [clear] keeps the running number, so the counts after it are too large. *)
Theorem clear_keeps_number block idx : coinbase_height block = Some 0 ->
  exists idx', add block (clear idx) = Some (true, idx') /\
    find 0 idx' = Some (u64 (lastGeneratedTxNumber idx + Z.of_nat (length (transactionHashes block)) + 1)).
Proof. intros H. unfold add. rewrite H. eexists. split; [reflexivity|]. apply lookup_insert_eq. Qed.

(** ** The index against the history of the chain *)

(** The number of transactions of every block, its miner transaction included. *)
Definition represents (idx : index) (ns : list Z) : Prop :=
  size (counts idx) = length ns /\ lastGeneratedTxNumber idx = sumZ ns /\
  forall h, counts idx !! h =
    if decide (0 <= h < Z.of_nat (length ns)) then Some (sumZ (take (Z.to_nat h + 1) ns)) else None.

Lemma counts_empty : represents empty [].
Proof. split_and!; [done | done |]. intros h. unfold empty. cbn [counts]. rewrite lookup_empty, decide_False; [done | simpl; lia]. Qed.

Definition block_count (block : Block) : Z := Z.of_nat (length (transactionHashes block)) + 1.

Lemma represents_fun idx idx' ns : represents idx ns -> represents idx' ns -> idx = idx'.
Proof.
  destruct idx, idx'. intros (_ & H1 & H2) (_ & H1' & H2'). simpl in *. subst. f_equal. apply map_eq. intros h. by rewrite H2, H2'.
Qed.

Lemma add_represents block idx ns : represents idx ns ->
  coinbase_height block = Some (Z.of_nat (length ns)) -> 0 <= sumZ ns -> sumZ ns + block_count block < 2 ^ 64 ->
  exists idx', add block idx = Some (true, idx') /\ represents idx' (ns ++ [block_count block]).
Proof.
  intros (Hs & Hl & Hc) Hh H0 Hsum. unfold add. rewrite Hh. cbn [mbind option_bind].
  rewrite Hs, Z.eqb_refl. cbn [negb]. rewrite Hc, decide_False by lia. rewrite Hl.
  unfold block_count in *. rewrite <- Z.add_assoc, u64_id by word.
  eexists. split; [reflexivity|]. split_and!; cbn [counts lastGeneratedTxNumber].
  - rewrite map_size_insert_None, Hs, length_app by (rewrite Hc, decide_False; [done | lia]). simpl. lia.
  - rewrite sumZ_app. simpl. lia.
  - intros h. rewrite length_app. simpl length. destruct (decide (h = Z.of_nat (length ns))) as [->|Hne].
    + rewrite lookup_insert_eq, decide_True by lia. rewrite take_ge by (rewrite length_app; simpl; lia).
      rewrite sumZ_app. simpl. f_equal. lia.
    + rewrite lookup_insert_ne, Hc by done. destruct (decide (0 <= h < Z.of_nat (length ns))).
      * rewrite decide_True by lia. rewrite take_app_le by lia. done.
      * rewrite decide_False by lia. done.
Qed.

Lemma remove_represents block idx ns n : represents idx (ns ++ [n]) -> Z.of_nat (length ns) < 2 ^ 32 ->
  coinbase_height block = Some (Z.of_nat (length ns)) ->
  exists idx', remove block idx = Some (true, idx') /\ represents idx' ns.
Proof.
  intros (Hs & Hl & Hc) Hlen Hh. rewrite length_app in *. simpl in Hs, Hc. unfold remove. rewrite Hh. cbn [mbind option_bind].
  rewrite Hs, u64_id by word. replace (Z.of_nat (length ns + 1) - 1) with (Z.of_nat (length ns)) by lia.
  rewrite Z.eqb_refl. cbn [negb]. rewrite Hc, decide_True by lia. cbn [mbind option_bind].
  assert (forall last, last = sumZ ns -> represents (MkIndex (delete (Z.of_nat (length ns)) (counts idx)) last) ns) as Hr.
  { intros last ->. split_and!; cbn [counts lastGeneratedTxNumber].
    - erewrite map_size_delete_Some by (rewrite Hc, decide_True; [done | lia]). lia.
    - done.
    - intros h. destruct (decide (h = Z.of_nat (length ns))) as [->|Hne].
      + rewrite lookup_delete_eq, decide_False by lia. done.
      + rewrite lookup_delete_ne, Hc by done. destruct (decide (0 <= h < Z.of_nat (length ns))).
        * rewrite decide_True by lia. rewrite take_app_le by lia. done.
        * rewrite decide_False by lia. done. }
  destruct (Z.eqb_spec (Z.of_nat (length ns)) 0) as [E|E].
  - eexists. split; [reflexivity|]. apply Hr. by destruct ns.
  - rewrite lookup_delete_ne, Hc, decide_True by lia. cbn [mbind option_bind].
    eexists. split; [reflexivity|]. apply Hr. f_equal. rewrite take_app_le by lia. apply take_ge. lia.
Qed.
End GeneratedTransactionsIndex.

Module OrphanBlocksIndex.
Import GeneratedTransactionsIndex.
Abbreviation index := (list (Z * Hash)).

Definition add (block : Block) (idx : index) : option index :=
  blockHeight ← coinbase_height block;
  Some (idx ++ [(blockHeight, (get_block_hash block).2)]).

Definition remove (block : Block) (idx : index) : option (bool * index) :=
  blockHeight ← coinbase_height block;
  match erase_first blockHeight (get_block_hash block).2 idx with
  | Some idx => Some (true, idx)
  | None => Some (false, idx)
  end.

Definition find (height : Z) (idx : index) : bool * list Hash :=
  let hashes := equal_range height idx in (negb (bool_decide (hashes = [])), hashes).
End OrphanBlocksIndex.
