(* ===== verification/UpgradeDetector.v ===== *)
(** src/CryptoNoteCore/UpgradeDetector.h: [BasicUpgradeDetector], which decides
    the height after which blocks of the next major version are required, either
    from the currency's fixed height or from the votes in the minor versions of
    the last [upgradeVotingWindow] blocks.  The detector reads the blocks of the
    chain and is told of every push and pop.  The [assert]s are not modelled. *)

From S2P Require Import Prelude.
From S2P Require Import CryptoNote.
From S2P Require Import Currency.
From S2P Require Import CurrencyBuilder.
Import CurrencyImpl.

Module UpgradeDetector.

Definition UNDEF_HEIGHT : Z := u32 (-1).

Record UpgradeDetector := MkUpgradeDetector {
  m_targetVersion : Z;
  m_votingCompleteHeight : Z
}.

Definition create (targetVersion : Z) : UpgradeDetector := MkUpgradeDetector targetVersion UNDEF_HEIGHT.

Section detector.
Context (c : Currency).

Abbreviation blockchain := (list Block).

(** [(b.majorVersion == m_targetVersion - 1) && (b.minorVersion == BLOCK_MINOR_VERSION_1)] *)
Definition votes (target : Z) (b : Block) : bool :=
  (majorVersion (header b) =? target - 1) && (minorVersion (header b) =? BLOCK_MINOR_VERSION_1).

Definition getNumberOfVotes (target : Z) (blocks : blockchain) (height : Z) : Z :=
  let window := m_upgradeVotingWindow c in
  if height <? u32 (window - 1) then 0
  else
    let first := u32 (u32 (height + 1) - window) in
    sumZ ((fun b => if votes target b then 1 else 0) <$>
      take (Z.to_nat (height + 1 - first)) (drop (Z.to_nat first) blocks)).

Definition isVotingComplete (target : Z) (blocks : blockchain) (height : Z) : bool :=
  let voteCounter := getNumberOfVotes target blocks height in
  u64 (m_upgradeVotingThreshold c * m_upgradeVotingWindow c) <=? u64 (100 * voteCounter).

(** The loop [for (i = first; i <= last; ++i)] over [n] heights. *)
Fixpoint find_complete (target : Z) (blocks : blockchain) (n : nat) (i : Z) : Z :=
  match n with
  | O => UNDEF_HEIGHT
  | S n => if isVotingComplete target blocks (u32 i) then u32 i else find_complete target blocks n (i + 1)
  end.

Definition findVotingCompleteHeight (target : Z) (blocks : blockchain) (probableUpgradeHeight : Z) : Z :=
  let probableVotingCompleteHeight :=
    if maxUpgradeDistance c <? probableUpgradeHeight then probableUpgradeHeight - maxUpgradeDistance c else 0 in
  find_complete target blocks (Z.to_nat (probableUpgradeHeight + 1 - probableVotingCompleteHeight)) probableVotingCompleteHeight.

(** The detector after [init], and its result. *)
Definition init (blocks : blockchain) (d : UpgradeDetector) : bool * UpgradeDetector :=
  let target := m_targetVersion d in
  let set h := MkUpgradeDetector target h in
  let size := Z.of_nat (length blocks) in
  let upgradeHeight := u32 (upgradeHeight c target) in
  if upgradeHeight =? UNDEF_HEIGHT then
    match last blocks with
    | None => (true, set UNDEF_HEIGHT)
    | Some back =>
        if target - 1 =? majorVersion (header back) then (true, set (findVotingCompleteHeight target blocks (u32 (size - 1))))
        else if target <=? majorVersion (header back) then
          let it := partition_point (fun b => majorVersion (header b) <? target) blocks in
          match blocks !! it with
          | None => (false, d)
          | Some b =>
              if negb (majorVersion (header b) =? target) then (false, d)
              else
                let h := findVotingCompleteHeight target blocks (u32 (Z.of_nat it)) in
                (negb (h =? UNDEF_HEIGHT), set h)
          end
        else (true, set UNDEF_HEIGHT)
    end
  else
    match last blocks with
    | None => (true, d)
    | Some back =>
        if size <=? u32 (upgradeHeight + 1) then (negb (target <=? majorVersion (header back)), d)
        else
          match blocks !! Z.to_nat (u32 (upgradeHeight + 1)) with
          | None => (false, d)
          | Some b => (majorVersion (header b) =? target, d)
          end
    end.

Definition detectorUpgradeHeight (d : UpgradeDetector) : Z :=
  if upgradeHeight c (m_targetVersion d) =? UNDEF_HEIGHT then
    if m_votingCompleteHeight d =? UNDEF_HEIGHT then UNDEF_HEIGHT else calculateUpgradeHeight c (m_votingCompleteHeight d)
  else u32 (upgradeHeight c (m_targetVersion d)).

(** [blocks] is the chain with the block that was pushed. *)
Definition blockPushed (blocks : blockchain) (d : UpgradeDetector) : UpgradeDetector :=
  if negb (upgradeHeight c (m_targetVersion d) =? UNDEF_HEIGHT) then d
  else if negb (m_votingCompleteHeight d =? UNDEF_HEIGHT) then d
  else
    let lastBlockHeight := u32 (Z.of_nat (length blocks) - 1) in
    if isVotingComplete (m_targetVersion d) blocks lastBlockHeight
    then MkUpgradeDetector (m_targetVersion d) lastBlockHeight
    else d.

(** [blocks] is the chain without the block that was popped. *)
Definition blockPopped (blocks : blockchain) (d : UpgradeDetector) : UpgradeDetector :=
  if negb (m_votingCompleteHeight d =? UNDEF_HEIGHT) && (Z.of_nat (length blocks) =? m_votingCompleteHeight d)
  then MkUpgradeDetector (m_targetVersion d) UNDEF_HEIGHT
  else d.

(** ** The detector follows the chain *)

(** [v] is the first height of the chain at which voting was complete. *)
Definition first_complete (target : Z) (blocks : blockchain) (v : Z) : Prop :=
  (v = UNDEF_HEIGHT /\ forall i, 0 <= i < Z.of_nat (length blocks) -> isVotingComplete target blocks i = false) \/
  (0 <= v < Z.of_nat (length blocks) /\ isVotingComplete target blocks v = true /\
   forall i, 0 <= i < v -> isVotingComplete target blocks i = false).

(** Any sequence of notified pushes and pops of a chain that stays below [bound] blocks. *)
Inductive follows (target bound : Z) : blockchain -> UpgradeDetector -> Prop :=
  | follows_create : follows target bound [] (create target)
  | follows_push blocks b d : follows target bound blocks d -> Z.of_nat (length (blocks ++ [b])) <= bound ->
      follows target bound (blocks ++ [b]) (blockPushed (blocks ++ [b]) d)
  | follows_pop blocks b d : follows target bound (blocks ++ [b]) d ->
      follows target bound blocks (blockPopped blocks d).

(** The version [get_block_major_version_for_height] demands of a block, for the detector of
    the last upgrade: [target] above its upgrade height, else what the older upgrades demand. *)
Definition demanded (older : Z -> Z) (d : UpgradeDetector) (height : Z) : Z :=
  if detectorUpgradeHeight d <? height then m_targetVersion d else older height.

(** The same with blocks of the version that is demanded when they are pushed. *)
Inductive obeys (older : Z -> Z) (target bound : Z) : blockchain -> UpgradeDetector -> Prop :=
  | obeys_create : obeys older target bound [] (create target)
  | obeys_push blocks b d : obeys older target bound blocks d -> Z.of_nat (length (blocks ++ [b])) <= bound ->
      majorVersion (header b) = demanded older d (Z.of_nat (length blocks)) -> obeys older target bound (blocks ++ [b]) (blockPushed (blocks ++ [b]) d)
  | obeys_pop blocks b d : obeys older target bound (blocks ++ [b]) d -> obeys older target bound blocks (blockPopped blocks d).

(** The older upgrades are in order, and to versions below [target]. *)
Definition older_versions (target : Z) (older : Z -> Z) : Prop :=
  (forall h h', h <= h' -> older h <= older h') /\ forall h, older h < target.

Lemma obeys_follows older target bound blocks d : obeys older target bound blocks d -> follows target bound blocks d.
Proof. induction 1; [apply follows_create|by apply follows_push|by eapply follows_pop]. Qed.

(** What [CurrencyBuilder] checks, and heights that stay below [UNDEF_HEIGHT]. *)
Definition voting_parameters (target bound : Z) : Prop :=
  upgradeHeight c target = UNDEF_HEIGHT /\ 1 < m_upgradeVotingWindow c < 2 ^ 32 /\
  0 < m_upgradeVotingThreshold c <= 100 /\ 0 < m_upgradeWindow c /\ 0 <= bound /\ bound + 7 * m_upgradeWindow c < UNDEF_HEIGHT.

(** In either mode the recorded height is a height of the chain, so popping undoes pushing. *)
Lemma follows_below target bound blocks d : bound < 2 ^ 32 -> follows target bound blocks d ->
  m_votingCompleteHeight d = UNDEF_HEIGHT \/ m_votingCompleteHeight d < Z.of_nat (length blocks).
Proof.
  intros Hb. induction 1 as [|blocks b d H IH Hl|blocks b d H IH]; [by left| |]; rewrite length_app in *; cbn [length] in *.
  - unfold blockPushed. repeat case_match; try (destruct IH; [by left | right; lia]).
    right. cbn [m_votingCompleteHeight]. rewrite length_app. cbn [length]. rewrite u32_id by (unfold is_u32; lia). lia.
  - unfold blockPopped. destruct (_ && _) eqn:E; [by left|]. destruct IH as [IH|IH]; [by left|].
    destruct (Z.eqb_spec (m_votingCompleteHeight d) UNDEF_HEIGHT); [by left|]. right. cbn [negb andb] in E. bool_to_prop. lia.
Qed.

Lemma blockPopped_pushed target bound blocks b d : bound < 2 ^ 32 -> follows target bound blocks d ->
  Z.of_nat (length (blocks ++ [b])) <= bound -> blockPopped blocks (blockPushed (blocks ++ [b]) d) = d.
Proof.
  intros Hb H Hl. pose proof (follows_below _ _ _ _ Hb H) as Hv. rewrite length_app in Hl. cbn [length] in Hl.
  assert (blockPopped blocks d = d) as Hd.
  { unfold blockPopped. destruct (Z.eqb_spec (m_votingCompleteHeight d) UNDEF_HEIGHT); [done|]. cbn [negb andb].
    destruct Hv; [done|]. by rewrite (proj2 (Z.eqb_neq _ _)) by lia. }
  unfold blockPushed. destruct (negb (_ =? UNDEF_HEIGHT)); [exact Hd|].
  destruct (Z.eqb_spec (m_votingCompleteHeight d) UNDEF_HEIGHT) as [E|E]; cbn [negb]; [|exact Hd].
  destruct (isVotingComplete _ _ _); [|exact Hd]. rewrite length_app. cbn [length]. rewrite u32_id by (unfold is_u32; lia).
  unfold blockPopped. cbn [m_votingCompleteHeight m_targetVersion].
  replace (Z.of_nat (length blocks + 1) - 1) with (Z.of_nat (length blocks)) by lia. rewrite Z.eqb_refl, andb_true_r.
  rewrite (proj2 (Z.eqb_neq _ _)) by (change UNDEF_HEIGHT with (2 ^ 32 - 1); lia). cbn [negb]. destruct d as [t v]; simpl in *; by subst.
Qed.

Section voting.
Context (target bound : Z) (Hpar : voting_parameters target bound).

Lemma window_u32 : u32 (m_upgradeVotingWindow c - 1) = m_upgradeVotingWindow c - 1.
Proof. destruct Hpar as (_ & ? & _). apply Z.mod_small. lia. Qed.

Lemma bound_undef : UNDEF_HEIGHT = 2 ^ 32 - 1 /\ bound < UNDEF_HEIGHT.
Proof. split; [reflexivity|]. destruct Hpar as (_ & _ & _ & ? & ? & ?). lia. Qed.

Lemma getNumberOfVotes_eq blocks height : 0 <= height < bound -> getNumberOfVotes target blocks height =
  if height <? m_upgradeVotingWindow c - 1 then 0
  else sumZ ((fun b => if votes target b then 1 else 0) <$>
    take (Z.to_nat (m_upgradeVotingWindow c)) (drop (Z.to_nat (height + 1 - m_upgradeVotingWindow c)) blocks)).
Proof.
  intros Hh. unfold getNumberOfVotes. cbv zeta. rewrite window_u32. destruct bound_undef as [Hu Hb].
  destruct Hpar as (_ & Hw & _). destruct (Z.ltb_spec height (m_upgradeVotingWindow c - 1)); [done|].
  rewrite (u32_id (height + 1)), u32_id by (unfold is_u32; lia). do 3 f_equal. lia.
Qed.

Lemma isVotingComplete_app blocks more height : 0 <= height < Z.of_nat (length blocks) -> Z.of_nat (length blocks) <= bound ->
  isVotingComplete target (blocks ++ more) height = isVotingComplete target blocks height.
Proof.
  intros Hh Hl. unfold isVotingComplete. rewrite !getNumberOfVotes_eq by lia.
  destruct (Z.ltb_spec height (m_upgradeVotingWindow c - 1)); [done|].
  destruct Hpar as (_ & Hw & _).
  rewrite drop_app_le, take_app_le; [done | rewrite length_drop; lia | lia].
Qed.

Lemma first_complete_push blocks b v : Z.of_nat (length (blocks ++ [b])) <= bound -> first_complete target blocks v ->
  first_complete target (blocks ++ [b]) (m_votingCompleteHeight (blockPushed (blocks ++ [b]) (MkUpgradeDetector target v))).
Proof.
  intros Hl H. unfold blockPushed. cbn [m_targetVersion m_votingCompleteHeight].
  rewrite length_app in *. cbn [length] in *. destruct bound_undef as [Hu Hb].
  rewrite (proj1 Hpar), Z.eqb_refl. cbn [negb].
  assert (Happ : forall i, 0 <= i < Z.of_nat (length blocks) ->
    isVotingComplete target (blocks ++ [b]) i = isVotingComplete target blocks i) by (intros; apply isVotingComplete_app; lia).
  destruct H as [[-> H]|(Hv & Hc & H)].
  - rewrite Z.eqb_refl. cbn [negb]. cbv zeta. rewrite u32_id by (unfold is_u32; lia).
    replace (Z.of_nat (length blocks + 1) - 1) with (Z.of_nat (length blocks)) by lia.
    destruct (isVotingComplete target (blocks ++ [b]) (Z.of_nat (length blocks))) eqn:E; cbn [m_votingCompleteHeight].
    + right. rewrite length_app. cbn [length]. split; [lia|]. split; [done|]. intros i Hi. rewrite Happ by lia. apply H. lia.
    + left. split; [done|]. rewrite length_app. cbn [length]. intros i Hi.
      destruct (decide (i = Z.of_nat (length blocks))) as [->|]; [done|]. rewrite Happ by lia. apply H. lia.
  - rewrite (proj2 (Z.eqb_neq v UNDEF_HEIGHT)) by lia. cbn [negb m_votingCompleteHeight].
    right. rewrite length_app. cbn [length]. split; [lia|]. rewrite Happ by lia. split; [done|].
    intros i Hi. rewrite Happ by lia. by apply H.
Qed.

Lemma first_complete_pop blocks b v : Z.of_nat (length (blocks ++ [b])) <= bound -> first_complete target (blocks ++ [b]) v ->
  first_complete target blocks (m_votingCompleteHeight (blockPopped blocks (MkUpgradeDetector target v))).
Proof.
  intros Hl H. unfold blockPopped. cbn [m_targetVersion m_votingCompleteHeight]. unfold first_complete in H |- *.
  rewrite length_app in *. cbn [length] in *. destruct bound_undef as [Hu Hb].
  assert (Happ : forall i, 0 <= i < Z.of_nat (length blocks) ->
    isVotingComplete target (blocks ++ [b]) i = isVotingComplete target blocks i) by (intros; apply isVotingComplete_app; lia).
  destruct H as [[-> H]|(Hv & Hc & H)].
  - rewrite Z.eqb_refl. cbn [negb andb m_votingCompleteHeight]. left. split; [done|].
    intros i Hi. rewrite <- Happ by done. apply H. lia.
  - rewrite (proj2 (Z.eqb_neq v UNDEF_HEIGHT)) by lia. cbn [negb andb].
    destruct (Z.eqb_spec (Z.of_nat (length blocks)) v) as [<-|Hn]; cbn [m_votingCompleteHeight].
    + left. split; [done|]. intros i Hi. rewrite <- Happ by done. by apply H.
    + right. split; [lia|]. rewrite <- Happ by lia. split; [done|]. intros i Hi. rewrite <- Happ by lia. by apply H.
Qed.

Lemma follows_invariant blocks d : follows target bound blocks d ->
  m_targetVersion d = target /\ Z.of_nat (length blocks) <= bound /\ first_complete target blocks (m_votingCompleteHeight d).
Proof.
  induction 1 as [|blocks b [t v] _ (Ht & Hl & IH) Hb|blocks b [t v] _ (Ht & Hl & IH)]; cbn [m_targetVersion m_votingCompleteHeight] in *.
  - split; [done|]. split; [destruct Hpar; simpl; lia|]. left. split; [done|]. simpl. lia.
  - subst t. split; [|split; [done|by apply first_complete_push]].
    unfold blockPushed. by repeat case_match.
  - subst t. split; [|split; [rewrite length_app in Hl; simpl in Hl; lia|by eapply first_complete_pop]].
    unfold blockPopped. by repeat case_match.
Qed.

(** ** Restart *)

Lemma find_complete_none blocks n i : 0 <= i -> i + Z.of_nat n <= bound ->
  (forall j, i <= j < i + Z.of_nat n -> isVotingComplete target blocks j = false) ->
  find_complete target blocks n i = UNDEF_HEIGHT.
Proof.
  revert i. induction n as [|n IH]; intros i Hi Hb H; [done|]. simpl. destruct bound_undef as [Hu Hu'].
  rewrite u32_id by (unfold is_u32; lia). rewrite H by lia. apply IH; [lia | lia |]. intros j Hj. apply H. lia.
Qed.

Lemma find_complete_first blocks n i h : 0 <= i <= h -> h < i + Z.of_nat n -> i + Z.of_nat n <= bound ->
  isVotingComplete target blocks h = true -> (forall j, i <= j < h -> isVotingComplete target blocks j = false) ->
  find_complete target blocks n i = h.
Proof.
  revert i. induction n as [|n IH]; intros i Hi Hn Hb Hh H; [lia|]. simpl. destruct bound_undef as [Hu Hu'].
  rewrite u32_id by (unfold is_u32; lia). destruct (decide (i = h)) as [->|Hne]; [by rewrite Hh|].
  rewrite H by lia. apply IH; [lia | lia | lia | done |]. intros j Hj. apply H. lia.
Qed.

(** The search back from [p] finds the first complete height when it is recent enough. *)
Lemma findVotingCompleteHeight_spec blocks v p : first_complete target blocks v ->
  0 <= p < Z.of_nat (length blocks) -> Z.of_nat (length blocks) <= bound ->
  (v <> UNDEF_HEIGHT -> p - 7 * m_upgradeWindow c <= v <= p) -> findVotingCompleteHeight target blocks p = v.
Proof.
  intros Hv Hp Hl Hd. destruct bound_undef as [Hu Hu']. destruct Hpar as (_ & _ & _ & Hw & Hb & Hbw).
  unfold findVotingCompleteHeight, maxUpgradeDistance. rewrite u32_id by (unfold is_u32; lia).
  set (start := if 7 * m_upgradeWindow c <? p then p - 7 * m_upgradeWindow c else 0).
  assert (0 <= start <= p /\ start <= Z.max 0 (p - 7 * m_upgradeWindow c)) as [Hs Hs']
    by (subst start; destruct (Z.ltb_spec (7 * m_upgradeWindow c) p); lia).
  clearbody start. destruct Hv as [[-> H]|(Hr & Hc & H)].
  - apply find_complete_none; [lia | lia |]. intros j Hj. apply H. lia.
  - specialize (Hd ltac:(lia)). apply find_complete_first; [lia | lia | lia | done |]. intros j Hj. apply H. lia.
Qed.

(** The versions obey the upgrade: below [target] up to the upgrade height, at
    least [target] after it, never decreasing, and no version is skipped. *)
Definition versions_follow (blocks : blockchain) (d : UpgradeDetector) : Prop :=
  (forall i b, blocks !! i = Some b ->
     if Z.of_nat i <=? detectorUpgradeHeight d then majorVersion (header b) <= target - 1 else target <= majorVersion (header b)) /\
  (forall i j b b', (i <= j)%nat -> blocks !! i = Some b -> blocks !! j = Some b' -> majorVersion (header b) <= majorVersion (header b')) /\
  (forall b, blocks !! Z.to_nat (detectorUpgradeHeight d + 1) = Some b -> majorVersion (header b) = target).

Lemma partition_point_at {A} (p : A -> bool) l k y :
  (forall i x, (i < k)%nat -> l !! i = Some x -> p x = true) -> l !! k = Some y -> p y = false -> partition_point p l = k.
Proof.
  revert k. induction l as [|x l IH]; intros k H Hk Hy; [done|]. destruct k as [|k]; simpl in Hk |- *.
  - simplify_eq. by rewrite Hy.
  - rewrite (H 0%nat x) by (done || lia). f_equal. apply IH; [|done|done]. intros i z Hi Hz. apply (H (S i) z); [lia | done].
Qed.

Lemma complete_voter blocks h : 0 <= h < bound -> isVotingComplete target blocks h = true ->
  exists i b, blocks !! i = Some b /\ majorVersion (header b) = target - 1.
Proof.
  intros Hh. unfold isVotingComplete. rewrite getNumberOfVotes_eq by done. destruct Hpar as (_ & Hw & Ht & _).
  intros H%Z.leb_le. rewrite (u64_id (_ * _)) in H by (unfold is_u64; nia).
  destruct (h <? m_upgradeVotingWindow c - 1); [rewrite u64_id in H by (unfold is_u64; lia); nia|].
  set (l := take _ _) in H. assert (Hl : forall b, b ∈ l -> b ∈ blocks).
  { intros b Hb. subst l. apply list_elem_of_lookup in Hb as (i & Hi). apply lookup_take_Some in Hi as [Hi _].
    rewrite lookup_drop in Hi. by eapply list_elem_of_lookup_2. }
  clearbody l. induction l as [|b l IH]; [rewrite u64_id in H by (unfold is_u64; simpl; lia); simpl in H; nia|].
  destruct (votes target b) eqn:E.
  - unfold votes in E. bool_to_prop. assert (b ∈ blocks) as Hb by (apply Hl; by left).
    apply list_elem_of_lookup in Hb as (i & Hi). exists i, b. split; [done|]. lia.
  - apply IH; [|intros; apply Hl; by right]. simpl in H. rewrite E in H. exact H.
Qed.

Lemma detectorUpgradeHeight_eq t v : t = target -> 0 <= v < bound \/ v = UNDEF_HEIGHT ->
  detectorUpgradeHeight (MkUpgradeDetector t v) = if v =? UNDEF_HEIGHT then UNDEF_HEIGHT else v + m_upgradeWindow c.
Proof.
  intros -> Hv. destruct bound_undef as [Hu Hu']. destruct Hpar as (Hn & _ & _ & Hw & Hb & Hbw).
  unfold detectorUpgradeHeight. cbn [m_targetVersion m_votingCompleteHeight]. rewrite Hn, Z.eqb_refl.
  destruct (Z.eqb_spec v UNDEF_HEIGHT); [done|]. unfold calculateUpgradeHeight. apply u32_id. unfold is_u32. lia.
Qed.

Lemma init_restores blocks v : Z.of_nat (length blocks) <= bound -> first_complete target blocks v ->
  versions_follow blocks (MkUpgradeDetector target v) -> init blocks (create target) = (true, MkUpgradeDetector target v).
Proof.
  intros Hl Hv (Hver & Hsort & Hnext). destruct bound_undef as [Hu Hu']. pose proof Hpar as (Hn & _ & _ & Hw & Hb & Hbw).
  rewrite detectorUpgradeHeight_eq in Hver, Hnext by (first [done | destruct Hv as [[-> _]|[? _]]; [by right | left; lia]]).
  unfold init. cbn [m_targetVersion create]. rewrite Hn, Hu, u32_id by (unfold is_u32; lia). rewrite <- Hu, Z.eqb_refl.
  destruct (list_snoc_cases blocks) as [->|(bs & back & ->)].
  { destruct Hv as [[-> _]|(Hr & _)]; [done | simpl in Hr; lia]. }
  rewrite last_snoc. rewrite length_app in Hl |- *. cbn [length] in Hl |- *.
  rewrite (u32_id (_ - 1)) by (unfold is_u32; lia).
  assert (Hback : (bs ++ [back]) !! length bs = Some back) by by apply list_lookup_middle.
  pose proof (Hver _ _ Hback) as Hvb.
  assert (Hspec : forall p, 0 <= p <= Z.of_nat (length bs) -> (v <> UNDEF_HEIGHT -> p - 7 * m_upgradeWindow c <= v <= p) ->
    findVotingCompleteHeight target (bs ++ [back]) p = v).
  { intros p Hp Hd. apply findVotingCompleteHeight_spec; [done | | |done]; rewrite length_app; simpl; lia. }
  destruct (Z.eqb_spec (target - 1) (majorVersion (header back))) as [Ek|Hne].
  { rewrite Hspec; [done | lia |]. intros Hne. rewrite (proj2 (Z.eqb_neq _ _) Hne) in Hvb.
    destruct Hv as [[-> _]|(Hr & _)]; [done|]. rewrite length_app in Hr. simpl in Hr.
    destruct (Z.leb_spec (Z.of_nat (length bs)) (v + m_upgradeWindow c)); lia. }
  destruct (Z.leb_spec target (majorVersion (header back))) as [Hge|Hlt].
  - destruct (Z.eqb_spec v UNDEF_HEIGHT) as [Ev|Ev].
    { rewrite (proj2 (Z.leb_le _ _)) in Hvb by lia. lia. }
    destruct Hv as [[-> _]|(Hr & Hc & _)]; [done|].
    destruct (Z.leb_spec (Z.of_nat (length bs)) (v + m_upgradeWindow c)) as [|Hlast]; [lia|].
    set (k := Z.to_nat (v + m_upgradeWindow c + 1)) in *.
    destruct (lookup_lt_is_Some_2 (bs ++ [back]) k) as [b Eb]; [rewrite length_app; simpl; lia|].
    rewrite (partition_point_at _ _ k b); [| |done|rewrite (Hnext b Eb); apply Z.ltb_irrefl].
    2:{ intros i x Hi Hx. specialize (Hver i x Hx). apply Z.ltb_lt.
        rewrite (proj2 (Z.leb_le _ _)) in Hver by lia. lia. }
    rewrite Eb, (Hnext b Eb), Z.eqb_refl. cbn [negb]. rewrite u32_id by (unfold is_u32; lia).
    rewrite Hspec by lia. by rewrite (proj2 (Z.eqb_neq _ _) Ev).
  - destruct Hv as [[-> _]|(Hr & Hc & _)]; [done|]. exfalso.
    rewrite length_app in Hr. simpl in Hr. apply complete_voter in Hc as (i & b & Ei & Eb); [|lia].
    pose proof (lookup_lt_Some _ _ _ Ei) as Hi. rewrite length_app in Hi. simpl in Hi.
    pose proof (Hsort i (length bs) b back ltac:(lia) Ei Hback). lia.
Qed.

(** The demanded versions do not change under the blocks of the chain: voting completes, and
    is undone, above them. *)
Lemma obeys_demanded older blocks d : obeys older target bound blocks d ->
  forall i b, blocks !! i = Some b -> majorVersion (header b) = demanded older d (Z.of_nat i).
Proof.
  induction 1 as [|blocks b [t v] Ho IH Hl Hv|blocks b [t v] Ho IH]; [done| |].
  - pose proof Ho as (Ht & Hl' & Hf)%obeys_follows%follows_invariant. cbn in Ht, Hf. subst t.
    assert (forall i b', (blocks ++ [b]) !! i = Some b' -> majorVersion (header b') = demanded older (MkUpgradeDetector target v) (Z.of_nat i)) as IH'
      by (intros i b' [[_ Hi]|[-> <-]]%lookup_snoc_Some; [by apply IH|exact Hv]).
    intros i b' Hi. rewrite (IH' i b' Hi). apply lookup_lt_Some in Hi. unfold blockPushed. cbn [m_targetVersion m_votingCompleteHeight]. destruct (negb _); [done|].
    destruct (Z.eqb_spec v UNDEF_HEIGHT) as [->|]; [|done]. cbn [negb]. destruct (isVotingComplete _ _ _); [|done].
    rewrite length_app in *. cbn [length] in *. destruct bound_undef as [Hu Hu']. pose proof Hpar as (_ & _ & _ & Hw & Hb & Hbw).
    rewrite u32_id by (unfold is_u32; lia). unfold demanded. rewrite !detectorUpgradeHeight_eq by first [done|by right|left; lia]. rewrite Z.eqb_refl.
    destruct (Z.eqb_spec (Z.of_nat (length blocks + 1) - 1) UNDEF_HEIGHT); [lia|]. by rewrite !(proj2 (Z.ltb_ge _ _)) by lia.
  - pose proof Ho as (Ht & Hl' & Hf)%obeys_follows%follows_invariant. cbn in Ht, Hf. subst t. intros i b' Hi. pose proof (lookup_lt_Some _ _ _ Hi) as Hlt.
    rewrite (IH i b' (lookup_app_l_Some _ _ _ _ Hi)). unfold blockPopped. cbn [m_targetVersion m_votingCompleteHeight].
    destruct (Z.eqb_spec v UNDEF_HEIGHT) as [->|Hv]; [done|]. cbn [negb andb]. destruct (Z.eqb_spec (Z.of_nat (length blocks)) v) as [<-|]; [|done].
    rewrite length_app in *. cbn [length] in *. destruct bound_undef as [Hu Hu']. pose proof Hpar as (_ & _ & _ & Hw & Hb & Hbw).
    unfold demanded. rewrite !detectorUpgradeHeight_eq by first [done|by right|left; lia]. rewrite Z.eqb_refl, (proj2 (Z.eqb_neq _ _) Hv). by rewrite !(proj2 (Z.ltb_ge _ _)) by lia.
Qed.

Lemma obeys_versions older blocks d : older_versions target older -> obeys older target bound blocks d -> versions_follow blocks d.
Proof.
  intros [Hmono Hbelow] Ho. pose proof (obeys_demanded older blocks d Ho) as Hd. apply obeys_follows, follows_invariant in Ho as (Ht & _ & _). unfold demanded in Hd. rewrite Ht in Hd.
  split; [|split].
  - intros i b Hi. rewrite (Hd i b Hi). specialize (Hbelow (Z.of_nat i)). destruct (Z.leb_spec (Z.of_nat i) (detectorUpgradeHeight d)), (Z.ltb_spec (detectorUpgradeHeight d) (Z.of_nat i)); lia.
  - intros i j b b' Hij Hi Hj. rewrite (Hd i b Hi), (Hd j b' Hj). pose proof (Hmono (Z.of_nat i) (Z.of_nat j) ltac:(lia)). specialize (Hbelow (Z.of_nat i)).
    destruct (Z.ltb_spec (detectorUpgradeHeight d) (Z.of_nat i)), (Z.ltb_spec (detectorUpgradeHeight d) (Z.of_nat j)); lia.
  - intros b Hb. rewrite (Hd _ b Hb), (proj2 (Z.ltb_lt _ _)) by lia. done.
Qed.

End voting.

(** C35: in voting mode the recorded height is always the first height of the
    current chain at which voting was complete, whatever was pushed and popped.  And
    a detector that starts on that chain finds the same height, when every block was
    pushed with the version that was demanded then, by this detector above its upgrade
    height and by the older upgrades up to it. *)
Theorem upgradeDetector_follows target bound blocks d : voting_parameters target bound ->
  (follows target bound blocks d -> first_complete target blocks (m_votingCompleteHeight d)) /\
  (forall older, older_versions target older -> obeys older target bound blocks d -> init blocks (create target) = (true, d)).
Proof.
  intros Hpar. split; [by intros (_ & _ & Hf)%(follows_invariant target bound Hpar)|]. intros older Holder Ho.
  pose proof (obeys_versions target bound Hpar older blocks d Holder Ho) as Hv. apply obeys_follows, (follows_invariant target bound Hpar) in Ho as (Ht & Hl & Hf).
  destruct d as [t v]. cbn in Ht, Hf. subst t. exact (init_restores target bound Hpar blocks v Hl Hf Hv).
Qed.

End detector.

(** A currency that votes over two blocks and upgrades one block later. *)
Module VotingExample.
Definition c : Currency := Builder.assign Builder.F_upgradeVotingWindow 2 (Builder.assign Builder.F_upgradeWindow 1 (CurrencyBuilder false)).
Definition block (major : Z) : Block :=
  MkBlock (MkBlockHeader major 1 0 0 []) (MkTransaction (MkTransactionPrefix 1 0 [] [] []) []) [].
Definition blocks : list Block := [block 8; block 8; block 8; block 9].
Definition d : UpgradeDetector := MkUpgradeDetector 9 1.

Definition older (height : Z) : Z := 8.

Lemma blocks_obey : obeys c older 9 100 blocks d.
Proof.
  pose proof (obeys_create c older 9 100) as H.
  apply (obeys_push c older 9 100 _ (block 8)) in H; [|by vm_compute|by vm_compute].
  apply (obeys_push c older 9 100 _ (block 8)) in H; [|by vm_compute|by vm_compute].
  apply (obeys_push c older 9 100 _ (block 8)) in H; [|by vm_compute|by vm_compute].
  apply (obeys_push c older 9 100 _ (block 9)) in H; [|by vm_compute|by vm_compute]. exact H.
Qed.
End VotingExample.

Lemma upgradeDetector_follows_witness :
  let '(c, blocks, d) := (VotingExample.c, VotingExample.blocks, VotingExample.d) in
  first_complete c 9 blocks (m_votingCompleteHeight d) /\ init c blocks (create 9) = (true, d).
Proof.
  assert (voting_parameters VotingExample.c 9 100) as Hpar by (repeat split; vm_compute; congruence).
  destruct (upgradeDetector_follows VotingExample.c 9 100 VotingExample.blocks VotingExample.d Hpar) as [H1 H2]. split.
  - apply H1, (obeys_follows _ VotingExample.older), VotingExample.blocks_obey.
  - apply (H2 VotingExample.older); [|exact VotingExample.blocks_obey]. split; unfold VotingExample.older; lia.
Defined.

End UpgradeDetector.
