(* ===== verification/BlockchainState.v ===== *)
(** src/CryptoNoteCore/Blockchain.cpp, the part of the chain state a transaction
    changes: the transaction map, the spent key images, the outputs by amount and
    the payment id index, with [pushTransaction] and [popTransaction].  Popping
    undoes pushing, and the state reached by any interleaving of the two is a
    function of the transactions that are left on the chain. *)

From S2P Require Import Prelude.
From S2P Require Import Varint.
From S2P Require Import Serialization.
From S2P Require Import CryptoNote.
From S2P Require Import CryptoNoteSerialization.
From S2P Require Import CryptoNoteFormatUtils.
From S2P Require Import TransactionExtra.
From S2P Require Import BlockchainIndices.
Import CryptoNoteSerialization FormatUtils TransactionExtra.

Module BlockchainState.

(** ** Data: Blockchain.h *)

Record TransactionIndex := MkTransactionIndex {
  ti_block : Z;
  ti_transaction : Z
}.

#[export] Instance TransactionIndex_eq : EqDecision TransactionIndex.
Proof. solve_decision. Defined.

Record MultisignatureOutputUsage := MkUsage {
  transactionIndex : TransactionIndex;
  mou_outputIndex : Z;
  isUsed : bool
}.

Record ChainState := MkChainState {
  m_transactionMap : gmap Hash TransactionIndex;
  m_spent_keys : gmap KeyImage Z;
  m_outputs : gmap Z (list (TransactionIndex * Z));
  m_multisignatureOutputs : gmap Z (list MultisignatureOutputUsage);
  m_paymentIdIndex : PaymentIdIndex.index
}.

Definition empty_state : ChainState := MkChainState ∅ ∅ ∅ ∅ [].

Definition set_transactionMap m (s : ChainState) : ChainState :=
  MkChainState m (m_spent_keys s) (m_outputs s) (m_multisignatureOutputs s) (m_paymentIdIndex s).
Definition set_spent_keys k (s : ChainState) : ChainState :=
  MkChainState (m_transactionMap s) k (m_outputs s) (m_multisignatureOutputs s) (m_paymentIdIndex s).
Definition set_outputs o (s : ChainState) : ChainState :=
  MkChainState (m_transactionMap s) (m_spent_keys s) o (m_multisignatureOutputs s) (m_paymentIdIndex s).
Definition set_multisignatureOutputs o (s : ChainState) : ChainState :=
  MkChainState (m_transactionMap s) (m_spent_keys s) (m_outputs s) o (m_paymentIdIndex s).
Definition set_paymentIdIndex p (s : ChainState) : ChainState :=
  MkChainState (m_transactionMap s) (m_spent_keys s) (m_outputs s) (m_multisignatureOutputs s) p.

(** ** Vectors by amount *)

(** [operator[]] of the container: an absent amount is an empty vector. *)
Definition amount_outputs {A} (m : gmap Z (list A)) (amount : Z) : list A := default [] (m !! amount).

Definition push_output {A} (m : gmap Z (list A)) (amount : Z) (x : A) : gmap Z (list A) :=
  <[amount := amount_outputs m amount ++ [x]]> m.

(** [pop_back] on the vector [l] of [amount], which is erased when that empties it. *)
Definition pop_output {A} (m : gmap Z (list A)) (amount : Z) (l : list A) : gmap Z (list A) :=
  match take (length l - 1) l with
  | [] => delete amount m
  | l => <[amount := l]> m
  end.

(** ** [pushTransaction] *)

Inductive spend_result :=
  | Spent (keys : gmap KeyImage Z)
  | DoubleSpend (keys : gmap KeyImage Z)
  | BadGet (keys : gmap KeyImage Z).

(** The rollback of a double spend walks the earlier inputs backwards; its
    [boost::get<KeyInput>] throws on an input of another type. *)
Fixpoint unspend_keys (before : list TransactionInput) (keys : gmap KeyImage Z) : spend_result :=
  match before with
  | [] => DoubleSpend keys
  | InKey i :: before => unspend_keys before (delete (keyImage i) keys)
  | _ :: _ => BadGet keys
  end.

Fixpoint spend_keys (height : Z) (before ins : list TransactionInput) (keys : gmap KeyImage Z) : spend_result :=
  match ins with
  | [] => Spent keys
  | InKey i :: ins =>
      match keys !! keyImage i with
      | None => spend_keys height (InKey i :: before) ins (<[keyImage i := height]> keys)
      | Some _ => unspend_keys before keys
      end
  | i :: ins => spend_keys height (i :: before) ins keys
  end.

Definition erase_spent_key (keys : gmap KeyImage Z) (i : TransactionInput) : gmap KeyImage Z :=
  match i with
  | InKey i => delete (keyImage i) keys
  | _ => keys
  end.

Definition erase_spent_keys (ins : list TransactionInput) (keys : gmap KeyImage Z) : gmap KeyImage Z :=
  foldl erase_spent_key keys ins.

Definition multisignature_in_range (m : gmap Z (list MultisignatureOutputUsage)) (i : TransactionInput) : bool :=
  match i with
  | InMultisignature i =>
      match m !! mi_amount i with
      | None => false
      | Some l => negb (Z.of_nat (length l) <=? outputIndex i)
      end
  | _ => true
  end.

Definition set_used (used : bool) (u : MultisignatureOutputUsage) : MultisignatureOutputUsage :=
  MkUsage (transactionIndex u) (mou_outputIndex u) used.

(** [m_multisignatureOutputs[amount][outputIndex].isUsed = used], in range. *)
Definition mark_used (used : bool) (m : gmap Z (list MultisignatureOutputUsage)) (i : TransactionInput) :
    gmap Z (list MultisignatureOutputUsage) :=
  match i with
  | InMultisignature i => alter (alter (set_used used) (Z.to_nat (outputIndex i))) (mi_amount i) m
  | _ => m
  end.

Definition pushOutput (ti : TransactionIndex) (output : Z) (o : TransactionOutput) (s : ChainState) : Z * ChainState :=
  match target o with
  | OutKey _ =>
      (u32 (Z.of_nat (length (amount_outputs (m_outputs s) (out_amount o)))),
       set_outputs (push_output (m_outputs s) (out_amount o) (ti, u16 output)) s)
  | OutMultisignature _ =>
      (u32 (Z.of_nat (length (amount_outputs (m_multisignatureOutputs s) (out_amount o)))),
       set_multisignatureOutputs
         (push_output (m_multisignatureOutputs s) (out_amount o) (MkUsage ti (u16 output) false)) s)
  end.

Fixpoint pushOutputs (ti : TransactionIndex) (output : Z) (outs : list TransactionOutput) (s : ChainState) :
    list Z * ChainState :=
  match outs with
  | [] => ([], s)
  | o :: outs =>
      let '(index, s) := pushOutput ti output o s in
      let '(indexes, s) := pushOutputs ti (output + 1) outs s in
      (index :: indexes, s)
  end.

(** Whether the transaction was pushed, with its global output indexes; [None] is
    an exception, which leaves the state as it was when it was thrown. *)
Definition pushTransaction (height : Z) (tx : Transaction) (transactionHash : Hash) (ti : TransactionIndex)
    (s : ChainState) : option (bool * list Z) * ChainState :=
  match m_transactionMap s !! transactionHash with
  | Some _ => (Some (false, []), s)
  | None =>
      let s := set_transactionMap (<[transactionHash := ti]> (m_transactionMap s)) s in
      let erase_tx s := set_transactionMap (delete transactionHash (m_transactionMap s)) s in
      if negb (checkMultisignatureInputsDiff (prefix tx)) then (Some (false, []), erase_tx s)
      else
        match spend_keys height [] (inputs (prefix tx)) (m_spent_keys s) with
        | DoubleSpend keys => (Some (false, []), erase_tx (set_spent_keys keys s))
        | BadGet keys => (None, set_spent_keys keys s)
        | Spent keys =>
            let s := set_spent_keys keys s in
            if negb (forallb (multisignature_in_range (m_multisignatureOutputs s)) (inputs (prefix tx)))
            then (Some (false, []), erase_tx (set_spent_keys (erase_spent_keys (inputs (prefix tx)) (m_spent_keys s)) s))
            else
              let s := set_multisignatureOutputs (foldl (mark_used true) (m_multisignatureOutputs s) (inputs (prefix tx))) s in
              let '(indexes, s) := pushOutputs ti 0 (outputs (prefix tx)) s in
              let s := set_paymentIdIndex (PaymentIdIndex.add tx (m_paymentIdIndex s)).2 s in
              (Some (true, indexes), s)
        end
  end.

(** ** [popTransaction] *)

(** An inconsistent container is logged and left alone. *)
Definition popOutput (ti : TransactionIndex) (output : Z) (o : TransactionOutput) (s : ChainState) : ChainState :=
  match target o with
  | OutKey _ =>
      match m_outputs s !! out_amount o with
      | None => s
      | Some l =>
          match last l with
          | None => s
          | Some (ti', k) =>
              if bool_decide (ti' <> ti) then s
              else if negb (k =? output) then s
              else set_outputs (pop_output (m_outputs s) (out_amount o) l) s
          end
      end
  | OutMultisignature _ =>
      match m_multisignatureOutputs s !! out_amount o with
      | None => s
      | Some l =>
          match last l with
          | None => s
          | Some u =>
              if isUsed u then s
              else if bool_decide (transactionIndex u <> ti) then s
              else if negb (mou_outputIndex u =? output) then s
              else set_multisignatureOutputs (pop_output (m_multisignatureOutputs s) (out_amount o) l) s
          end
      end
  end.

(** The loop runs from the last output to the first. *)
Fixpoint popOutputs (ti : TransactionIndex) (output : Z) (outs : list TransactionOutput) (s : ChainState) : ChainState :=
  match outs with
  | [] => s
  | o :: outs => popOutput ti output o (popOutputs ti (output + 1) outs s)
  end.

Definition popInput (s : ChainState) (i : TransactionInput) : ChainState :=
  match i with
  | InKey _ => set_spent_keys (erase_spent_key (m_spent_keys s) i) s
  | InMultisignature _ =>
      if multisignature_in_range (m_multisignatureOutputs s) i
      then set_multisignatureOutputs (mark_used false (m_multisignatureOutputs s) i) s
      else s
  | InBase _ => s
  end.

(** [m_transactionMap.at] throws on an absent hash. *)
Definition popTransaction (transaction : Transaction) (transactionHash : Hash) (s : ChainState) : option unit * ChainState :=
  match m_transactionMap s !! transactionHash with
  | None => (None, s)
  | Some ti =>
      let s := popOutputs ti 0 (outputs (prefix transaction)) s in
      let s := foldl popInput s (inputs (prefix transaction)) in
      let s := set_paymentIdIndex (PaymentIdIndex.remove transaction (m_paymentIdIndex s)).2 s in
      (Some tt, set_transactionMap (delete transactionHash (m_transactionMap s)) s)
  end.

(** ** Equivalent states

    The payment id index is an unordered multimap: states that differ in the
    order of its pairs are the same state. *)

#[export] Instance ChainState_equiv : Equiv ChainState := fun s t =>
  m_transactionMap s = m_transactionMap t /\ m_spent_keys s = m_spent_keys t /\ m_outputs s = m_outputs t /\
  m_multisignatureOutputs s = m_multisignatureOutputs t /\ m_paymentIdIndex s ≡ₚ m_paymentIdIndex t.

#[export] Instance ChainState_equivalence : Equivalence (≡@{ChainState}).
Proof.
  split.
  - intros s. repeat split; reflexivity.
  - intros s t (? & ? & ? & ? & ?). repeat split; by symmetry.
  - intros s t u (? & ? & ? & ? & ?) (? & ? & ? & ? & ?). repeat split; by etrans.
Qed.

(** The fields of equivalent states but for the payment id index are equal. *)
Lemma equiv_inv (s t : ChainState) : s ≡ t -> exists p, t = set_paymentIdIndex p s /\ m_paymentIdIndex s ≡ₚ p.
Proof. destruct s, t. intros (? & ? & ? & ? & ?); simpl in *; simplify_eq. by eexists. Qed.

Lemma set_paymentIdIndex_equiv p q s : p ≡ₚ q -> set_paymentIdIndex p s ≡ set_paymentIdIndex q s.
Proof. intros H. by repeat split. Qed.

Lemma pushOutputs_paymentIdIndex ti k outs s p :
  pushOutputs ti k outs (set_paymentIdIndex p s) =
  ((pushOutputs ti k outs s).1, set_paymentIdIndex p (pushOutputs ti k outs s).2).
Proof.
  revert k s. induction outs as [|o outs IH]; intros k s; [done|].
  simpl. unfold pushOutput. destruct (target o); simpl.
  - change (set_outputs ?a (set_paymentIdIndex p s)) with (set_paymentIdIndex p (set_outputs a s)).
    rewrite IH. by destruct (pushOutputs _ _ _ _).
  - change (set_multisignatureOutputs ?a (set_paymentIdIndex p s)) with (set_paymentIdIndex p (set_multisignatureOutputs a s)).
    rewrite IH. by destruct (pushOutputs _ _ _ _).
Qed.

Lemma popOutputs_paymentIdIndex ti k outs s p :
  popOutputs ti k outs (set_paymentIdIndex p s) = set_paymentIdIndex p (popOutputs ti k outs s).
Proof.
  revert k. induction outs as [|o outs IH]; intros k; [done|].
  simpl. rewrite IH. generalize (popOutputs ti (k + 1) outs s). intros t.
  unfold popOutput. destruct (target o); simpl; repeat case_match; reflexivity.
Qed.

Lemma popInputs_paymentIdIndex ins s p :
  foldl popInput (set_paymentIdIndex p s) ins = set_paymentIdIndex p (foldl popInput s ins).
Proof.
  revert s. induction ins as [|i ins IH]; intros s; [done|]. simpl. rewrite <- IH. f_equal.
  unfold popInput. destruct i; simpl; repeat case_match; reflexivity.
Qed.

Lemma erase_first_proper {K V} `{EqDecision K} `{EqDecision V} (k : K) (v : V) l l' : l ≡ₚ l' ->
  default l (erase_first k v l) ≡ₚ default l' (erase_first k v l').
Proof.
  intros H. destruct (erase_first k v l) as [r|] eqn:E, (erase_first k v l') as [r'|] eqn:E'; simpl; [| | |done].
  - apply erase_first_Permutation in E, E'. apply (Permutation_cons_inv (a := (k, v))). by rewrite <- E, <- E'.
  - apply erase_first_Permutation in E. exfalso. apply (erase_first_None k v l' E'). rewrite <- H, E. set_solver.
  - apply erase_first_Permutation in E'. exfalso. apply (erase_first_None k v l E). rewrite H, E'. set_solver.
Qed.

Lemma paymentIdIndex_add_proper tx p q : p ≡ₚ q -> (PaymentIdIndex.add tx p).2 ≡ₚ (PaymentIdIndex.add tx q).2.
Proof. intros H. unfold PaymentIdIndex.add. destruct (getPaymentId tx); simpl; by rewrite ?H. Qed.

Lemma paymentIdIndex_remove_default tx p : (PaymentIdIndex.remove tx p).2 =
  match getPaymentId tx with
  | None => p
  | Some id => default p (erase_first id (getObjectHash serializeTransaction tx).2 p)
  end.
Proof. unfold PaymentIdIndex.remove. destruct (getPaymentId tx); [|done]. by destruct (erase_first _ _ p). Qed.

Lemma paymentIdIndex_remove_proper tx p q : p ≡ₚ q -> (PaymentIdIndex.remove tx p).2 ≡ₚ (PaymentIdIndex.remove tx q).2.
Proof.
  intros H. rewrite !paymentIdIndex_remove_default. destruct (getPaymentId tx); [|done]. by apply erase_first_proper.
Qed.

Lemma paymentIdIndex_remove_add tx p : (PaymentIdIndex.remove tx (PaymentIdIndex.add tx p).2).2 ≡ₚ p.
Proof.
  rewrite paymentIdIndex_remove_default. unfold PaymentIdIndex.add. destruct (getPaymentId tx) as [id|]; [|done].
  cbn [snd]. set (h := (getObjectHash serializeTransaction tx).2). clearbody h.
  destruct (erase_first id h (p ++ [(id, h)])) as [r|] eqn:E; simpl.
  - apply erase_first_Permutation in E. apply (Permutation_cons_inv (a := (id, h))). rewrite <- E.
    by rewrite <- Permutation_cons_append.
  - exfalso. apply (erase_first_None _ _ _ E). set_solver.
Qed.

(** ** Undoing the outputs *)

Definition no_empty {A} (m : gmap Z (list A)) : Prop := map_Forall (fun _ l => l <> []) m.

(** No vector by amount is empty: [popTransaction] erases the ones it empties. *)
Definition compact (s : ChainState) : Prop := no_empty (m_outputs s) /\ no_empty (m_multisignatureOutputs s).

Lemma no_empty_push {A} (m : gmap Z (list A)) a x : no_empty m -> no_empty (push_output m a x).
Proof. intros H. apply map_Forall_insert_2; [|done]. by destruct (amount_outputs m a). Qed.

Lemma lookup_push_output {A} (m : gmap Z (list A)) a x : push_output m a x !! a = Some (amount_outputs m a ++ [x]).
Proof. apply lookup_insert_eq. Qed.

Lemma pop_push_output {A} (m : gmap Z (list A)) a x : no_empty m ->
  pop_output (push_output m a x) a (amount_outputs m a ++ [x]) = m.
Proof.
  intros H. unfold pop_output, push_output, amount_outputs. rewrite length_app, Nat.add_sub, take_app_length.
  destruct (m !! a) as [l|] eqn:E; simpl.
  - destruct l as [|y l]; [by apply H in E|]. rewrite insert_insert_eq. by apply insert_id.
  - rewrite delete_insert_eq. by apply delete_id.
Qed.

Lemma pushOutput_compact ti k o s : compact s -> compact (pushOutput ti k o s).2.
Proof. intros [H1 H2]. unfold pushOutput. destruct (target o); split; simpl; auto using no_empty_push. Qed.

Lemma pushOutputs_compact ti k outs s : compact s -> compact (pushOutputs ti k outs s).2.
Proof.
  revert k s. induction outs as [|o outs IH]; intros k s H; [done|]. simpl.
  pose proof (pushOutput_compact ti k o s H) as H'. destruct (pushOutput ti k o s) as [i t].
  specialize (IH (k + 1) t H'). by destruct (pushOutputs ti (k + 1) outs t).
Qed.

Lemma popOutput_pushOutput ti k o s : compact s -> 0 <= k < 2 ^ 16 -> popOutput ti k o (pushOutput ti k o s).2 = s.
Proof.
  intros [H1 H2] Hk. unfold popOutput, pushOutput. destruct (target o); cbn [snd].
  - cbn [m_outputs set_outputs]. rewrite lookup_push_output, last_snoc. unfold u16. rewrite Z.mod_small by done.
    rewrite bool_decide_eq_false_2 by congruence. rewrite Z.eqb_refl. cbn [negb].
    rewrite pop_push_output by done. by destruct s.
  - cbn [m_multisignatureOutputs set_multisignatureOutputs]. rewrite lookup_push_output, last_snoc.
    unfold u16. rewrite Z.mod_small by done. cbn [isUsed transactionIndex mou_outputIndex].
    rewrite bool_decide_eq_false_2 by congruence. rewrite Z.eqb_refl. cbn [negb].
    rewrite pop_push_output by done. by destruct s.
Qed.

Lemma popOutputs_pushOutputs ti k outs s : compact s -> 0 <= k -> k + Z.of_nat (length outs) <= 2 ^ 16 ->
  popOutputs ti k outs (pushOutputs ti k outs s).2 = s.
Proof.
  revert k s. induction outs as [|o outs IH]; intros k s H Hk Hl; [done|]. cbn [length] in Hl. simpl.
  pose proof (pushOutput_compact ti k o s H) as H'.
  assert (popOutput ti k o (pushOutput ti k o s).2 = s) as Hpop by (apply popOutput_pushOutput; [done | lia]).
  destruct (pushOutput ti k o s) as [i t]. specialize (IH (k + 1) t H').
  destruct (pushOutputs ti (k + 1) outs t) as [js t'] eqn:E. cbn [snd] in *. rewrite IH by lia. exact Hpop.
Qed.

(** ** Undoing the inputs *)

Lemma erase_spent_keys_delete ins k keys : erase_spent_keys ins (delete k keys) = delete k (erase_spent_keys ins keys).
Proof.
  revert keys. induction ins as [|i ins IH]; intros keys; [done|].
  change (erase_spent_keys ins (erase_spent_key (delete k keys) i) = delete k (erase_spent_keys ins (erase_spent_key keys i))).
  rewrite <- IH. f_equal. destruct i as [|i|]; [done | apply delete_delete | done].
Qed.

Lemma unspend_keys_Spent before keys keys' : unspend_keys before keys <> Spent keys'.
Proof. revert keys. induction before as [|[|i|] before IH]; intros keys; simpl; auto. Qed.

Lemma spend_keys_undo h before ins keys keys' : spend_keys h before ins keys = Spent keys' ->
  erase_spent_keys ins keys' = keys.
Proof.
  revert before keys. induction ins as [|i ins IH]; intros before keys H; simpl in H; [by simplify_eq|].
  destruct i as [b|i|i]; [exact (IH _ _ H) | | exact (IH _ _ H)].
  destruct (keys !! keyImage i) eqn:E.
  - by apply unspend_keys_Spent in H.
  - change (erase_spent_keys ins (delete (keyImage i) keys') = keys).
    rewrite erase_spent_keys_delete, (IH _ _ H). by apply delete_insert_id.
Qed.

Lemma list_alter_same {A} (f : A -> A) (l : list A) (i : nat) : (forall x, l !! i = Some x -> f x = x) -> alter f i l = l.
Proof. intros H. rewrite <- (list_alter_id id l i) at 2 by done. by apply list_alter_ext. Qed.

Lemma mark_used_out_of_range b m i : multisignature_in_range m i = false -> mark_used b m i = m.
Proof.
  destruct i as [|i|i]; try done. simpl. destruct (m !! mi_amount i) as [l|] eqn:E; intros H; [|by apply alter_id'].
  apply negb_false_iff, Z.leb_le in H. apply alter_id. intros l' El. simplify_eq. apply list_alter_same.
  intros u Eu. apply lookup_lt_Some in Eu. lia.
Qed.

Lemma mark_used_comm b m i j : mark_used b (mark_used b m i) j = mark_used b (mark_used b m j) i.
Proof.
  destruct i as [|i|i], j as [|j|j]; try done. simpl.
  destruct (decide (mi_amount i = mi_amount j)) as [E|E]; [|by rewrite alter_alter_ne].
  rewrite E, !alter_alter_eq. apply alter_ext. intros l _. unfold compose.
  destruct (decide (Z.to_nat (outputIndex i) = Z.to_nat (outputIndex j))) as [->|]; [done|]. by apply list_alter_alter_ne.
Qed.

Lemma mark_used_absorb b c m i : mark_used b (mark_used c m i) i = mark_used b m i.
Proof.
  destruct i as [|i|i]; try done. simpl. rewrite alter_alter_eq. apply alter_ext. intros l _. unfold compose.
  by rewrite list_alter_alter_eq.
Qed.

Definition multisignature_unused (m : gmap Z (list MultisignatureOutputUsage)) (i : TransactionInput) : bool :=
  match i with
  | InMultisignature i =>
      match amount_outputs m (mi_amount i) !! Z.to_nat (outputIndex i) with
      | Some u => negb (isUsed u)
      | None => true
      end
  | _ => true
  end.

Lemma mark_unused m i : multisignature_unused m i = true -> mark_used false m i = m.
Proof.
  destruct i as [|i|i]; try done. unfold multisignature_unused, amount_outputs. simpl. intros H.
  apply alter_id. intros l E. rewrite E in H. simpl in H. apply list_alter_same. intros u Eu.
  rewrite Eu in H. destruct u as [? ? []]; done.
Qed.

Lemma foldl_mark_comm b ins m i : foldl (mark_used b) (mark_used b m i) ins = mark_used b (foldl (mark_used b) m ins) i.
Proof. revert m. induction ins as [|j ins IH]; intros m; [done|]. simpl. by rewrite mark_used_comm, IH. Qed.

Lemma unmark_mark ins m : forallb (multisignature_unused m) ins = true ->
  foldl (mark_used false) (foldl (mark_used true) m ins) ins = m.
Proof.
  induction ins as [|i ins IH] using rev_ind; intros H; [done|].
  rewrite forallb_app, andb_true_iff in H. destruct H as [H Hi]. simpl in Hi. rewrite andb_true_r in Hi.
  rewrite !foldl_app. simpl. rewrite <- foldl_mark_comm, mark_used_absorb, foldl_mark_comm, IH by done.
  by apply mark_unused.
Qed.

Lemma popInputs_spec ins s : foldl popInput s ins =
  set_multisignatureOutputs (foldl (mark_used false) (m_multisignatureOutputs s) ins)
    (set_spent_keys (erase_spent_keys ins (m_spent_keys s)) s).
Proof.
  revert s. induction ins as [|i ins IH]; intros s; [by destruct s|]. simpl. rewrite IH. unfold popInput.
  destruct i as [b|k|i]; try reflexivity.
  destruct (multisignature_in_range (m_multisignatureOutputs s) (InMultisignature i)) eqn:E; [reflexivity|].
  by rewrite (mark_used_out_of_range false _ _ E).
Qed.

Lemma no_empty_mark b m i : no_empty m -> no_empty (mark_used b m i).
Proof.
  intros H. destruct i as [|i|i]; try done. intros a l E. simpl in E. apply lookup_alter_Some in E as [(<- & l' & E & ->)|[_ E]].
  - apply H in E. destruct l'; [done|]. by destruct (Z.to_nat (outputIndex i)).
  - by apply (H a).
Qed.

Lemma foldl_no_empty_mark b ins m : no_empty m -> no_empty (foldl (mark_used b) m ins).
Proof. revert m. induction ins; intros m H; [done|]. simpl. auto using no_empty_mark. Qed.

(** ** A successful push *)

Lemma pushTransaction_true height tx h ti s idx s' : pushTransaction height tx h ti s = (Some (true, idx), s') ->
  m_transactionMap s !! h = None /\ checkMultisignatureInputsDiff (prefix tx) = true /\
  exists keys, spend_keys height [] (inputs (prefix tx)) (m_spent_keys s) = Spent keys /\
    forallb (multisignature_in_range (m_multisignatureOutputs s)) (inputs (prefix tx)) = true /\
    let t := MkChainState (<[h := ti]> (m_transactionMap s)) keys (m_outputs s)
      (foldl (mark_used true) (m_multisignatureOutputs s) (inputs (prefix tx))) (m_paymentIdIndex s) in
    idx = (pushOutputs ti 0 (outputs (prefix tx)) t).1 /\
    s' = set_paymentIdIndex (PaymentIdIndex.add tx (m_paymentIdIndex s)).2 (pushOutputs ti 0 (outputs (prefix tx)) t).2.
Proof.
  unfold pushTransaction. destruct (m_transactionMap s !! h) eqn:Eh; [done|].
  destruct (checkMultisignatureInputsDiff _) eqn:Ed; [|done]. cbn [negb m_spent_keys set_transactionMap].
  destruct (spend_keys _ _ _ _) as [keys| |] eqn:Ek; [|done|done]. cbv zeta.
  cbn [m_multisignatureOutputs set_spent_keys set_transactionMap].
  destruct (forallb _ _) eqn:Er; [|done]. cbn [negb].
  intros H. split; [done|]. split; [done|]. exists keys. split; [done|]. split; [done|].
  change (set_multisignatureOutputs _ _) with (MkChainState (<[h := ti]> (m_transactionMap s)) keys (m_outputs s)
      (foldl (mark_used true) (m_multisignatureOutputs s) (inputs (prefix tx))) (m_paymentIdIndex s)) in H.
  set (t := MkChainState _ _ _ _ _) in *.
  pose proof (pushOutputs_paymentIdIndex ti 0 (outputs (prefix tx)) t (m_paymentIdIndex s)) as Hp.
  change (set_paymentIdIndex (m_paymentIdIndex s) t) with t in Hp.
  destruct (pushOutputs _ _ _ t) as [js r]. simpl in Hp. injection Hp as Hr. simplify_eq. split; [done|].
  simpl. by rewrite Hr.
Qed.

Lemma pushOutputs_fields ti k outs s :
  m_transactionMap (pushOutputs ti k outs s).2 = m_transactionMap s /\ m_spent_keys (pushOutputs ti k outs s).2 = m_spent_keys s.
Proof.
  revert k s. induction outs as [|o outs IH]; intros k s; [done|]. simpl.
  destruct (pushOutput ti k o s) as [i t] eqn:E. specialize (IH (k + 1) t).
  destruct (pushOutputs ti (k + 1) outs t) as [js r]. simpl in *. destruct IH as [-> ->].
  unfold pushOutput in E. destruct (target o); by simplify_eq.
Qed.

(** What [validateInput] and the size of a block guarantee of a transaction that is pushed. *)
Definition pushable (tx : Transaction) (s : ChainState) : Prop :=
  Z.of_nat (length (outputs (prefix tx))) <= 2 ^ 16 /\
  Forall (fun r => 0 <= r.2) (multisignature_refs (inputs (prefix tx))) /\
  forallb (multisignature_unused (m_multisignatureOutputs s)) (inputs (prefix tx)) = true.

Lemma popTransaction_push height tx h ti s idx s' : compact s -> pushable tx s ->
  pushTransaction height tx h ti s = (Some (true, idx), s') ->
  exists s'', popTransaction tx h s' = (Some tt, s'') /\ s'' ≡ s.
Proof.
  intros Hc (Hlen & _ & Hu) H. apply pushTransaction_true in H as (Hh & _ & keys & Hk & Hr & _ & ->).
  unfold popTransaction. set (t := MkChainState _ _ _ _ _). cbn [m_transactionMap set_paymentIdIndex].
  rewrite (proj1 (pushOutputs_fields _ _ _ _)). cbn [m_transactionMap t]. rewrite lookup_insert_eq.
  eexists. split; [reflexivity|].
  rewrite popOutputs_paymentIdIndex, popInputs_paymentIdIndex, popOutputs_pushOutputs; [| |done|lia].
  - rewrite popInputs_spec. subst t. cbn. rewrite (spend_keys_undo _ _ _ _ _ Hk), unmark_mark by done.
    repeat split; cbn; [by apply delete_insert_id | apply paymentIdIndex_remove_add].
  - destruct Hc as [Hc1 Hc2]. split; [done|]. by apply foldl_no_empty_mark.
Qed.

Lemma pushTransaction_compact height tx h ti s idx s' : compact s ->
  pushTransaction height tx h ti s = (Some (true, idx), s') -> compact s'.
Proof.
  intros [Hc1 Hc2] H. apply pushTransaction_true in H as (_ & _ & keys & _ & _ & _ & ->).
  set (t := MkChainState _ _ _ _ _). apply (pushOutputs_compact ti 0 (outputs (prefix tx)) t).
  split; [done|]. by apply foldl_no_empty_mark.
Qed.

(** ** A rejected push *)

Lemma unspend_keys_DoubleSpend before keys keys' : unspend_keys before keys = DoubleSpend keys' ->
  keys' = erase_spent_keys before keys.
Proof.
  revert keys. induction before as [|[|i|] before IH]; intros keys H; simpl in H; [by simplify_eq | done | | done].
  exact (IH _ H).
Qed.

Lemma spend_keys_DoubleSpend h before ins keys keys' : spend_keys h before ins keys = DoubleSpend keys' ->
  keys' = erase_spent_keys before keys.
Proof.
  revert before keys. induction ins as [|i ins IH]; intros before keys H; simpl in H; [done|].
  destruct i as [b|i|i]; [exact (IH _ _ H) | | exact (IH _ _ H)].
  destruct (keys !! keyImage i) eqn:E; [by apply unspend_keys_DoubleSpend|].
  rewrite (IH _ _ H). change (erase_spent_keys before (delete (keyImage i) (<[keyImage i:=h]> keys)) = erase_spent_keys before keys).
  by rewrite delete_insert_id.
Qed.

Lemma pushTransaction_false height tx h ti s idx s' :
  pushTransaction height tx h ti s = (Some (false, idx), s') -> s' = s.
Proof.
  unfold pushTransaction. destruct (m_transactionMap s !! h) eqn:Eh; [by intros; simplify_eq|].
  destruct (checkMultisignatureInputsDiff _); cbn [negb m_spent_keys set_transactionMap].
  2:{ intros H. simplify_eq. destruct s. unfold set_transactionMap. cbn in *. by rewrite delete_insert_id. }
  destruct (spend_keys _ _ _ _) as [keys|keys|] eqn:Ek; [| |done]; cbv zeta.
  - cbn [m_multisignatureOutputs set_spent_keys set_transactionMap].
    destruct (forallb _ _) eqn:Er; cbn [negb]; [by destruct (pushOutputs _ _ _ _)|].
    intros H. simplify_eq. cbn. rewrite (spend_keys_undo _ _ _ _ _ Ek). rewrite delete_insert_id by done. by destruct s.
  - apply spend_keys_DoubleSpend in Ek as ->. intros H. simplify_eq. cbn.
    rewrite delete_insert_id by done. by destruct s.
Qed.

(** ** Equivalence is a congruence *)

Lemma popTransaction_paymentIdIndex tx h s p : popTransaction tx h (set_paymentIdIndex p s) =
  match m_transactionMap s !! h with
  | None => (None, set_paymentIdIndex p s)
  | Some ti =>
      let t := foldl popInput (popOutputs ti 0 (outputs (prefix tx)) s) (inputs (prefix tx)) in
      (Some tt, set_paymentIdIndex (PaymentIdIndex.remove tx p).2
                  (set_transactionMap (delete h (m_transactionMap t)) t))
  end.
Proof.
  unfold popTransaction. cbn [m_transactionMap set_paymentIdIndex]. destruct (m_transactionMap s !! h); [|done].
  by rewrite popOutputs_paymentIdIndex, popInputs_paymentIdIndex.
Qed.

#[export] Instance popTransaction_proper tx h : Proper ((≡) ==> (prod_relation (=) (≡))) (popTransaction tx h).
Proof.
  intros s t E. apply equiv_inv in E as (p & -> & Hp).
  assert (s = set_paymentIdIndex (m_paymentIdIndex s) s) as Es by by destruct s.
  rewrite Es at 1. rewrite !popTransaction_paymentIdIndex. destruct (m_transactionMap s !! h); split; try done.
  by apply set_paymentIdIndex_equiv, paymentIdIndex_remove_proper.
Qed.

#[export] Instance pushTransaction_proper height tx h ti :
  Proper ((≡) ==> (prod_relation (=) (≡))) (pushTransaction height tx h ti).
Proof.
  intros s t E. apply equiv_inv in E as (p & -> & Hp). unfold pushTransaction. cbn [m_transactionMap set_paymentIdIndex].
  destruct (m_transactionMap s !! h); [by split; [|apply set_paymentIdIndex_equiv]|].
  destruct (checkMultisignatureInputsDiff _); cbn [negb]; [|by split; [|repeat split]].
  cbn [m_spent_keys set_transactionMap set_paymentIdIndex].
  destruct (spend_keys _ _ _ _) as [keys| |] eqn:Ek; [|by split; [|repeat split]|by split; [|repeat split]].
  cbn [m_multisignatureOutputs set_spent_keys set_transactionMap set_paymentIdIndex].
  destruct (forallb _ _); cbn [negb]; [|by split; [|repeat split]].
  set (t := set_multisignatureOutputs _ (set_spent_keys keys (set_transactionMap _ s))).
  change (set_multisignatureOutputs _ _) with (set_paymentIdIndex p t).
  rewrite pushOutputs_paymentIdIndex. assert (t = set_paymentIdIndex (m_paymentIdIndex s) t) as Et by done.
  rewrite Et at 1. rewrite pushOutputs_paymentIdIndex.
  split; [done|]. by apply (set_paymentIdIndex_equiv _ _ (pushOutputs _ _ _ t).2), paymentIdIndex_add_proper.
Qed.

(** ** The chain a state stands for *)

Record ChainTx := MkChainTx {
  ct_height : Z;
  ct_tx : Transaction;
  ct_hash : Hash;
  ct_index : TransactionIndex
}.

Abbreviation tx_inputs e := (inputs (prefix (ct_tx e))).
Abbreviation tx_outputs e := (outputs (prefix (ct_tx e))).

Definition key_images (ins : list TransactionInput) : list KeyImage :=
  omap (fun i => match i with InKey i => Some (keyImage i) | _ => None end) ins.

(** The outputs of [amount] among [outs], with their positions from [k]. *)
Fixpoint key_outputs (ti : TransactionIndex) (k amount : Z) (outs : list TransactionOutput) : list (TransactionIndex * Z) :=
  match outs with
  | [] => []
  | MkTransactionOutput a (OutKey _) :: outs =>
      (if a =? amount then [(ti, k)] else []) ++ key_outputs ti (k + 1) amount outs
  | _ :: outs => key_outputs ti (k + 1) amount outs
  end.

Fixpoint multisignature_outputs (ti : TransactionIndex) (k amount : Z) (outs : list TransactionOutput) : list (TransactionIndex * Z) :=
  match outs with
  | [] => []
  | MkTransactionOutput a (OutMultisignature _) :: outs =>
      (if a =? amount then [(ti, k)] else []) ++ multisignature_outputs ti (k + 1) amount outs
  | _ :: outs => multisignature_outputs ti (k + 1) amount outs
  end.

Definition payment_pairs (tx : Transaction) : list (Hash * Hash) :=
  match getPaymentId tx with
  | None => []
  | Some id => [(id, (getObjectHash serializeTransaction tx).2)]
  end.

Definition chain_key_images (c : list ChainTx) : list KeyImage := c ≫= fun e => key_images (tx_inputs e).
Definition chain_refs (c : list ChainTx) : list (Z * Z) := c ≫= fun e => multisignature_refs (tx_inputs e).
Definition chain_outputs (a : Z) (c : list ChainTx) : list (TransactionIndex * Z) :=
  c ≫= fun e => key_outputs (ct_index e) 0 a (tx_outputs e).
Definition chain_multisignature_outputs (a : Z) (c : list ChainTx) : list (TransactionIndex * Z) :=
  c ≫= fun e => multisignature_outputs (ct_index e) 0 a (tx_outputs e).

(** The vector of the multisignature outputs of [a], those in [refs] used. *)
Definition usages (a : Z) (refs : list (Z * Z)) (l : list (TransactionIndex * Z)) : list MultisignatureOutputUsage :=
  imap (fun k p => MkUsage p.1 p.2 (bool_decide ((a, Z.of_nat k) ∈ refs))) l.

(** The state is the one the transactions [c] of the chain determine, and nothing
    of [c] is spent twice. *)
Record represents (c : list ChainTx) (s : ChainState) : Prop := {
  rep_hashes : NoDup (ct_hash <$> c);
  rep_transactionMap h ti : m_transactionMap s !! h = Some ti <-> exists e, e ∈ c /\ ct_hash e = h /\ ct_index e = ti;
  rep_key_images : NoDup (chain_key_images c);
  rep_spent_keys k h : m_spent_keys s !! k = Some h <-> exists e, e ∈ c /\ k ∈ key_images (tx_inputs e) /\ ct_height e = h;
  rep_outputs a : amount_outputs (m_outputs s) a = chain_outputs a c;
  rep_refs : NoDup (chain_refs c);
  rep_refs_range : Forall (fun r => 0 <= r.2 < Z.of_nat (length (chain_multisignature_outputs r.1 c))) (chain_refs c);
  rep_multisignatureOutputs a :
    amount_outputs (m_multisignatureOutputs s) a = usages a (chain_refs c) (chain_multisignature_outputs a c);
  rep_paymentIdIndex : m_paymentIdIndex s ≡ₚ c ≫= fun e => payment_pairs (ct_tx e)
}.

(** Any interleaving of pushes, accepted or rejected, and pops of the last transaction. *)
Inductive reaches : list ChainTx -> ChainState -> Prop :=
  | reaches_empty : reaches [] empty_state
  | reaches_push c s height tx h ti idx s' : reaches c s -> pushable tx s ->
      pushTransaction height tx h ti s = (Some (true, idx), s') -> reaches (c ++ [MkChainTx height tx h ti]) s'
  | reaches_reject c s height tx h ti idx s' : reaches c s ->
      pushTransaction height tx h ti s = (Some (false, idx), s') -> reaches c s'
  | reaches_pop c e s s' : reaches (c ++ [e]) s ->
      popTransaction (ct_tx e) (ct_hash e) s = (Some tt, s') -> reaches c s'.

(** The state after pushing the transactions one by one. *)
Inductive replay : list ChainTx -> ChainState -> Prop :=
  | replay_empty : replay [] empty_state
  | replay_push c s height tx h ti idx s' : replay c s -> pushable tx s ->
      pushTransaction height tx h ti s = (Some (true, idx), s') -> replay (c ++ [MkChainTx height tx h ti]) s'.

Lemma replay_compact c s : replay c s -> compact s.
Proof.
  induction 1; [split; apply map_Forall_empty|]. by eapply pushTransaction_compact.
Qed.

Lemma pushable_proper tx s t : s ≡ t -> pushable tx s -> pushable tx t.
Proof. intros (_ & _ & _ & E & _) H. unfold pushable. by rewrite <- E. Qed.

Lemma reaches_replay c s : reaches c s -> exists s0, replay c s0 /\ s ≡ s0.
Proof.
  induction 1 as [|c s height tx h ti idx s' _ (s0 & Hr & E) Hp H|c s height tx h ti idx s' _ IH H|c e s s' _ (s1 & Hr & E) H].
  - by exists empty_state; split; [constructor|].
  - pose proof (pushTransaction_proper height tx h ti s s0 E) as Hpr. rewrite H in Hpr.
    destruct (pushTransaction height tx h ti s0) as [r s0'] eqn:E0. destruct Hpr as [Hr1 Hr2]. simpl in *. subst r.
    exists s0'. split; [|done]. eapply replay_push; [exact Hr | by eapply pushable_proper | exact E0].
  - apply pushTransaction_false in H as ->. exact IH.
  - inversion Hr as [Hnil|c' s0 height tx h ti idx s1' Hr' Hp Hpush Hsnoc]; [by destruct c|]. subst.
    apply app_inj_2 in Hsnoc as [-> [=<-]]; [|done]. exists s0. split; [done|].
    pose proof (popTransaction_proper tx h s s1 E) as Hpr. cbn [ct_tx ct_hash] in H. rewrite H in Hpr.
    apply popTransaction_push in Hpush as (s'' & Hpop & Es); [|by eapply replay_compact|done].
    rewrite Hpop in Hpr. destruct Hpr as [_ Hpr]. simpl in Hpr. by rewrite Hpr.
Qed.

Lemma amount_outputs_push {A} (m : gmap Z (list A)) a b x :
  amount_outputs (push_output m a x) b = amount_outputs m b ++ (if a =? b then [x] else []).
Proof.
  unfold push_output, amount_outputs at 1. destruct (Z.eqb_spec a b) as [->|Hn].
  - by rewrite lookup_insert_eq.
  - by rewrite lookup_insert_ne, app_nil_r.
Qed.

Lemma pushOutputs_outputs ti k outs s a : 0 <= k -> k + Z.of_nat (length outs) <= 2 ^ 16 ->
  amount_outputs (m_outputs (pushOutputs ti k outs s).2) a = amount_outputs (m_outputs s) a ++ key_outputs ti k a outs /\
  amount_outputs (m_multisignatureOutputs (pushOutputs ti k outs s).2) a =
    amount_outputs (m_multisignatureOutputs s) a ++ ((fun p => MkUsage p.1 p.2 false) <$> multisignature_outputs ti k a outs).
Proof.
  revert k s. induction outs as [|o outs IH]; intros k s Hk Hl; [simpl; by rewrite !app_nil_r|].
  cbn [length] in Hl. destruct o as [b t]. simpl. destruct (pushOutput ti k _ s) as [i r] eqn:E.
  destruct (IH (k + 1) r) as [IH1 IH2]; [lia | lia |]. destruct (pushOutputs ti (k + 1) outs r) as [js r']. cbn [snd] in *.
  rewrite IH1, IH2. unfold pushOutput in E. cbn [target out_amount] in E.
  assert (u16 k = k) as Hu by (apply Z.mod_small; lia). rewrite Hu in E.
  destruct t; simplify_eq; cbn [m_outputs m_multisignatureOutputs set_outputs set_multisignatureOutputs];
    rewrite amount_outputs_push; destruct (b =? a); simpl; rewrite <- !app_assoc; done.
Qed.

Lemma pushOutputs_paymentIdIndex_same ti k outs s : m_paymentIdIndex (pushOutputs ti k outs s).2 = m_paymentIdIndex s.
Proof.
  assert (s = set_paymentIdIndex (m_paymentIdIndex s) s) as E by by destruct s.
  rewrite E at 1. by rewrite pushOutputs_paymentIdIndex.
Qed.

Lemma spend_keys_Spent height before ins keys keys' : spend_keys height before ins keys = Spent keys' ->
  NoDup (key_images ins) /\ (forall k, k ∈ key_images ins -> keys !! k = None) /\
  forall k h, keys' !! k = Some h <-> keys !! k = Some h \/ k ∈ key_images ins /\ height = h.
Proof.
  revert before keys. induction ins as [|i ins IH]; intros before keys H; simpl in H.
  { simplify_eq. repeat split; [constructor | set_solver | by left | by intros [?|[? _]]; [|set_solver]]. }
  destruct i as [b|i|i]; [exact (IH _ _ H) | | exact (IH _ _ H)].
  destruct (keys !! keyImage i) eqn:E; [by apply unspend_keys_Spent in H|].
  apply IH in H as (Hnd & Hnone & Hl). change (key_images (InKey i :: ins)) with (keyImage i :: key_images ins).
  assert (keyImage i ∉ key_images ins) as Hni by (intros Hin; specialize (Hnone _ Hin); by rewrite lookup_insert_eq in Hnone).
  split; [by constructor|]. split.
  - intros k Hk. apply elem_of_cons in Hk as [->|Hk]; [done|]. specialize (Hnone k Hk).
    rewrite lookup_insert_ne in Hnone; [done | by intros <-].
  - intros k h. rewrite Hl, lookup_insert_Some, elem_of_cons. clear -E Hni. naive_solver.
Qed.

Definition use_if (used : bool) (u : MultisignatureOutputUsage) : MultisignatureOutputUsage :=
  if used then set_used true u else u.

Lemma amount_outputs_mark_one b m i a (k : nat) : amount_outputs (mark_used b m (InMultisignature i)) a !! k =
  (if bool_decide (a = mi_amount i /\ k = Z.to_nat (outputIndex i)) then set_used b else id) <$> amount_outputs m a !! k.
Proof.
  unfold mark_used, amount_outputs. destruct (decide (a = mi_amount i)) as [->|Hn].
  - rewrite lookup_alter_eq. destruct (m !! mi_amount i) as [l|]; [|done]. simpl.
    destruct (decide (k = Z.to_nat (outputIndex i))) as [->|Hk].
    + by rewrite list_lookup_alter_eq, bool_decide_eq_true_2.
    + rewrite list_lookup_alter_ne, bool_decide_eq_false_2, option_fmap_id by naive_solver. done.
  - rewrite lookup_alter_ne, bool_decide_eq_false_2, option_fmap_id by naive_solver. done.
Qed.

Lemma amount_outputs_mark m ins a (k : nat) : Forall (fun r => 0 <= r.2) (multisignature_refs ins) ->
  amount_outputs (foldl (mark_used true) m ins) a !! k =
  use_if (bool_decide ((a, Z.of_nat k) ∈ multisignature_refs ins)) <$> amount_outputs m a !! k.
Proof.
  revert m. induction ins as [|i ins IH]; intros m H; [by rewrite option_fmap_id|].
  destruct i as [b|i|i]; [exact (IH m H) | exact (IH m H) |].
  change (multisignature_refs (InMultisignature i :: ins)) with ((mi_amount i, outputIndex i) :: multisignature_refs ins) in *.
  apply Forall_cons in H as [Hi H]. cbn [snd] in Hi. cbn [foldl]. rewrite IH, amount_outputs_mark_one by done.
  rewrite <- option_fmap_compose. apply option_fmap_ext. intros u. unfold compose, use_if.
  set (r := multisignature_refs ins). rewrite (bool_decide_ext ((a, Z.of_nat k) ∈ _ :: r) ((a = mi_amount i /\ k = Z.to_nat (outputIndex i)) \/ (a, Z.of_nat k) ∈ r)).
  2:{ rewrite elem_of_cons. split; intros [E|E]; auto; left; [simplify_eq; split; [done | lia] | destruct E; f_equal; [done | lia]]. }
  rewrite bool_decide_or. by repeat case_bool_decide.
Qed.

Lemma mark_usages m ins a refs l : Forall (fun r => 0 <= r.2) (multisignature_refs ins) ->
  amount_outputs m a = usages a refs l ->
  amount_outputs (foldl (mark_used true) m ins) a = usages a (refs ++ multisignature_refs ins) l.
Proof.
  intros H E. apply list_eq. intros k. rewrite amount_outputs_mark by done. rewrite E. unfold usages.
  rewrite !list_lookup_imap, <- option_fmap_compose. apply option_fmap_ext. intros [ti o]. unfold compose, use_if. cbn [fst snd].
  rewrite (bool_decide_ext _ _ (elem_of_app _ _ _)), bool_decide_or.
  by destruct (bool_decide (_ ∈ multisignature_refs ins)), (bool_decide (_ ∈ refs)).
Qed.

(** New outputs are not referred to yet. *)
Lemma usages_app a refs l l' : Forall (fun r => r.1 = a -> r.2 < Z.of_nat (length l)) refs ->
  usages a refs (l ++ l') = usages a refs l ++ ((fun p => MkUsage p.1 p.2 false) <$> l').
Proof.
  intros H. unfold usages. rewrite imap_app. f_equal. apply list_eq. intros k.
  rewrite list_lookup_imap, list_lookup_fmap. destruct (l' !! k); [|done]. simpl. do 2 f_equal.
  apply bool_decide_eq_false_2. intros Hin. rewrite Forall_forall in H. specialize (H _ Hin eq_refl). simpl in H. lia.
Qed.

Lemma in_range_refs m ins : forallb (multisignature_in_range m) ins = true ->
  Forall (fun r => r.2 < Z.of_nat (length (amount_outputs m r.1))) (multisignature_refs ins).
Proof.
  induction ins as [|i ins IH]; intros H; [constructor|]. simpl in H. apply andb_true_iff in H as [Hi H]. specialize (IH H).
  destruct i as [b|i|i]; [exact IH | exact IH |]. apply Forall_cons_2; [|exact IH]. simpl in Hi |- *.
  unfold amount_outputs. destruct (m !! mi_amount i); [|done]. apply negb_true_iff, Z.leb_gt in Hi. exact Hi.
Qed.

Lemma unused_refs m ins a refs l : Forall (fun r => 0 <= r.2) (multisignature_refs ins) ->
  forallb (multisignature_unused m) ins = true -> forallb (multisignature_in_range m) ins = true ->
  (forall a, amount_outputs m a = usages a refs (l a)) -> (a ∈ multisignature_refs ins) -> a ∉ refs.
Proof.
  intros H0 Hu Hr E Ha Hin. apply list_elem_of_omap in Ha as (i & Hi & Ha). destruct i as [|i|i]; try done. simplify_eq.
  rewrite forallb_forall in Hu, Hr. rewrite list_elem_of_In in Hi. specialize (Hu _ Hi). specialize (Hr _ Hi).
  rewrite Forall_forall in H0. unfold multisignature_unused in Hu. rewrite E in Hu. unfold usages in Hu. rewrite list_lookup_imap in Hu.
  assert (0 <= outputIndex i) as Hpos.
  { apply (H0 (mi_amount i, outputIndex i)). apply list_elem_of_omap. exists (InMultisignature i). by rewrite list_elem_of_In. }
  assert (Z.to_nat (outputIndex i) < length (l (mi_amount i)))%nat as Hlt.
  { pose proof (in_range_refs m [InMultisignature i]) as Hrange. cbn [forallb] in Hrange. rewrite Hr in Hrange.
    specialize (Hrange eq_refl). apply Forall_cons in Hrange as [Hrange _]. cbn [fst snd] in Hrange.
    rewrite E in Hrange. unfold usages in Hrange. rewrite length_imap in Hrange. lia. }
  apply lookup_lt_is_Some_2 in Hlt as [p Ep]. rewrite Ep in Hu. simpl in Hu.
  rewrite Z2Nat.id, bool_decide_eq_true_2 in Hu by done. done.
Qed.

Lemma represents_empty : represents [] empty_state.
Proof.
  split; try done; try constructor; try (by intros (e & He & _); apply elem_of_nil in He);
    cbn [m_transactionMap m_spent_keys empty_state]; by rewrite lookup_empty.
Qed.

Lemma bind_snoc {A B} (f : A -> list B) l x : (l ++ [x]) ≫= f = (l ≫= f) ++ f x.
Proof. rewrite bind_app. simpl. by rewrite app_nil_r. Qed.

Lemma represents_push c s height tx h ti idx s' : represents c s -> pushable tx s ->
  pushTransaction height tx h ti s = (Some (true, idx), s') -> represents (c ++ [MkChainTx height tx h ti]) s'.
Proof.
  intros R (Hlen & Hpos & Hu) H.
  apply pushTransaction_true in H as (Hh & Hdiff & keys & Hk & Hrange & _ & ->).
  apply spend_keys_Spent in Hk as (Hnd & Hnone & Hkeys).
  unfold checkMultisignatureInputsDiff in Hdiff. apply multisignature_loop_spec in Hdiff as [Hrefs _].
  set (t := MkChainState _ keys _ _ _).
  pose proof (pushOutputs_fields ti 0 (outputs (prefix tx)) t) as [Hf1 Hf2].
  pose proof (fun a => pushOutputs_outputs ti 0 (outputs (prefix tx)) t a ltac:(lia) ltac:(lia)) as Hout.
  pose proof (fun a => mark_usages _ _ a _ _ Hpos (rep_multisignatureOutputs _ _ R a)) as Hmark.
  pose proof (in_range_refs _ _ Hrange) as Hin. destruct R as [R1 R2 R3 R4 R5 R6 R7 R8 R9].
  assert (Hold : Forall (fun r => 0 <= r.2 < Z.of_nat (length (chain_multisignature_outputs r.1 c)))
    (chain_refs c ++ multisignature_refs (inputs (prefix tx)))).
  { apply Forall_app. split; [done|]. rewrite Forall_forall in Hin, Hpos |- *. intros r Hr. split; [by apply Hpos|].
    specialize (Hin r Hr). rewrite R8 in Hin. unfold usages in Hin. by rewrite length_imap in Hin. }
  split; cbn [m_transactionMap m_spent_keys m_outputs m_multisignatureOutputs m_paymentIdIndex set_paymentIdIndex].
  - rewrite fmap_app. apply NoDup_app. split; [done|]. split; [|apply NoDup_singleton].
    intros x Hx Hx'. apply list_elem_of_singleton in Hx'. cbn [ct_hash] in Hx'. subst x. apply list_elem_of_fmap in Hx as (e & -> & He).
    rewrite (proj2 (R2 (ct_hash e) (ct_index e))) in Hh; [done | by exists e].
  - intros h' ti'. rewrite Hf1. subst t. cbn [m_transactionMap]. rewrite lookup_insert_Some. split.
    + intros [[<- <-]|[_ E]]; [eexists; split; [apply elem_of_app; right; by apply list_elem_of_singleton|done]|].
      apply R2 in E as (e & He & ? & ?). exists e. by split; [apply elem_of_app; left|].
    + intros (e & [He| ->%list_elem_of_singleton]%elem_of_app & <- & <-); [|by left]. right. split; [|by apply R2; exists e].
      intros E. rewrite E, (proj2 (R2 (ct_hash e) (ct_index e))) in Hh; [done | by exists e].
  - unfold chain_key_images. rewrite bind_snoc. apply NoDup_app. split; [done|]. split; [|done].
    intros k Hk1 Hk2. apply Hnone in Hk2. apply list_elem_of_bind in Hk1 as (e & Hk1 & He).
    rewrite (proj2 (R4 k (ct_height e))) in Hk2; [done | by exists e].
  - intros k h'. rewrite Hf2. subst t. cbn [m_spent_keys]. rewrite Hkeys, R4. setoid_rewrite elem_of_app.
    setoid_rewrite list_elem_of_singleton. split.
    + intros [(e & ? & ? & ?)|[? <-]]; [by exists e; auto|]. eexists. by split; [right|].
    + intros (e & [?| ->] & ? & ?); [left; by exists e|by right].
  - intros a. rewrite (proj1 (Hout a)). subst t. cbn [m_outputs]. rewrite R5. unfold chain_outputs. by rewrite bind_snoc.
  - unfold chain_refs. rewrite bind_snoc. apply NoDup_app. split; [done|]. split; [|done].
    intros r Hr1 Hr2. exact (unused_refs _ _ r _ _ Hpos Hu Hrange R8 Hr2 Hr1).
  - unfold chain_refs. rewrite bind_snoc. eapply Forall_impl; [exact Hold|]. intros r Hr. unfold chain_multisignature_outputs.
    rewrite bind_snoc, length_app. unfold chain_multisignature_outputs in Hr. lia.
  - intros a. rewrite (proj2 (Hout a)). subst t. cbn [m_multisignatureOutputs]. rewrite Hmark.
    unfold chain_refs, chain_multisignature_outputs. rewrite !bind_snoc. symmetry. apply usages_app.
    eapply Forall_impl; [exact Hold|]. intros r Hr <-. unfold chain_multisignature_outputs in Hr. lia.
  - rewrite bind_snoc, <- R9. unfold PaymentIdIndex.add, payment_pairs. cbn [ct_tx].
    destruct (getPaymentId tx); cbn [snd]; by rewrite ?app_nil_r.
Qed.

Lemma replay_represents c s : replay c s -> represents c s.
Proof. induction 1; [apply represents_empty | by eapply represents_push]. Qed.

Lemma represents_proper c s t : s ≡ t -> represents c s -> represents c t.
Proof.
  intros (E1 & E2 & E3 & E4 & E5) [R1 R2 R3 R4 R5 R6 R7 R8 R9].
  split; rewrite <- ?E1, <- ?E2, <- ?E3, <- ?E4, <- ?E5; done.
Qed.

Lemma reaches_represents c s : reaches c s -> represents c s.
Proof.
  intros H. apply reaches_replay in H as (s0 & Hr & E). apply replay_represents in Hr.
  by apply (represents_proper c s0).
Qed.

(** Popping a transaction right after it was pushed restores the state. *)
Theorem popTransaction_undoes_push height tx h ti c s idx s' : reaches c s -> pushable tx s ->
  pushTransaction height tx h ti s = (Some (true, idx), s') ->
  exists s'', popTransaction tx h s' = (Some tt, s'') /\ s'' ≡ s.
Proof.
  intros Hr Hp H. apply reaches_replay in Hr as (s0 & Hr & E).
  pose proof (pushTransaction_proper height tx h ti s s0 E) as Hpr. rewrite H in Hpr.
  destruct (pushTransaction height tx h ti s0) as [r t0] eqn:E0. destruct Hpr as [Hpr1 Hpr2]. simpl in *. subst r.
  apply popTransaction_push in E0 as (t1 & E1 & Et); [|by eapply replay_compact|by eapply pushable_proper].
  pose proof (popTransaction_proper tx h s' t0 Hpr2) as Hpr. rewrite E1 in Hpr.
  destruct (popTransaction tx h s') as [r t2]. destruct Hpr as [Hr1 Hr2]. simpl in *. subst r.
  exists t2. split; [done|]. by rewrite Hr2, Et.
Qed.

(** ** Global output indexes *)

Lemma push_output_prefix {A} (m : gmap Z (list A)) a x b : amount_outputs m b `prefix_of` amount_outputs (push_output m a x) b.
Proof. rewrite amount_outputs_push. by eexists. Qed.

Lemma pushOutputs_prefix ti k outs s a : 0 <= k -> k + Z.of_nat (length outs) <= 2 ^ 16 ->
  amount_outputs (m_outputs s) a `prefix_of` amount_outputs (m_outputs (pushOutputs ti k outs s).2) a /\
  amount_outputs (m_multisignatureOutputs s) a `prefix_of` amount_outputs (m_multisignatureOutputs (pushOutputs ti k outs s).2) a.
Proof. intros Hk Hl. destruct (pushOutputs_outputs ti k outs s a Hk Hl) as [-> ->]. by split; eexists. Qed.

(** What the index [g] recorded for the output [o] at position [k] must find. *)
Definition resolves (ti : TransactionIndex) (k : Z) (o : TransactionOutput) (g : Z) (s : ChainState) : Prop :=
  match target o with
  | OutKey _ => amount_outputs (m_outputs s) (out_amount o) !! Z.to_nat g = Some (ti, k)
  | OutMultisignature _ => amount_outputs (m_multisignatureOutputs s) (out_amount o) !! Z.to_nat g = Some (MkUsage ti k false)
  end.

Definition vectors_u32 (s : ChainState) : Prop := forall a,
  Z.of_nat (length (amount_outputs (m_outputs s) a)) < 2 ^ 32 /\ Z.of_nat (length (amount_outputs (m_multisignatureOutputs s) a)) < 2 ^ 32.

Lemma pushOutput_resolves ti k o s : 0 <= k < 2 ^ 16 -> vectors_u32 s ->
  resolves ti k o (pushOutput ti k o s).1 (pushOutput ti k o s).2.
Proof.
  intros Hk Hv. unfold resolves, pushOutput, u16. destruct (Hv (out_amount o)) as [Hv1 Hv2].
  destruct (target o); cbn [fst snd m_outputs m_multisignatureOutputs set_outputs set_multisignatureOutputs];
    rewrite amount_outputs_push, Z.eqb_refl, Z.mod_small, u32_id, Nat2Z.id by (unfold is_u32; lia); by apply list_lookup_middle.
Qed.

Lemma pushOutputs_resolve ti k outs s : 0 <= k -> k + Z.of_nat (length outs) <= 2 ^ 16 ->
  vectors_u32 (pushOutputs ti k outs s).2 ->
  length (pushOutputs ti k outs s).1 = length outs /\
  forall j o g, outs !! j = Some o -> (pushOutputs ti k outs s).1 !! j = Some g ->
    resolves ti (k + Z.of_nat j) o g (pushOutputs ti k outs s).2.
Proof.
  revert k s. induction outs as [|o outs IH]; intros k s Hk Hl Hv; [done|]. cbn [length] in Hl. simpl in Hv |- *.
  pose proof (pushOutput_resolves ti k o s ltac:(lia)) as Ho. destruct (pushOutput ti k o s) as [i t] eqn:Ei.
  pose proof (pushOutputs_prefix ti (k + 1) outs t (out_amount o) ltac:(lia) ltac:(lia)) as [Hp1 Hp2].
  destruct (IH (k + 1) t) as [IHl IHr]; [lia | lia | by destruct (pushOutputs _ _ _ t) |].
  assert (vectors_u32 s) as Hs.
  { intros a. pose proof (pushOutputs_prefix ti k (o :: outs) s a Hk ltac:(simpl; lia)) as [Hq1 Hq2].
    simpl in Hq1, Hq2. rewrite Ei in Hq1, Hq2. destruct (pushOutputs _ _ _ t) as [js r]. cbn [snd] in *.
    apply prefix_length in Hq1, Hq2. destruct (Hv a). lia. }
  specialize (Ho Hs). destruct (pushOutputs _ _ _ t) as [js r]. cbn [fst snd] in *. split; [simpl; lia|].
  intros [|j] o' g Hj Hg; simpl in Hj, Hg; simplify_eq.
  - rewrite Z.add_0_r. unfold resolves in *.
    destruct (target o'); [by apply (prefix_lookup_Some _ _ _ _ Ho) | by apply (prefix_lookup_Some _ _ _ _ Ho)].
  - replace (k + Z.of_nat (S j)) with (k + 1 + Z.of_nat j) by lia. by apply IHr.
Qed.

(** The global indexes a push records are positions of the transaction's own
    outputs in the vectors of their amounts. *)
Theorem global_output_indexes_resolve height tx h ti s idx s' : pushable tx s -> vectors_u32 s' ->
  pushTransaction height tx h ti s = (Some (true, idx), s') ->
  length idx = length (outputs (prefix tx)) /\
  forall j o g, outputs (prefix tx) !! j = Some o -> idx !! j = Some g -> resolves ti (Z.of_nat j) o g s'.
Proof.
  intros (Hlen & _) Hv H. apply pushTransaction_true in H as (_ & _ & keys & _ & _ & -> & ->).
  set (t := MkChainState _ _ _ _ _) in *.
  destruct (pushOutputs_resolve ti 0 (outputs (prefix tx)) t) as [Hl Hr]; [lia | lia | exact Hv |].
  split; [exact Hl|]. intros j o g Hj Hg. exact (Hr j o g Hj Hg).
Qed.

(** ** The rollback that throws

    After a deposit, a key image that is already spent makes [boost::get] throw:
    the transaction stays in the map although it was not pushed. *)
Theorem double_spend_after_deposit_throws height tx h ti s i k rest b :
  m_transactionMap s !! h = None -> inputs (prefix tx) = InMultisignature i :: InKey k :: rest ->
  checkMultisignatureInputsDiff (prefix tx) = true -> m_spent_keys s !! keyImage k = Some b ->
  pushTransaction height tx h ti s = (None, set_transactionMap (<[h := ti]> (m_transactionMap s)) s).
Proof.
  intros Hh Hi Hd Hk. unfold pushTransaction. rewrite Hh, Hd, Hi. cbn [negb spend_keys m_spent_keys set_transactionMap].
  rewrite Hk. cbn [unspend_keys]. by destruct s.
Qed.

(** ** When a push succeeds *)

Lemma spend_keys_total height before ins keys : NoDup (key_images ins) ->
  (forall k, k ∈ key_images ins -> keys !! k = None) -> exists keys', spend_keys height before ins keys = Spent keys'.
Proof.
  revert before keys. induction ins as [|i ins IH]; intros before keys Hnd Hnone; [by eexists|].
  destruct i as [b|i|i]; [exact (IH _ _ Hnd Hnone) | | exact (IH _ _ Hnd Hnone)].
  change (key_images (InKey i :: ins)) with (keyImage i :: key_images ins) in *.
  apply NoDup_cons in Hnd as [Hni Hnd]. simpl. rewrite Hnone by (by left). apply IH; [done|].
  intros k Hk. rewrite lookup_insert_ne; [apply Hnone; by right | by intros <-].
Qed.

Lemma pushTransaction_succeeds height tx h ti s : m_transactionMap s !! h = None ->
  checkMultisignatureInputsDiff (prefix tx) = true -> NoDup (key_images (inputs (prefix tx))) ->
  (forall k, k ∈ key_images (inputs (prefix tx)) -> m_spent_keys s !! k = None) ->
  forallb (multisignature_in_range (m_multisignatureOutputs s)) (inputs (prefix tx)) = true ->
  exists idx s', pushTransaction height tx h ti s = (Some (true, idx), s').
Proof.
  intros Hh Hd Hnd Hnone Hr. destruct (spend_keys_total height [] _ _ Hnd Hnone) as [keys Hk].
  unfold pushTransaction. rewrite Hh, Hd. cbn [negb m_spent_keys set_transactionMap]. rewrite Hk.
  cbn [m_multisignatureOutputs set_spent_keys set_transactionMap]. rewrite Hr. cbn [negb].
  destruct (pushOutputs _ _ _ _) as [js r]. by eexists _, _.
Qed.

(** ** The state is a function of the chain *)

Lemma replay_fun c s t : replay c s -> replay c t -> s = t.
Proof.
  intros H. revert t. induction H as [|c s height tx h ti idx s' H IH Hp Hpush]; intros t Ht.
  - inversion Ht as [|? ? ? ? ? ? ? ? ? ? ? E]; [done|]. by destruct c.
  - inversion Ht as [E|c' t0 height' tx' h' ti' idx' t' Ht0 Hp' Hpush' E]; [by destruct c|]. subst.
    apply app_inj_2 in E as [-> [= -> -> -> ->]]; [|done]. rewrite (IH _ Ht0) in Hpush. rewrite Hpush in Hpush'. by simplify_eq.
Qed.

Lemma reaches_equiv c s t : reaches c s -> reaches c t -> s ≡ t.
Proof.
  intros (s0 & Hs & Es)%reaches_replay (t0 & Ht & Et)%reaches_replay.
  rewrite (replay_fun _ _ _ Hs Ht) in Es. by rewrite Es, Et.
Qed.

Lemma reaches_snoc_inv c e s : reaches (c ++ [e]) s -> exists s', popTransaction (ct_tx e) (ct_hash e) s = (Some tt, s') /\ reaches c s'.
Proof.
  intros H. pose proof H as (s1 & Hr & E)%reaches_replay.
  inversion Hr as [Hnil|c' s0 height tx h ti idx s1' Hr' Hp Hpush Hsnoc]; [by destruct c|]. subst.
  apply app_inj_2 in Hsnoc as [-> [=<-]]; [|done]. cbn [ct_tx ct_hash].
  apply popTransaction_push in Hpush as (s'' & Hpop & Es); [|by eapply replay_compact|done].
  pose proof (popTransaction_proper tx h s s1 E) as Hpr. rewrite Hpop in Hpr.
  destruct (popTransaction tx h s) as [r s'] eqn:Es'. destruct Hpr as [Hr1 _]. simpl in Hr1. subst r.
  exists s'. split; [done|]. exact (reaches_pop c (MkChainTx height tx h ti) s s' H Es').
Qed.

(** ** Witnesses *)

Module Example.
Definition coinbase : Transaction :=
  MkTransaction (MkTransactionPrefix 1 10 [InBase (MkBaseInput 0)]
    [MkTransactionOutput 5 (OutKey (MkKeyOutput [1])); MkTransactionOutput 7 (OutMultisignature (MkMultisignatureOutput [[2]] 1 21900));
     MkTransactionOutput 5 (OutKey (MkKeyOutput [3]))] []) [].
Definition transfer : Transaction :=
  MkTransaction (MkTransactionPrefix 2 0
    [InKey (MkKeyInput 5 [0] [9]); InMultisignature (MkMultisignatureInput 7 1 0 21900)]
    [MkTransactionOutput 7 (OutMultisignature (MkMultisignatureOutput [[4]] 1 21900)); MkTransactionOutput 5 (OutKey (MkKeyOutput [5]))] []) [].

Definition s1 : ChainState := Eval vm_compute in (pushTransaction 0 coinbase [100] (MkTransactionIndex 0 0) empty_state).2.
Definition s2 : ChainState := Eval vm_compute in (pushTransaction 1 transfer [101] (MkTransactionIndex 1 1) s1).2.

Lemma reaches_s1 : reaches [MkChainTx 0 coinbase [100] (MkTransactionIndex 0 0)] s1.
Proof.
  apply (reaches_push [] empty_state 0 coinbase [100] (MkTransactionIndex 0 0) [0; 0; 1]); [constructor | | by vm_compute].
  split; [by vm_compute|]. split; [constructor | by vm_compute].
Qed.

Lemma transfer_pushable : pushable transfer s1.
Proof. split; [by vm_compute|]. split; [by repeat constructor | by vm_compute]. Qed.
End Example.

Lemma popTransaction_undoes_push_witness :
  exists s'', popTransaction Example.transfer [101] Example.s2 = (Some tt, s'') /\ s'' ≡ Example.s1.
Proof.
  apply (popTransaction_undoes_push 1 Example.transfer [101] (MkTransactionIndex 1 1) _ Example.s1 [1; 2] Example.s2 Example.reaches_s1);
    [exact Example.transfer_pushable | by vm_compute].
Defined.

Lemma global_output_indexes_resolve_witness :
  length [1; 2] = length (outputs (prefix Example.transfer)) /\
  forall j o g, outputs (prefix Example.transfer) !! j = Some o -> [1; 2] !! j = Some g ->
    resolves (MkTransactionIndex 1 1) (Z.of_nat j) o g Example.s2.
Proof.
  apply (global_output_indexes_resolve 1 Example.transfer [101] (MkTransactionIndex 1 1) Example.s1 [1; 2] Example.s2);
    [exact Example.transfer_pushable | | by vm_compute].
  assert (Hs : forall A (m : gmap Z (list A)), map_Forall (fun _ l => Z.of_nat (length l) < 2 ^ 32) m ->
    forall a, Z.of_nat (length (amount_outputs m a)) < 2 ^ 32).
  { intros A m H a. unfold amount_outputs. destruct (m !! a) eqn:E; [exact (H a _ E) | done]. }
  intros a. split; apply Hs, (bool_decide_eq_true_1 (map_Forall _ _)); by vm_compute.
Defined.

End BlockchainState.
