(* ===== verification/CryptoInterface.v ===== *)
(** The cryptographic primitives the validation rules call, as an interface: curve
    point decoding, signatures, ring signatures, scalar multiplication
    (src/crypto/crypto.cpp) and the proof-of-work hashes (src/crypto/slow-hash.c
    and its variants).  The rules are modelled for any instance of the class. *)

From S2P Require Import Prelude.
From S2P Require Import IntUtil.
From S2P Require Import Varint.
From S2P Require Import Serialization.
From S2P Require Import CryptoNote.
From S2P Require Import CryptoNoteSerialization.
From S2P Require Import CryptoNoteFormatUtils.
From S2P Require Import Currency.
From S2P Require Import Difficulty.
Import CryptoNoteSerialization FormatUtils Difficulty.

Class CryptoOps := {
  check_key : PublicKey -> bool;
  check_signature : Hash -> PublicKey -> Signature -> bool;
  check_ring_signature : Hash -> KeyImage -> list PublicKey -> list Signature -> bool;
  scalarmultKey : KeyImage -> KeyImage -> KeyImage;
  cn_slow_hash_v0 : bytes -> Hash;
  cn_fast_slow_hash_v1 : bytes -> Hash;
  cn_conceal_slow_hash_v0 : bytes -> Hash;
  cn_gpu_hash_v0 : bytes -> Hash
}.

Module CryptoInterface.
Section crypto.
Context `{CryptoOps}.

(** ** CryptoNoteFormatUtils.cpp *)

Definition get_block_longhash (b : Block) : option Hash :=
  bd ← get_block_hashing_blob b;
  Some (if 8 <=? majorVersion (header b) then cn_gpu_hash_v0 bd
        else if 7 <=? majorVersion (header b) then cn_conceal_slow_hash_v0 bd
        else if 3 <=? majorVersion (header b) then cn_fast_slow_hash_v1 bd
        else cn_slow_hash_v0 bd).

(** One output; [None] is the write through [error] where it is not checked
    against null, [error] telling whether the caller passed a string. *)
Definition check_out_valid (error : bool) (version : Z) (out : TransactionOutput) : option bool :=
  match target out with
  | OutKey o => Some (negb (out_amount out =? 0) && check_key (ko_key o))
  | OutMultisignature o =>
      if version <? TRANSACTION_VERSION_2 then (if error then Some false else None)
      else Some (negb (Z.of_nat (length (mo_keys o)) <? requiredSignatureCount o) && forallb check_key (mo_keys o))
  end.

Fixpoint check_outs_loop (error : bool) (version : Z) (outs : list TransactionOutput) : option bool :=
  match outs with
  | [] => Some true
  | out :: outs =>
      ok ← check_out_valid error version out;
      if ok : bool then check_outs_loop error version outs else Some false
  end.

Definition check_outs_valid (error : bool) (tx : TransactionPrefix) : option bool :=
  check_outs_loop error (version tx) (outputs tx).

(** ** Currency.cpp *)

Definition checkProofOfWork (block : Block) (currentDifficulty : Z) : bool :=
  match get_block_longhash block with
  | None => false
  | Some proofOfWork => check_hash proofOfWork currentDifficulty
  end.

End crypto.
End CryptoInterface.
