(* ===== verification/Blockchain.v ===== *)
(** src/CryptoNoteCore/Blockchain.cpp: the validation of blocks and transactions
    and the operations that append a block to the main chain and remove the last
    one.  The clock is an argument of the rules that read it, the checkpoints and
    the currency are fixed, and the cryptography is the interface [CryptoOps].
    The transaction pool and the alternative chains are in [TransactionPool] and
    [AlternativeChains]; the files are not part of
    the state. *)

From S2P Require Import Prelude.
From S2P Require Import IntUtil.
From S2P Require Import Varint.
From S2P Require Import Serialization.
From S2P Require Import CryptoNote.
From S2P Require Import CryptoNoteSerialization.
From S2P Require Import CryptoNoteFormatUtils.
From S2P Require Import Currency.
From S2P Require Import Difficulty.
From S2P Require Import DepositIndex.
From S2P Require Import ChainIndex.
From S2P Require Import Checkpoints.
From S2P Require Import TransactionExtra.
From S2P Require Import BlockchainIndices.
From S2P Require Import UpgradeDetector.
From S2P Require Import BlockchainState.
From S2P Require Import CryptoInterface.
Import BinarySerializer CryptoNoteSerialization FormatUtils TransactionExtra BlockchainState CryptoInterface Config.

Module Blockchain.

(** ** Data: Blockchain.h *)

Record TransactionEntry := MkTransactionEntry {
  te_tx : Transaction;
  m_global_output_indexes : list Z
}.

Record BlockEntry := MkBlockEntry {
  bl : Block;
  be_height : Z;
  block_cumulative_size : Z;
  cumulative_difficulty : Z;
  already_generated_coins : Z;
  be_transactions : list TransactionEntry
}.

Record Blockchain := MkBlockchain {
  m_blocks : list BlockEntry;
  chainState : ChainState;
  m_blockIndex : list Hash;
  m_depositIndex : DepositIndex.DepositIndex;
  m_timestampIndex : TimestampBlocksIndex.index;
  m_generatedTransactionsIndex : GeneratedTransactionsIndex.index;
  m_upgradeDetectorV2 : UpgradeDetector.UpgradeDetector;
  m_upgradeDetectorV3 : UpgradeDetector.UpgradeDetector;
  m_upgradeDetectorV4 : UpgradeDetector.UpgradeDetector;
  m_upgradeDetectorV7 : UpgradeDetector.UpgradeDetector;
  m_upgradeDetectorV8 : UpgradeDetector.UpgradeDetector;
  m_current_block_cumul_sz_limit : Z
}.

Definition set_chainState (s : ChainState) (bc : Blockchain) : Blockchain :=
  MkBlockchain (m_blocks bc) s (m_blockIndex bc) (m_depositIndex bc) (m_timestampIndex bc)
    (m_generatedTransactionsIndex bc) (m_upgradeDetectorV2 bc) (m_upgradeDetectorV3 bc) (m_upgradeDetectorV4 bc)
    (m_upgradeDetectorV7 bc) (m_upgradeDetectorV8 bc) (m_current_block_cumul_sz_limit bc).

(** [common::medianValue] at 64 bits. *)
Definition medianValue (v : list Z) : Z :=
  match v with
  | [] => 0
  | [x] => x
  | _ =>
      let n := (length v / 2)%nat in
      let v := merge_sort Z.le v in
      if Nat.odd (length v) then nth n v 0 else u64 (nth (n - 1) v 0 + nth n v 0) / 2
  end.

Section blockchain.
Context `{CryptoOps} (c : Currency) (pow : Float.Float.fl -> Float.Float.fl -> Float.Float.fl) (m_checkpoints : gmap Z Hash).

(** ** Heights and versions *)

Definition getCurrentBlockchainHeight (blocks : list BlockEntry) : Z := u32 (Z.of_nat (length blocks)).

Definition getTailId (bc : Blockchain) : Hash :=
  match m_blocks bc with
  | [] => NULL_HASH
  | _ => default NULL_HASH (BlockIndex.getTailId (m_blockIndex bc))
  end.

Definition get_block_major_version_for_height (bc : Blockchain) (height : Z) : Z :=
  let upgraded d := UpgradeDetector.detectorUpgradeHeight c d <? height in
  if upgraded (m_upgradeDetectorV8 bc) then UpgradeDetector.m_targetVersion (m_upgradeDetectorV8 bc)
  else if upgraded (m_upgradeDetectorV7 bc) then UpgradeDetector.m_targetVersion (m_upgradeDetectorV7 bc)
  else if upgraded (m_upgradeDetectorV4 bc) then UpgradeDetector.m_targetVersion (m_upgradeDetectorV4 bc)
  else if upgraded (m_upgradeDetectorV3 bc) then UpgradeDetector.m_targetVersion (m_upgradeDetectorV3 bc)
  else if upgraded (m_upgradeDetectorV2 bc) then UpgradeDetector.m_targetVersion (m_upgradeDetectorV2 bc)
  else BLOCK_MAJOR_VERSION_1.

Definition checkBlockVersion (bc : Blockchain) (b : Block) : bool :=
  majorVersion (header b) =? get_block_major_version_for_height bc (get_block_height b).

Definition isInCheckpointZone (height : Z) : bool := Checkpoints.is_in_checkpoint_zone height m_checkpoints.

(** ** Timestamps *)

Definition check_block_timestamp (timestamps : list Z) (b : Block) : bool :=
  if Z.of_nat (length timestamps) <? m_timestampCheckWindow c then true
  else negb (timestamp (header b) <? medianValue timestamps).

(** [now] is [time(nullptr)]. *)
Definition check_block_timestamp_main (now : Z) (blocks : list BlockEntry) (b : Block) : bool :=
  if u64 (now + m_blockFutureTimeLimit c) <? timestamp (header b) then false
  else
    let size := Z.of_nat (length blocks) in
    let offset := if size <=? m_timestampCheckWindow c then 0 else size - m_timestampCheckWindow c in
    check_block_timestamp ((fun e => timestamp (header (bl e))) <$> drop (Z.to_nat offset) blocks) b.

(** ** Difficulty *)

Definition getDifficultyForNextBlock (bc : Blockchain) : option Z :=
  let blocks := m_blocks bc in
  let size := Z.of_nat (length blocks) in
  let BlockMajorVersion := get_block_major_version_for_height bc (u32 size) in
  let offset := size - Z.min size (CurrencyImpl.difficultyBlocksCountByBlockVersion c BlockMajorVersion) in
  let offset := if offset =? 0 then 1 else offset in
  let window := drop (Z.to_nat offset) blocks in
  let timestamps := (fun e => timestamp (header (bl e))) <$> window in
  let commulative_difficulties := cumulative_difficulty <$> window in
  let block_index := size in
  let block_major_version := get_block_major_version_for_height bc (block_index + 1) in
  if 8 <=? block_major_version then Difficulty.nextDifficultyLWMA1 c timestamps commulative_difficulties block_index
  else if 4 <=? block_major_version then Difficulty.nextDifficultyLWMA3 timestamps commulative_difficulties
  else Difficulty.nextDifficulty c block_major_version block_index timestamps commulative_difficulties.

(** ** Block sizes *)

Definition getBackwardBlocksSize (from_height count : Z) (blocks : list BlockEntry) : list Z :=
  let start_offset := (from_height + 1) - Z.min (from_height + 1) count in
  block_cumulative_size <$> take (Z.to_nat (from_height + 1 - start_offset)) (drop (Z.to_nat start_offset) blocks).

Definition get_last_n_blocks_sizes (count : Z) (blocks : list BlockEntry) : list Z :=
  match blocks with
  | [] => []
  | _ => getBackwardBlocksSize (Z.of_nat (length blocks) - 1) count blocks
  end.

Definition checkCumulativeBlockSize (cumulativeBlockSize height : Z) : bool :=
  negb (CurrencyImpl.maxBlockCumulativeSize c height <? cumulativeBlockSize).

Definition update_next_comulative_size_limit (blocks : list BlockEntry) : Z :=
  let median := medianValue (get_last_n_blocks_sizes (m_rewardBlocksWindow c) blocks) in
  let median := if median <=? m_blockGrantedFullRewardZone c then m_blockGrantedFullRewardZone c else median in
  u64 (median * 2).

(** ** Transaction inputs

    Reading a block past the end of the chain throws
    ([SwappedVector::operator[]]); a rule that throws is [None]. *)

Definition is_tx_spendtime_unlocked (now : Z) (blocks : list BlockEntry) (unlock_time : Z) : bool :=
  if unlock_time <? m_maxBlockHeight c
  then unlock_time <=? u64 (u32 (getCurrentBlockchainHeight blocks - 1) + m_lockedTxAllowedDeltaBlocks c)
  else unlock_time <=? u64 (now + m_lockedTxAllowedDeltaSeconds c).

Definition transactionByIndex (blocks : list BlockEntry) (index : TransactionIndex) : option TransactionEntry :=
  e ← blocks !! Z.to_nat (ti_block index);
  be_transactions e !! Z.to_nat (ti_transaction index).

Definition have_tx_keyimg_as_spent (s : ChainState) (key_im : KeyImage) : bool :=
  bool_decide (is_Some (m_spent_keys s !! key_im)).

(** [outputs_visitor::handle_output]: the key that is collected. *)
Definition handle_output (now : Z) (blocks : list BlockEntry) (tx : Transaction) (out : TransactionOutput) : option PublicKey :=
  if negb (is_tx_spendtime_unlocked now blocks (unlockTime (prefix tx))) then None
  else match target out with
       | OutKey o => Some (ko_key o)
       | OutMultisignature _ => None
       end.

(** The loop of [scanOutputKeysForIndexes] over the absolute offsets: the keys and
    the block of the last output; the inner [None] is [false]. *)
Fixpoint scan_loop (now : Z) (blocks : list BlockEntry) (amount_outs_vec : list (TransactionIndex * Z))
    (absolute_offsets : list Z) : option (option (list PublicKey * Z)) :=
  match absolute_offsets with
  | [] => Some (Some ([], 0))
  | i :: rest =>
      match amount_outs_vec !! Z.to_nat i with
      | None => Some None
      | Some (ti, k) =>
          tx ← transactionByIndex blocks ti;
          match outputs (prefix (te_tx tx)) !! Z.to_nat k with
          | None => Some None
          | Some out =>
              match handle_output now blocks (te_tx tx) out with
              | None => Some None
              | Some key =>
                  r ← scan_loop now blocks amount_outs_vec rest;
                  match r with
                  | None => Some None
                  | Some (ks, last) => Some (Some (key :: ks, match rest with [] => ti_block ti | _ => last end))
                  end
              end
          end
      end
  end.

(** The keys of the ring and the new value of [*pmax_related_block_height]. *)
Definition scanOutputKeysForIndexes (now : Z) (blocks : list BlockEntry) (s : ChainState) (tx_in_to_key : KeyInput)
    (max_related_block_height : Z) : option (option (list PublicKey * Z)) :=
  match m_outputs s !! ki_amount tx_in_to_key with
  | None => Some None
  | Some amount_outs_vec =>
      if bool_decide (outputIndexes tx_in_to_key = []) then Some None
      else
        r ← scan_loop now blocks amount_outs_vec (relative_output_offsets_to_absolute (outputIndexes tx_in_to_key));
        match r with
        | None => Some None
        | Some (ks, last) => Some (Some (ks, Z.max max_related_block_height last))
        end
  end.

Definition UPGRADE_HEIGHT_V5 : Z := 98160.

(** The identity of the curve and the order of its prime subgroup. *)
Definition key_image_I : KeyImage := 1 :: replicate 31 0.
Definition key_image_L : KeyImage :=
  [237; 211; 245; 92; 26; 99; 18; 88; 214; 156; 247; 162; 222; 249; 222; 20] ++ replicate 15 0 ++ [16].

Definition check_tx_input (now : Z) (blocks : list BlockEntry) (s : ChainState) (txin : KeyInput) (tx_prefix_hash : Hash)
    (sig : list Signature) (max_related_block_height : Z) : option (bool * Z) :=
  r ← scanOutputKeysForIndexes now blocks s txin max_related_block_height;
  match r with
  | None => Some (false, max_related_block_height)
  | Some (output_keys, max_related_block_height) =>
      let height := getCurrentBlockchainHeight blocks in
      let ring := Z.of_nat (length (outputIndexes txin)) in
      let ok :=
        if negb (ring =? Z.of_nat (length output_keys)) then false
        else if (UPGRADE_HEIGHT_V4 <? height) && (height <? UPGRADE_HEIGHT_V5) && (ring <? 3) then false
        else if negb (Z.of_nat (length sig) =? Z.of_nat (length output_keys)) then false
        else if isInCheckpointZone height then true
        else if negb (bool_decide (scalarmultKey (keyImage txin) key_image_L = key_image_I)) then false
        else check_ring_signature tx_prefix_hash (keyImage txin) output_keys sig in
      Some (ok, max_related_block_height)
  end.

(** The loop over the keys of a multisignature output: every signature in order
    matches a later key. *)
Fixpoint check_signatures (prefixHash : Hash) (keys : list PublicKey) (sigs : list Signature) : bool :=
  match sigs with
  | [] => true
  | sig :: sigs' =>
      match keys with
      | [] => false
      | key :: keys => if check_signature prefixHash key sig then check_signatures prefixHash keys sigs'
                       else check_signatures prefixHash keys sigs
      end
  end.

(** [transactionSignatures] has [signatureCount] elements: the length is fixed
    when the transaction is parsed. *)
Definition validateInput (now : Z) (blocks : list BlockEntry) (s : ChainState) (input : MultisignatureInput)
    (transactionPrefixHash : Hash) (transactionSignatures : list Signature) : option bool :=
  match m_multisignatureOutputs s !! mi_amount input with
  | None => Some false
  | Some amountOutputs =>
      match amountOutputs !! Z.to_nat (outputIndex input) with
      | None => Some false
      | Some usage =>
          if isUsed usage then Some false
          else
            outputTransaction ← transactionByIndex blocks (transactionIndex usage);
            if negb (is_tx_spendtime_unlocked now blocks (unlockTime (prefix (te_tx outputTransaction)))) then Some false
            else
              out ← outputs (prefix (te_tx outputTransaction)) !! Z.to_nat (mou_outputIndex usage);
              match target out with
              | OutKey _ => None
              | OutMultisignature output =>
                  if negb (signatureCount input =? requiredSignatureCount output) then Some false
                  else if negb (mi_term input =? mo_term output) then Some false
                  else if negb (mo_term output =? 0)
                          && (getCurrentBlockchainHeight blocks <? u32 (ti_block (transactionIndex usage) + mo_term output))
                  then Some false
                  else if isInCheckpointZone (getCurrentBlockchainHeight blocks) then Some true
                  else Some (check_signatures transactionPrefixHash (mo_keys output)
                               (take (Z.to_nat (signatureCount input)) transactionSignatures))
              end
      end
  end.

(** The loop of [checkTransactionInputs]; the signatures are read by the index of
    the input, which [assert] keeps in range. *)
Fixpoint check_inputs_loop (now : Z) (blocks : list BlockEntry) (s : ChainState) (tx_prefix_hash : Hash)
    (ins : list TransactionInput) (signatures : list (list Signature)) (max_used_block_height : Z) : option (bool * Z) :=
  match ins with
  | [] => Some (true, max_used_block_height)
  | InKey in_to_key :: ins =>
      if bool_decide (outputIndexes in_to_key = []) then Some (false, max_used_block_height)
      else if have_tx_keyimg_as_spent s (keyImage in_to_key) then Some (false, max_used_block_height)
      else
        sig ← head signatures;
        r ← check_tx_input now blocks s in_to_key tx_prefix_hash sig max_used_block_height;
        let '(ok, max_used_block_height) := r : bool * Z in
        if ok then check_inputs_loop now blocks s tx_prefix_hash ins (tail signatures) max_used_block_height
        else Some (false, max_used_block_height)
  | InMultisignature i :: ins =>
      sig ← head signatures;
      ok ← validateInput now blocks s i tx_prefix_hash sig;
      if ok : bool then check_inputs_loop now blocks s tx_prefix_hash ins (tail signatures) max_used_block_height
      else Some (false, max_used_block_height)
  | InBase _ :: _ => Some (false, max_used_block_height)
  end.

(** The result and [*pmax_used_block_height]. *)
Definition checkTransactionInputs (now : Z) (blocks : list BlockEntry) (s : ChainState) (tx : Transaction) : option (bool * Z) :=
  check_inputs_loop now blocks s (getObjectHash serializeTransactionPrefix (prefix tx)).2
    (inputs (prefix tx)) (signatures tx) 0.

(** ** Transaction outputs *)

(** [check_tx_outputs_visitor] *)
Definition check_tx_output (height version : Z) (out : TransactionOutput) : bool :=
  match target out with
  | OutKey o => negb (out_amount out =? 0) && check_key (ko_key o)
  | OutMultisignature o =>
      if version <? TRANSACTION_VERSION_2 then false
      else if negb (CurrencyImpl.validateOutput c (out_amount out) o height) then false
      else if Z.of_nat (length (mo_keys o)) <? requiredSignatureCount o then false
      else negb (existsb (fun key => negb (check_key key)) (mo_keys o))
  end.

Definition check_tx_outputs (tx : Transaction) (height : Z) : bool :=
  forallb (check_tx_output height (version (prefix tx))) (outputs (prefix tx)).

(** ** The miner transaction *)

Definition prevalidate_miner_transaction (b : Block) (height : Z) : option bool :=
  let tx := baseTransaction b in
  match inputs (prefix tx) with
  | [i] =>
      if 1 <? Z.of_nat (length (signatures tx)) then Some false
      else match i with
           | InBase i =>
               if negb (blockIndex i =? height) then Some false
               else if negb (unlockTime (prefix tx) =? u64 (height + m_minedMoneyUnlockWindow c)) then Some false
               else
                 ok ← check_outs_valid false (prefix tx);
                 if negb ok then Some false
                 else if negb (check_tx_outputs tx height) then Some false
                 else Some (check_outs_overflow (prefix tx))
           | _ => Some false
           end
  | _ => Some false
  end.

(** The reward and the emission change. *)
Definition validate_miner_transaction (b : Block) (height cumulativeBlockSize alreadyGeneratedCoins fee : Z)
    (blocks : list BlockEntry) : option (Z * Z) :=
  let minerReward := foldl (fun r o => u64 (r + out_amount o)) 0 (outputs (prefix (baseTransaction b))) in
  let blocksSizeMedian := medianValue (get_last_n_blocks_sizes (m_rewardBlocksWindow c) blocks) in
  r ← CurrencyImpl.getBlockReward c blocksSizeMedian cumulativeBlockSize alreadyGeneratedCoins fee height;
  let '(reward, emissionChange) := r in
  if (reward <? minerReward) && (10 <? u64 (minerReward - reward)) then None
  else if minerReward <? reward then None
  else Some (reward, emissionChange).

(** ** Appending a block *)

(** How [pushBlock] ends: [bvc.m_added_to_main_chain], a rejection with
    [bvc.m_verification_failed] or without, or an exception. *)
Inductive push_result :=
  | Added
  | Rejected (m_verification_failed : bool)
  | Thrown.

(** The locals of the loop over the transactions. *)
Record Accum := MkAccum {
  acc_state : ChainState;
  acc_transactions : list TransactionEntry;
  acc_transactionIndex : TransactionIndex;
  acc_size : Z;
  acc_fee : Z;
  acc_interest : Z
}.

Inductive loop_result :=
  | LoopDone (a : Accum)
  | LoopInvalid (a : Accum)
  | LoopThrown (a : Accum).

(** The result of [pushTransaction] is not looked at: the global indexes of a
    rejected transaction stay empty. *)
Definition push_one (height : Z) (tx : Transaction) (h : Hash) (ti : TransactionIndex) (s : ChainState) :
    option TransactionEntry * ChainState :=
  match pushTransaction height tx h ti s with
  | (None, s) => (None, s)
  | (Some (_, indexes), s) => (Some (MkTransactionEntry tx indexes), s)
  end.

(** [toBinaryArray(tx).size()] of a transaction that serializes. *)
Definition blob_size (tx : Transaction) : Z := Z.of_nat (length (default [] (toBinaryArray serializeTransaction tx))).

Fixpoint push_loop (now : Z) (blocks : list BlockEntry) (blockData : Block) (height : Z)
    (transactions : list Transaction) (hashes : list Hash) (a : Accum) : loop_result :=
  match transactions, hashes with
  | [], _ => LoopDone a
  | _ :: _, [] => LoopThrown a
  | tx :: transactions, tx_id :: hashes =>
      let blob_size := blob_size tx in
      let fee := CurrencyImpl.getTransactionFee c pow tx height in
      let version_ok := negb ((majorVersion (header blockData) =? BLOCK_MAJOR_VERSION_1)
                              && (TRANSACTION_VERSION_1 <? version (prefix tx))) in
      match checkTransactionInputs now blocks (acc_state a) tx with
      | None => LoopThrown a
      | Some (inputs_ok, _) =>
          if negb (version_ok && inputs_ok && check_tx_outputs tx height) then LoopInvalid a
          else
            let ti := MkTransactionIndex (ti_block (acc_transactionIndex a)) (u16 (ti_transaction (acc_transactionIndex a) + 1)) in
            match push_one height tx tx_id ti (acc_state a) with
            | (None, s) =>
                LoopThrown (MkAccum s (acc_transactions a) ti (acc_size a) (acc_fee a) (acc_interest a))
            | (Some entry, s) =>
                push_loop now blocks blockData height transactions hashes
                  (MkAccum s (acc_transactions a ++ [entry]) ti (u64 (acc_size a + blob_size)) (u64 (acc_fee a + fee))
                     (u64 (acc_interest a + CurrencyImpl.calculateTotalTransactionInterest c pow tx height)))
            end
      end
  end.

(** [popTransactions]: the transactions of the block from the last to the first,
    then the miner transaction.  [None] is an exception. *)
Fixpoint pop_loop (txs : list (Transaction * Hash)) (s : ChainState) : option unit * ChainState :=
  match txs with
  | [] => (Some tt, s)
  | (tx, h) :: txs =>
      match popTransaction tx h s with
      | (None, s) => (None, s)
      | (Some _, s) => pop_loop txs s
      end
  end.

Definition popTransactions (transactions : list TransactionEntry) (b : Block) (minerTransactionHash : Hash) (s : ChainState) :
    option unit * ChainState :=
  pop_loop (rev (zip (te_tx <$> tail transactions) (transactionHashes b)) ++ [(baseTransaction b, minerTransactionHash)]) s.

(** The change of the locked amount by one transaction. *)
Definition deposit_inputs (deposit : Z) (ins : list TransactionInput) : Z :=
  foldl (fun deposit i =>
    match i with
    | InMultisignature multisign => if 0 <? mi_term multisign then i64 (deposit - mi_amount multisign) else deposit
    | _ => deposit
    end) deposit ins.

Definition deposit_outputs (deposit : Z) (outs : list TransactionOutput) : Z :=
  foldl (fun deposit out =>
    match target out with
    | OutMultisignature multisign => if 0 <? mo_term multisign then i64 (deposit + out_amount out) else deposit
    | OutKey _ => deposit
    end) deposit outs.

Definition pushToDepositIndex (block : BlockEntry) (interest : Z) (d : DepositIndex.DepositIndex) :
    option DepositIndex.DepositIndex :=
  let deposit := foldl (fun deposit tx =>
    deposit_outputs (deposit_inputs deposit (inputs (prefix (te_tx tx)))) (outputs (prefix (te_tx tx)))) 0 (be_transactions block) in
  DepositIndex.pushBlock deposit interest d.

(** [pushBlock(const BlockEntry&)]; [None] is undefined behaviour: a block
    without a miner input. *)
Definition pushBlockEntry (block : BlockEntry) (bc : Blockchain) : option Blockchain :=
  let blockHash := (get_block_hash (bl block)).2 in
  generated ← GeneratedTransactionsIndex.add (bl block) (m_generatedTransactionsIndex bc);
  Some (MkBlockchain (m_blocks bc ++ [block]) (chainState bc) (BlockIndex.push blockHash (m_blockIndex bc)).2 (m_depositIndex bc)
    (TimestampBlocksIndex.add (timestamp (header (bl block))) blockHash (m_timestampIndex bc)) generated.2
    (m_upgradeDetectorV2 bc) (m_upgradeDetectorV3 bc) (m_upgradeDetectorV4 bc) (m_upgradeDetectorV7 bc) (m_upgradeDetectorV8 bc)
    (m_current_block_cumul_sz_limit bc)).

Definition set_depositIndex (d : DepositIndex.DepositIndex) (bc : Blockchain) : Blockchain :=
  MkBlockchain (m_blocks bc) (chainState bc) (m_blockIndex bc) d (m_timestampIndex bc) (m_generatedTransactionsIndex bc)
    (m_upgradeDetectorV2 bc) (m_upgradeDetectorV3 bc) (m_upgradeDetectorV4 bc) (m_upgradeDetectorV7 bc) (m_upgradeDetectorV8 bc)
    (m_current_block_cumul_sz_limit bc).

(** Every detector is told of the change of [m_blocks]. *)
Definition notifyDetectors (f : list Block -> UpgradeDetector.UpgradeDetector -> UpgradeDetector.UpgradeDetector) (bc : Blockchain) : Blockchain :=
  let blocks := bl <$> m_blocks bc in
  MkBlockchain (m_blocks bc) (chainState bc) (m_blockIndex bc) (m_depositIndex bc) (m_timestampIndex bc) (m_generatedTransactionsIndex bc)
    (f blocks (m_upgradeDetectorV2 bc)) (f blocks (m_upgradeDetectorV3 bc)) (f blocks (m_upgradeDetectorV4 bc))
    (f blocks (m_upgradeDetectorV7 bc)) (f blocks (m_upgradeDetectorV8 bc)) (m_current_block_cumul_sz_limit bc).

Definition set_size_limit (limit : Z) (bc : Blockchain) : Blockchain :=
  MkBlockchain (m_blocks bc) (chainState bc) (m_blockIndex bc) (m_depositIndex bc) (m_timestampIndex bc) (m_generatedTransactionsIndex bc)
    (m_upgradeDetectorV2 bc) (m_upgradeDetectorV3 bc) (m_upgradeDetectorV4 bc) (m_upgradeDetectorV7 bc) (m_upgradeDetectorV8 bc) limit.

(** The checks of [pushBlock] before the state changes: [None] when they pass,
    with the difficulty of the block. *)
Definition check_block (now : Z) (bc : Blockchain) (blockData : Block) (blockHash : Hash) : push_result + Z :=
  let height := getCurrentBlockchainHeight (m_blocks bc) in
  if BlockIndex.hasBlock blockHash (m_blockIndex bc) then inl (Rejected true)
  else if negb (checkBlockVersion bc blockData) then inl (Rejected true)
  else if match BlockIndex.getBlockHeight blockHash (m_blockIndex bc) with
          | Some h => bool_decide (is_Some (getMergeMiningTagFromExtra (extra (prefix (baseTransaction blockData)))))
                      && (UPGRADE_HEIGHT_V6 <=? h)
          | None => false
          end then inl (Rejected false)
  else if negb (bool_decide (previousBlockHash (header blockData) = getTailId bc)) then inl (Rejected true)
  else if negb (check_block_timestamp_main now (m_blocks bc) blockData) then inl (Rejected true)
  else
    match getDifficultyForNextBlock bc with
    | None => inl Thrown
    | Some currentDifficulty =>
        if currentDifficulty =? 0 then inl (Rejected false)
        else if negb (if isInCheckpointZone height then (Checkpoints.check_block height blockHash m_checkpoints).1
                      else checkProofOfWork blockData currentDifficulty) then inl (Rejected true)
        else match prevalidate_miner_transaction blockData (u32 (Z.of_nat (length (m_blocks bc)))) with
             | None => inl Thrown
             | Some false => inl (Rejected true)
             | Some true => inr currentDifficulty
             end
    end.

(** [pushBlock(blockData, transactions, id, bvc)] *)
Definition pushBlock (now : Z) (bc : Blockchain) (blockData : Block) (transactions : list Transaction) (id : Hash) :
    push_result * Blockchain :=
  match check_block now bc blockData id with
  | inl r => (r, bc)
  | inr currentDifficulty =>
      let minerTransactionHash := (getObjectHash serializeTransaction (baseTransaction blockData)).2 in
      let height := u32 (Z.of_nat (length (m_blocks bc))) in
      let pop entries s :=
        let '(r, s) := popTransactions entries blockData minerTransactionHash s in
        (match r with None => Thrown | Some _ => Rejected true end, set_chainState s bc) in
      let ti := MkTransactionIndex height 0 in
      match push_one height (baseTransaction blockData) minerTransactionHash ti (chainState bc) with
      | (None, s) => (Thrown, set_chainState s bc)
      | (Some coinbase, s) =>
          match push_loop now (m_blocks bc) blockData height transactions (transactionHashes blockData)
                  (MkAccum s [coinbase] ti (CurrencyImpl.getObjectBinarySize (baseTransaction blockData)) 0 0) with
          | LoopThrown a => (Thrown, set_chainState (acc_state a) bc)
          | LoopInvalid a => pop (acc_transactions a) (acc_state a)
          | LoopDone a =>
              if negb (checkCumulativeBlockSize (acc_size a) height) then (Rejected true, set_chainState (acc_state a) bc)
              else
                let coins := match last (m_blocks bc) with None => 0 | Some e => already_generated_coins e end in
                match validate_miner_transaction blockData height (acc_size a) coins (acc_fee a) (m_blocks bc) with
                | None => pop (acc_transactions a) (acc_state a)
                | Some (_, emissionChange) =>
                    let difficulty := match last (m_blocks bc) with
                                      | None => currentDifficulty
                                      | Some e => u64 (currentDifficulty + cumulative_difficulty e)
                                      end in
                    let block := MkBlockEntry blockData height (acc_size a) difficulty
                                   (u64 (coins + emissionChange + acc_interest a)) (acc_transactions a) in
                    match pushBlockEntry block (set_chainState (acc_state a) bc) with
                    | None => (Thrown, set_chainState (acc_state a) bc)
                    | Some bc' =>
                        match pushToDepositIndex block (acc_interest a) (m_depositIndex bc') with
                        | None => (Thrown, bc')
                        | Some d =>
                            let bc' := notifyDetectors (UpgradeDetector.blockPushed c) (set_depositIndex d bc') in
                            (Added, set_size_limit (update_next_comulative_size_limit (m_blocks bc')) bc')
                        end
                    end
                end
          end
      end
  end.

(** ** Removing the last block *)

(** [popBlock] without the return of the transactions to the pool; [None] is an
    exception or an access out of range. *)
Definition popBlock (blockHash : Hash) (bc : Blockchain) : option unit * Blockchain :=
  match last (m_blocks bc) with
  | None => (Some tt, bc)
  | Some back =>
      match popTransactions (be_transactions back) (bl back) (getObjectHash serializeTransaction (baseTransaction (bl back))).2
              (chainState bc) with
      | (None, s) => (None, set_chainState s bc)
      | (Some _, s) =>
          let bc := set_chainState s bc in
          match GeneratedTransactionsIndex.remove (bl back) (m_generatedTransactionsIndex bc), DepositIndex.popBlock (m_depositIndex bc) with
          | Some (_, generated), Some d =>
              let bc := MkBlockchain (take (length (m_blocks bc) - 1) (m_blocks bc)) (chainState bc) (BlockIndex.pop (m_blockIndex bc)) d
                (TimestampBlocksIndex.remove (timestamp (header (bl back))) blockHash (m_timestampIndex bc)).2 generated
                (m_upgradeDetectorV2 bc) (m_upgradeDetectorV3 bc) (m_upgradeDetectorV4 bc) (m_upgradeDetectorV7 bc)
                (m_upgradeDetectorV8 bc) (m_current_block_cumul_sz_limit bc) in
              (Some tt, notifyDetectors UpgradeDetector.blockPopped bc)
          | _, _ => (None, bc)
          end
      end
  end.

(** [removeLastBlock]: the deposit index is not popped and the detectors are not told. *)
Definition removeLastBlock (bc : Blockchain) : option bool * Blockchain :=
  match last (m_blocks bc) with
  | None => (Some false, bc)
  | Some back =>
      match popTransactions (be_transactions back) (bl back) (getObjectHash serializeTransaction (baseTransaction (bl back))).2
              (chainState bc) with
      | (None, s) => (None, set_chainState s bc)
      | (Some _, s) =>
          let bc := set_chainState s bc in
          match BlockIndex.getBlockId (be_height back) (m_blockIndex bc),
                GeneratedTransactionsIndex.remove (bl back) (m_generatedTransactionsIndex bc) with
          | Some blockHash, Some (_, generated) =>
              (Some true, MkBlockchain (take (length (m_blocks bc) - 1) (m_blocks bc)) (chainState bc) (BlockIndex.pop (m_blockIndex bc))
                (m_depositIndex bc) (TimestampBlocksIndex.remove (timestamp (header (bl back))) blockHash (m_timestampIndex bc)).2 generated
                (m_upgradeDetectorV2 bc) (m_upgradeDetectorV3 bc) (m_upgradeDetectorV4 bc) (m_upgradeDetectorV7 bc)
                (m_upgradeDetectorV8 bc) (m_current_block_cumul_sz_limit bc))
          | _, _ => (None, bc)
          end
      end
  end.

(** The loop of [rollbackBlockchainTo]; [n] is the number of blocks above [height]. *)
Fixpoint rollback_loop (n : nat) (bc : Blockchain) : bool * Blockchain :=
  match n with
  | O => (true, bc)
  | S n =>
      match removeLastBlock bc with
      | (Some true, bc) => rollback_loop n bc
      | (_, bc) => (false, bc)
      end
  end.

Definition rollbackBlockchainTo (height : Z) (bc : Blockchain) : bool * Blockchain :=
  let size := Z.of_nat (length (m_blocks bc)) in
  if size <=? height then (true, bc) else rollback_loop (Z.to_nat (size - u32 (height + 1))) bc.

End blockchain.
End Blockchain.
