(* ===== verification/BlockchainInvariant.v ===== *)
(** The consistency of the blockchain (src/CryptoNoteCore/Blockchain.cpp): every
    index of [Blockchain] is the one its blocks determine, [pushBlock] and
    [popBlock] keep it so, popping undoes pushing, and a block that is rejected
    for its transactions or its reward leaves the state as it was. *)

From S2P Require Import Prelude.
From S2P Require Import Varint.
From S2P Require Import Serialization.
From S2P Require Import CryptoNote.
From S2P Require Import CryptoNoteSerialization.
From S2P Require Import CryptoNoteFormatUtils.
From S2P Require Import Float.
From S2P Require Import Currency.
From S2P Require Import CurrencyBuilder.
From S2P Require Import DepositIndex.
From S2P Require Import ChainIndex.
From S2P Require Import Checkpoints.
From S2P Require Import TransactionExtra.
From S2P Require Import BlockchainIndices.
From S2P Require Import UpgradeDetector.
From S2P Require Import BlockchainState.
From S2P Require Import CryptoInterface.
From S2P Require Import Blockchain.
Import BinarySerializer CryptoNoteSerialization FormatUtils TransactionExtra BlockchainState CryptoInterface Blockchain.

Module BlockchainInvariant.

Section invariant.
Context `{CryptoOps} (c : Currency) (pow : Float.fl -> Float.fl -> Float.fl) (m_checkpoints : gmap Z Hash).

(** ** Inputs that pass the check can be spent *)

Lemma validateInput_ok now blocks s i ph sig : validateInput c m_checkpoints now blocks s i ph sig = Some true ->
  multisignature_in_range (m_multisignatureOutputs s) (InMultisignature i) = true /\
  multisignature_unused (m_multisignatureOutputs s) (InMultisignature i) = true.
Proof.
  unfold validateInput, multisignature_in_range, multisignature_unused, amount_outputs.
  destruct (m_multisignatureOutputs s !! mi_amount i) as [l|]; [|done]. simpl.
  destruct (l !! Z.to_nat (outputIndex i)) as [u|] eqn:E; [|done].
  destruct (isUsed u); [done|]. intros _. split; [|done]. apply lookup_lt_Some in E.
  apply negb_true_iff, Z.leb_gt. lia.
Qed.

Definition no_base (ins : list TransactionInput) : Prop := Forall (fun i => match i with InBase _ => False | _ => True end) ins.

Lemma check_inputs_loop_ok now blocks s ph ins sigs m m' :
  check_inputs_loop c m_checkpoints now blocks s ph ins sigs m = Some (true, m') ->
  (forall k, k ∈ key_images ins -> m_spent_keys s !! k = None) /\
  forallb (multisignature_in_range (m_multisignatureOutputs s)) ins = true /\
  forallb (multisignature_unused (m_multisignatureOutputs s)) ins = true /\ no_base ins.
Proof.
  revert sigs m. induction ins as [|i ins IH]; intros sigs m Hc; [split; [set_solver | split; [done | split; [done | constructor]]]|].
  destruct i as [b|i|i]; cbn [check_inputs_loop] in Hc; [done| |].
  - case_bool_decide; [done|]. unfold have_tx_keyimg_as_spent in Hc. case_bool_decide as Hs; [done|].
    destruct (head sigs) as [sig|]; [|done]. cbn [mbind option_bind] in Hc.
    destruct (check_tx_input _ _ _ _ _ _ _ _ _) as [[[] m1]|]; [|done|done]. cbn [mbind option_bind] in Hc.
    apply IH in Hc as (Hk & Hr & Hu & Hb). split; [|split; [exact Hr | split; [exact Hu | by constructor]]].
    intros k [->|Hin]%elem_of_cons; [by apply eq_None_not_Some | by apply Hk].
  - destruct (head sigs) as [sig|]; [|done]. cbn [mbind option_bind] in Hc.
    destruct (validateInput _ _ _ _ _ _ _ _) as [[]|] eqn:Ev; [|done|done]. cbn [mbind option_bind] in Hc.
    apply IH in Hc as (Hk & Hr & Hu & Hb). apply validateInput_ok in Ev as [Ev1 Ev2].
    split; [exact Hk|]. cbn [forallb]. rewrite Ev1, Ev2, Hr, Hu. split; [done|]. split; [done|]. by constructor.
Qed.

(** ** The transactions of a block *)

Abbreviation tx_hash tx := ((getObjectHash serializeTransaction tx).2).

(** The transactions from position [k] of the block at [height]. *)
Fixpoint block_chain (height k : Z) (l : list (Transaction * Hash)) : list ChainTx :=
  match l with
  | [] => []
  | (tx, h) :: l => MkChainTx height tx h (MkTransactionIndex height k) :: block_chain height (k + 1) l
  end.

Lemma block_chain_app height k l l' :
  block_chain height k (l ++ l') = block_chain height k l ++ block_chain height (k + Z.of_nat (length l)) l'.
Proof.
  revert k. induction l as [|[tx h] l IH]; intros k; simpl; [by rewrite Z.add_0_r|]. rewrite IH. do 3 f_equal. lia.
Qed.

Lemma block_chain_hashes height k l : ct_hash <$> block_chain height k l = l.*2.
Proof. revert k. induction l as [|[tx h] l IH]; intros k; simpl; [done|]. by rewrite IH. Qed.

(** The indexes of the outputs fit the 16 bits they are kept in, and those of the deposits
    are not negative. *)
Definition index_widths (tx : Transaction) : Prop :=
  Z.of_nat (length (outputs (prefix tx))) <= 2 ^ 16 /\ Forall (fun r => 0 <= r.2) (multisignature_refs (inputs (prefix tx))).

(** What [check_tx_semantic] of Core.cpp asks of a transaction before it enters the pool:
    inputs, and no key image or deposit twice among them. *)
Definition admissible (tx : Transaction) : Prop :=
  inputs (prefix tx) <> [] /\ NoDup (key_images (inputs (prefix tx))) /\ checkMultisignatureInputsDiff (prefix tx) = true /\ index_widths tx.

(** ** The transactions of the chain *)

(** The state of the chain under transactions that are pushed after their inputs were
    checked, as [pushBlock] does, or that are miner transactions, under pushes that are
    refused, and under pops of the last transaction. *)
Inductive history : list ChainTx -> ChainState -> Prop :=
  | history_empty : history [] empty_state
  | history_push ch s now blocks m height tx h ti idx s' : history ch s -> index_widths tx ->
      checkTransactionInputs c m_checkpoints now blocks s tx = Some (true, m) \/ (exists b, inputs (prefix tx) = [InBase b]) ->
      pushTransaction height tx h ti s = (Some (true, idx), s') -> history (ch ++ [MkChainTx height tx h ti]) s'
  | history_refuse ch s height tx h ti idx s' : history ch s ->
      pushTransaction height tx h ti s = (Some (false, idx), s') -> history ch s'
  | history_pop ch e s s' : history (ch ++ [e]) s ->
      popTransaction (ct_tx e) (ct_hash e) s = (Some tt, s') -> history ch s'.

Lemma history_reaches ch s : history ch s -> reaches ch s.
Proof.
  induction 1 as [|ch s now blocks m height tx h ti idx s' _ IH [Hl Hpos] Hc Hp|ch s height tx h ti idx s' _ IH Hp|ch e s s' _ IH Hp].
  - constructor.
  - eapply reaches_push; [exact IH| |exact Hp]. split; [exact Hl|]. split; [exact Hpos|]. destruct Hc as [Hc|[b ->]]; [|done].
    by apply check_inputs_loop_ok in Hc as (_ & _ & Hu & _).
  - by eapply reaches_reject.
  - by eapply reaches_pop.
Qed.

(** A transaction of the chain does not pass the check again. *)
Lemma known_fails now blocks ch s tx e m : reaches ch s -> e ∈ ch -> ct_tx e = tx -> inputs (prefix tx) <> [] ->
  Forall (fun r => 0 <= r.2) (multisignature_refs (inputs (prefix tx))) -> checkTransactionInputs c m_checkpoints now blocks s tx <> Some (true, m).
Proof.
  intros Hr He Ht Hne Hpos Hc. apply check_inputs_loop_ok in Hc as (Hk & Hrange & Hu & Hb). apply reaches_represents in Hr.
  destruct (inputs (prefix tx)) as [|i ins] eqn:Ei; [done|]. apply Forall_cons in Hb as [Hb _]. destruct i as [b|k|k]; [done| |].
  - assert (keyImage k ∈ key_images (tx_inputs e)) as Hin by (rewrite Ht, Ei; by left).
    specialize (Hk (keyImage k) ltac:(by left)). by rewrite (proj2 (rep_spent_keys _ _ Hr _ (ct_height e)) (ex_intro _ e (conj He (conj Hin eq_refl)))) in Hk.
  - apply (unused_refs _ _ (mi_amount k, outputIndex k) (chain_refs ch) _ Hpos Hu Hrange (rep_multisignatureOutputs _ _ Hr)); [by left|].
    apply list_elem_of_bind. exists e. split; [|exact He]. rewrite Ht, Ei. by left.
Qed.

(** Pushing a checked transaction extends the chain. *)
Lemma push_one_reaches ch height tx h ti s : reaches ch s -> admissible tx -> h ∉ ct_hash <$> ch ->
  (forall k, k ∈ key_images (inputs (prefix tx)) -> m_spent_keys s !! k = None) ->
  forallb (multisignature_in_range (m_multisignatureOutputs s)) (inputs (prefix tx)) = true ->
  forallb (multisignature_unused (m_multisignatureOutputs s)) (inputs (prefix tx)) = true ->
  exists idx s', push_one height tx h ti s = (Some (MkTransactionEntry tx idx), s') /\
    reaches (ch ++ [MkChainTx height tx h ti]) s'.
Proof.
  intros Hr (_ & Hnd & Hd & Hl & Hpos) Hh Hk Hrange Hu.
  assert (m_transactionMap s !! h = None) as Hnone.
  { apply eq_None_not_Some. intros [ti' E]. apply reaches_represents in Hr.
    apply (rep_transactionMap _ _ Hr) in E as (e & He & <- & _). apply Hh. by apply list_elem_of_fmap_2. }
  destruct (pushTransaction_succeeds height tx h ti s Hnone Hd Hnd Hk Hrange) as (idx & s' & E).
  exists idx, s'. unfold push_one. rewrite E. split; [done|].
  by eapply reaches_push; [exact Hr | split; [exact Hl | split; [exact Hpos | exact Hu]] | exact E].
Qed.

(** The locals of the loop after the transactions [p]. *)
Definition accumulated (ch : list ChainTx) (height size : Z) (p : list (Transaction * Hash)) (a : Accum) : Prop :=
  reaches (ch ++ block_chain height 0 p) (acc_state a) /\
  te_tx <$> acc_transactions a = p.*1 /\
  acc_transactionIndex a = MkTransactionIndex height (Z.of_nat (length p) - 1) /\
  acc_size a = foldl (fun z p => u64 (z + blob_size p.1)) size (tail p) /\
  acc_interest a = foldl (fun i p => u64 (i + CurrencyImpl.calculateTotalTransactionInterest c pow p.1 height)) 0 (tail p) /\
  Forall (fun p => no_base (inputs (prefix p.1))) (tail p).

(** A hash that is already there is that of the same transaction. *)
Definition no_collision (ch : list ChainTx) (l : list (Transaction * Hash)) : Prop :=
  forall tx h, (tx, h) ∈ l -> h ∈ ct_hash <$> ch -> exists e, e ∈ ch /\ ct_tx e = tx.

Lemma no_collision_snoc ch height p tx h txs hashes : h ∉ hashes -> no_collision (ch ++ block_chain height 0 p) (zip (tx :: txs) (h :: hashes)) ->
  no_collision (ch ++ block_chain height 0 (p ++ [(tx, h)])) (zip txs hashes).
Proof.
  intros Hn Hc tx' h' Hin Hh. rewrite block_chain_app, app_assoc, fmap_app in Hh. cbn [block_chain fmap list_fmap ct_hash] in Hh.
  apply elem_of_app in Hh as [Hh|Hh%list_elem_of_singleton].
  - destruct (Hc tx' h' ltac:(by right) Hh) as (e & He & Et). exists e. split; [|exact Et]. rewrite block_chain_app, app_assoc. apply elem_of_app. by left.
  - subst h'. by apply elem_of_zip_r in Hin.
Qed.

Lemma push_loop_accumulates now blocks bd ch height size txs hashes p a :
  accumulated ch height size p a -> p <> [] -> Forall admissible txs -> length txs = length hashes ->
  NoDup hashes -> no_collision (ch ++ block_chain height 0 p) (zip txs hashes) -> Z.of_nat (length p + length txs) <= 2 ^ 16 ->
  match push_loop c pow m_checkpoints now blocks bd height txs hashes a with
  | LoopDone a' => accumulated ch height size (p ++ zip txs hashes) a'
  | LoopInvalid a' => exists n, accumulated ch height size (p ++ take n (zip txs hashes)) a'
  | LoopThrown _ => True
  end.
Proof.
  revert hashes p a. induction txs as [|tx txs IH]; intros hashes p a Ha Hp Hadm Hlen Hnd Hcol Hsz.
  { simpl. by rewrite app_nil_r. }
  destruct hashes as [|h hashes]; [done|]. cbn [push_loop zip].
  apply Forall_cons in Hadm as [Htx Hadm]. apply NoDup_cons in Hnd as [Hnh Hnd]. pose proof Ha as (Hr & Htxs & Hti & Hsize & Hint & Hbase).
  destruct (checkTransactionInputs _ _ _ _ _ _) as [[ok m]|] eqn:Ec; [|done].
  destruct ok.
  2:{ rewrite andb_false_r. exists 0%nat. simpl. by rewrite app_nil_r. }
  assert (h ∉ ct_hash <$> (ch ++ block_chain height 0 p)) as Hh.
  { intros Hin. destruct (Hcol tx h ltac:(by left) Hin) as (e & He & Et). destruct Htx as (Hne & _ & _ & _ & Hpos).
    by eapply known_fails in Ec. }
  pose proof Ec as (Hk & Hrange & Hu & Hb)%check_inputs_loop_ok.
  destruct (negb (_ && _)) eqn:Eok; [exists 0%nat; simpl; by rewrite app_nil_r|]. clear Eok.
  rewrite Hti. cbn [ti_block ti_transaction]. cbn [length] in Hsz, Hlen.
  replace (Z.of_nat (length p) - 1 + 1) with (Z.of_nat (length p)) by lia.
  assert (u16 (Z.of_nat (length p)) = Z.of_nat (length p)) as -> by (apply Z.mod_small; lia).
  set (ti := MkTransactionIndex height (Z.of_nat (length p))).
  destruct (push_one_reaches _ height tx h ti _ Hr Htx Hh Hk Hrange Hu) as (idx & s' & E & Hr').
  rewrite E. rewrite <- app_assoc in Hr'.
  match goal with |- match push_loop _ _ _ _ _ _ _ _ _ ?a with _ => _ end => set (a0 := a) end.
  assert (accumulated ch height size (p ++ [(tx, h)]) a0) as Ha0.
  { split; [|split; [|split; [|split; [|split]]]]; subst a0; cbn [acc_state acc_transactions acc_transactionIndex acc_size acc_interest].
    - by rewrite block_chain_app.
    - by rewrite !fmap_app, Htxs.
    - subst ti. rewrite length_app. simpl. f_equal. lia.
    - rewrite Hsize. destruct p as [|x p]; [done|]. simpl. by rewrite foldl_app.
    - rewrite Hint. destruct p as [|x p]; [done|]. simpl. by rewrite foldl_app.
    - destruct p as [|x p]; [done|]. cbn [tail app] in *. apply Forall_app. split; [exact Hbase|]. by constructor. }
  specialize (IH hashes (p ++ [(tx, h)]) a0 Ha0 ltac:(by destruct p) Hadm ltac:(lia) Hnd).
  rewrite length_app in IH. cbn [length] in IH. specialize (IH (no_collision_snoc _ _ _ _ _ _ _ Hnh Hcol) ltac:(lia)). rewrite <- !app_assoc in IH. cbn [app] in IH.
  destruct (push_loop _ _ _ _ _ _ _ _ _ _) as [a'|a'|a']; [done| |done].
  destruct IH as [n Hn]. exists (S n). rewrite <- app_assoc in Hn. exact Hn.
Qed.

Lemma pop_loop_reaches ch height p s : reaches (ch ++ block_chain height 0 p) s ->
  exists s', pop_loop (rev p) s = (Some tt, s') /\ reaches ch s'.
Proof.
  revert s. induction p as [|[tx h] p IH] using rev_ind; intros s Hr.
  { simpl in Hr. rewrite app_nil_r in Hr. by exists s. }
  rewrite rev_app_distr. cbn [rev app pop_loop]. rewrite block_chain_app, app_assoc in Hr. cbn [block_chain] in Hr.
  apply reaches_snoc_inv in Hr as (s' & Hpop & Hr). cbn [ct_tx ct_hash] in Hpop. rewrite Hpop. by apply IH.
Qed.

Lemma zip_take_fst {A B} (l : list A) (k : list B) n : length l = length k ->
  zip (take n (zip l k)).*1 k = take n (zip l k).
Proof.
  revert k n. induction l as [|x l IH]; intros [|y k] [|n] Hl; simpl in *; try done. f_equal. apply IH. lia.
Qed.

(** ** Consistency *)

Abbreviation block_id b := ((get_block_hash b).2).

Definition entry_chain (e : BlockEntry) : list ChainTx :=
  block_chain (be_height e) 0 (zip (te_tx <$> be_transactions e) (tx_hash (baseTransaction (bl e)) :: transactionHashes (bl e))).

(** The change of the deposits by a block, and the interest it pays. *)
Definition entry_deposit (e : BlockEntry) : Z :=
  foldl (fun deposit tx =>
    deposit_outputs (deposit_inputs deposit (inputs (prefix (te_tx tx)))) (outputs (prefix (te_tx tx)))) 0 (be_transactions e).

Definition entry_interest (e : BlockEntry) : Z :=
  foldl (fun i tx => u64 (i + CurrencyImpl.calculateTotalTransactionInterest c pow tx (be_height e))) 0
    (te_tx <$> tail (be_transactions e)).

Definition entry_ok (i : nat) (e : BlockEntry) : Prop :=
  be_height e = Z.of_nat i /\ GeneratedTransactionsIndex.coinbase_height (bl e) = Some (Z.of_nat i) /\
  head (te_tx <$> be_transactions e) = Some (baseTransaction (bl e)) /\
  length (be_transactions e) = S (length (transactionHashes (bl e))) /\
  Z.of_nat (length (transactionHashes (bl e))) < 2 ^ 16 /\
  transactionHashes (bl e) = (fun x => tx_hash (te_tx x)) <$> tail (be_transactions e) /\
  Forall (fun x => no_base (inputs (prefix (te_tx x)))) (tail (be_transactions e)).

Record consistent (bound : Z) (bc : Blockchain) : Prop := {
  con_bound : Z.of_nat (length (m_blocks bc)) <= bound;
  con_entries i e : m_blocks bc !! i = Some e -> entry_ok i e;
  con_state : reaches (m_blocks bc ≫= entry_chain) (chainState bc);
  con_index : m_blockIndex bc = (fun e => block_id (bl e)) <$> m_blocks bc;
  con_index_NoDup : NoDup (m_blockIndex bc);
  con_timestamps_sorted : key_sorted (m_timestampIndex bc);
  con_timestamps : m_timestampIndex bc ≡ₚ (fun e => (timestamp (header (bl e)), block_id (bl e))) <$> m_blocks bc;
  con_generated : GeneratedTransactionsIndex.represents (m_generatedTransactionsIndex bc)
    ((fun e => GeneratedTransactionsIndex.block_count (bl e)) <$> m_blocks bc);
  con_deposits : DepositIndex.reaches (m_depositIndex bc) ((fun e => (entry_deposit e, entry_interest e)) <$> m_blocks bc);
  con_detectors : Forall (fun d => UpgradeDetector.follows c d.1 bound (bl <$> m_blocks bc) d.2)
    [(BLOCK_MAJOR_VERSION_2, m_upgradeDetectorV2 bc); (BLOCK_MAJOR_VERSION_3, m_upgradeDetectorV3 bc);
     (BLOCK_MAJOR_VERSION_4, m_upgradeDetectorV4 bc); (BLOCK_MAJOR_VERSION_7, m_upgradeDetectorV7 bc);
     (BLOCK_MAJOR_VERSION_8, m_upgradeDetectorV8 bc)]
}.

(** A block as [addNewBlock] offers it: the identifier is the hash of the block, and the
    transactions are those the pool keeps under the hashes the block names, each handed out
    once.  Their numbers fit the 16 bits of the indexes, and no two different transactions
    have the same hash. *)
Record offered_block (bc : Blockchain) (blockData : Block) (transactions : list Transaction) (id : Hash) : Prop := {
  offered_id : id = block_id blockData;
  offered_transactions : transactionHashes blockData = (fun tx => tx_hash tx) <$> transactions;
  offered_once : NoDup (transactionHashes blockData);
  offered_count : Z.of_nat (length transactions) < 2 ^ 16;
  offered_coinbase : index_widths (baseTransaction blockData);
  offered_admissible : Forall admissible transactions;
  offered_hashes tx tx' : tx ∈ (ct_tx <$> (m_blocks bc ≫= entry_chain)) ++ [baseTransaction blockData] ->
    tx' ∈ baseTransaction blockData :: transactions -> tx_hash tx = tx_hash tx' -> tx = tx'
}.

(** The block passes all its checks up to the size, and is too large: [pushBlock] rejects
    it with its transactions pushed (Blockchain.cpp, line 2764). *)
Definition oversized (now : Z) (bc : Blockchain) (blockData : Block) (transactions : list Transaction) (id : Hash) : bool :=
  match check_block c m_checkpoints now bc blockData id with
  | inl _ => false
  | inr _ =>
      let height := u32 (Z.of_nat (length (m_blocks bc))) in
      let ti := MkTransactionIndex height 0 in
      match push_one height (baseTransaction blockData) (tx_hash (baseTransaction blockData)) ti (chainState bc) with
      | (None, _) => false
      | (Some coinbase, s) =>
          match push_loop c pow m_checkpoints now (m_blocks bc) blockData height transactions (transactionHashes blockData)
                  (MkAccum s [coinbase] ti (CurrencyImpl.getObjectBinarySize (baseTransaction blockData)) 0 0) with
          | LoopDone a => negb (checkCumulativeBlockSize c (acc_size a) height)
          | _ => false
          end
      end
  end.

(** [pushBlock] ends with transactions of the block left in the state: on that branch, or
    by an exception after the checks that come before the state changes. *)
Definition leaks (now : Z) (bc : Blockchain) (blockData : Block) (transactions : list Transaction) (id : Hash) : bool :=
  oversized now bc blockData transactions id
  || match check_block c m_checkpoints now bc blockData id, pushBlock c pow m_checkpoints now bc blockData transactions id with
     | inr _, (Thrown, _) => true
     | _, _ => false
     end.

(** ** The transactions of the chain and their hashes *)

Lemma block_chain_elem height k l x : x ∈ block_chain height k l -> (ct_tx x, ct_hash x) ∈ l.
Proof.
  revert k. induction l as [|[tx h] l IH]; intros k; cbn [block_chain]; [by intros ?%elem_of_nil|].
  intros [->|Hx]%elem_of_cons; [by left | right; by eapply IH].
Qed.

Lemma zip_fmap_elem {A B} (f : A -> B) l x y : (x, y) ∈ zip l (f <$> l) -> x ∈ l /\ y = f x.
Proof.
  induction l as [|z l IH]; [by intros ?%elem_of_nil|]. cbn [fmap list_fmap zip zip_with].
  intros [[= -> ->]|Hin]%elem_of_cons; [split; [by left|done]|]. destruct (IH Hin). split; [by right|done].
Qed.

Lemma entry_chain_elem i e x : entry_ok i e -> x ∈ entry_chain e ->
  ct_hash x = tx_hash (ct_tx x) /\ (ct_tx x = baseTransaction (bl e) \/ no_base (inputs (prefix (ct_tx x)))).
Proof.
  intros (_ & _ & Hhead & _ & _ & Hh & Hb) Hx%block_chain_elem. destruct (be_transactions e) as [|t ts]; [done|].
  injection Hhead as Hhead. cbn [fmap list_fmap zip zip_with tail] in *. rewrite Hh in Hx. apply elem_of_cons in Hx as [[= E1 E2]|Hx].
  - rewrite E1, E2, Hhead. split; [done|by left].
  - rewrite (list_fmap_compose te_tx (fun tx => tx_hash tx)) in Hx. apply (zip_fmap_elem (fun tx => tx_hash tx)) in Hx as [Hx Hy].
    split; [exact Hy|]. right. apply list_elem_of_fmap in Hx as (y & -> & Hy'). rewrite Forall_forall in Hb. by apply Hb.
Qed.

Lemma chain_elem bound bc x : consistent bound bc -> x ∈ (m_blocks bc ≫= entry_chain) -> exists i e, m_blocks bc !! i = Some e /\ entry_ok i e /\
  ct_hash x = tx_hash (ct_tx x) /\ (ct_tx x = baseTransaction (bl e) \/ no_base (inputs (prefix (ct_tx x)))).
Proof.
  intros Hcon (e & Hx & [i Hi]%list_elem_of_lookup)%list_elem_of_bind. pose proof (con_entries _ _ Hcon i e Hi) as Hok.
  exists i, e. split; [done|]. split; [done|]. by apply (entry_chain_elem i).
Qed.

(** ** Pushing a block *)

Lemma check_block_inr now bc bd id d : check_block c m_checkpoints now bc bd id = inr d ->
  (id ∉ m_blockIndex bc) /\ inputs (prefix (baseTransaction bd)) = [InBase (MkBaseInput (u32 (Z.of_nat (length (m_blocks bc)))))].
Proof.
  unfold check_block, BlockIndex.hasBlock. case_bool_decide as Hid; [done|]. intros Hc. split; [done|]. revert Hc. cbv zeta.
  repeat match goal with |- context [if ?b then inl _ else _] => destruct b; [done|] end.
  destruct (getDifficultyForNextBlock c bc) as [diff|]; [|done].
  repeat match goal with |- context [if ?b then inl _ else _] => destruct b; [done|] end.
  destruct (prevalidate_miner_transaction _ _ _) as [[]|] eqn:Ep; [|done|done]. intros _. revert Ep.
  unfold prevalidate_miner_transaction. destruct (inputs _) as [|i [|]]; [done| |done].
  destruct (1 <? _); [done|]. destruct i as [[k]|i|i]; [|done|done]. cbn [blockIndex].
  destruct (Z.eqb_spec k (u32 (Z.of_nat (length (m_blocks bc))))) as [->|]; done.
Qed.

Definition block_size (bd : Block) (txs : list Transaction) : Z :=
  foldl (fun z tx => u64 (z + blob_size tx)) (CurrencyImpl.getObjectBinarySize (baseTransaction bd)) txs.

Section push.
Context (bound : Z) (Hbound : bound < UpgradeDetector.UNDEF_HEIGHT).
Context (now : Z) (bc : Blockchain) (bd : Block) (txs : list Transaction) (id : Hash).
Context (Hcon : consistent bound bc) (Hnew : offered_block bc bd txs id).

Abbreviation height := (Z.of_nat (length (m_blocks bc))).
Abbreviation chain := (m_blocks bc ≫= entry_chain).
Abbreviation pairs := (zip txs (transactionHashes bd)).
Abbreviation coinbase := (baseTransaction bd, tx_hash (baseTransaction bd)).

Lemma height_u32 : u32 height = height.
Proof. pose proof (con_bound _ _ Hcon). apply u32_id. unfold is_u32. change UpgradeDetector.UNDEF_HEIGHT with (2 ^ 32 - 1) in Hbound. lia. Qed.

(** The hash of the miner transaction is new: its input has the height. *)
Lemma coinbase_new : inputs (prefix (baseTransaction bd)) = [InBase (MkBaseInput height)] -> tx_hash (baseTransaction bd) ∉ ct_hash <$> chain.
Proof.
  intros Hin (x & Ex & Hx)%list_elem_of_fmap. destruct (chain_elem bound bc x Hcon Hx) as (i & e & Hi & (_ & Hc & _) & Hh & Hb).
  assert (ct_tx x = baseTransaction bd) as Et.
  { apply (offered_hashes _ _ _ _ Hnew); [apply elem_of_app; left; by apply list_elem_of_fmap_2 | by left | by rewrite <- Hh]. }
  destruct Hb as [Hb|Hb].
  - unfold GeneratedTransactionsIndex.coinbase_height in Hc. rewrite <- Hb, Et, Hin in Hc. injection Hc as Hc. apply lookup_lt_Some in Hi. lia.
  - rewrite Et, Hin in Hb. by apply Forall_cons in Hb as [? _].
Qed.

Lemma push_coinbase d : check_block c m_checkpoints now bc bd id = inr d ->
  exists entry s, push_one height coinbase.1 coinbase.2 (MkTransactionIndex height 0) (chainState bc) = (Some entry, s) /\
    forall size, accumulated chain height size [coinbase] (MkAccum s [entry] (MkTransactionIndex height 0) size 0 0).
Proof.
  intros Hc. apply check_block_inr in Hc as [_ Hin]. rewrite height_u32 in Hin.
  destruct (push_one_reaches chain height (baseTransaction bd) (tx_hash (baseTransaction bd)) (MkTransactionIndex height 0) (chainState bc))
    as (idx & s & E & Hr); [apply Hcon | | by apply coinbase_new | rewrite Hin; set_solver | by rewrite Hin | by rewrite Hin |].
  { split; [by rewrite Hin|]. split; [rewrite Hin; constructor|]. split; [unfold checkMultisignatureInputsDiff; by rewrite Hin | apply Hnew]. }
  exists (MkTransactionEntry (baseTransaction bd) idx), s. split; [exact E|]. intros size. repeat split; [exact Hr|constructor].
Qed.

Lemma offered_length : length txs = length (transactionHashes bd).
Proof. rewrite (offered_transactions _ _ _ _ Hnew). by rewrite length_fmap. Qed.

Lemma offered_no_collision : no_collision (chain ++ block_chain height 0 [coinbase]) pairs.
Proof.
  intros tx h Hin Hh. rewrite (offered_transactions _ _ _ _ Hnew) in Hin. apply (zip_fmap_elem (fun tx => tx_hash tx)) in Hin as [Hin ->].
  assert (forall x, x ∈ chain ++ block_chain height 0 [coinbase] -> ct_hash x = tx_hash (ct_tx x) /\ ct_tx x ∈ (ct_tx <$> chain) ++ [baseTransaction bd]) as Hx.
  { intros x [Hx|Hx%block_chain_elem%list_elem_of_singleton]%elem_of_app.
    - destruct (chain_elem bound bc x Hcon Hx) as (_ & _ & _ & _ & E & _). split; [exact E|]. apply elem_of_app. left. by apply list_elem_of_fmap_2.
    - injection Hx as -> ->. split; [done|]. apply elem_of_app. right. by apply list_elem_of_singleton. }
  apply list_elem_of_fmap in Hh as (x & Ex & Hx'). exists x. split; [exact Hx'|]. destruct (Hx x Hx') as [Eh Hmem].
  apply (offered_hashes _ _ _ _ Hnew); [exact Hmem | by right | by rewrite <- Eh].
Qed.

(** What the loop leaves behind, on its two ordinary exits. *)
Lemma push_transactions entry s size : accumulated chain height size [coinbase] (MkAccum s [entry] (MkTransactionIndex height 0) size 0 0) ->
  match push_loop c pow m_checkpoints now (m_blocks bc) bd height txs (transactionHashes bd)
          (MkAccum s [entry] (MkTransactionIndex height 0) size 0 0) with
  | LoopDone a => accumulated chain height size (coinbase :: pairs) a
  | LoopInvalid a => exists n, accumulated chain height size (coinbase :: take n pairs) a
  | LoopThrown _ => True
  end.
Proof.
  intros Ha. apply (push_loop_accumulates now (m_blocks bc) bd chain height size txs (transactionHashes bd) [coinbase]);
    [exact Ha | done | apply Hnew | apply offered_length | apply Hnew | apply offered_no_collision |].
  pose proof (offered_count _ _ _ _ Hnew). simpl. lia.
Qed.

(** [popTransactions] takes back whatever prefix of the block was pushed. *)
Lemma popTransactions_restores size n a : accumulated chain height size (coinbase :: take n pairs) a ->
  exists s, popTransactions (acc_transactions a) bd coinbase.2 (acc_state a) = (Some tt, s) /\ s ≡ chainState bc /\ reaches chain s.
Proof.
  intros (Hr & Htxs & _). unfold popTransactions.
  assert (te_tx <$> tail (acc_transactions a) = (take n pairs).*1) as ->.
  { destruct (acc_transactions a) as [|e es]; [done|]. simpl in Htxs |- *. by injection Htxs. }
  rewrite zip_take_fst by apply offered_length. change (rev (take n pairs) ++ [coinbase]) with (rev (coinbase :: take n pairs)).
  apply pop_loop_reaches in Hr as (s & Hp & Hr). exists s. split; [exact Hp|]. split; [|exact Hr].
  by apply (reaches_equiv chain); [|apply Hcon].
Qed.

(** A rejected block changes nothing but the state of the transactions, and that exactly
    when it is oversized. *)
Lemma rejected_restores f bc' : pushBlock c pow m_checkpoints now bc bd txs id = (Rejected f, bc') ->
  exists s, bc' = set_chainState s bc /\ (if oversized now bc bd txs id then reaches (chain ++ block_chain height 0 (coinbase :: pairs)) s
                                          else s ≡ chainState bc /\ reaches chain s).
Proof.
  assert (bc = set_chainState (chainState bc) bc) as Hself by by destruct bc.
  unfold pushBlock, oversized. destruct (check_block _ _ _ _ _ _) as [r|d] eqn:Ec.
  { intros [= -> <-]. exists (chainState bc). split; [done|]. split; [done | apply Hcon]. }
  cbv zeta. rewrite height_u32. destruct (push_coinbase d Ec) as (entry & s & Ep & Ha). cbn [fst snd] in Ep. rewrite Ep.
  set (size := CurrencyImpl.getObjectBinarySize _) in *. specialize (Ha size).
  pose proof (push_transactions entry s size Ha) as Hl. destruct (push_loop _ _ _ _ _ _ _ _ _ _) as [a|a|a]; [| |done].
  - assert (accumulated chain height size (coinbase :: take (length pairs) pairs) a) as Hl' by by rewrite take_ge.
    destruct (negb (checkCumulativeBlockSize _ _ _)).
    { intros [= _ <-]. exists (acc_state a). split; [done|]. apply Hl. }
    destruct (validate_miner_transaction _ _ _ _ _ _ _) as [[rew em]|].
    { repeat case_match; done. }
    destruct (popTransactions_restores _ _ _ Hl') as (s' & Hp & Es & Er). cbn [snd] in Hp. rewrite Hp.
    intros [= _ <-]. exists s'. by split.
  - destruct Hl as [n Hl]. destruct (popTransactions_restores _ _ _ Hl) as (s' & Hp & Es & Er). cbn [snd] in Hp. rewrite Hp.
    intros [= _ <-]. exists s'. by split.
Qed.

(** Then the miner transaction is in the state, where it was not. *)
Lemma oversized_differs s : inputs (prefix (baseTransaction bd)) = [InBase (MkBaseInput height)] ->
  reaches (chain ++ block_chain height 0 (coinbase :: pairs)) s -> ~ s ≡ chainState bc.
Proof.
  intros Hin Hr%reaches_represents (E & _). apply (coinbase_new Hin).
  assert (m_transactionMap s !! tx_hash (baseTransaction bd) = Some (MkTransactionIndex height 0)) as Em.
  { apply (rep_transactionMap _ _ Hr). eexists. split; [apply elem_of_app; right; by left|]. done. }
  rewrite E in Em. apply (rep_transactionMap _ _ (reaches_represents _ _ (con_state _ _ Hcon))) in Em as (e & He & <- & _). by apply list_elem_of_fmap_2.
Qed.

Lemma added_entry size a d em : inputs (prefix (baseTransaction bd)) = [InBase (MkBaseInput height)] ->
  accumulated chain height size (coinbase :: pairs) a ->
  let e := MkBlockEntry bd height (acc_size a) d em (acc_transactions a) in
  entry_ok (length (m_blocks bc)) e /\ entry_chain e = block_chain height 0 (coinbase :: pairs) /\ entry_interest e = acc_interest a.
Proof.
  intros Hin (_ & Htxs & _ & _ & Hint & Hbase) e. pose proof offered_length as Hlen.
  assert (te_tx <$> tail (acc_transactions a) = pairs.*1) as Htail.
  { destruct (acc_transactions a) as [|x l]; [done|]. simpl in Htxs |- *. by injection Htxs. }
  split; [split; [done|split; [|split; [|split; [|split; [|split]]]]]|split]; subst e; cbn [be_transactions bl be_height].
  - unfold GeneratedTransactionsIndex.coinbase_height. by rewrite Hin.
  - by rewrite Htxs.
  - apply (f_equal length) in Htxs. rewrite length_fmap in Htxs. rewrite Htxs. simpl.
    rewrite length_fmap, length_zip_with. lia.
  - rewrite <- Hlen. apply Hnew.
  - rewrite (list_fmap_compose te_tx (fun tx => tx_hash tx)), Htail, fst_zip by lia. apply Hnew.
  - assert (Forall (fun tx => no_base (inputs (prefix tx))) (te_tx <$> tail (acc_transactions a))) as HF by (rewrite Htail; by apply Forall_fmap).
    rewrite Forall_fmap in HF. exact HF.
  - unfold entry_chain. cbn [be_transactions bl be_height]. rewrite Htxs. f_equal.
    change ((coinbase :: pairs).*1) with (baseTransaction bd :: pairs.*1). cbn [zip zip_with]. f_equal.
    by rewrite fst_zip by lia.
  - unfold entry_interest. cbn [be_transactions be_height]. rewrite Htail, foldl_fmap. by rewrite Hint.
Qed.

Lemma sumZ_upper (m : Z) l : Forall (fun x => 0 <= x <= m) l -> 0 <= sumZ l <= m * Z.of_nat (length l).
Proof. induction 1 as [|x l Hx Hl IH]; [simpl; lia|]. change (sumZ (x :: l)) with (x + sumZ l). cbn [length]. lia. Qed.

Lemma generated_sum blocks : (forall i e, blocks !! i = Some e -> entry_ok i e) ->
  0 <= sumZ ((fun e => GeneratedTransactionsIndex.block_count (bl e)) <$> blocks) <= 2 ^ 16 * Z.of_nat (length blocks).
Proof.
  intros He. rewrite <- (length_fmap (fun e => GeneratedTransactionsIndex.block_count (bl e))). apply sumZ_upper.
  apply Forall_fmap, Forall_lookup. intros i e E. specialize (He i e E) as (_ & _ & _ & _ & He & _).
  unfold compose, GeneratedTransactionsIndex.block_count. lia.
Qed.

Lemma append_consistent e s bc1 d limit : entry_ok (length (m_blocks bc)) e -> reaches (chain ++ entry_chain e) s ->
  block_id (bl e) ∉ m_blockIndex bc -> height + 1 <= bound -> pushBlockEntry e (set_chainState s bc) = Some bc1 ->
  pushToDepositIndex e (entry_interest e) (m_depositIndex bc1) = Some d ->
  consistent bound (set_size_limit limit (notifyDetectors (UpgradeDetector.blockPushed c) (set_depositIndex d bc1))).
Proof.
  intros Hok Hr Hid Hroom Hpush Hdep. destruct Hcon as [C1 C2 C3 C4 C5 C6 C7 C8 C9 C10].
  change UpgradeDetector.UNDEF_HEIGHT with (2 ^ 32 - 1) in Hbound.
  unfold pushBlockEntry in Hpush. cbn [m_generatedTransactionsIndex set_chainState] in Hpush.
  destruct (GeneratedTransactionsIndex.add_represents (bl e) _ _ C8) as (g & Eg & Hg).
  { rewrite length_fmap. apply Hok. }
  { pose proof (generated_sum _ C2). lia. }
  { pose proof (generated_sum _ C2) as Hsum. set (sum := sumZ _) in *. destruct Hok as (_ & _ & _ & _ & Hok & _).
    unfold GeneratedTransactionsIndex.block_count. lia. }
  rewrite Eg in Hpush. cbn [mbind option_bind snd] in Hpush. injection Hpush as <-.
  cbn [m_depositIndex set_chainState] in Hdep.
  split; cbn [m_blocks chainState m_blockIndex m_depositIndex m_timestampIndex m_generatedTransactionsIndex m_upgradeDetectorV2
    m_upgradeDetectorV3 m_upgradeDetectorV4 m_upgradeDetectorV7 m_upgradeDetectorV8 set_chainState set_size_limit notifyDetectors set_depositIndex].
  - rewrite length_app. simpl. lia.
  - intros i e' [Hi|[Hi Hi']]%lookup_app_Some; [by apply C2|].
    destruct (i - length (m_blocks bc))%nat as [|k] eqn:Ek; [|done]. simpl in Hi'. simplify_eq.
    by replace i with (length (m_blocks bc)) by lia.
  - by rewrite bind_snoc.
  - unfold BlockIndex.push, BlockIndex.hasBlock. rewrite bool_decide_eq_false_2 by done. cbn [snd]. by rewrite C4, fmap_app.
  - unfold BlockIndex.push, BlockIndex.hasBlock. rewrite bool_decide_eq_false_2 by done. cbn [snd].
    apply NoDup_app. split; [done|]. split; [|apply NoDup_singleton]. by intros x Hx ->%list_elem_of_singleton.
  - by apply ordered_insert_sorted.
  - unfold TimestampBlocksIndex.add. rewrite ordered_insert_Permutation, C7, fmap_app. simpl. apply Permutation_cons_append.
  - by rewrite fmap_app.
  - rewrite fmap_app. simpl. eapply DepositIndex.reaches_push; [exact C9 | | exact Hdep].
    apply DepositIndex.reaches_history in C9 as [_ ->]. rewrite length_fmap. change UINT32_MAX with (2 ^ 32 - 1). lia.
  - rewrite fmap_app. cbn [fmap list_fmap].
    repeat (apply Forall_cons in C10 as [Cd C10]; apply Forall_cons; split;
      [apply UpgradeDetector.follows_push; [exact Cd | rewrite length_app, length_fmap; simpl; lia] | clear Cd]). constructor.
Qed.

(** The steps of [pushBlock] when it adds the block. *)
Lemma pushBlock_added bc' : pushBlock c pow m_checkpoints now bc bd txs id = (Added, bc') ->
  exists e s bc1 d limit, entry_ok (length (m_blocks bc)) e /\ bl e = bd /\ reaches (chain ++ entry_chain e) s /\
    (block_id bd ∉ m_blockIndex bc) /\ pushBlockEntry e (set_chainState s bc) = Some bc1 /\
    pushToDepositIndex e (entry_interest e) (m_depositIndex bc1) = Some d /\
    bc' = set_size_limit limit (notifyDetectors (UpgradeDetector.blockPushed c) (set_depositIndex d bc1)).
Proof.
  unfold pushBlock. destruct (check_block _ _ _ _ _ _) as [r|d] eqn:Ec.
  { intros [= -> <-]. unfold check_block in Ec. repeat (case_match; try done). }
  cbv zeta. rewrite height_u32. destruct (push_coinbase d Ec) as (entry & s & Ep & Ha). cbn [fst snd] in Ep. rewrite Ep.
  set (size := CurrencyImpl.getObjectBinarySize _) in *. specialize (Ha size).
  pose proof (push_transactions entry s size Ha) as Hl. destruct (push_loop _ _ _ _ _ _ _ _ _ _) as [a|a|a]; [| |done].
  2:{ destruct (popTransactions _ _ _ _) as [[]]; done. }
  destruct (negb _); [done|]. destruct (validate_miner_transaction _ _ _ _ _ _ _) as [[rew em]|].
  2:{ destruct (popTransactions _ _ _ _) as [[]]; done. }
  apply check_block_inr in Ec as [Hid Hin]. rewrite height_u32 in Hin.
  match goal with |- context [pushBlockEntry (MkBlockEntry _ _ _ ?x ?y _) _] => set (dd := x); set (ee := y) end.
  destruct (added_entry size a dd ee Hin Hl) as (Hok & Hch & Hint). set (e := MkBlockEntry bd height _ _ _ _) in *.
  destruct (pushBlockEntry e _) as [bc1|] eqn:E1; [|done]. rewrite <- Hint.
  destruct (pushToDepositIndex e _ _) as [di|] eqn:E2; [|done]. intros [= <-].
  exists e, (acc_state a), bc1, di. eexists. split; [exact Hok|]. split; [done|]. split; [rewrite Hch; apply Hl|].
  split; [by rewrite <- (offered_id _ _ _ _ Hnew)|]. split; [exact E1|]. split; [exact E2 | reflexivity].
Qed.

Lemma push_consistent bc' : height + 1 <= bound -> pushBlock c pow m_checkpoints now bc bd txs id = (Added, bc') -> consistent bound bc'.
Proof.
  intros Hroom (e & s & bc1 & d & limit & Hok & Hbl & Hr & Hid & E1 & E2 & ->)%pushBlock_added.
  eapply append_consistent; try done. by rewrite Hbl.
Qed.

End push.

(** ** Popping a block *)

Lemma entry_popTransactions i e s ch : entry_ok i e -> reaches (ch ++ entry_chain e) s ->
  exists s', popTransactions (be_transactions e) (bl e) (tx_hash (baseTransaction (bl e))) s = (Some tt, s') /\ reaches ch s'.
Proof.
  intros (_ & _ & Hhead & _) Hr. unfold popTransactions.
  apply pop_loop_reaches in Hr as (s' & Hp & Hr). exists s'. split; [|exact Hr]. rewrite <- Hp. f_equal.
  destruct (be_transactions e) as [|x l]; [done|]. simpl in Hhead |- *. by injection Hhead as ->.
Qed.

Lemma snoc_take {A} (l : list A) x : take (length (l ++ [x]) - 1) (l ++ [x]) = l.
Proof. rewrite length_app, Nat.add_sub. apply take_app_length. Qed.

(** [popBlock] of the last block of a consistent chain succeeds, with every part of
    the result determined by the remaining blocks. *)
Lemma popBlock_result bound bc blocks e : bound < 2 ^ 32 -> consistent bound bc -> m_blocks bc = blocks ++ [e] ->
  exists s g d, popBlock (block_id (bl e)) bc = (Some tt, notifyDetectors UpgradeDetector.blockPopped
      (MkBlockchain blocks s ((fun e => block_id (bl e)) <$> blocks) d
        (TimestampBlocksIndex.remove (timestamp (header (bl e))) (block_id (bl e)) (m_timestampIndex bc)).2 g
        (m_upgradeDetectorV2 bc) (m_upgradeDetectorV3 bc) (m_upgradeDetectorV4 bc) (m_upgradeDetectorV7 bc) (m_upgradeDetectorV8 bc)
        (m_current_block_cumul_sz_limit bc))) /\
    reaches (blocks ≫= entry_chain) s /\
    GeneratedTransactionsIndex.represents g ((fun e => GeneratedTransactionsIndex.block_count (bl e)) <$> blocks) /\
    DepositIndex.reaches d ((fun e => (entry_deposit e, entry_interest e)) <$> blocks).
Proof.
  intros Hb [C1 C2 C3 C4 C5 C6 C7 C8 C9 C10] E. rewrite E in *.
  assert (entry_ok (length blocks) e) as Hok by (apply C2; by apply list_lookup_middle).
  rewrite bind_snoc in C3. destruct (entry_popTransactions _ _ _ _ Hok C3) as (s & Hp & Hr).
  rewrite fmap_app in C8. rewrite (fmap_app _ blocks [e]) in C9. rewrite length_app in C1. cbn [length] in C1.
  destruct (GeneratedTransactionsIndex.remove_represents (bl e) _ _ _ C8) as (g & Eg & Hg).
  { rewrite length_fmap. lia. } { rewrite length_fmap. apply Hok. }
  assert (is_Some (DepositIndex.popBlock (m_depositIndex bc))) as [d Ed].
  { apply DepositIndex.reaches_history in C9 as [_ Hc]. unfold DepositIndex.popBlock. rewrite Hc, length_app, !length_fmap. cbn [length].
    rewrite (proj2 (Z.eqb_neq _ _)) by lia. destruct (last _); by eexists. }
  pose proof (DepositIndex.reaches_pop _ _ _ C9 Ed) as Hd. unfold DepositIndex.pop_back in Hd. cbn [fmap list_fmap] in Hd. rewrite snoc_take in Hd.
  exists s, g, d. split; [|done]. unfold popBlock. rewrite E, last_snoc, Hp. cbn [m_generatedTransactionsIndex m_depositIndex set_chainState].
  rewrite Eg, Ed. cbv zeta. unfold BlockIndex.pop. cbn [m_blocks m_blockIndex chainState set_chainState].
  rewrite E, C4, fmap_app. cbn [fmap list_fmap]. by rewrite !snoc_take.
Qed.

Lemma pop_consistent bound bc blocks e : bound < 2 ^ 32 -> consistent bound bc -> m_blocks bc = blocks ++ [e] ->
  exists bc', popBlock (block_id (bl e)) bc = (Some tt, bc') /\ consistent bound bc' /\ m_blocks bc' = blocks.
Proof.
  intros Hb Hcon E. destruct (popBlock_result bound bc blocks e Hb Hcon E) as (s & g & d & -> & Hs & Hg & Hd).
  eexists. split; [reflexivity|]. split; [|done]. destruct Hcon as [C1 C2 C3 C4 C5 C6 C7 C8 C9 C10]. rewrite E in *.
  rewrite length_app in C1. cbn [length] in C1. rewrite fmap_app, list_fmap_singleton in C7. rewrite C4, fmap_app in C5.
  set (ts := TimestampBlocksIndex.remove _ _ _).
  assert (key_sorted ts.2 /\ ts.2 ≡ₚ (fun e => (timestamp (header (bl e)), block_id (bl e))) <$> blocks) as [Ht1 Ht2].
  { subst ts. unfold TimestampBlocksIndex.remove.
    destruct (erase_first _ _ _) as [r|] eqn:Er; [split; [by eapply erase_first_sorted|]|exfalso].
    - apply erase_first_Permutation in Er. rewrite C7, <- Permutation_cons_append in Er. symmetry in Er. by apply Permutation_cons_inv in Er.
    - apply (erase_first_None _ _ _ Er). rewrite C7. apply elem_of_app. right. by left. }
  split; cbn [m_blocks chainState m_blockIndex m_depositIndex m_timestampIndex m_generatedTransactionsIndex m_upgradeDetectorV2
    m_upgradeDetectorV3 m_upgradeDetectorV4 m_upgradeDetectorV7 m_upgradeDetectorV8 notifyDetectors]; try done.
  - lia.
  - intros i e' Hi. apply C2. by apply lookup_app_l_Some.
  - by apply NoDup_app in C5 as [? _].
  - rewrite fmap_app in C10. cbn [fmap list_fmap] in C10.
    repeat (apply Forall_cons in C10 as [Cd C10]; apply Forall_cons; split;
      [eapply UpgradeDetector.follows_pop; exact Cd | clear Cd]). constructor.
Qed.

Lemma depositIndex_fun d d' h : DepositIndex.reaches d h -> DepositIndex.reaches d' h -> d = d'.
Proof.
  intros [H1 H2]%DepositIndex.reaches_history [H1' H2']%DepositIndex.reaches_history.
  destruct d, d'. simpl in *. by subst.
Qed.

Lemma pop_undoes_push bound now bc bd txs id bc' : bound < UpgradeDetector.UNDEF_HEIGHT ->
  consistent bound bc -> offered_block bc bd txs id -> Z.of_nat (length (m_blocks bc)) + 1 <= bound ->
  pushBlock c pow m_checkpoints now bc bd txs id = (Added, bc') ->
  exists s, popBlock id bc' = (Some tt, set_size_limit (m_current_block_cumul_sz_limit bc') (set_chainState s bc)) /\ s ≡ chainState bc.
Proof.
  intros Hb Hcon Hnew Hroom Hpush. change UpgradeDetector.UNDEF_HEIGHT with (2 ^ 32 - 1) in Hb.
  pose proof (push_consistent bound Hb now bc bd txs id Hcon Hnew bc' Hroom Hpush) as Hcon'.
  destruct (pushBlock_added bound Hb now bc bd txs id Hcon Hnew bc' Hpush) as (e & s & bc1 & d & limit & Hok & Hbl & _ & Hid & E1 & E2 & Ebc).
  unfold pushBlockEntry in E1. destruct (GeneratedTransactionsIndex.add _ _) as [[? g]|]; [|done]. injection E1 as <-.
  assert (m_blocks bc' = m_blocks bc ++ [e]) as Eb by by rewrite Ebc.
  destruct (popBlock_result bound bc' (m_blocks bc) e ltac:(lia) Hcon' Eb) as (s' & g' & d' & Hpop & Hs & Hg & Hd).
  rewrite (offered_id _ _ _ _ Hnew), <- Hbl, Hpop. exists s'.
  split; [|by apply (reaches_equiv (m_blocks bc ≫= entry_chain)); [|apply Hcon]].
  rewrite (GeneratedTransactionsIndex.represents_fun _ _ _ Hg (con_generated _ _ Hcon)), (depositIndex_fun _ _ _ Hd (con_deposits _ _ Hcon)).
  pose proof (con_detectors _ _ Hcon) as Hdet. rewrite !Forall_cons in Hdet. destruct Hdet as (D2 & D3 & D4 & D7 & D8 & _). cbn [fst snd] in *.
  rewrite <- (con_index _ _ Hcon). rewrite Ebc.
  cbn [set_size_limit notifyDetectors set_depositIndex set_chainState m_blocks chainState m_blockIndex m_depositIndex m_timestampIndex
    m_generatedTransactionsIndex m_upgradeDetectorV2 m_upgradeDetectorV3 m_upgradeDetectorV4 m_upgradeDetectorV7 m_upgradeDetectorV8
    m_current_block_cumul_sz_limit].
  rewrite fmap_app, list_fmap_singleton.
  assert (forall t d, UpgradeDetector.follows c t bound (bl <$> m_blocks bc) d ->
    UpgradeDetector.blockPopped (bl <$> m_blocks bc) (UpgradeDetector.blockPushed c ((bl <$> m_blocks bc) ++ [bl e]) d) = d) as Hpp.
  { intros t dd Hf. apply (UpgradeDetector.blockPopped_pushed c t bound); [lia | exact Hf |]. rewrite length_app, length_fmap. simpl. lia. }
  unfold notifyDetectors. cbn [m_blocks m_upgradeDetectorV2 m_upgradeDetectorV3 m_upgradeDetectorV4 m_upgradeDetectorV7 m_upgradeDetectorV8].
  rewrite (Hpp _ _ D2), (Hpp _ _ D3), (Hpp _ _ D4), (Hpp _ _ D7), (Hpp _ _ D8).
  rewrite TimestampBlocksIndex.remove_add; [done|].
  rewrite Hbl. intros Hin. apply Hid. rewrite (con_timestamps _ _ Hcon) in Hin. rewrite (con_index _ _ Hcon).
  apply list_elem_of_fmap in Hin as (e' & [= _ ->] & He'). by apply (list_elem_of_fmap_2 (fun e => block_id (bl e))).
Qed.

(** ** The versions of the blocks *)

(** What the upgrades before the last demand; their heights are in the currency. *)
Definition older_version (height : Z) : Z :=
  let upgraded version := UpgradeDetector.detectorUpgradeHeight c (UpgradeDetector.create version) <? height in
  if upgraded BLOCK_MAJOR_VERSION_7 then BLOCK_MAJOR_VERSION_7
  else if upgraded BLOCK_MAJOR_VERSION_4 then BLOCK_MAJOR_VERSION_4
  else if upgraded BLOCK_MAJOR_VERSION_3 then BLOCK_MAJOR_VERSION_3
  else if upgraded BLOCK_MAJOR_VERSION_2 then BLOCK_MAJOR_VERSION_2
  else BLOCK_MAJOR_VERSION_1.

Lemma older_version_ordered : UpgradeDetector.older_versions BLOCK_MAJOR_VERSION_8 older_version.
Proof.
  unfold older_version, BLOCK_MAJOR_VERSION_1, BLOCK_MAJOR_VERSION_2, BLOCK_MAJOR_VERSION_3, BLOCK_MAJOR_VERSION_4, BLOCK_MAJOR_VERSION_7, BLOCK_MAJOR_VERSION_8.
  split; [intros h h' Hh|intros h]; repeat match goal with |- context [?x <? ?y] => destruct (Z.ltb_spec x y) end; lia.
Qed.

(** [checkBlockVersion] demands what the theorem on the detector asks of the blocks. *)
Lemma checkBlockVersion_demanded bc b : m_upgradeDetectorV2 bc = UpgradeDetector.create BLOCK_MAJOR_VERSION_2 ->
  m_upgradeDetectorV3 bc = UpgradeDetector.create BLOCK_MAJOR_VERSION_3 -> m_upgradeDetectorV4 bc = UpgradeDetector.create BLOCK_MAJOR_VERSION_4 ->
  m_upgradeDetectorV7 bc = UpgradeDetector.create BLOCK_MAJOR_VERSION_7 ->
  checkBlockVersion c bc b = true <-> majorVersion (header b) = UpgradeDetector.demanded c older_version (m_upgradeDetectorV8 bc) (get_block_height b).
Proof. intros E2 E3 E4 E7. unfold checkBlockVersion, get_block_major_version_for_height. rewrite E2, E3, E4, E7, Z.eqb_eq. reflexivity. Qed.

(** ** Histories *)

Definition empty_blockchain (limit : Z) : Blockchain :=
  MkBlockchain [] empty_state [] DepositIndex.empty [] GeneratedTransactionsIndex.empty
    (UpgradeDetector.create BLOCK_MAJOR_VERSION_2) (UpgradeDetector.create BLOCK_MAJOR_VERSION_3)
    (UpgradeDetector.create BLOCK_MAJOR_VERSION_4) (UpgradeDetector.create BLOCK_MAJOR_VERSION_7)
    (UpgradeDetector.create BLOCK_MAJOR_VERSION_8) limit.

Lemma empty_consistent bound limit : 0 <= bound -> consistent bound (empty_blockchain limit).
Proof.
  intros Hb. split; cbn [m_blocks chainState m_blockIndex m_depositIndex m_timestampIndex m_generatedTransactionsIndex m_upgradeDetectorV2
    m_upgradeDetectorV3 m_upgradeDetectorV4 m_upgradeDetectorV7 m_upgradeDetectorV8 empty_blockchain]; try done;
    [apply reaches_empty | constructor | constructor | apply GeneratedTransactionsIndex.counts_empty
    | apply DepositIndex.reaches_empty |].
  repeat (apply Forall_cons; split; [apply UpgradeDetector.follows_create|]). constructor.
Qed.

(** The main chain under offered blocks, whatever becomes of them as long as none leaks, and
    pops of the last block, at most [bound] blocks high. *)
Inductive runs (bound : Z) : Blockchain -> Prop :=
  | runs_empty limit : runs bound (empty_blockchain limit)
  | runs_offered bc now bd txs id : runs bound bc -> offered_block bc bd txs id ->
      Z.of_nat (length (m_blocks bc)) + 1 <= bound -> leaks now bc bd txs id = false ->
      runs bound (pushBlock c pow m_checkpoints now bc bd txs id).2
  | runs_popped bc blocks e : runs bound bc -> m_blocks bc = blocks ++ [e] -> runs bound (popBlock (block_id (bl e)) bc).2.

Lemma set_chainState_consistent bound bc s : consistent bound bc -> reaches (m_blocks bc ≫= entry_chain) s ->
  consistent bound (set_chainState s bc).
Proof. intros [C1 C2 C3 C4 C5 C6 C7 C8 C9 C10] Hs. by split. Qed.

Lemma offered_consistent bound now bc bd txs id : bound < UpgradeDetector.UNDEF_HEIGHT -> consistent bound bc -> offered_block bc bd txs id ->
  Z.of_nat (length (m_blocks bc)) + 1 <= bound -> leaks now bc bd txs id = false -> consistent bound (pushBlock c pow m_checkpoints now bc bd txs id).2.
Proof.
  intros Hb Hcon Hnew Hroom Hl. unfold leaks in Hl. apply orb_false_iff in Hl as [Ho Ht].
  destruct (pushBlock c pow m_checkpoints now bc bd txs id) as [[|f|] bc'] eqn:Hp; cbn [snd].
  - by apply (push_consistent bound Hb now bc bd txs id Hcon Hnew).
  - destruct (rejected_restores bound Hb now bc bd txs id Hcon Hnew f bc' Hp) as (s & -> & Hs). rewrite Ho in Hs.
    apply set_chainState_consistent; [done | apply Hs].
  - destruct (check_block c m_checkpoints now bc bd id) as [r|d] eqn:Ec; [|done]. unfold pushBlock in Hp. rewrite Ec in Hp. by injection Hp as _ <-.
Qed.

Lemma runs_consistent bound bc : 0 <= bound < UpgradeDetector.UNDEF_HEIGHT -> runs bound bc -> consistent bound bc.
Proof.
  intros Hb. induction 1 as [limit|bc now bd txs id _ IH Hnew Hroom Hl|bc blocks e _ IH E].
  - apply empty_consistent. lia.
  - apply offered_consistent; [lia|done..].
  - destruct (pop_consistent bound bc blocks e ltac:(change UpgradeDetector.UNDEF_HEIGHT with (2 ^ 32 - 1) in Hb; lia) IH E) as (bc1 & Hp1 & Hc & _).
    by rewrite Hp1.
Qed.

(** C8: the state of the chain is the one its transactions determine.  After any
    interleaving of [pushTransaction] of transactions whose inputs [checkTransactionInputs]
    accepts in the current state, and of miner transactions, of pushes that are refused, and
    of [popTransaction] of the last one, the map has the hashes of the transactions left, the
    spent keys are their key images at their heights, the vectors by amount list their
    outputs in order, a multisignature output is marked exactly when one of them spends it,
    and the payment index holds their pairs; no key image and no deposit is spent twice.
    The outputs of a transaction are at most 2^16, the range of their indexes. *)
Theorem chain_state_represents ch s : history ch s -> represents ch s.
Proof. intros H1. by apply reaches_represents, history_reaches. Qed.

(** C4: the indexes of the blockchain.  From the empty chain, under [pushBlock] of blocks
    whatever becomes of them and [popBlock], every index stays the one the blocks of the
    chain determine: the transaction state is that of their transactions in order, the hash
    and timestamp indexes list their blocks, the transaction counts and the deposit index
    are their running sums, and the upgrade detectors have followed them.  A block brings
    the transactions that the pool keeps under the hashes it names ([offered_block]: they
    passed [check_tx_semantic], are fewer than 2^16, and no different transaction has the
    same hash); whether they are spent already, or in the chain already, is for [pushBlock]
    to find out.  Two ends of [pushBlock] are left out, because they do leave transactions
    behind ([oversized_block_leaks], [own_output_block_leaks]): the rejection for the
    cumulative size, and an exception after the first checks.  The chain is at most [bound]
    blocks high, below 2^32 - 1. *)
Theorem blockchain_consistent bound bc : 0 <= bound < UpgradeDetector.UNDEF_HEIGHT -> runs bound bc -> consistent bound bc.
Proof. apply runs_consistent. Qed.

(** C18: popping the last block undoes [pushBlock]: every part of the state but the
    cached size limit is back, the payment index up to order. *)
Theorem popBlock_undoes_pushBlock bound now bc bd txs id bc' : 0 <= bound < UpgradeDetector.UNDEF_HEIGHT ->
  runs bound bc -> offered_block bc bd txs id -> Z.of_nat (length (m_blocks bc)) + 1 <= bound ->
  pushBlock c pow m_checkpoints now bc bd txs id = (Added, bc') ->
  exists s, popBlock id bc' = (Some tt, set_size_limit (m_current_block_cumul_sz_limit bc') (set_chainState s bc)) /\ s ≡ chainState bc.
Proof. intros Hb Hr. apply pop_undoes_push; [lia | by apply runs_consistent]. Qed.

(** C19: a block that [pushBlock] rejects changes at most the state of the transactions, and
    leaves it as it was, the payment index up to order, exactly when the branch that rejects
    it is not the check of the cumulative size after the transactions were pushed: on every
    other branch the transactions pushed so far are popped again.  The block is offered as
    in [offered_block], to a chain as in [runs]. *)
Theorem rejected_block_restores bound now bc bd txs id f bc' : 0 <= bound < UpgradeDetector.UNDEF_HEIGHT ->
  runs bound bc -> offered_block bc bd txs id -> pushBlock c pow m_checkpoints now bc bd txs id = (Rejected f, bc') ->
  exists s, bc' = set_chainState s bc /\ (s ≡ chainState bc <-> oversized now bc bd txs id = false).
Proof.
  intros Hb Hr Hnew Hp. apply runs_consistent in Hr; [|done].
  destruct (rejected_restores bound ltac:(lia) now bc bd txs id Hr Hnew f bc' Hp) as (s & -> & Hs). exists s. split; [done|].
  destruct (oversized now bc bd txs id) eqn:Eo; [|by destruct Hs]. split; [|done]. intros Es. exfalso. revert Es.
  unfold oversized in Eo. destruct (check_block _ _ _ _ _ _) as [|d] eqn:Ec; [done|]. apply check_block_inr in Ec as [_ Hin].
  rewrite (height_u32 bound ltac:(lia) bc Hr) in Hin. by apply (oversized_differs bound bc bd txs id Hr Hnew).
Qed.

(** ** Defects *)

(** An input that refers to an output of the block being pushed reads past the end
    of the chain. *)
Theorem spend_of_own_block_throws now blocks s k ti o sig ph m amount_outs :
  outputIndexes k = [0] -> m_outputs s !! ki_amount k = Some ((ti, o) :: amount_outs) ->
  (length blocks <= Z.to_nat (ti_block ti))%nat -> check_tx_input c m_checkpoints now blocks s k ph sig m = None.
Proof.
  intros Hi Ho Hl. unfold check_tx_input, scanOutputKeysForIndexes. rewrite Ho, Hi. rewrite (bool_decide_eq_false_2 ([0] = [])) by congruence.
  change (relative_output_offsets_to_absolute [0]) with [0]. simpl scan_loop. unfold transactionByIndex.
  by rewrite lookup_ge_None_2.
Qed.

(** [removeLastBlock] leaves the deposits of the removed block in the deposit index. *)
Theorem removeLastBlock_keeps_deposits bound bc bc' : consistent bound bc -> removeLastBlock bc = (Some true, bc') ->
  DepositIndex.size (m_depositIndex bc') = Z.of_nat (length (m_blocks bc')) + 1.
Proof.
  intros Hcon. unfold removeLastBlock. destruct (last (m_blocks bc)) as [e|] eqn:El; [|done].
  destruct (popTransactions _ _ _ _) as [[]]; [|done]. repeat case_match; try done. intros [= <-].
  cbn [m_depositIndex m_blocks set_chainState]. destruct (DepositIndex.reaches_history _ _ (con_deposits _ _ Hcon)) as [_ Hc].
  unfold DepositIndex.size. rewrite Hc, length_fmap, length_take. apply last_snoc_inv in El as [bs ->]. rewrite length_app. simpl. lia.
Qed.

End invariant.

(** ** Examples *)

Module PushExample.
#[local] Instance trivial_crypto : CryptoOps :=
  Build_CryptoOps (fun _ => true) (fun _ _ _ => true) (fun _ _ _ _ => true) (fun _ _ => key_image_I)
    (fun _ => replicate 32 0) (fun _ => replicate 32 0) (fun _ => replicate 32 0) (fun _ => replicate 32 0).
Definition c : Currency := CurrencyImpl.CurrencyBuilder false.
Definition pow (x y : Float.fl) : Float.fl := x.
Definition coinbase (height reward : Z) : Transaction :=
  MkTransaction (MkTransactionPrefix 1 (height + 10) [InBase (MkBaseInput height)]
    [MkTransactionOutput reward (OutKey (MkKeyOutput (replicate 32 1)))] []) [].
Definition block (reward : Z) (hashes : list Hash) : Block :=
  MkBlock (MkBlockHeader 1 0 0 1000 (replicate 32 0)) (coinbase 0 reward) hashes.
Definition b0 : Block := block 5000000 [].
Definition b0_id : Hash := Eval vm_compute in (get_block_hash b0).2.
Definition bc0 : Blockchain := empty_blockchain 0.
Definition bc1 : Blockchain := Eval vm_compute in (pushBlock c pow ∅ 5000 bc0 b0 [] b0_id).2.

(** A block that pays its miner too much. *)
Definition greedy : Block := block 6000000 [].
Definition greedy_id : Hash := Eval vm_compute in (get_block_hash greedy).2.

Lemma b0_added : pushBlock c pow ∅ 5000 bc0 b0 [] b0_id = (Added, bc1).
Proof. vm_compute. reflexivity. Qed.

Lemma greedy_rejected : pushBlock c pow ∅ 5000 bc0 greedy [] greedy_id = (Rejected true, bc0).
Proof. vm_compute. reflexivity. Qed.

Lemma reward_offered reward id : id = (get_block_hash (block reward [])).2 -> offered_block bc0 (block reward []) [] id.
Proof.
  intros Hid. split; [exact Hid | done | constructor | done | | constructor |].
  - split; [by vm_compute | constructor].
  - intros tx tx' Htx%list_elem_of_singleton Htx'%list_elem_of_singleton _. by subst.
Qed.

Lemma b0_offered : offered_block bc0 b0 [] b0_id.
Proof. apply reward_offered. vm_compute. reflexivity. Qed.

Lemma greedy_offered : offered_block bc0 greedy [] greedy_id.
Proof. apply reward_offered. vm_compute. reflexivity. Qed.

(** A miner transaction with a key output and a multisignature output, and a transaction
    that spends both when they are unlocked. *)
Definition entry0 : ChainTx :=
  MkChainTx 0 (MkTransaction (MkTransactionPrefix 2 10 [InBase (MkBaseInput 0)]
    [MkTransactionOutput 5 (OutKey (MkKeyOutput (replicate 32 1))); MkTransactionOutput 7 (OutMultisignature (MkMultisignatureOutput [replicate 32 2] 1 0))] []) [])
    (replicate 32 3) (MkTransactionIndex 0 0).
Definition entry1 : ChainTx :=
  MkChainTx 12 (MkTransaction (MkTransactionPrefix 2 0 [InKey (MkKeyInput 5 [0] (replicate 32 7)); InMultisignature (MkMultisignatureInput 7 1 0 0)]
    [MkTransactionOutput 11 (OutKey (MkKeyOutput (replicate 32 2)))] []) [[replicate 64 0]; [replicate 64 0]])
    (replicate 32 4) (MkTransactionIndex 12 1).
Definition s1 : ChainState := Eval vm_compute in (pushTransaction 0 (ct_tx entry0) (ct_hash entry0) (ct_index entry0) empty_state).2.
Definition s2 : ChainState := Eval vm_compute in (pushTransaction 12 (ct_tx entry1) (ct_hash entry1) (ct_index entry1) s1).2.
Definition blocks12 : list BlockEntry := replicate 12 (MkBlockEntry b0 0 0 0 0 [MkTransactionEntry (ct_tx entry0) [0; 0]]).

Lemma entry0_pushed : exists idx, pushTransaction 0 (ct_tx entry0) (ct_hash entry0) (ct_index entry0) empty_state = (Some (true, idx), s1).
Proof. eexists. vm_compute. reflexivity. Qed.

Lemma entry1_accepted : exists m, checkTransactionInputs c ∅ 5000 blocks12 s1 (ct_tx entry1) = Some (true, m).
Proof. eexists. vm_compute. reflexivity. Qed.

Lemma entry1_pushed : exists idx, pushTransaction 12 (ct_tx entry1) (ct_hash entry1) (ct_index entry1) s1 = (Some (true, idx), s2).
Proof. eexists. vm_compute. reflexivity. Qed.
End PushExample.

Lemma chain_state_represents_witness : represents [PushExample.entry0; PushExample.entry1] PushExample.s2.
Proof.
  apply (@chain_state_represents PushExample.trivial_crypto PushExample.c ∅).
  destruct PushExample.entry0_pushed as [idx0 H0]. destruct PushExample.entry1_accepted as [m Hm]. destruct PushExample.entry1_pushed as [idx1 H1].
  apply (@history_push PushExample.trivial_crypto PushExample.c ∅ [PushExample.entry0] PushExample.s1 5000 PushExample.blocks12 m 12 _ _ _ idx1);
    [|split; [by vm_compute | by repeat constructor] | by left | exact H1].
  apply (@history_push PushExample.trivial_crypto PushExample.c ∅ [] empty_state 0 [] 0 0 _ _ _ idx0);
    [constructor | split; [by vm_compute | constructor] | right; by eexists | exact H0].
Defined.

(** A block that is rejected, and one that is added. *)
Lemma blockchain_consistent_witness : consistent PushExample.c PushExample.pow 100 PushExample.bc1.
Proof.
  apply (@blockchain_consistent PushExample.trivial_crypto PushExample.c PushExample.pow ∅); [by vm_compute|].
  assert (@runs PushExample.trivial_crypto PushExample.c PushExample.pow ∅ 100 PushExample.bc0) as Hr.
  { pose proof (@runs_offered PushExample.trivial_crypto PushExample.c PushExample.pow ∅ 100 PushExample.bc0 5000 PushExample.greedy [] PushExample.greedy_id
      (runs_empty _ _ _ _ _) PushExample.greedy_offered) as Hg. rewrite PushExample.greedy_rejected in Hg. apply Hg; [by vm_compute | vm_compute; reflexivity]. }
  pose proof (@runs_offered PushExample.trivial_crypto PushExample.c PushExample.pow ∅ 100 PushExample.bc0 5000 PushExample.b0 [] PushExample.b0_id
    Hr PushExample.b0_offered) as Ha. rewrite PushExample.b0_added in Ha. apply Ha; [by vm_compute | vm_compute; reflexivity].
Defined.

Lemma popBlock_undoes_pushBlock_witness :
  exists s, popBlock PushExample.b0_id PushExample.bc1 =
      (Some tt, set_size_limit (m_current_block_cumul_sz_limit PushExample.bc1) (set_chainState s PushExample.bc0)) /\ s ≡ chainState PushExample.bc0.
Proof.
  apply (@popBlock_undoes_pushBlock PushExample.trivial_crypto PushExample.c PushExample.pow ∅ 100 5000 PushExample.bc0 PushExample.b0 []);
    [by vm_compute | constructor | exact PushExample.b0_offered | by vm_compute | exact PushExample.b0_added].
Defined.

Lemma rejected_block_restores_witness :
  exists s, PushExample.bc0 = set_chainState s PushExample.bc0
    /\ (s ≡ chainState PushExample.bc0 <-> @oversized PushExample.trivial_crypto PushExample.c PushExample.pow ∅ 5000 PushExample.bc0 PushExample.greedy [] PushExample.greedy_id = false).
Proof.
  apply (@rejected_block_restores PushExample.trivial_crypto PushExample.c PushExample.pow ∅ 100 5000 PushExample.bc0 PushExample.greedy []
    PushExample.greedy_id true); [by vm_compute | constructor | exact PushExample.greedy_offered | exact PushExample.greedy_rejected].
Defined.

Module LeakExample.
Definition c : Currency := Builder.assign Builder.F_maxBlockSizeInitial 10 PushExample.c.
Definition oversized : Blockchain :=
  Eval vm_compute in (@pushBlock PushExample.trivial_crypto c PushExample.pow ∅ 5000 PushExample.bc0 PushExample.b0 [] PushExample.b0_id).2.
Definition spend : Transaction :=
  MkTransaction (MkTransactionPrefix 1 0 [InKey (MkKeyInput 5000000 [0] (replicate 32 7))] [] []) [[replicate 64 0]].
Definition b : Block := PushExample.block 5000000 [replicate 32 9].
Definition thrown : Blockchain :=
  Eval vm_compute in (@pushBlock PushExample.trivial_crypto PushExample.c PushExample.pow ∅ 5000 PushExample.bc0 b [spend] PushExample.b0_id).2.
End LeakExample.

(** The miner transaction of a block that is rejected for its size stays in the state. *)
Theorem oversized_block_leaks :
  @pushBlock PushExample.trivial_crypto LeakExample.c PushExample.pow ∅ 5000 PushExample.bc0 PushExample.b0 [] PushExample.b0_id =
    (Rejected true, LeakExample.oversized) /\
  m_blocks LeakExample.oversized = [] /\ size (m_transactionMap (chainState LeakExample.oversized)) = 1%nat.
Proof. split; [vm_compute; reflexivity | split; reflexivity]. Qed.

(** A block whose transaction spends the block's own miner output makes [pushBlock]
    throw after the miner transaction was pushed, which stays in the state. *)
Theorem own_output_block_leaks :
  @pushBlock PushExample.trivial_crypto PushExample.c PushExample.pow ∅ 5000 PushExample.bc0 LeakExample.b [LeakExample.spend] PushExample.b0_id =
    (Thrown, LeakExample.thrown) /\
  m_blocks LeakExample.thrown = [] /\ size (m_transactionMap (chainState LeakExample.thrown)) = 1%nat.
Proof. split; [vm_compute; reflexivity | split; reflexivity]. Qed.

End BlockchainInvariant.
