(* ===== verification/Primality.v ===== *)
(** The modulus 2^255 - 19 of the field in src/crypto/crypto-ops.c is prime:
    Pocklington's criterion and a chain of certificates. *)

From Stdlib Require Import Znumtheory Zpow_facts Zmod.
From S2P Require Import Prelude.

Module Primality.

#[local] Open Scope list_scope.
#[local] Open Scope Z_scope.

(** ** Pocklington's criterion *)

Lemma pow_mod_1 r a n : 1 < r -> 0 <= n -> a mod r = 1 -> a ^ n mod r = 1.
Proof.
  intros Hr Hn Ha. rewrite Zpower_mod, Ha, Z.pow_1_l by lia. apply Z.mod_small. lia.
Qed.

(** A prime [q] divides [r - 1] when some [b] other than 1 has [b^q = 1] modulo [r]. *)
Lemma order_divides q r b : Z.prime q -> Z.prime r -> ~ (r | b) -> b ^ q mod r = 1 -> b mod r <> 1 -> (q | r - 1).
Proof.
  intros Hq Hr Hb H1 Hne. pose proof (Z.prime_ge_2 _ Hq). pose proof (Z.prime_ge_2 _ Hr). destruct (decide ((r - 1) mod q = 0)) as [Hm|Hm]; [apply Z.mod_divide; [lia|done]|].
  assert (~ (q | r - 1)) as Hn by (intros Hd; apply Hm, Z.mod_divide; [lia|done]). exfalso. apply Hne. clear Hm.
  destruct (Z.Bezout_coprime _ _ (Z.coprime_prime_l _ _ Hq Hn)) as (u & v & E).
  set (u' := u mod (r - 1) + (r - 1)). set (v' := q * (u / (r - 1)) + v - q).
  assert (u' * q = 1 - v' * (r - 1)) as E'.
  { unfold u', v'. pose proof (Z.div_mod u (r - 1) ltac:(lia)) as D. nia. }
  pose proof (Z.mod_pos_bound u (r - 1) ltac:(lia)) as Hu. assert (r - 1 <= u') as Hu' by (unfold u'; lia). clearbody u' v'. assert (0 <= - v') as Hv by nia.
  assert (b ^ (u' * q) mod r = 1) as A by (rewrite Z.mul_comm, Z.pow_mul_r by lia; apply pow_mod_1; [lia|lia|done]).
  assert (b ^ ((r - 1) * - v') mod r = 1) as B by (rewrite Z.pow_mul_r by lia; apply pow_mod_1; [lia|lia|apply Z.fermat_nz; [done|by rewrite Z.mod_divide by lia]]).
  rewrite E' in A. replace (1 - v' * (r - 1)) with (1 + (r - 1) * - v') in A by lia.
  rewrite Z.pow_add_r, Z.pow_1_r, Zmult_mod, B, Z.mul_1_r, Zmod_mod in A by nia. done.
Qed.

Definition certifies (n a q : Z) : bool :=
  ((n - 1) mod q =? 0) && (Zpow_mod a (n - 1) n =? 1) && (Z.gcd (Zpow_mod a ((n - 1) / q) n - 1) n =? 1).

Lemma certified_divides n a q r : 1 < n -> Z.prime q -> certifies n a q = true -> Z.prime r -> (r | n) -> (q | r - 1).
Proof.
  intros Hn Hq Hc Hr Hrn. unfold certifies in Hc. apply andb_true_iff in Hc as [[C1 C2]%andb_true_iff C3].
  apply Z.eqb_eq in C1, C2, C3. rewrite !Zpow_mod_correct in C2, C3 by lia. pose proof (Z.prime_ge_2 _ Hq). pose proof (Z.prime_ge_2 _ Hr).
  pose proof (Z.div_mod (n - 1) q ltac:(lia)) as D. rewrite C1, Z.add_0_r in D. set (m := (n - 1) / q) in *.
  assert (0 <= m) as Hm by (apply Z.div_pos; lia).
  assert (a ^ (n - 1) mod r = 1) as A1. { rewrite <- (Z.mod_mod_divide _ _ _ Hrn), C2. apply Z.mod_small. lia. }
  assert (0 < m) as Hm' by nia. apply (order_divides q r (a ^ m)); [done|done| | |].
  - intros Hd. assert (r | a ^ (n - 1)) as Hp.
    { rewrite D, Z.mul_comm, Z.pow_mul_r by lia. destruct Hd as [k ->]. rewrite <- (Z.succ_pred q), Z.pow_succ_r by lia.
      exists (k * (k * r) ^ Z.pred q). ring. }
    apply Z.mod_divide in Hp; lia.
  - by rewrite <- Z.pow_mul_r, Z.mul_comm, <- D by lia.
  - intros E. assert (r | 1) as H1'; [|apply Z.divide_1_r_nonneg in H1'; lia].
    rewrite <- C3. apply Z.gcd_greatest; [|done]. apply Z.mod_divide; [lia|].
    rewrite Zminus_mod, (Z.mod_mod_divide _ _ _ Hrn), E, Z.mod_1_l by lia. done.
Qed.

Lemma prime_or_divisor n : 1 < n -> Z.prime n \/ exists k, 1 < k < n /\ (k | n).
Proof. intros Hn. destruct (prime_dec n) as [Hp|Hp]; [left; by apply prime_alt | right; by apply not_prime_divide]. Qed.

Lemma prime_divisor n : 1 < n -> exists r, Z.prime r /\ (r | n).
Proof.
  induction n as [n IH] using (well_founded_induction (Z.lt_wf 0)). intros Hn.
  destruct (prime_or_divisor n Hn) as [Hp|(k & Hk & Hd)]; [exists n; split; [done|apply Z.divide_refl]|]. destruct (IH k) as (r & Hr & Hrk); [lia..|].
  exists r. split; [done|]. by eapply Z.divide_trans.
Qed.

(** A number all of whose prime divisors are above its root is prime. *)
Lemma prime_by_divisors n F : 1 < n -> 0 < F -> n < (F + 1) * (F + 1) -> (forall r, Z.prime r -> (r | n) -> (F | r - 1)) -> Z.prime n.
Proof.
  intros Hn HF Hsq H. destruct (prime_or_divisor n Hn) as [|(k & Hk & [c Hc])]; [done|]. exfalso.
  assert (forall x, 1 < x -> (x | n) -> F + 1 <= x) as Hbig.
  { intros x Hx Hxn. destruct (prime_divisor x Hx) as (r & Hr & Hrx). pose proof (Z.prime_ge_2 _ Hr).
    specialize (H r Hr (Z.divide_trans _ _ _ Hrx Hxn)). apply Z.divide_pos_le in H; [|lia]. apply Z.divide_pos_le in Hrx; lia. }
  pose proof (Hbig k ltac:(lia) ltac:(by exists c)). pose proof (Hbig c ltac:(nia) ltac:(exists k; lia)). nia.
Qed.

Lemma pocklington n a q : 1 < n -> Z.prime q -> certifies n a q = true -> n < (q + 1) * (q + 1) -> Z.prime n.
Proof.
  intros Hn Hq Hc Hsq. pose proof (Z.prime_ge_2 _ Hq). apply (prime_by_divisors n q); [lia..|]. intros r Hr Hrn. by eapply certified_divides.
Qed.

Lemma pocklington2 n a q q' : 1 < n -> Z.prime q -> Z.prime q' -> q <> q' -> certifies n a q = true -> certifies n a q' = true ->
  n < (q * q' + 1) * (q * q' + 1) -> Z.prime n.
Proof.
  intros Hn Hq Hq' Hne Hc Hc' Hsq. pose proof (Z.prime_ge_2 _ Hq). pose proof (Z.prime_ge_2 _ Hq').
  apply (prime_by_divisors n (q * q')); [nia..|]. intros r Hr Hrn.
  destruct (certified_divides n a q r Hn Hq Hc Hr Hrn) as [k Hk]. rewrite Hk.
  rewrite (Z.mul_comm k q). apply Z.mul_divide_mono_l. apply (Z.gauss q' q).
  - rewrite Z.mul_comm, <- Hk. by eapply certified_divides.
  - apply Z.coprime_prime_l; [done|]. intros Hd. by apply Z.divide_prime_prime in Hd.
Qed.

(** Trial division, for the small numbers of the chain. *)
Definition trial (n : Z) : bool := (1 <? n) && forallb (fun k => negb (n mod k =? 0)) (seqZ 2 (Z.sqrt n - 1)).

Lemma trial_prime n : trial n = true -> Z.prime n.
Proof.
  unfold trial. intros [H1%Z.ltb_lt H]%andb_true_iff. destruct (prime_or_divisor n H1) as [|(k & Hk & [c Hc])]; [done|]. exfalso.
  assert (forall x, 2 <= x -> x * x <= n -> ~ (x | n)) as Hno.
  { intros x Hx Hxx Hd. rewrite forallb_forall in H. specialize (H x). apply Z.mod_divide in Hd; [|lia].
    rewrite Hd in H. cbn in H. discriminate H. apply list_elem_of_In, elem_of_seqZ. apply Z.sqrt_le_square in Hxx; lia. }
  destruct (Z.le_ge_cases (k * k) n); [apply (Hno k); [lia|lia|by exists c]|apply (Hno c); [nia|nia|exists k; lia]].
Qed.

Ltac certify q := apply (pocklington _ 2 q); [lia| |vm_compute; reflexivity|lia].
Ltac certify2 q q' := apply (pocklington2 _ 2 q q'); [lia| | |lia|vm_compute; reflexivity|vm_compute; reflexivity|lia].
Ltac small := apply trial_prime; vm_compute; reflexivity.

Lemma prime_1919519569386763 : Z.prime 1919519569386763.
Proof. certify2 8574133 127; [certify2 991 103; small|small]. Qed.

Lemma prime_72106336199 : Z.prime 72106336199.
Proof. certify 2773320623. certify 569003. small. Qed.

Lemma prime_31757755568855353 : Z.prime 31757755568855353.
Proof. certify2 430751 4153; small. Qed.

Lemma prime_p25519 : Z.prime (2 ^ 255 - 19).
Proof.
  certify 74058212732561358302231226437062788676166966415465897661863160754340907.
  certify2 75445702479781427272750846543864801 31757755568855353; [|apply prime_31757755568855353].
  certify2 1919519569386763 72106336199; [apply prime_1919519569386763|apply prime_72106336199].
Qed.

End Primality.
