(* ===== verification/StraightLine.v ===== *)
(** Straight-line integer code of C: assignments of expressions over local
    variables and array elements, every operation computed at a machine width.
    The arithmetic of src/crypto/crypto-ops.c is written in this form.  Two
    analyses are proved sound and run by computation: intervals, which show that
    no operation of a piece of code overflows and bound its results, and
    polynomials, which relate its results to its inputs modulo a number whatever
    the values of the shifts. *)

From S2P Require Import Prelude.

Module StraightLine.

(** ** Syntax *)

Inductive ctype := Int32 | Int64 | UInt8.

Inductive expr :=
  | Var (x : string)
  | Const (n : Z)
  | Add (a b : expr)
  | Sub (a b : expr)
  | Mul (a b : expr)
  | Neg (a : expr)
  | Shl (a : expr) (k : Z)
  | Shr (a : expr) (k : Z).

(** [x = (to) e], the operations of [e] computed at [op_type]. *)
Record stmt := Assign {
  var : string;
  op_type : ctype;
  to_type : ctype;
  rhs : expr
}.

Coercion Var : string >-> expr.
Coercion Const : Z >-> expr.

Declare Scope code_scope.
Delimit Scope code_scope with code.
Bind Scope code_scope with expr.
Arguments Add (_ _)%_code_scope.
Arguments Sub (_ _)%_code_scope.
Arguments Mul (_ _)%_code_scope.
Arguments Neg _%_code_scope.
Arguments Shl _%_code_scope _%_Z_scope.
Arguments Shr _%_code_scope _%_Z_scope.
Infix "+" := Add : code_scope.
Infix "-" := Sub : code_scope.
Infix "*" := Mul : code_scope.
Notation "- a" := (Neg a) : code_scope.
Notation "a << k" := (Shl a k) (at level 54, left associativity) : code_scope.
Notation "a >> k" := (Shr a k) (at level 54, left associativity) : code_scope.

(** [int32_t x = e], [int64_t x = e] and [x = (int32_t) e] for a 64-bit [e]. *)
Definition int32 (x : string) (e : expr) : stmt := Assign x Int32 Int32 e.
Definition int64 (x : string) (e : expr) : stmt := Assign x Int64 Int64 e.
Definition to_int32 (x : string) (e : expr) : stmt := Assign x Int64 Int32 e.
Arguments int32 _%_string_scope _%_code_scope.
Arguments int64 _%_string_scope _%_code_scope.
Arguments to_int32 _%_string_scope _%_code_scope.

(** ** Machine semantics *)

Definition range (t : ctype) : Z * Z :=
  match t with
  | Int32 => (- 2 ^ 31, 2 ^ 31 - 1)
  | Int64 => (- 2 ^ 63, 2 ^ 63 - 1)
  | UInt8 => (0, 255)
  end.

(** Conversion to a type: reduction into its range. *)
Definition wrap (t : ctype) (x : Z) : Z :=
  let '(lo, hi) := range t in (x - lo) mod (hi - lo + 1) + lo.

Abbreviation env := (gmap string Z).

Definition read (s : env) (x : string) : Z := default 0 (s !! x).

Fixpoint eval (t : ctype) (s : env) (e : expr) : Z :=
  match e with
  | Var x => read s x
  | Const n => n
  | Add a b => wrap t (eval t s a + eval t s b)
  | Sub a b => wrap t (eval t s a - eval t s b)
  | Mul a b => wrap t (eval t s a * eval t s b)
  | Neg a => wrap t (- eval t s a)
  | Shl a k => wrap t (eval t s a * 2 ^ k)
  | Shr a k => eval t s a / 2 ^ k
  end.

Definition step (s : env) (c : stmt) : env := <[var c := wrap (to_type c) (eval (op_type c) s (rhs c))]> s.

Definition exec (code : list stmt) (s : env) : env := foldl step s code.

(** The decimal digits of a number below 100, for the names of variables. *)
Definition digit (i : nat) : string := String (Ascii.ascii_of_nat (48 + i)) EmptyString.

Definition decimal (i : nat) : string := if Nat.ltb i 10 then digit i else (digit (i / 10) +:+ digit (i mod 10))%string.

(** The elements of the array [a] as variables. *)
Definition elem (a : string) (i : nat) : string := (a +:+ "[" +:+ decimal i +:+ "]")%string.

Definition names (a : string) (n : nat) : list string := elem a <$> List.seq 0 n.

Definition store {A} (xs : list string) (vs : list A) : gmap string A :=
  foldr (fun '(x, v) s => <[x := v]> s) ∅ (zip xs vs).

Definition elements (a : string) (n : nat) (s : env) : list Z := read s <$> names a n.

(** ** Ideal semantics *)

Fixpoint ideal (s : env) (e : expr) : Z :=
  match e with
  | Var x => read s x
  | Const n => n
  | Add a b => ideal s a + ideal s b
  | Sub a b => ideal s a - ideal s b
  | Mul a b => ideal s a * ideal s b
  | Neg a => - ideal s a
  | Shl a k => ideal s a * 2 ^ k
  | Shr a k => ideal s a / 2 ^ k
  end.

Definition ideal_step (s : env) (c : stmt) : env := <[var c := ideal s (rhs c)]> s.

Definition ideal_exec (code : list stmt) (s : env) : env := foldl ideal_step s code.

(** ** Intervals

    Besides an interval for every variable the analysis keeps the relations
    [c = (x + r) >> k] that assignments establish, because a carry [c] is always
    subtracted again: [x - (c << k)] is [(x + r) mod 2^k - r]. *)

Abbreviation interval := (Z * Z)%type.

Definition within (i : interval) (x : Z) : Prop := i.1 <= x <= i.2.

#[export] Instance within_dec i x : Decision (within i x).
Proof. unfold within. apply _. Defined.

Definition fits (t : ctype) (i : interval) : bool := let '(lo, hi) := range t in (lo <=? i.1) && (i.2 <=? hi).

Definition checked (t : ctype) (i : interval) : option interval := if fits t i then Some i else None.

Definition mul_interval (i j : interval) : interval :=
  let a := i.1 * j.1 in let b := i.1 * j.2 in let c := i.2 * j.1 in let d := i.2 * j.2 in
  (Z.min (Z.min a b) (Z.min c d), Z.max (Z.max a b) (Z.max c d)).

(** The constants the code writes as shifts. *)
Definition literal (e : expr) : option Z :=
  match e with
  | Const n => Some n
  | Shl (Const n) k => Some (n * 2 ^ k)
  | _ => None
  end.

Record carry := Carry { carry_var : string; carry_of : string; carry_round : Z; carry_bits : Z }.

(** The carry an assignment of [e] to [c] computes. *)
Definition carry_of_stmt (c : string) (e : expr) : option carry :=
  match e with
  | Shr (Var x) k => if bool_decide (c = x) then None else Some (Carry c x 0 k)
  | Shr (Add (Var x) r) k => if bool_decide (c = x) then None else r ← literal r; Some (Carry c x r k)
  | _ => None
  end.

Definition same_carry (c x : string) (k : Z) (f : carry) : bool :=
  bool_decide (carry_var f = c) && bool_decide (carry_of f = x) && (carry_bits f =? k).

(** The interval of [a - b] when [b] is a carry of [a]. *)
Definition refine (fs : list carry) (a b : expr) (i : interval) : interval :=
  match a, b with
  | Var x, Shl (Var c) k =>
      match List.find (same_carry c x k) fs with
      | Some f => (- carry_round f, 2 ^ k - 1 - carry_round f)
      | None => i
      end
  | _, _ => i
  end.

Record bounds := Bounds { intervals : gmap string interval; carries : list carry }.

Fixpoint analyse (t : ctype) (s : bounds) (e : expr) : option interval :=
  match e with
  | Var x => intervals s !! x
  | Const n => Some (n, n)
  | Add a b => i ← analyse t s a; j ← analyse t s b; checked t (i.1 + j.1, i.2 + j.2)
  | Sub a b => i ← analyse t s a; j ← analyse t s b; checked t (refine (carries s) a b (i.1 - j.2, i.2 - j.1))
  | Mul a b => i ← analyse t s a; j ← analyse t s b; checked t (mul_interval i j)
  | Neg a => i ← analyse t s a; checked t (- i.2, - i.1)
  | Shl a k => i ← analyse t s a; if 0 <=? k then checked t (i.1 * 2 ^ k, i.2 * 2 ^ k) else None
  | Shr a k => i ← analyse t s a; if 0 <=? k then Some (i.1 / 2 ^ k, i.2 / 2 ^ k) else None
  end.

(** The carries that an assignment to [v] leaves true, and the one it adds. *)
Definition keeps (v : string) (f : carry) : bool := bool_decide (carry_var f <> v) && bool_decide (carry_of f <> v).

Definition assign_bounds (s : bounds) (v : string) (e : expr) (i : interval) : bounds :=
  Bounds (<[v := i]> (intervals s)) (option_list (carry_of_stmt v e) ++ List.filter (keeps v) (carries s)).

Fixpoint analyse_code (code : list stmt) (s : bounds) : option bounds :=
  match code with
  | [] => Some s
  | c :: code =>
      i ← analyse (op_type c) s (rhs c);
      if fits (to_type c) i then analyse_code code (assign_bounds s (var c) (rhs c) i) else None
  end.

Definition carry_holds (s : env) (f : carry) : Prop :=
  0 <= carry_bits f /\ read s (carry_var f) = (read s (carry_of f) + carry_round f) / 2 ^ carry_bits f.

Record bounded (s : env) (b : bounds) : Prop := {
  bounded_intervals : forall x i, intervals b !! x = Some i -> within i (read s x);
  bounded_carries : Forall (carry_holds s) (carries b)
}.

Lemma wrap_fits t i x : fits t i = true -> within i x -> wrap t x = x.
Proof.
  unfold fits, wrap, within. intros Hf Hx. destruct (range t) as [lo hi] eqn:E. apply andb_true_iff in Hf as [H1 H2].
  apply Z.leb_le in H1, H2. rewrite Z.mod_small by lia. lia.
Qed.

Lemma wrap_within t i x : fits t i = true -> within i x -> wrap t x = x /\ within i x.
Proof. intros Hf Hx. by rewrite (wrap_fits _ _ _ Hf Hx). Qed.

Lemma checked_Some t i j : checked t i = Some j -> j = i /\ fits t i = true.
Proof. unfold checked. destruct (fits t i); [by intros [= <-] | done]. Qed.

Lemma mul_between a b x y : a <= x <= b -> Z.min (a * y) (b * y) <= x * y <= Z.max (a * y) (b * y).
Proof. intros. destruct (Z.le_ge_cases 0 y); nia. Qed.

Lemma mul_within i j x y : within i x -> within j y -> within (mul_interval i j) (x * y).
Proof.
  unfold within, mul_interval. simpl. intros Hx Hy. pose proof (mul_between _ _ _ y Hx).
  pose proof (mul_between _ _ _ i.1 Hy). pose proof (mul_between _ _ _ i.2 Hy). lia.
Qed.

Lemma shl_within i x k : within i x -> within (i.1 * 2 ^ k, i.2 * 2 ^ k) (x * 2 ^ k).
Proof. unfold within. simpl. pose proof (Z.pow_nonneg 2 k). intros. nia. Qed.

Lemma shr_within i x k : 0 <= k -> within i x -> within (i.1 / 2 ^ k, i.2 / 2 ^ k) (x / 2 ^ k).
Proof. unfold within. simpl. intros Hk Hx. pose proof (Z.pow_pos_nonneg 2 k). split; apply Z.div_le_mono; lia. Qed.

Lemma carry_within r k x : 0 <= k -> within (- r, 2 ^ k - 1 - r) (x - (x + r) / 2 ^ k * 2 ^ k).
Proof. intros Hk. unfold within. simpl. pose proof (Z.pow_pos_nonneg 2 k). pose proof (Z.mod_pos_bound (x + r) (2 ^ k)). pose proof (Z.div_mod (x + r) (2 ^ k)). lia. Qed.

Lemma refine_within b s a c i : bounded s b -> within i (ideal s a - ideal s c) ->
  within (refine (carries b) a c i) (ideal s a - ideal s c).
Proof.
  intros [_ Hc] Hi. destruct a; try done. destruct c as [| | | | | |y k|]; try done. destruct y; try done. cbn [refine].
  destruct (List.find _ _) as [f|] eqn:E; [|done]. apply find_some in E as [Hf E]. unfold same_carry in E. bool_to_prop.
  rewrite Forall_forall in Hc. destruct (Hc f) as [Hk Hv]; [by apply list_elem_of_In|]. cbn [ideal]. subst.
  rewrite Hv. by apply carry_within.
Qed.

Lemma analyse_sound t b s e i : bounded s b -> analyse t b e = Some i -> eval t s e = ideal s e /\ within i (ideal s e).
Proof.
  intros Hb. revert i. induction e as [x|n|a IHa c IHc|a IHa c IHc|a IHa c IHc|a IHa|a IHa k|a IHa k]; intros i H; cbn [analyse] in H;
    cbn [eval ideal];
    try (destruct (analyse t b a) as [i1|]; [|done]; destruct (IHa i1 eq_refl) as [-> Ha]);
    try (destruct (analyse t b c) as [i2|]; [|done]; destruct (IHc i2 eq_refl) as [-> Hc]); cbn [mbind option_bind] in H.
  - split; [done|]. by apply Hb.
  - simplify_eq. split; [done|]. unfold within. simpl. lia.
  - apply checked_Some in H as [-> Hf]. apply wrap_within; [done|]. unfold within in *. simpl. lia.
  - apply checked_Some in H as [-> Hf]. apply wrap_within; [done|]. apply refine_within; [done|]. unfold within in *. simpl. lia.
  - apply checked_Some in H as [-> Hf]. apply wrap_within; [done|]. by apply mul_within.
  - apply checked_Some in H as [-> Hf]. apply wrap_within; [done|]. unfold within in *. simpl. lia.
  - destruct (0 <=? k); [|done]. apply checked_Some in H as [-> Hf]. apply wrap_within; [done|]. by apply shl_within.
  - destruct (Z.leb_spec 0 k); [|done]. simplify_eq. split; [done|]. by apply shr_within.
Qed.

Lemma read_insert s x v y : read (<[x := v]> s) y = if decide (x = y) then v else read s y.
Proof.
  unfold read. destruct (decide (x = y)) as [->|]; [by rewrite lookup_insert_eq | by rewrite lookup_insert_ne].
Qed.

Lemma read_insert_eq s x v : read (<[x := v]> s) x = v.
Proof. rewrite read_insert. by case_decide. Qed.

Lemma read_insert_ne s x v y : x <> y -> read (<[x := v]> s) y = read s y.
Proof. intros. rewrite read_insert. by case_decide. Qed.

Lemma carry_of_stmt_holds s v e f t b i : bounded s b -> analyse t b e = Some i -> carry_of_stmt v e = Some f ->
  carry_holds (<[v := ideal s e]> s) f.
Proof.
  intros Hb Ha Hf. destruct e as [| | | | | | |a k]; try done. cbn [analyse] in Ha.
  destruct (analyse t b a); [|done]. cbn [mbind option_bind] in Ha. destruct (Z.leb_spec 0 k); [|done].
  destruct a as [x| |a r| | | | |]; try done; cbn [carry_of_stmt] in Hf.
  - destruct (bool_decide_reflect (v = x)); [done|]. simplify_eq. unfold carry_holds. cbn [carry_bits carry_var carry_of carry_round].
    split; [done|]. rewrite read_insert_eq, read_insert_ne by done. cbn [ideal]. by rewrite Z.add_0_r.
  - destruct a as [x| | | | | | |]; try done. destruct (bool_decide_reflect (v = x)); [done|].
    destruct (literal r) as [m|] eqn:E; [|done]. cbn [mbind option_bind] in Hf. simplify_eq.
    unfold carry_holds. cbn [carry_bits carry_var carry_of carry_round]. split; [done|].
    rewrite read_insert_eq, read_insert_ne by done. cbn [ideal].
    assert (ideal s r = m) as -> by (destruct r as [| | | | | |[]|]; simplify_eq/=; done). done.
Qed.

Lemma assign_bounded s b t v e i : bounded s b -> analyse t b e = Some i -> within i (ideal s e) ->
  bounded (<[v := ideal s e]> s) (assign_bounds b v e i).
Proof.
  intros Hb Ha Hi. split.
  - intros x j Hj. cbn [intervals assign_bounds] in Hj. destruct (decide (v = x)) as [<-|Hne].
    + rewrite lookup_insert_eq in Hj. rewrite read_insert_eq. by simplify_eq.
    + rewrite lookup_insert_ne in Hj by done. rewrite read_insert_ne by done. by apply Hb.
  - cbn [carries assign_bounds]. apply Forall_app. split.
    + destruct (carry_of_stmt v e) as [f|] eqn:E; cbn [option_list]; [|done]. apply Forall_singleton. by eapply carry_of_stmt_holds.
    + apply Forall_forall. intros f Hf%list_elem_of_In%filter_In. destruct Hf as [Hf Hk].
      unfold keeps in Hk. bool_to_prop. destruct Hb as [_ Hc]. rewrite Forall_forall in Hc.
      destruct (Hc f) as [H1 H2]; [by apply list_elem_of_In|]. split; [done|]. by rewrite !read_insert_ne by congruence.
Qed.

(** Code that passes the interval analysis computes the exact values, within the bounds. *)
Lemma analyse_code_sound code s b b' : bounded s b -> analyse_code code b = Some b' ->
  exec code s = ideal_exec code s /\ bounded (exec code s) b'.
Proof.
  revert s b. induction code as [|c code IH]; intros s b Hb H; cbn [analyse_code] in H; [by simplify_eq|].
  destruct (analyse (op_type c) b (rhs c)) as [i|] eqn:E; [|done]. cbn [mbind option_bind] in H.
  destruct (fits (to_type c) i) eqn:Ef; [|done]. destruct (analyse_sound _ _ _ _ _ Hb E) as [He Hw].
  assert (step s c = ideal_step s c) as Hs by (unfold step, ideal_step; by rewrite He, (wrap_fits _ _ _ Ef Hw)).
  unfold exec, ideal_exec. cbn [foldl]. rewrite Hs. eapply IH; [|done]. by eapply assign_bounded.
Qed.

(** ** Polynomials

    The value of every variable as a polynomial in the inputs and in the results
    of the right shifts, which count as unknowns. *)

Abbreviation mono := (list N).
Abbreviation poly := (list (list N * Z)).

Fixpoint mono_compare (m n : mono) : comparison :=
  match m, n with
  | [], [] => Eq
  | [], _ => Lt
  | _, [] => Gt
  | a :: m, b :: n => match N.compare a b with Eq => mono_compare m n | r => r end
  end.

Fixpoint mono_insert (a : N) (m : mono) : mono :=
  match m with
  | [] => [a]
  | b :: n => if N.leb a b then a :: m else b :: mono_insert a n
  end.

Definition mono_mul (m n : mono) : mono := foldr mono_insert n m.

Fixpoint poly_add (p : poly) : poly -> poly :=
  match p with
  | [] => fun q => q
  | (m, c) :: p' =>
      fix add_to (q : poly) : poly :=
        match q with
        | [] => p
        | (n, d) :: q' =>
            match mono_compare m n with
            | Lt => (m, c) :: poly_add p' q
            | Gt => (n, d) :: add_to q'
            | Eq => if c + d =? 0 then poly_add p' q' else (m, c + d) :: poly_add p' q'
            end
        end
  end.

Definition poly_scale (k : Z) (p : poly) : poly := (fun mc => (mc.1, k * mc.2)) <$> p.

Definition poly_term (m : mono) (c : Z) (q : poly) : poly :=
  foldr (fun nd => poly_add [(mono_mul m nd.1, c * nd.2)]) [] q.

Definition poly_mul (p q : poly) : poly := foldr (fun mc => poly_add (poly_term mc.1 mc.2 q)) [] p.

Definition atom (k : N) : poly := [([k], 1)].

Definition mono_value (v : N -> Z) (m : mono) : Z := foldr (fun a r => v a * r) 1 m.

Definition poly_value (v : N -> Z) (p : poly) : Z := foldr (fun mc r => mc.2 * mono_value v mc.1 + r) 0 p.

Fixpoint symbolic (s : gmap string poly) (k : N) (e : expr) : option (poly * N) :=
  match e with
  | Var x => p ← s !! x; Some (p, k)
  | Const n => Some ([([], n)], k)
  | Add a b => '(p, k) ← symbolic s k a; '(q, k) ← symbolic s k b; Some (poly_add p q, k)
  | Sub a b => '(p, k) ← symbolic s k a; '(q, k) ← symbolic s k b; Some (poly_add p (poly_scale (-1) q), k)
  | Mul a b => '(p, k) ← symbolic s k a; '(q, k) ← symbolic s k b; Some (poly_mul p q, k)
  | Neg a => '(p, k) ← symbolic s k a; Some (poly_scale (-1) p, k)
  | Shl a n => '(p, k) ← symbolic s k a; Some (poly_scale (2 ^ n) p, k)
  | Shr a _ => '(_, k) ← symbolic s k a; Some (atom k, (k + 1)%N)
  end.

Fixpoint symbolic_code (code : list stmt) (s : gmap string poly) (k : N) : option (gmap string poly) :=
  match code with
  | [] => Some s
  | c :: code => '(p, k) ← symbolic s k (rhs c); symbolic_code code (<[var c := p]> s) k
  end.

(** The results of the shifts of an execution, in their order. *)
Fixpoint shifts (s : env) (e : expr) : list Z :=
  match e with
  | Var _ | Const _ => []
  | Add a b | Sub a b | Mul a b => shifts s a ++ shifts s b
  | Neg a | Shl a _ => shifts s a
  | Shr a k => shifts s a ++ [ideal s a / 2 ^ k]
  end.

Fixpoint code_shifts (code : list stmt) (s : env) : list Z :=
  match code with
  | [] => []
  | c :: code => shifts s (rhs c) ++ code_shifts code (ideal_step s c)
  end.

Definition values (l : list Z) (k : N) : Z := l !!! N.to_nat k.

Definition agree (v : N -> Z) (k : N) (l : list Z) : Prop := forall j x, l !! j = Some x -> v (k + N.of_nat j)%N = x.

Definition expressed (v : N -> Z) (s : env) (p : gmap string poly) : Prop :=
  forall x q, p !! x = Some q -> poly_value v q = read s x.

Lemma mono_compare_eq m n : mono_compare m n = Eq -> m = n.
Proof.
  revert n. induction m as [|a m IH]; intros [|b n]; cbn [mono_compare]; try done.
  destruct (N.compare_spec a b) as [->| |]; [|done|done]. intros H. by rewrite (IH n).
Qed.

Lemma mono_insert_value v a m : mono_value v (mono_insert a m) = v a * mono_value v m.
Proof.
  induction m as [|b m IH]; [done|]. cbn [mono_insert]. destruct (N.leb a b); [done|].
  cbn [mono_value foldr]. change (foldr _ 1 (mono_insert a m)) with (mono_value v (mono_insert a m)). rewrite IH. unfold mono_value. lia.
Qed.

Lemma mono_mul_value v m n : mono_value v (mono_mul m n) = mono_value v m * mono_value v n.
Proof.
  induction m as [|a m IH]; cbn [mono_mul foldr]; [unfold mono_value; cbn [foldr]; lia|].
  change (foldr mono_insert n m) with (mono_mul m n). rewrite mono_insert_value, IH. unfold mono_value. cbn [foldr]. lia.
Qed.

Lemma poly_cons_value v m c p : poly_value v ((m, c) :: p) = c * mono_value v m + poly_value v p.
Proof. done. Qed.

Lemma poly_add_value v p q : poly_value v (poly_add p q) = poly_value v p + poly_value v q.
Proof.
  revert q. induction p as [|[m c] p IH]; [done|]. induction q as [|[n d] q IHq].
  - cbn [poly_add]. cbn [poly_value foldr]. lia.
  - cbn [poly_add]. destruct (mono_compare m n) eqn:E.
    + apply mono_compare_eq in E as ->. rewrite !poly_cons_value. destruct (Z.eqb_spec (c + d) 0); rewrite ?poly_cons_value, IH; nia.
    + rewrite !poly_cons_value, IH, poly_cons_value. lia.
    + rewrite poly_cons_value. cbn [poly_add] in IHq. rewrite IHq, !poly_cons_value. lia.
Qed.

Lemma poly_scale_value v k p : poly_value v (poly_scale k p) = k * poly_value v p.
Proof.
  induction p as [|[m c] p IH]; [cbn; lia|]. change (poly_scale k ((m, c) :: p)) with ((m, k * c) :: poly_scale k p).
  rewrite !poly_cons_value, IH. lia.
Qed.

Lemma poly_term_value v m c q : poly_value v (poly_term m c q) = c * mono_value v m * poly_value v q.
Proof.
  induction q as [|[n d] q IH]; [cbn; lia|]. unfold poly_term. cbn [foldr]. fold (poly_term m c q).
  rewrite poly_add_value, IH, !poly_cons_value. cbn [fst snd]. rewrite mono_mul_value. cbn [poly_value foldr]. lia.
Qed.

Lemma poly_mul_value v p q : poly_value v (poly_mul p q) = poly_value v p * poly_value v q.
Proof.
  induction p as [|[m c] p IH]; [cbn; lia|]. unfold poly_mul. cbn [foldr]. fold (poly_mul p q).
  rewrite poly_add_value, IH, poly_cons_value, poly_term_value. cbn [fst snd]. lia.
Qed.

Lemma atom_value v k : poly_value v (atom k) = v k.
Proof. unfold poly_value, atom, mono_value. cbn [foldr fst snd]. lia. Qed.

Lemma agree_app v k l l' : agree v k (l ++ l') -> agree v k l /\ agree v (k + N.of_nat (length l))%N l'.
Proof.
  intros H. split.
  - intros j x Hj. apply H. by apply lookup_app_l_Some.
  - intros j x Hj. rewrite <- N.add_assoc, <- Nnat.Nat2N.inj_add. apply H. rewrite lookup_app_r by lia. by replace (_ + j - _)%nat with j by lia.
Qed.

Lemma symbolic_sound v s p e k q k' : expressed v s p -> symbolic p k e = Some (q, k') -> agree v k (shifts s e) ->
  poly_value v q = ideal s e /\ k' = (k + N.of_nat (length (shifts s e)))%N.
Proof.
  intros Hp. revert k q k'. induction e as [x|n|a IHa c IHc|a IHa c IHc|a IHa c IHc|a IHa|a IHa n|a IHa n];
    intros k q k' H Hv; cbn [symbolic] in H; cbn [shifts ideal] in *;
    try (destruct (symbolic p k a) as [[qa ka]|] eqn:Ea; [|done]; cbn [mbind option_bind] in H);
    try (destruct (symbolic p ka c) as [[qc kc]|] eqn:Ec; [|done]; cbn [mbind option_bind] in H);
    try (apply agree_app in Hv as [Hv Hvc]);
    try (destruct (IHa _ _ _ Ea Hv) as [<- ->]); try (destruct (IHc _ _ _ Ec Hvc) as [<- ->]); rewrite ?length_app, ?N.add_0_r.
  - destruct (p !! x) as [qx|] eqn:E; [|done]. cbn [mbind option_bind] in H. simplify_eq. split; [by apply Hp|]. cbn. lia.
  - simplify_eq. split; [unfold poly_value, mono_value; cbn [foldr fst snd]; lia|]. cbn. lia.
  - simplify_eq. rewrite poly_add_value. split; [done|lia].
  - simplify_eq. rewrite poly_add_value, poly_scale_value. split; lia.
  - simplify_eq. rewrite poly_mul_value. split; [done|lia].
  - simplify_eq. rewrite poly_scale_value. split; lia.
  - simplify_eq. rewrite poly_scale_value. split; [lia|done].
  - simplify_eq. rewrite atom_value. split; [|cbn [length]; lia].
    specialize (Hvc 0%nat _ eq_refl). rewrite N.add_0_r in Hvc. rewrite Hvc. destruct (IHa _ _ _ Ea Hv) as [<- _]. done.
Qed.

Lemma symbolic_code_sound v code s p k p' : expressed v s p -> symbolic_code code p k = Some p' -> agree v k (code_shifts code s) ->
  expressed v (ideal_exec code s) p'.
Proof.
  revert s p k. induction code as [|c code IH]; intros s p k Hp H Hv; cbn [symbolic_code] in H; [by simplify_eq|].
  destruct (symbolic p k (rhs c)) as [[q k']|] eqn:E; [|done]. cbn [mbind option_bind] in H. cbn [code_shifts] in Hv.
  apply agree_app in Hv as [Hv Hvc]. destruct (symbolic_sound _ _ _ _ _ _ _ Hp E Hv) as [Hq ->].
  unfold ideal_exec. cbn [foldl]. eapply IH; [|done..]. intros x r Hr. unfold ideal_step.
  destruct (decide (var c = x)) as [<-|Hne].
  - rewrite lookup_insert_eq in Hr. rewrite read_insert_eq. by simplify_eq.
  - rewrite lookup_insert_ne in Hr by done. rewrite read_insert_ne by done. by apply Hp.
Qed.

(** ** Specifications of code *)

Definition weighted (lhs : list (Z * string)) (s : env) : Z := foldr (fun wx r => wx.1 * read s wx.2 + r) 0 lhs.

Fixpoint weighted_poly (lhs : list (Z * string)) (p : gmap string poly) : option poly :=
  match lhs with
  | [] => Some []
  | (w, x) :: lhs => q ← p !! x; r ← weighted_poly lhs p; Some (poly_add (poly_scale w q) r)
  end.

(** [lhs], of the variables after [code], is congruent to [rhs], of the inputs [xs]. *)
Definition relates (m : Z) (code : list stmt) (xs : list string) (lhs : list (Z * string)) (rhs : poly) : bool :=
  match symbolic_code code (store xs (atom <$> (N.of_nat <$> List.seq 0 (length xs)))) (N.of_nat (length xs)) with
  | Some p =>
      match weighted_poly lhs p with
      | Some q => forallb (fun mc => mc.2 mod m =? 0) (poly_add q (poly_scale (-1) rhs)) && forallb (fun mc => forallb (fun a => N.ltb a (N.of_nat (length xs))) mc.1) rhs
      | None => false
      end
  | None => false
  end.

Definition start (xs : list string) (ivs : list interval) : bounds := Bounds (store xs ivs) [].

Lemma store_cons {A} x xs (v : A) vs : store (x :: xs) (v :: vs) = <[x := v]> (store xs vs).
Proof. done. Qed.

Lemma store_elem {A} xs (vs : list A) x v : store xs vs !! x = Some v -> x ∈ xs.
Proof.
  revert vs. induction xs as [|y xs IH]; intros [|w vs] H; try done. rewrite store_cons in H. apply elem_of_cons.
  destruct (decide (y = x)) as [->|Hne]; [by left|]. right. rewrite lookup_insert_ne in H by done. by eapply IH.
Qed.

Lemma start_bounded xs ivs vs : Forall2 within ivs vs -> bounded (store xs vs) (start xs ivs).
Proof.
  intros H. split; [|done]. cbn [intervals start]. revert xs. induction H as [|i v ivs vs Hi H IH]; intros [|x xs] y j Hj; try done.
  rewrite store_cons in Hj. rewrite store_cons. destruct (decide (x = y)) as [<-|Hne].
  - rewrite lookup_insert_eq in Hj. rewrite read_insert_eq. by simplify_eq.
  - rewrite lookup_insert_ne in Hj by done. rewrite read_insert_ne by done. by eapply IH.
Qed.

Lemma start_expressed v s xs ps : Forall2 (fun p x => poly_value v p = read s x) ps xs -> expressed v s (store xs ps).
Proof.
  induction 1 as [|p x ps xs Hx H IH]; intros z q Hq; [done|]. rewrite store_cons in Hq. destruct (decide (x = z)) as [<-|Hne].
  - rewrite lookup_insert_eq in Hq. by simplify_eq.
  - rewrite lookup_insert_ne in Hq by done. by eapply IH.
Qed.

Lemma weighted_poly_value v s p lhs q : expressed v s p -> weighted_poly lhs p = Some q -> poly_value v q = weighted lhs s.
Proof.
  intros Hp. revert q. induction lhs as [|[w x] lhs IH]; intros q H; cbn [weighted_poly] in H; [by simplify_eq|].
  destruct (p !! x) as [qx|] eqn:E; [|done]. cbn [mbind option_bind] in H. destruct (weighted_poly lhs p) as [r|]; [|done].
  cbn [mbind option_bind] in H. simplify_eq. rewrite poly_add_value, poly_scale_value, (IH r), (Hp x) by done. done.
Qed.

Lemma poly_value_mod v m p : forallb (fun mc : mono * Z => mc.2 mod m =? 0) p = true -> exists k, poly_value v p = k * m.
Proof.
  induction p as [|[n c] p IH]; cbn [forallb]; [by exists 0|]. intros [H1 H2]%andb_true_iff. cbn [snd] in H1. apply Z.eqb_eq in H1.
  destruct (IH H2) as [k Hk]. rewrite poly_cons_value, Hk. exists (c / m * mono_value v n + k).
  destruct (decide (m = 0)) as [->|Hm]; [rewrite Z.mod_0_r in H1; subst; lia|]. pose proof (Z.div_mod c m Hm). nia.
Qed.

Lemma poly_value_ext v w n p : (forall a, (a < n)%N -> v a = w a) ->
  forallb (fun mc : mono * Z => forallb (fun a => N.ltb a n) mc.1) p = true -> poly_value v p = poly_value w p.
Proof.
  intros Hvw. induction p as [|[m c] p IH]; cbn [forallb]; [done|]. intros [H1 H2]%andb_true_iff. cbn [fst] in H1.
  rewrite !poly_cons_value, IH by done. f_equal. f_equal. clear -Hvw H1. induction m as [|a m IH]; [done|]. cbn [forallb] in H1.
  apply andb_true_iff in H1 as [Ha Hm]. apply N.ltb_lt in Ha. unfold mono_value. cbn [foldr].
  change (foldr (fun a r => v a * r) 1 m) with (mono_value v m). change (foldr (fun a r => w a * r) 1 m) with (mono_value w m). by rewrite IH, Hvw by done.
Qed.

Lemma relates_sound m code xs lhs rhs s : relates m code xs lhs rhs = true ->
  weighted lhs (ideal_exec code s) mod m = poly_value (values (read s <$> xs)) rhs mod m.
Proof.
  unfold relates. intros H. destruct (symbolic_code _ _ _) as [p|] eqn:Ep; [|done]. destruct (weighted_poly lhs p) as [q|] eqn:Eq; [|done].
  apply andb_true_iff in H as [Hm Hr]. set (vs := read s <$> xs). set (v := values (vs ++ code_shifts code s)).
  assert (length vs = length xs) as Hl by apply length_fmap.
  assert (forall a, (a < N.of_nat (length xs))%N -> v a = values vs a) as Hv.
  { intros a Ha. unfold v, values. rewrite !list_lookup_total_alt, lookup_app_l by lia. done. }
  rewrite <- (poly_value_ext v (values vs) _ _ Hv Hr).
  assert (expressed v (ideal_exec code s) p) as He.
  { eapply symbolic_code_sound; [|done|].
    - apply start_expressed. apply Forall2_same_length_lookup_2; [rewrite !length_fmap, length_seq; lia|].
      intros i q' x Hq' Hx. rewrite !list_lookup_fmap in Hq'. apply fmap_Some in Hq' as (k & Hk & ->).
      apply fmap_Some in Hk as (j & Hj & ->). apply lookup_seq in Hj as [-> Hj]. rewrite atom_value. cbn [Nat.add].
      rewrite Hv by lia. unfold values. rewrite Nnat.Nat2N.id. apply list_lookup_total_correct. unfold vs. by rewrite list_lookup_fmap, Hx.
    - intros j x Hj. unfold v, values. apply list_lookup_total_correct. rewrite lookup_app_r by lia.
      by replace (_ - _)%nat with j by lia. }
  rewrite <- (weighted_poly_value _ _ _ _ _ He Eq). destruct (poly_value_mod v m _ Hm) as [k Hk].
  rewrite poly_add_value, poly_scale_value in Hk. replace (poly_value v q) with (poly_value v rhs + k * m) by lia. apply Z_mod_plus_full.
Qed.

(** Code that passes both analyses: its results are within bounds and satisfy the congruence. *)
Lemma code_spec m code xs b b' lhs rhs s : bounded s b -> analyse_code code b = Some b' -> relates m code xs lhs rhs = true ->
  bounded (exec code s) b' /\ weighted lhs (exec code s) mod m = poly_value (values (read s <$> xs)) rhs mod m.
Proof.
  intros Hb Ha Hr. destruct (analyse_code_sound _ _ _ _ Hb Ha) as [He Hb']. split; [done|]. rewrite He. by apply relates_sound.
Qed.

Lemma read_store xs vs : NoDup xs -> length xs = length vs -> read (store xs vs) <$> xs = vs.
Proof.
  intros Hn. revert vs. induction Hn as [|x xs Hx Hn IH]; intros [|v vs] Hl; try done. cbn [length] in Hl.
  rewrite store_cons, fmap_cons, read_insert_eq. f_equal. rewrite <- (IH vs) at 2 by lia. apply list_fmap_ext.
  intros i y Hy. apply read_insert_ne. intros ->. by apply Hx, list_elem_of_lookup_2 with i.
Qed.

(** A wider description of the same states. *)
Definition weaker (b : bounds) (xs : list string) (ivs : list interval) : bool :=
  forallb (fun xi => match intervals b !! xi.1 with
                     | Some j => (xi.2.1 <=? j.1) && (j.2 <=? xi.2.2)
                     | None => false
                     end) (zip xs ivs).

Lemma weaker_bounded s b xs ivs : bounded s b -> weaker b xs ivs = true -> bounded s (start xs ivs).
Proof.
  intros [Hb _] H. split; [|done]. cbn [intervals start]. revert ivs H. induction xs as [|x xs IH]; intros [|i ivs] H y j Hj; try done.
  cbn [weaker zip zip_with forallb fst snd] in H. apply andb_true_iff in H as [H1 H2]. rewrite store_cons in Hj. destruct (decide (x = y)) as [<-|Hne].
  - rewrite lookup_insert_eq in Hj. simplify_eq. destruct (intervals b !! x) as [k|] eqn:E; [|done]. apply Hb in E.
    bool_to_prop. unfold within in *. lia.
  - rewrite lookup_insert_ne in Hj by done. by eapply IH.
Qed.

(** The interval analysis from the bounds [ivs] of [xs] ends within [jvs] for [ys]. *)
Definition safe (code : list stmt) (xs : list string) (ivs : list interval) (ys : list string) (jvs : list interval) : bool :=
  match analyse_code code (start xs ivs) with
  | Some b => weaker b ys jvs
  | None => false
  end.

Lemma code_correct m code xs ivs ys jvs lhs rhs s : bounded s (start xs ivs) ->
  safe code xs ivs ys jvs = true -> relates m code xs lhs rhs = true ->
  bounded (exec code s) (start ys jvs) /\ weighted lhs (exec code s) mod m = poly_value (values (read s <$> xs)) rhs mod m.
Proof.
  unfold safe. intros Hb Hs Hr. destruct (analyse_code code (start xs ivs)) as [b|] eqn:Ha; [|done].
  destruct (code_spec _ _ _ _ _ _ _ _ Hb Ha Hr) as [Hb' Hw]. split; [|done]. by eapply weaker_bounded.
Qed.

Lemma safe_sound code xs ivs ys jvs s : bounded s (start xs ivs) -> safe code xs ivs ys jvs = true ->
  exec code s = ideal_exec code s /\ bounded (exec code s) (start ys jvs).
Proof.
  unfold safe. intros Hb Hs. destruct (analyse_code code (start xs ivs)) as [b|] eqn:Ha; [|done].
  destruct (analyse_code_sound _ _ _ _ Hb Ha) as [He Hb']. split; [done|]. by eapply weaker_bounded.
Qed.

Lemma start_within s xs ivs : NoDup xs -> length xs = length ivs -> bounded s (start xs ivs) -> Forall2 within ivs (read s <$> xs).
Proof.
  intros Hn Hl [Hb _]. cbn [intervals start] in Hb. revert ivs Hl Hb. induction Hn as [|x xs Hx Hn IH]; intros [|i ivs] Hl Hb; try done.
  rewrite fmap_cons. constructor; [apply Hb; rewrite store_cons; apply lookup_insert_eq|]. apply IH; [cbn in Hl; lia|].
  intros y j Hj. apply Hb. rewrite store_cons, lookup_insert_ne; [done|]. intros <-. by apply Hx, (store_elem _ ivs _ j).
Qed.

Lemma exec_app a b s : exec (a ++ b) s = exec b (exec a s).
Proof. apply foldl_app. Qed.

(** Numbers given by limbs: the sum of the limbs times their weights. *)
Definition dot (ws l : list Z) : Z := foldr (fun wx r => wx.1 * wx.2 + r) 0 (zip ws l).

Fixpoint linear (k : N) (ws : list Z) : poly :=
  match ws with
  | [] => []
  | w :: ws => poly_add [([k], w)] (linear (k + 1) ws)
  end.

Lemma weighted_dot ws xs s : weighted (zip ws xs) s = dot ws (read s <$> xs).
Proof.
  revert xs. induction ws as [|w ws IH]; intros [|x xs]; [done..|]. unfold dot. rewrite fmap_cons.
  cbn [zip zip_with weighted foldr fst snd]. f_equal. apply IH.
Qed.

Lemma linear_value l k ws : (N.to_nat k + length ws <= length l)%nat -> poly_value (values l) (linear k ws) = dot ws (drop (N.to_nat k) l).
Proof.
  revert k. induction ws as [|w ws IH]; intros k Hl; [done|]. cbn [linear length] in *. rewrite poly_add_value, IH by lia.
  destruct (lookup_lt_is_Some_2 l (N.to_nat k)) as [x Hx]; [lia|]. rewrite (drop_S l x _ Hx).
  unfold dot. cbn [zip zip_with foldr fst snd]. unfold poly_value, mono_value. cbn [foldr fst snd].
  unfold values. rewrite (list_lookup_total_correct _ _ _ Hx). replace (N.to_nat (k + 1)) with (S (N.to_nat k)) by lia. lia.
Qed.

Lemma dot_app ws ws' l l' : length ws = length l -> dot (ws ++ ws') (l ++ l') = dot ws l + dot ws' l'.
Proof.
  revert l. induction ws as [|w ws IH]; intros [|x l] H; try done. cbn [length] in H. unfold dot in *.
  cbn [app zip zip_with foldr fst snd]. rewrite IH by lia. lia.
Qed.

Lemma dot_prefix ws l l' : length ws = length l -> dot ws (l ++ l') = dot ws l.
Proof. intros H. rewrite <- (app_nil_r ws) at 1. rewrite dot_app by done. unfold dot at 2. cbn [zip zip_with foldr]. lia. Qed.

Lemma dot_cons w ws x l : dot (w :: ws) (x :: l) = w * x + dot ws l.
Proof. done. Qed.

(** A sum of bounded limbs is bounded. *)
Lemma dot_bounds ws ivs l : Forall (fun w => 0 <= w) ws -> Forall2 within ivs l -> length ws = length ivs ->
  dot ws ivs.*1 <= dot ws l <= dot ws ivs.*2.
Proof.
  intros Hw H. revert ws Hw. induction H as [|i x ivs l Hi H IH]; intros [|w ws] Hw Hl; try done.
  apply Forall_cons in Hw as [Hw Hws]. cbn [length] in Hl. rewrite !fmap_cons, !dot_cons.
  specialize (IH ws Hws). unfold within in Hi. nia.
Qed.

End StraightLine.
