(* ===== verification/CryptoOps.v ===== *)
(** The common functions of src/crypto/crypto-ops.c: reading little-endian numbers
    of three and four bytes, and how such reads cut a byte string into limbs. *)

From S2P Require Import Prelude.
From S2P Require Import Varint.
From S2P Require Import Serialization.
From S2P Require Import StraightLine.
Import Stream StraightLine.

Module CryptoOps.

Definition load_3 (s : bytes) : Z := Z.lor (Z.lor (s !!! 0%nat) (Z.shiftl (s !!! 1%nat) 8)) (Z.shiftl (s !!! 2%nat) 16).

Definition load_4 (s : bytes) : Z :=
  Z.lor (Z.lor (Z.lor (s !!! 0%nat) (Z.shiftl (s !!! 1%nat) 8)) (Z.shiftl (s !!! 2%nat) 16)) (Z.shiftl (s !!! 3%nat) 24).

Lemma le_value_take n l : is_bytes l -> le_value (take n l) = le_value l mod 256 ^ Z.of_nat n.
Proof.
  intros Hl. rewrite <- (take_drop n l) at 2. rewrite le_value_app.
  assert (is_bytes (take n l)) as Ht by by apply Forall_take.
  pose proof (le_value_range _ Ht) as Hr. destruct (Nat.le_gt_cases n (length l)) as [Hn|Hn].
  - rewrite length_take_le in * by done. rewrite Z.mul_comm, Z_mod_plus_full. symmetry. by apply Z.mod_small.
  - rewrite drop_ge by lia. cbn [le_value]. rewrite Z.mul_0_r, Z.add_0_r. symmetry. apply Z.mod_small. split; [lia|].
    eapply Z.lt_le_trans; [apply Hr|]. apply Z.pow_le_mono_r; [lia|]. rewrite length_take. lia.
Qed.

Lemma le_value_drop n l : is_bytes l -> le_value (drop n l) = le_value l / 256 ^ Z.of_nat n.
Proof.
  intros Hl. destruct (Nat.le_gt_cases n (length l)) as [Hn|Hn].
  - rewrite <- (take_drop n l) at 2. rewrite le_value_app, length_take_le by done.
    assert (is_bytes (take n l)) as Ht by by apply Forall_take. pose proof (le_value_range _ Ht) as Hr.
    rewrite length_take_le in Hr by done. rewrite Z.mul_comm, Z.div_add by lia. by rewrite Z.div_small.
  - rewrite drop_ge by lia. cbn [le_value]. symmetry. apply Z.div_small. pose proof (le_value_range _ Hl) as Hr. split; [lia|].
    eapply Z.lt_le_trans; [apply Hr|]. apply Z.pow_le_mono_r; lia.
Qed.

Lemma load_3_value s : is_bytes s -> (3 <= length s)%nat -> load_3 s = le_value s mod 2 ^ 24.
Proof.
  intros Hs Hl. change (2 ^ 24) with (256 ^ Z.of_nat 3). rewrite <- le_value_take by done.
  destruct s as [|a [|b [|c s]]]; cbn [length] in Hl; try lia. repeat (apply Forall_cons in Hs as [? Hs]).
  unfold load_3, is_u8 in *. cbn [take le_value lookup_total list_lookup_total]. rewrite take_0. cbn [le_value].
  rewrite (lor_shiftl_add a b) by lia. rewrite lor_shiftl_add by lia. lia.
Qed.

Lemma load_4_value s : is_bytes s -> (4 <= length s)%nat -> load_4 s = le_value s mod 2 ^ 32.
Proof.
  intros Hs Hl. change (2 ^ 32) with (256 ^ Z.of_nat 4). rewrite <- le_value_take by done.
  destruct s as [|a [|b [|c [|d s]]]]; cbn [length] in Hl; try lia. repeat (apply Forall_cons in Hs as [? Hs]).
  unfold load_4, is_u8 in *. cbn [take le_value lookup_total list_lookup_total]. rewrite take_0. cbn [le_value].
  rewrite (lor_shiftl_add a b) by lia. rewrite (lor_shiftl_add _ c) by lia. rewrite lor_shiftl_add by lia. lia.
Qed.

(** ** Limbs *)

(** The number with the given digits, the least significant first. *)
Fixpoint radix (base : Z) (ds : list Z) : Z := match ds with [] => 0 | d :: ds => d + base * radix base ds end.

(** The [w] bits of [v] from bit [a] on. *)
Definition bits (v a w : Z) : Z := v / 2 ^ a mod 2 ^ w.

Lemma bits_window v k n j w : 0 <= k -> 0 <= n -> 0 <= j -> 0 <= w -> j + w <= n ->
  (v / 2 ^ k mod 2 ^ n) / 2 ^ j mod 2 ^ w = bits v (k + j) w.
Proof.
  intros. unfold bits. apply Z.bits_inj'. intros i Hi. destruct (Z.lt_ge_cases i w).
  - rewrite !Z.mod_pow2_bits_low, Z.div_pow2_bits, Z.mod_pow2_bits_low, !Z.div_pow2_bits by lia. f_equal. lia.
  - by rewrite !Z.mod_pow2_bits_high by lia.
Qed.

Lemma mask_shift_load_3 s k j w : is_bytes s -> (k + 3 <= length s)%nat -> 0 <= j -> 0 <= w -> j + w <= 24 ->
  Z.land (Z.ones w) (Z.shiftr (load_3 (drop k s)) j) = bits (le_value s) (8 * Z.of_nat k + j) w.
Proof.
  intros Hs Hl Hj Hw Hjw. rewrite load_3_value by (by apply Forall_drop || (rewrite length_drop; lia)).
  rewrite le_value_drop by done. rewrite Z.land_comm, Z.land_ones, Z.shiftr_div_pow2 by done.
  change 256 with (2 ^ 8). rewrite <- Z.pow_mul_r by lia. apply bits_window; lia.
Qed.

Lemma mask_shift_load_4 s k j w : is_bytes s -> (k + 4 <= length s)%nat -> 0 <= j -> 0 <= w -> j + w <= 32 ->
  Z.land (Z.ones w) (Z.shiftr (load_4 (drop k s)) j) = bits (le_value s) (8 * Z.of_nat k + j) w.
Proof.
  intros Hs Hl Hj Hw Hjw. rewrite load_4_value by (by apply Forall_drop || (rewrite length_drop; lia)).
  rewrite le_value_drop by done. rewrite Z.land_comm, Z.land_ones, Z.shiftr_div_pow2 by done.
  change 256 with (2 ^ 8). rewrite <- Z.pow_mul_r by lia. apply bits_window; lia.
Qed.

Lemma mask_load_3 s k w : is_bytes s -> (k + 3 <= length s)%nat -> 0 <= w <= 24 ->
  Z.land (Z.ones w) (load_3 (drop k s)) = bits (le_value s) (8 * Z.of_nat k) w.
Proof.
  intros Hs Hl Hw. rewrite <- (Z.shiftr_0_r (load_3 _)), mask_shift_load_3 by (done || lia). by rewrite Z.add_0_r.
Qed.

(** The last limb takes what is left. *)
Lemma shift_load_4 s k j : is_bytes s -> length s = (k + 4)%nat -> 0 <= j <= 32 ->
  Z.shiftr (load_4 (drop k s)) j = le_value s / 2 ^ (8 * Z.of_nat k + j).
Proof.
  intros Hs Hl Hj. rewrite load_4_value by (by apply Forall_drop || (rewrite length_drop; lia)).
  pose proof (le_value_range (drop k s)) as Hr. rewrite length_drop, Hl in Hr. replace (k + 4 - k)%nat with 4%nat in Hr by lia.
  rewrite Z.mod_small by (apply Hr; by apply Forall_drop). rewrite le_value_drop, Z.shiftr_div_pow2 by done || lia.
  change 256 with (2 ^ 8). rewrite <- Z.pow_mul_r by lia. rewrite Z.div_div by lia. by rewrite <- Z.pow_add_r by lia.
Qed.

(** The weights of limbs of [w] bits. *)
Definition weights (w : Z) (n : nat) : list Z := (fun i => 2 ^ (w * Z.of_nat i)) <$> List.seq 0 n.

(** [v] cut into [n] limbs of [w] bits and the rest. *)
Definition limbs (w : Z) (n : nat) (v : Z) : list Z :=
  ((fun i => bits v (w * Z.of_nat i) w) <$> List.seq 0 n) ++ [v / 2 ^ (w * Z.of_nat n)].

Lemma dot_bits w n v : 0 <= w -> dot (weights w n) ((fun i => bits v (w * Z.of_nat i) w) <$> List.seq 0 n) = v mod 2 ^ (w * Z.of_nat n).
Proof.
  intros Hw. induction n as [|n IH]; [rewrite Z.mul_0_r; symmetry; apply Z.mod_1_r|].
  unfold weights in *. rewrite !seq_S, !fmap_app, dot_app, IH by (rewrite !length_fmap; done).
  cbn [Nat.add]. rewrite !list_fmap_singleton, dot_cons. unfold dot. cbn [zip zip_with foldr]. unfold bits.
  rewrite Nat2Z.inj_succ, Z.mul_succ_r, Z.pow_add_r by lia. rewrite Z.rem_mul_r by lia. lia.
Qed.

Lemma dot_limbs w n v : 0 <= w -> dot (weights w (S n)) (limbs w n v) = v.
Proof.
  intros Hw. unfold limbs. replace (weights w (S n)) with (weights w n ++ [2 ^ (w * Z.of_nat n)])
    by (unfold weights; by rewrite seq_S, fmap_app).
  rewrite dot_app by (unfold weights; by rewrite !length_fmap). rewrite dot_bits, dot_cons by done. unfold dot. cbn [zip zip_with foldr].
  pose proof (Z.div_mod v (2 ^ (w * Z.of_nat n))). lia.
Qed.

Lemma bits_range v a w : 0 <= w -> 0 <= bits v a w < 2 ^ w.
Proof. intros Hw. apply Z.mod_pos_bound. lia. Qed.

(** ** Bytes of limbs *)

Lemma u8_shiftr x k : 0 <= k -> u8 (Z.shiftr x k) = x / 2 ^ k - 256 * (x / 2 ^ (k + 8)).
Proof.
  intros Hk. unfold u8. rewrite Z.shiftr_div_pow2, Z.pow_add_r, <- Z.div_div by lia. rewrite Z.mod_eq by lia. lia.
Qed.

(** A byte made of the top of one limb and the bottom of the next. *)
Lemma u8_lor x y a b : 0 <= a -> 0 <= b <= 8 -> 0 <= x < 2 ^ (a + b) ->
  u8 (Z.lor (Z.shiftr x a) (Z.shiftl y b)) = x / 2 ^ a + 2 ^ b * (y - 2 ^ (8 - b) * (y / 2 ^ (8 - b))).
Proof.
  intros Ha Hb Hx. assert (0 < 2 ^ a /\ 0 < 2 ^ b /\ 0 < 2 ^ (8 - b)) as (? & ? & ?) by lia.
  unfold u8. rewrite Z.shiftr_div_pow2 by lia. rewrite Z.pow_add_r in Hx by lia.
  assert (0 <= x / 2 ^ a < 2 ^ b) as Hq by (split; [apply Z.div_pos; lia | apply Z.div_lt_upper_bound; lia]).
  rewrite lor_shiftl_add by lia. replace (2 ^ 8) with (2 ^ b * 2 ^ (8 - b)) by (rewrite <- Z.pow_add_r by lia; f_equal; lia).
  rewrite <- (Z.mod_eq y) by lia. rewrite Z.rem_mul_r by lia. rewrite Z_mod_plus_full. rewrite Z.div_add by lia.
  rewrite (Z.mod_small (x / 2 ^ a)), (Z.div_small (x / 2 ^ a)) by lia. by rewrite Z.add_0_l.
Qed.

(** The test for a byte string that is not all zeros: [((s[0] | ... | s[31]) - 1) >> 8) + 1]. *)
Lemma foldl_lor_zero x ls : 0 <= x -> Forall (fun y => 0 <= y) ls -> foldl Z.lor x ls = 0 <-> x = 0 /\ Forall (fun y => y = 0) ls.
Proof.
  intros Hx H. revert x Hx. induction H as [|y ls Hy H IH]; intros x Hx; cbn [foldl]; [naive_solver|].
  rewrite IH by (apply Z.lor_nonneg; lia). rewrite Forall_cons, Z.lor_eq_0_iff. naive_solver.
Qed.

Lemma foldl_lor_byte x ls : is_u8 x -> is_bytes ls -> is_u8 (foldl Z.lor x ls).
Proof.
  intros Hx H. revert x Hx. induction H as [|y ls Hy H IH]; intros x Hx; cbn [foldl]; [done|]. apply IH.
  unfold is_u8 in *. split; [apply Z.lor_nonneg; lia|]. destruct (Z.eq_dec (Z.lor x y) 0) as [->|Hne]; [done|].
  apply Z.log2_lt_pow2; [pose proof (proj2 (Z.lor_nonneg x y)); lia|]. rewrite Z.log2_lor by lia.
  apply Z.max_lub_lt; (destruct (decide (0 < x)), (decide (0 < y)); first [apply Z.log2_lt_pow2; lia | rewrite Z.log2_nonpos by lia; done]).
Qed.

Lemma le_value_zero ls : is_bytes ls -> le_value ls = 0 <-> Forall (fun y => y = 0) ls.
Proof.
  induction 1 as [|b ls Hb H IH]; cbn [le_value]; [done|]. rewrite Forall_cons, <- IH. pose proof (le_value_range ls H). unfold is_u8 in Hb. lia.
Qed.

Lemma or_bytes x : is_bytes x -> x <> [] ->
  Z.shiftr (foldl Z.lor (x !!! 0%nat) (tail x) - 1) 8 + 1 = if le_value x =? 0 then 0 else 1.
Proof.
  intros Hx Hl. destruct x as [|b x]; [done|]. pose proof (le_value_zero _ Hx) as Hz. apply Forall_cons in Hx as [Hb Hx].
  change ((b :: x) !!! 0%nat) with b. cbn [tail].
  pose proof (foldl_lor_byte b x Hb Hx) as Hr. pose proof (foldl_lor_zero b x) as Hf. rewrite Forall_cons in Hz.
  set (o := foldl Z.lor b x) in *. clearbody o. unfold is_u8 in *. rewrite Z.shiftr_div_pow2 by lia.
  destruct (Z.eqb_spec (le_value (b :: x)) 0) as [E|E].
  - rewrite (proj2 (Hf ltac:(lia) ltac:(by eapply Forall_impl; [exact Hx|intros ? [? _]]))) by tauto. done.
  - rewrite Z.div_small; [done|]. assert (o <> 0) as Ho; [|lia]. intros Ho. apply E, Hz, Hf; [lia| |done].
    eapply Forall_impl; [exact Hx|]. by intros ? [? _].
Qed.

(** Powers of two as numerals, and the quotients of limbs as variables. *)
Ltac numerals := repeat match goal with |- context [2 ^ ?k] => let v := eval vm_compute in (2 ^ k) in progress change (2 ^ k) with v end.

Ltac name_quotients := repeat match goal with |- context [?x / ?k] => let n := fresh "q" in set (n := x / k); clearbody n end.

End CryptoOps.
