(* ===== verification/Sc.v ===== *)
(** Scalars modulo the group order, src/crypto/crypto-ops.c: [sc_reduce],
    [sc_reduce32], [sc_add], [sc_sub], [sc_mulsub], [sc_check], [sc_isnonzero] and
    [sc_0].  A scalar is 32 bytes, computed with as limbs of 21 bits in 64-bit
    integers.  The statements of the functions are lists of [StraightLine]; blocks
    that the source repeats (the carries and the folding of a high limb) are
    definitions. *)

From S2P Require Import Prelude.
From S2P Require Import Varint.
From S2P Require Import Serialization.
From S2P Require Import StraightLine.
From S2P Require Import CryptoOps.
Import Stream StraightLine CryptoOps.

Module Sc.

#[local] Open Scope string_scope.
#[local] Open Scope list_scope.
#[local] Open Scope Z_scope.

(** The order of the base point. *)
Definition l : Z := 2 ^ 252 + 27742317777372353535851937790883648493.

(** ** Reading and writing limbs *)

Definition load_64 (s : bytes) : list Z :=
  [ Z.land 2097151 (load_3 s);
    Z.land 2097151 (Z.shiftr (load_4 (drop 2 s)) 5);
    Z.land 2097151 (Z.shiftr (load_3 (drop 5 s)) 2);
    Z.land 2097151 (Z.shiftr (load_4 (drop 7 s)) 7);
    Z.land 2097151 (Z.shiftr (load_4 (drop 10 s)) 4);
    Z.land 2097151 (Z.shiftr (load_3 (drop 13 s)) 1);
    Z.land 2097151 (Z.shiftr (load_4 (drop 15 s)) 6);
    Z.land 2097151 (Z.shiftr (load_3 (drop 18 s)) 3);
    Z.land 2097151 (load_3 (drop 21 s));
    Z.land 2097151 (Z.shiftr (load_4 (drop 23 s)) 5);
    Z.land 2097151 (Z.shiftr (load_3 (drop 26 s)) 2);
    Z.land 2097151 (Z.shiftr (load_4 (drop 28 s)) 7);
    Z.land 2097151 (Z.shiftr (load_4 (drop 31 s)) 4);
    Z.land 2097151 (Z.shiftr (load_3 (drop 34 s)) 1);
    Z.land 2097151 (Z.shiftr (load_4 (drop 36 s)) 6);
    Z.land 2097151 (Z.shiftr (load_3 (drop 39 s)) 3);
    Z.land 2097151 (load_3 (drop 42 s));
    Z.land 2097151 (Z.shiftr (load_4 (drop 44 s)) 5);
    Z.land 2097151 (Z.shiftr (load_3 (drop 47 s)) 2);
    Z.land 2097151 (Z.shiftr (load_4 (drop 49 s)) 7);
    Z.land 2097151 (Z.shiftr (load_4 (drop 52 s)) 4);
    Z.land 2097151 (Z.shiftr (load_3 (drop 55 s)) 1);
    Z.land 2097151 (Z.shiftr (load_4 (drop 57 s)) 6);
    Z.shiftr (load_4 (drop 60 s)) 3 ].

Definition load_32 (s : bytes) : list Z :=
  [ Z.land 2097151 (load_3 s);
    Z.land 2097151 (Z.shiftr (load_4 (drop 2 s)) 5);
    Z.land 2097151 (Z.shiftr (load_3 (drop 5 s)) 2);
    Z.land 2097151 (Z.shiftr (load_4 (drop 7 s)) 7);
    Z.land 2097151 (Z.shiftr (load_4 (drop 10 s)) 4);
    Z.land 2097151 (Z.shiftr (load_3 (drop 13 s)) 1);
    Z.land 2097151 (Z.shiftr (load_4 (drop 15 s)) 6);
    Z.land 2097151 (Z.shiftr (load_3 (drop 18 s)) 3);
    Z.land 2097151 (load_3 (drop 21 s));
    Z.land 2097151 (Z.shiftr (load_4 (drop 23 s)) 5);
    Z.land 2097151 (Z.shiftr (load_3 (drop 26 s)) 2);
    Z.shiftr (load_4 (drop 28 s)) 7 ].

Definition store_32 (ls : list Z) : bytes :=
  match ls with
  | [s0; s1; s2; s3; s4; s5; s6; s7; s8; s9; s10; s11] =>
      [u8 (Z.shiftr s0 0); u8 (Z.shiftr s0 8); u8 (Z.lor (Z.shiftr s0 16) (Z.shiftl s1 5)); u8 (Z.shiftr s1 3);
       u8 (Z.shiftr s1 11); u8 (Z.lor (Z.shiftr s1 19) (Z.shiftl s2 2)); u8 (Z.shiftr s2 6); u8 (Z.lor (Z.shiftr
       s2 14) (Z.shiftl s3 7)); u8 (Z.shiftr s3 1); u8 (Z.shiftr s3 9); u8 (Z.lor (Z.shiftr s3 17) (Z.shiftl s4
       4)); u8 (Z.shiftr s4 4); u8 (Z.shiftr s4 12); u8 (Z.lor (Z.shiftr s4 20) (Z.shiftl s5 1)); u8 (Z.shiftr
       s5 7); u8 (Z.lor (Z.shiftr s5 15) (Z.shiftl s6 6)); u8 (Z.shiftr s6 2); u8 (Z.shiftr s6 10); u8 (Z.lor
       (Z.shiftr s6 18) (Z.shiftl s7 3)); u8 (Z.shiftr s7 5); u8 (Z.shiftr s7 13); u8 (Z.shiftr s8 0); u8
       (Z.shiftr s8 8); u8 (Z.lor (Z.shiftr s8 16) (Z.shiftl s9 5)); u8 (Z.shiftr s9 3); u8 (Z.shiftr s9 11); u8
       (Z.lor (Z.shiftr s9 19) (Z.shiftl s10 2)); u8 (Z.shiftr s10 6); u8 (Z.lor (Z.shiftr s10 14) (Z.shiftl s11
       7)); u8 (Z.shiftr s11 1); u8 (Z.shiftr s11 9); u8 (Z.shiftr s11 17)]
  | _ => []
  end.

(** ** The statements *)

Definition limb (a : string) (i : nat) : string := a +:+ decimal i.
Definition s (i : nat) : string := limb "s" i.
Definition c (i : nat) : string := limb "carry" i.

(** [s(i)] times [2^252] folded into the limbs twelve places below:
    [s(k-12) += s(k) * 666643; ...; s(k-7) -= s(k) * 683901]. *)
Definition fold (k : nat) : list stmt :=
  [ int64 (s (k - 12)) (s (k - 12) + s k * 666643);
    int64 (s (k - 11)) (s (k - 11) + s k * 470296);
    int64 (s (k - 10)) (s (k - 10) + s k * 654183);
    int64 (s (k - 9)) (s (k - 9) - s k * 997805);
    int64 (s (k - 8)) (s (k - 8) + s k * 136657);
    int64 (s (k - 7)) (s (k - 7) - s k * 683901) ].

(** [carry(i) = (s(i) + (1<<20)) >> 21; s(i+1) += carry(i); s(i) -= carry(i) << 21]. *)
Definition round (i : nat) : list stmt :=
  [ int64 (c i) ((s i + (1 << 20)) >> 21); int64 (s (S i)) (s (S i) + c i); int64 (s i) (s i - (c i << 21)) ].

(** [carry(i) = s(i) >> 21; s(i+1) += carry(i); s(i) -= carry(i) << 21]. *)
Definition floor (i : nat) : list stmt :=
  [ int64 (c i) (s i >> 21); int64 (s (S i)) (s (S i) + c i); int64 (s i) (s i - (c i << 21)) ].

Definition zero (i : nat) : list stmt := [ int64 (s i) 0 ].

(** The end of every function: the even carries, the odd carries, twice the fold of
    [s12], and the last carries. *)
Definition settle : list stmt :=
  mjoin (round <$> [0; 2; 4; 6; 8; 10]%nat) ++ mjoin (round <$> [1; 3; 5; 7; 9; 11]%nat) ++ fold 12 ++ zero 12.

Definition canonical_1 : list stmt := mjoin (floor <$> List.seq 0 12).
Definition canonical_2 : list stmt := fold 12 ++ mjoin (floor <$> List.seq 0 11).

(** From limbs 0 to 23 to limbs 0 to 11 and [s12 = 0]. *)
Definition high_folds : list stmt :=
  mjoin (fold <$> [23; 22; 21; 20; 19; 18]%nat)
  ++ mjoin (round <$> [6; 8; 10; 12; 14; 16]%nat) ++ mjoin (round <$> [7; 9; 11; 13; 15]%nat)
  ++ mjoin (fold <$> [17; 16; 15; 14; 13; 12]%nat) ++ zero 12.

Definition sc_reduce_code : list stmt := high_folds ++ settle.

Definition sc_reduce32_code : list stmt := zero 12 ++ settle.

Definition sc_add_code : list stmt :=
  ((fun i => int64 (s i) (limb "a" i + limb "b" i)) <$> List.seq 0 12) ++ zero 12 ++ settle.

Definition sc_sub_code : list stmt :=
  ((fun i => int64 (s i) (limb "a" i - limb "b" i)) <$> List.seq 0 12) ++ zero 12 ++ settle.

(** [a(i)*b(k-i) + ... + a(j)*b(k-j)] for [j = i + n]. *)
Fixpoint products (k i n : nat) : expr :=
  match n with
  | O => limb "a" i * limb "b" (k - i)
  | S m => products k i m + limb "a" (i + n) * limb "b" (k - (i + n))
  end%code.

Definition sc_mulsub_code : list stmt :=
  ((fun k => int64 (s k) (limb "c" k - products k 0 k)) <$> List.seq 0 12)
  ++ ((fun k => int64 (s k) (- products k (k - 11) (22 - k))) <$> List.seq 12 10)
  ++ [ int64 (s 22) (- limb "a" 11 * limb "b" 11) ] ++ zero 23
  ++ mjoin (round <$> [0; 2; 4; 6; 8; 10; 12; 14; 16; 18; 20; 22]%nat)
  ++ mjoin (round <$> [1; 3; 5; 7; 9; 11; 13; 15; 17; 19; 21]%nat)
  ++ high_folds ++ settle.

(** ** The functions *)

Definition named (a : string) (n : nat) : list string := limb a <$> List.seq 0 n.

Definition sc_finish (e : env) : bytes := store_32 (read (exec canonical_2 (exec canonical_1 e)) <$> named "s" 12).

Definition sc_reduce (x : bytes) : bytes := sc_finish (exec sc_reduce_code (store (named "s" 24) (load_64 x))).

Definition sc_reduce32 (x : bytes) : bytes := sc_finish (exec sc_reduce32_code (store (named "s" 12) (load_32 x))).

Definition sc_add (a b : bytes) : bytes :=
  sc_finish (exec sc_add_code (store (named "a" 12 ++ named "b" 12) (load_32 a ++ load_32 b))).

Definition sc_sub (a b : bytes) : bytes :=
  sc_finish (exec sc_sub_code (store (named "a" 12 ++ named "b" 12) (load_32 a ++ load_32 b))).

Definition sc_mulsub (a b c : bytes) : bytes :=
  sc_finish (exec sc_mulsub_code (store (named "a" 12 ++ named "b" 12 ++ named "c" 12) (load_32 a ++ load_32 b ++ load_32 c))).

Definition sc_0 : bytes := replicate 32 0.

(** [(a >> 63) - ((-a) >> 63)]. *)
Definition signum (a : Z) : Z := Z.shiftr a 63 - Z.shiftr (- a) 63.

Definition sc_check (x : bytes) : Z :=
  let s0 := load_4 x in
  let s1 := load_4 (drop 4 x) in
  let s2 := load_4 (drop 8 x) in
  let s3 := load_4 (drop 12 x) in
  let s4 := load_4 (drop 16 x) in
  let s5 := load_4 (drop 20 x) in
  let s6 := load_4 (drop 24 x) in
  let s7 := load_4 (drop 28 x) in
  Z.shiftr (signum (1559614444 - s0) + Z.shiftl (signum (1477600026 - s1)) 1 + Z.shiftl (signum (2734136534 - s2)) 2
    + Z.shiftl (signum (350157278 - s3)) 3 + Z.shiftl (signum (- s4)) 4 + Z.shiftl (signum (- s5)) 5
    + Z.shiftl (signum (- s6)) 6 + Z.shiftl (signum (268435456 - s7)) 7) 8.

Definition sc_isnonzero (x : bytes) : Z := Z.shiftr (foldl Z.lor (x !!! 0%nat) (tail x) - 1) 8 + 1.

(** ** Correctness *)

Definition W : nat -> list Z := weights 21.

Definition limb_range : interval := (0, 2 ^ 21 - 1).
Definition range_64 : list interval := replicate 23 limb_range ++ [(0, 2 ^ 29 - 1)].
Definition range_32 : list interval := replicate 11 limb_range ++ [(0, 2 ^ 25 - 1)].

(** The limbs before the last carries, and between the two rounds of them. *)
Definition settled : list interval := replicate 11 (- 2 ^ 30, 2 ^ 30) ++ [(- 2 ^ 20, 2 ^ 20); (0, 0)].
Definition carried : list interval := replicate 12 limb_range ++ [(- 2 ^ 30, 2 ^ 30)].
Definition final : list interval := replicate 11 limb_range ++ [(- 2 ^ 30, 2 ^ 30)].

(** Lengths of lists of variables. *)
Ltac sizes := rewrite ?length_app, ?length_fmap; bytes_compute.

Lemma named_snoc : named "s" 13 = named "s" 12 ++ [s 12].
Proof. reflexivity. Qed.

Lemma W_snoc : W 13 = W 12 ++ [2 ^ 252].
Proof. vm_compute. reflexivity. Qed.

(** Thirteen limbs: the number of the first twelve and the last one. *)
Lemma dot_13 e : dot (W 13) (read e <$> named "s" 13) = dot (W 12) (read e <$> named "s" 12) + 2 ^ 252 * read e (s 12).
Proof.
  rewrite named_snoc, W_snoc, fmap_app, dot_app by reflexivity. rewrite list_fmap_singleton, dot_cons. unfold dot at 2. cbn [zip zip_with foldr]. lia.
Qed.

Lemma read_13 e ivs i : length ivs = 12%nat -> bounded e (start (named "s" 13) (ivs ++ [i])) ->
  Forall2 within ivs (read e <$> named "s" 12) /\ within i (read e (s 12)).
Proof.
  intros Hl Hb. apply start_within in Hb; [|bytes_compute|rewrite length_app, Hl; done].
  rewrite named_snoc, fmap_app, list_fmap_singleton in Hb. apply Forall2_app_inv in Hb as [H1 H2]; [|by rewrite Hl].
  split; [done|]. by apply Forall2_cons in H2 as [H2 _].
Qed.

Lemma dot_range lo hi (ivs : list interval) ls : Forall2 within ivs ls -> length ivs = 12%nat ->
  (lo <=? dot (W 12) ivs.*1) && (dot (W 12) ivs.*2 <=? hi) = true -> lo <= dot (W 12) ls <= hi.
Proof.
  intros H Hl Hr. bool_to_prop. destruct (dot_bounds (W 12) ivs ls); [|done|by rewrite Hl|lia].
  refine (bool_decide_eq_true_1 _ _). vm_compute. reflexivity.
Qed.

(** The first round of carries divides by [2^252]. *)
Lemma canonical_1_spec e : bounded e (start (named "s" 13) settled) ->
  let A := dot (W 12) (read e <$> named "s" 12) in
  - 2 ^ 252 < A < 2 ^ 252
  /\ bounded (exec canonical_1 e) (start (named "s" 13) carried)
  /\ read (exec canonical_1 e) (s 12) = A / 2 ^ 252
  /\ dot (W 12) (read (exec canonical_1 e) <$> named "s" 12) = A mod 2 ^ 252.
Proof.
  intros Hb A.
  destruct (code_correct 0 canonical_1 (named "s" 13) settled (named "s" 13) carried (zip (W 13) (named "s" 13)) (linear 0 (W 13)) e)
    as [Hb' Hd]; [done|vm_compute; reflexivity..|].
  rewrite weighted_dot, linear_value, !Z.mod_0_r, drop_0, !dot_13 in Hd by sizes.
  destruct (read_13 e (replicate 11 (- 2 ^ 30, 2 ^ 30) ++ [(- 2 ^ 20, 2 ^ 20)]) (0, 0) eq_refl Hb) as [He H0].
  destruct (read_13 _ (replicate 12 limb_range) (- 2 ^ 30, 2 ^ 30) eq_refl Hb') as [He' _].
  apply (dot_range (1 - 2 ^ 252) (2 ^ 252 - 1)) in He; [|reflexivity|vm_compute; reflexivity].
  apply (dot_range 0 (2 ^ 252 - 1)) in He'; [|reflexivity|vm_compute; reflexivity].
  unfold within in H0. cbn [fst snd] in H0. fold A in Hd, He. split; [lia|]. split; [done|].
  set (x := dot (W 12) (read (exec canonical_1 e) <$> _)) in *. set (y := read (exec canonical_1 e) (s 12)) in *. clearbody A x y.
  replace A with (x + y * 2 ^ 252) by lia. rewrite Z.div_add, Z_mod_plus_full by lia. rewrite Z.div_small, Z.mod_small by lia. lia.
Qed.

(** The second round folds the quotient: the result is reduced modulo [l]. *)
Lemma canonical_spec e : bounded e (start (named "s" 13) settled) ->
  let r := read (exec canonical_2 (exec canonical_1 e)) <$> named "s" 12 in
  Forall2 within final r /\ dot (W 12) r = dot (W 12) (read e <$> named "s" 12) mod l.
Proof.
  intros Hb r. destruct (canonical_1_spec e Hb) as (HA & Hb1 & H12 & Hd1).
  destruct (code_correct 0 canonical_2 (named "s" 13) carried (named "s" 12) final (zip (W 12) (named "s" 12))
    (poly_add (linear 0 (W 12)) [([12%N], 2 ^ 252 - l)]) (exec canonical_1 e)) as [Hb2 Hd2]; [done|vm_compute; reflexivity..|].
  rewrite weighted_dot, poly_add_value, linear_value, !Z.mod_0_r, drop_0 in Hd2 by sizes. fold r in Hd2.
  apply start_within in Hb2; [|bytes_compute|reflexivity]. split; [done|]. rewrite Hd2.
  assert (poly_value (values (read (exec canonical_1 e) <$> named "s" 13)) [([12%N], 2 ^ 252 - l)]
    = (2 ^ 252 - l) * (dot (W 12) (read e <$> named "s" 12) / 2 ^ 252)) as ->.
  { rewrite <- H12. unfold poly_value, mono_value. cbn [foldr fst snd]. unfold values. rewrite named_snoc, fmap_app, list_fmap_singleton.
    rewrite list_lookup_total_middle by reflexivity. lia. }
  assert (dot (W 12) (read (exec canonical_1 e) <$> named "s" 13) = dot (W 12) (read (exec canonical_1 e) <$> named "s" 12)) as ->
    by (rewrite named_snoc, fmap_app; apply dot_prefix; sizes).
  rewrite Hd1. set (A := dot (W 12) (read e <$> named "s" 12)) in *. assert (0 < 2 ^ 252 < l) as Hl by (split; reflexivity).
  pose proof (Z.div_mod A (2 ^ 252)). pose proof (Z.mod_pos_bound A (2 ^ 252)). set (q := A / 2 ^ 252) in *. set (m := A mod 2 ^ 252) in *.
  clearbody q m A. assert (q = 0 \/ q = -1) as [-> | ->] by nia.
  - rewrite Z.mod_small by lia. lia.
  - replace A with (A + l + (-1) * l) by lia. rewrite Z_mod_plus_full, Z.mod_small by lia. lia.
Qed.

Lemma store_32_value r : Forall2 within range_32 r ->
  le_value (store_32 r) = dot (W 12) r /\ is_bytes (store_32 r) /\ length (store_32 r) = 32%nat.
Proof.
  intros Hr. destruct r as [|s0 [|s1 [|s2 [|s3 [|s4 [|s5 [|s6 [|s7 [|s8 [|s9 [|s10 [|s11 [|? ?]]]]]]]]]]]]]; try (apply Forall2_length in Hr; done).
  unfold within, range_32, limb_range in Hr. cbn [replicate app] in Hr.
  repeat (apply Forall2_cons in Hr as [? Hr]). cbn [fst snd] in *. split; [|split; [repeat constructor; apply u8_range | done]].
  unfold store_32. rewrite !u8_lor by lia. rewrite !u8_shiftr by lia. cbn [le_value]. numerals.
  let w := eval vm_compute in (W 12) in change (W 12) with w. rewrite !dot_cons, !Z.div_1_r.
  rewrite (Z.div_small s7 2097152), (Z.div_small s11 33554432) by lia. unfold dot. cbn [zip zip_with foldr]. name_quotients. ring.
Qed.

Ltac load_limbs := first [apply mask_shift_load_3 | apply mask_shift_load_4 | apply mask_load_3 | apply (mask_load_3 _ 0) | apply shift_load_4]; (done || lia).

Lemma load_64_limbs x : is_bytes x -> length x = 64%nat -> load_64 x = limbs 21 23 (le_value x).
Proof.
  intros Hx Hl. unfold load_64, limbs. change 2097151 with (Z.ones 21). cbn [List.seq fmap list_fmap app].
  repeat (apply (f_equal2 cons); [load_limbs|]). reflexivity.
Qed.

Lemma load_32_limbs x : is_bytes x -> length x = 32%nat -> load_32 x = limbs 21 11 (le_value x).
Proof.
  intros Hx Hl. unfold load_32, limbs. change 2097151 with (Z.ones 21). cbn [List.seq fmap list_fmap app].
  repeat (apply (f_equal2 cons); [load_limbs|]). reflexivity.
Qed.

Lemma limbs_range n v top : 0 <= v < 2 ^ (21 * Z.of_nat n) * top ->
  Forall2 within (replicate n limb_range ++ [(0, top - 1)]) (limbs 21 n v).
Proof.
  intros Hv. unfold limbs. apply Forall2_app.
  - apply Forall2_same_length_lookup_2; [by rewrite length_replicate, length_fmap, length_seq|].
    intros i iv x Hi Hx. apply lookup_replicate in Hi as [-> _]. rewrite list_lookup_fmap in Hx. apply fmap_Some in Hx as (j & _ & ->).
    pose proof (bits_range v (21 * Z.of_nat j) 21). unfold within, limb_range. cbn [fst snd]. lia.
  - constructor; [|done]. unfold within. cbn [fst snd]. pose proof (Z.pow_pos_nonneg 2 (21 * Z.of_nat n)). split; [apply Z.div_pos; lia|].
    assert (v / 2 ^ (21 * Z.of_nat n) < top); [apply Z.div_lt_upper_bound; lia | lia].
Qed.

Lemma load_32_ok x : is_bytes x -> length x = 32%nat -> Forall2 within range_32 (load_32 x) /\ dot (W 12) (load_32 x) = le_value x.
Proof.
  intros Hx Hl. rewrite load_32_limbs by done. split; [|by apply dot_limbs]. apply (limbs_range 11).
  pose proof (le_value_range x Hx) as Hr. by rewrite Hl in Hr.
Qed.

Lemma load_64_ok x : is_bytes x -> length x = 64%nat -> Forall2 within range_64 (load_64 x) /\ dot (W 24) (load_64 x) = le_value x.
Proof.
  intros Hx Hl. rewrite load_64_limbs by done. split; [|by apply dot_limbs]. apply (limbs_range 23).
  pose proof (le_value_range x Hx) as Hr. by rewrite Hl in Hr.
Qed.

(** What every function does with the settled limbs of a number [v]. *)
Lemma finish_spec e v : bounded e (start (named "s" 13) settled) -> weighted (zip (W 12) (named "s" 12)) e mod l = v mod l ->
  le_value (sc_finish e) = v mod l /\ is_bytes (sc_finish e) /\ length (sc_finish e) = 32%nat.
Proof.
  intros Hb Hv. destruct (canonical_spec e Hb) as [Hf Hd]. rewrite weighted_dot in Hv. rewrite Hv in Hd. unfold sc_finish.
  set (r := read (exec canonical_2 (exec canonical_1 e)) <$> named "s" 12) in *. clearbody r.
  destruct (store_32_value r) as (H1 & H2 & H3); [|by rewrite H1].
  assert (0 <= v mod l < l) as Hm by (apply Z.mod_pos_bound; reflexivity). rewrite <- Hd in Hm.
  unfold final, range_32 in *. apply Forall2_app_inv_l in Hf as (lo & hi & Hlo & Hhi & ->).
  apply Forall2_app; [done|]. apply Forall2_cons_inv_l in Hhi as (x & hi' & Hx & Hnil & ->). apply Forall2_nil_inv_l in Hnil as ->.
  constructor; [|done]. unfold within in *. cbn [fst snd] in *.
  assert (length lo = 11%nat) as Hl by (apply Forall2_length in Hlo; done).
  assert (dot (W 12) (lo ++ [x]) = dot (W 11) lo + 2 ^ 231 * x) as Hsplit.
  { change (W 12) with (W 11 ++ [2 ^ 231]). rewrite dot_app by (by rewrite Hl). rewrite dot_cons. unfold dot at 2. cbn [zip zip_with foldr]. lia. }
  destruct (dot_bounds (W 11) (replicate 11 limb_range) lo) as [Hlo1 Hlo2]; [bytes_compute|done..|].
  assert (dot (W 11) (replicate 11 limb_range).*1 = 0) as E1 by (vm_compute; reflexivity).
  assert (dot (W 11) (replicate 11 limb_range).*2 = 2 ^ 231 - 1) as E2 by (vm_compute; reflexivity).
  rewrite E1 in Hlo1. rewrite E2 in Hlo2. rewrite Hsplit in Hm. unfold l in Hm. lia.
Qed.

Lemma W_linear k n ls : (N.to_nat k + n <= length ls)%nat -> poly_value (values ls) (linear k (W n)) = dot (W n) (drop (N.to_nat k) ls).
Proof. intros Hl. apply linear_value. unfold W, weights. rewrite length_fmap, length_seq. done. Qed.

(** [r] is the canonical representation of [v] modulo [l]. *)
Definition represents_mod (r : bytes) (v : Z) : Prop := le_value r = v mod l /\ is_bytes r /\ length r = 32%nat.

(** Code that settles the limbs of [v] makes a function that computes [v mod l]. *)
Lemma finish_code code xs ivs rhs vs v : Forall2 within ivs vs -> length xs = length ivs -> NoDup xs ->
  safe code xs ivs (named "s" 13) settled = true -> relates l code xs (zip (W 12) (named "s" 12)) rhs = true ->
  poly_value (values vs) rhs = v -> represents_mod (sc_finish (exec code (store xs vs))) v.
Proof.
  intros Hr Hl Hn Hs Hc Hv. destruct (code_correct _ _ _ _ _ _ _ _ _ (start_bounded xs _ _ Hr) Hs Hc) as [Hb Hd].
  apply finish_spec; [done|]. rewrite Hd, read_store, Hv; [done|done|]. rewrite Hl. by eapply Forall2_length.
Qed.

Ltac two_limbs a b :=
  destruct (load_32_ok a) as [Ha Hda]; [done..|]; destruct (load_32_ok b) as [Hb Hdb]; [done..|];
  pose proof (Forall2_length _ _ _ Ha) as Hla; pose proof (Forall2_length _ _ _ Hb) as Hlb;
  change (length range_32) with 12%nat in *.

Lemma sc_reduce_value x : is_bytes x -> length x = 64%nat -> represents_mod (sc_reduce x) (le_value x).
Proof.
  intros Hx Hl. destruct (load_64_ok x Hx Hl) as [Hr Hd]. pose proof (Forall2_length _ _ _ Hr) as Hlr. change (length range_64) with 24%nat in Hlr.
  apply (finish_code _ _ range_64 (linear 0 (W 24))); [done|done|bytes_compute|vm_compute; reflexivity..|].
  rewrite W_linear, drop_0 by (rewrite <- Hlr; done). done.
Qed.

Lemma sc_reduce32_value x : is_bytes x -> length x = 32%nat -> represents_mod (sc_reduce32 x) (le_value x).
Proof.
  intros Hx Hl. destruct (load_32_ok x Hx Hl) as [Hr Hd]. pose proof (Forall2_length _ _ _ Hr) as Hlr. change (length range_32) with 12%nat in Hlr.
  apply (finish_code _ _ range_32 (linear 0 (W 12))); [done|done|bytes_compute|vm_compute; reflexivity..|].
  rewrite W_linear, drop_0 by (rewrite <- Hlr; done). done.
Qed.

(** Two and three operands one after the other. *)
Lemma operand k n la lb lc : (N.to_nat k = length la)%nat -> length lb = n ->
  poly_value (values (la ++ lb ++ lc)) (linear k (W n)) = dot (W n) lb.
Proof.
  intros Hk Hn. rewrite W_linear by (rewrite !length_app; lia). rewrite Hk, drop_app_length. apply dot_prefix.
  unfold W, weights. by rewrite length_fmap, length_seq.
Qed.

Lemma first_operand n la lb : length la = n -> poly_value (values (la ++ lb)) (linear 0 (W n)) = dot (W n) la.
Proof. intros Hn. by apply (operand 0 n [] la lb). Qed.

Lemma last_operand k n la lb : (N.to_nat k = length la)%nat -> length lb = n ->
  poly_value (values (la ++ lb)) (linear k (W n)) = dot (W n) lb.
Proof. intros. rewrite <- (app_nil_r lb) at 1. by apply operand. Qed.

Lemma sc_add_value a b : is_bytes a -> length a = 32%nat -> is_bytes b -> length b = 32%nat ->
  represents_mod (sc_add a b) (le_value a + le_value b).
Proof.
  intros. two_limbs a b.
  apply (finish_code _ _ (range_32 ++ range_32) (poly_add (linear 0 (W 12)) (linear 12 (W 12))));
    [by apply Forall2_app|done|bytes_compute|vm_compute; reflexivity..|].
  rewrite poly_add_value, first_operand, last_operand by (done || lia). lia.
Qed.

Lemma sc_sub_value a b : is_bytes a -> length a = 32%nat -> is_bytes b -> length b = 32%nat ->
  represents_mod (sc_sub a b) (le_value a - le_value b).
Proof.
  intros. two_limbs a b.
  apply (finish_code _ _ (range_32 ++ range_32) (poly_add (linear 0 (W 12)) (poly_scale (-1) (linear 12 (W 12)))));
    [by apply Forall2_app|done|bytes_compute|vm_compute; reflexivity..|].
  rewrite poly_add_value, poly_scale_value, first_operand, last_operand by (done || lia). lia.
Qed.

Lemma sc_mulsub_value a b c : is_bytes a -> length a = 32%nat -> is_bytes b -> length b = 32%nat -> is_bytes c -> length c = 32%nat ->
  represents_mod (sc_mulsub a b c) (le_value c - le_value a * le_value b).
Proof.
  intros. two_limbs a b. destruct (load_32_ok c) as [Hc Hdc]; [done..|]. pose proof (Forall2_length _ _ _ Hc) as Hlc.
  apply (finish_code _ _ (range_32 ++ range_32 ++ range_32)
    (poly_add (linear 24 (W 12)) (poly_scale (-1) (poly_mul (linear 0 (W 12)) (linear 12 (W 12))))));
    [by repeat apply Forall2_app|done|bytes_compute|vm_compute; reflexivity..|].
  rewrite poly_add_value, poly_scale_value, poly_mul_value, first_operand, (operand 12) by (done || lia).
  rewrite app_assoc, last_operand by (rewrite ?length_app; done || lia). nia.
Qed.

(** ** Checks *)

Lemma signum_sgn a : - 2 ^ 63 < a < 2 ^ 63 -> signum a = Z.sgn a.
Proof.
  intros Ha. unfold signum. rewrite !Z.shiftr_div_pow2 by lia. destruct (Z.lt_trichotomy a 0) as [H|[->|H]].
  - rewrite Z.sgn_neg, (Z.div_small (- a)) by lia. rewrite <- (Z.div_unique_pos a (2 ^ 63) (-1) (a + 2 ^ 63)) by lia. lia.
  - reflexivity.
  - rewrite Z.sgn_pos, (Z.div_small a) by lia. rewrite <- (Z.div_unique_pos (- a) (2 ^ 63) (-1) (2 ^ 63 - a)) by lia. lia.
Qed.

(** Differences of digits compare numbers from the top digit down, and so do the
    signs of the differences with weights 1, 2, 4, ... *)
Fixpoint signs (ds : list Z) : Z := match ds with [] => 0 | d :: ds => Z.sgn d + 2 * signs ds end.

Lemma signs_radix base ds : Forall (fun d => - base < d < base) ds -> Z.sgn (signs ds) = Z.sgn (radix base ds).
Proof.
  induction 1 as [|d ds Hd H IH]; [done|]. cbn [signs radix].
  destruct (Z.lt_trichotomy (radix base ds) 0) as [Hr|[Hr|Hr]].
  - rewrite (Z.sgn_neg (radix base ds)), Z.sgn_neg_iff in IH by done. rewrite !Z.sgn_neg; [done|nia|]. destruct (Z.sgn_spec d); lia.
  - rewrite Hr, Z.sgn_0, Z.sgn_null_iff in IH. rewrite Hr, IH, !Z.mul_0_r, !Z.add_0_r. apply Z.sgn_sgn.
  - rewrite (Z.sgn_pos (radix base ds)), Z.sgn_pos_iff in IH by done. rewrite !Z.sgn_pos; [done|nia|]. destruct (Z.sgn_spec d); lia.
Qed.

Lemma signs_range ds : - 2 ^ Z.of_nat (length ds) < signs ds < 2 ^ Z.of_nat (length ds).
Proof.
  induction ds as [|d ds IH]; [done|]. cbn [signs length]. rewrite Nat2Z.inj_succ, Z.pow_succ_r by lia. destruct (Z.sgn_spec d); lia.
Qed.

Lemma word_step k x : is_bytes x -> (k + 4 <= length x)%nat ->
  le_value (drop k x) = load_4 (drop k x) + 2 ^ 32 * le_value (drop (k + 4) x) /\ 0 <= load_4 (drop k x) < 2 ^ 32.
Proof.
  intros Hx Hl. rewrite load_4_value by (by apply Forall_drop || (rewrite length_drop; lia)).
  rewrite <- (drop_drop x 4 k), (le_value_drop 4) by by apply Forall_drop. change (256 ^ Z.of_nat 4) with (2 ^ 32).
  pose proof (Z.div_mod (le_value (drop k x)) (2 ^ 32)). pose proof (Z.mod_pos_bound (le_value (drop k x)) (2 ^ 32)). lia.
Qed.

(** The sign of the comparison with [l - 1], whose words are the constants. *)
Lemma check_words s0 s1 s2 s3 s4 s5 s6 s7 :
  Forall (fun w => 0 <= w < 2 ^ 32) [s0; s1; s2; s3; s4; s5; s6; s7] ->
  Z.shiftr (signum (1559614444 - s0) + Z.shiftl (signum (1477600026 - s1)) 1 + Z.shiftl (signum (2734136534 - s2)) 2
    + Z.shiftl (signum (350157278 - s3)) 3 + Z.shiftl (signum (- s4)) 4 + Z.shiftl (signum (- s5)) 5
    + Z.shiftl (signum (- s6)) 6 + Z.shiftl (signum (268435456 - s7)) 7) 8
  = if radix (2 ^ 32) [s0; s1; s2; s3; s4; s5; s6; s7] <? l then 0 else -1.
Proof.
  intros H. repeat (apply Forall_cons in H as [? H]). rewrite !signum_sgn by lia. rewrite !Z.shiftl_mul_pow2 by lia.
  set (ds := [1559614444 - s0; 1477600026 - s1; 2734136534 - s2; 350157278 - s3; - s4; - s5; - s6; 268435456 - s7]).
  match goal with |- Z.shiftr ?e 8 = _ => replace e with (signs ds) by (unfold ds; cbn [signs]; numerals; ring) end.
  assert (radix (2 ^ 32) ds = l - 1 - radix (2 ^ 32) [s0; s1; s2; s3; s4; s5; s6; s7]) as Hr
    by (unfold ds, l; cbn [radix]; numerals; ring).
  assert (Forall (fun d => - 2 ^ 32 < d < 2 ^ 32) ds) as Hd by (repeat constructor; lia).
  pose proof (signs_radix _ _ Hd) as Hs. pose proof (signs_range ds) as Hb. change (2 ^ Z.of_nat (length ds)) with 256 in Hb.
  rewrite Hr in Hs. clearbody ds. rewrite Z.shiftr_div_pow2 by lia. change (2 ^ 8) with 256.
  clear Hr. set (v := radix (2 ^ 32) _) in *. clearbody v. destruct (Z.ltb_spec v l).
  - apply Z.div_small. assert (0 <= Z.sgn (signs ds)) by (rewrite Hs; lia). lia.
  - symmetry. apply (Z.div_unique_pos _ _ _ (signs ds + 256)); [|lia].
    assert (Z.sgn (signs ds) = -1) as Hn by (rewrite Hs; apply Z.sgn_neg; lia). lia.
Qed.

Lemma words_value x : is_bytes x -> length x = 32%nat ->
  let ws := [load_4 x; load_4 (drop 4 x); load_4 (drop 8 x); load_4 (drop 12 x); load_4 (drop 16 x); load_4 (drop 20 x);
             load_4 (drop 24 x); load_4 (drop 28 x)] in
  Forall (fun w => 0 <= w < 2 ^ 32) ws /\ radix (2 ^ 32) ws = le_value x.
Proof.
  intros Hx Hl ws. assert (forall k, Nat.leb (k + 4) 32 = true -> le_value (drop k x) = load_4 (drop k x) + 2 ^ 32 * le_value (drop (k + 4) x)
    /\ 0 <= load_4 (drop k x) < 2 ^ 32) as Hs.
  { intros k Hk. apply word_step; [done|]. apply Nat.leb_le in Hk. lia. }
  destruct (Hs 0%nat eq_refl) as [E0 ?], (Hs 4%nat eq_refl) as [E1 ?], (Hs 8%nat eq_refl) as [E2 ?], (Hs 12%nat eq_refl) as [E3 ?],
    (Hs 16%nat eq_refl) as [E4 ?], (Hs 20%nat eq_refl) as [E5 ?], (Hs 24%nat eq_refl) as [E6 ?], (Hs 28%nat eq_refl) as [E7 ?].
  rewrite drop_0 in *. split; [repeat (apply Forall_cons; split; [done|]); by apply Forall_nil|].
  cbn [Nat.add] in *. rewrite (drop_ge x 32) in E7 by lia. cbn [le_value] in E7.
  unfold ws. cbn [radix]. by rewrite E0, E1, E2, E3, E4, E5, E6, E7.
Qed.

Lemma sc_check_value x : is_bytes x -> length x = 32%nat -> sc_check x = if le_value x <? l then 0 else -1.
Proof.
  intros Hx Hl. destruct (words_value x Hx Hl) as [Hw Hv]. unfold sc_check. rewrite check_words by exact Hw. by rewrite Hv.
Qed.

Lemma sc_isnonzero_value x : is_bytes x -> length x = 32%nat -> sc_isnonzero x = if le_value x =? 0 then 0 else 1.
Proof. intros Hx Hl. apply or_bytes; [done|]. by intros ->. Qed.

(** C29: scalars are reduced exactly.  Whatever 64 bytes [sc_reduce] is given, and
    whatever 32 bytes [sc_reduce32], the result of their 64-bit operations is 32
    bytes, the little-endian representation of the number modulo the group order. *)
Theorem sc_reduce_correct x y : is_bytes x -> length x = 64%nat -> is_bytes y -> length y = 32%nat ->
  represents_mod (sc_reduce x) (le_value x) /\ represents_mod (sc_reduce32 y) (le_value y).
Proof. intros. split; [by apply sc_reduce_value | by apply sc_reduce32_value]. Qed.

Lemma sc_reduce_correct_witness :
  represents_mod (sc_reduce (replicate 64 255)) (le_value (replicate 64 255)) /\ represents_mod (sc_reduce32 (replicate 32 255)) (le_value (replicate 32 255)).
Proof. apply (sc_reduce_correct (replicate 64 255) (replicate 32 255)); (bytes_compute || reflexivity). Defined.

(** Scalar arithmetic.  [sc_add], [sc_sub] and [sc_mulsub] compute [a + b],
    [a - b] and [c - a * b] modulo the group order for any 32 bytes, reduced or
    not; [sc_check] returns 0 exactly for reduced scalars and [sc_isnonzero]
    tests for zero. *)
Theorem sc_arithmetic a b c : is_bytes a -> length a = 32%nat -> is_bytes b -> length b = 32%nat -> is_bytes c -> length c = 32%nat ->
  represents_mod (sc_add a b) (le_value a + le_value b)
  /\ represents_mod (sc_sub a b) (le_value a - le_value b)
  /\ represents_mod (sc_mulsub a b c) (le_value c - le_value a * le_value b)
  /\ (sc_check a = 0 <-> le_value a < l)
  /\ (sc_isnonzero a = 1 <-> le_value a <> 0).
Proof.
  intros. rewrite sc_check_value, sc_isnonzero_value by done.
  split_and!; [by apply sc_add_value|by apply sc_sub_value|by apply sc_mulsub_value| |].
  - destruct (Z.ltb_spec (le_value a) l); split; lia.
  - destruct (Z.eqb_spec (le_value a) 0); split; lia.
Qed.

Lemma sc_arithmetic_witness :
  represents_mod (sc_mulsub (replicate 32 3) (replicate 32 5) (replicate 32 7))
    (le_value (replicate 32 7) - le_value (replicate 32 3) * le_value (replicate 32 5)).
Proof. apply (sc_arithmetic (replicate 32 3) (replicate 32 5) (replicate 32 7)); (bytes_compute || reflexivity). Defined.

End Sc.
