(* ===== verification/Fe.v ===== *)
(** Arithmetic modulo [p = 2^255 - 19], src/crypto/crypto-ops.c: field elements are
    ten limbs of 26 and 25 bits in signed 32-bit integers.  Every function is
    proved not to overflow under the bounds its comment demands, to give the bounds
    its comment promises, and to compute the operation it is named after. *)

From S2P Require Import Prelude.
From S2P Require Import Varint.
From S2P Require Import Serialization.
From S2P Require Import StraightLine.
From S2P Require Import CryptoOps.
Import Stream StraightLine CryptoOps.

Module Fe.

#[local] Open Scope string_scope.
#[local] Open Scope list_scope.
#[local] Open Scope Z_scope.

Definition p : Z := 2 ^ 255 - 19.

(** [typedef int32_t fe[10]]. *)
Abbreviation fe := (list Z).

(** ** The statements *)

Definition limb (a : string) (i : nat) : string := a +:+ decimal i.

(** The limbs have 26 and 25 bits in turn. *)
Definition limb_bits (i : nat) : Z := if Nat.even i then 26 else 25.

(** [int32_t f0 = f[0]; ...; int32_t f9 = f[9]]. *)
Definition load (a : string) : list stmt := (fun i => int32 (limb a i) (elem a i)) <$> List.seq 0 10.

(** [h[0] = h0; ...; h[9] = h9] for 32-bit and for 64-bit limbs. *)
Definition save : list stmt := (fun i => int32 (elem "h" i) (limb "h" i)) <$> List.seq 0 10.
Definition save_64 : list stmt := (fun i => to_int32 (elem "h" i) (limb "h" i)) <$> List.seq 0 10.

Definition fe_0_code : list stmt := (fun i => int32 (elem "h" i) 0) <$> List.seq 0 10.

Definition fe_1_code : list stmt := int32 (elem "h" 0) 1 :: ((fun i => int32 (elem "h" i) 0) <$> List.seq 1 9).

Definition fe_add_code : list stmt :=
  load "f" ++ load "g" ++ ((fun i => int32 (limb "h" i) (limb "f" i + limb "g" i)) <$> List.seq 0 10) ++ save.

Definition fe_sub_code : list stmt :=
  load "f" ++ load "g" ++ ((fun i => int32 (limb "h" i) (limb "f" i - limb "g" i)) <$> List.seq 0 10) ++ save.

Definition fe_neg_code : list stmt :=
  load "f" ++ ((fun i => int32 (limb "h" i) (- limb "f" i)) <$> List.seq 0 10) ++ save.

Definition fe_copy_code : list stmt :=
  load "f" ++ ((fun i => int32 (elem "h" i) (limb "f" i)) <$> List.seq 0 10).

(** [carry = (h(i) + (1 << (bits - 1))) >> bits; h(i+1) += carry; h(i) -= carry << bits]. *)
Definition carry_step (i : nat) : list stmt :=
  let bits := limb_bits i in
  [ int64 (limb "carry" i) ((limb "h" i + (1 << (bits - 1))) >> bits);
    int64 (limb "h" (S i)) (limb "h" (S i) + limb "carry" i);
    int64 (limb "h" i) (limb "h" i - (limb "carry" i << bits)) ].

(** The carry out of the top limb comes back times 19. *)
Definition carry_9 : list stmt :=
  [ int64 "carry9" (("h9" + (1 << 24)) >> 25); int64 "h0" ("h0" + "carry9" * 19); int64 "h9" ("h9" - ("carry9" << 25)) ].

Definition carry_chain : list stmt :=
  mjoin (carry_step <$> [0; 4; 1; 5; 2; 6; 3; 7; 4; 8]%nat) ++ carry_9 ++ carry_step 0.

Definition products : list stmt :=
  [ int32 "g1_19" (19 * "g1"); int32 "g2_19" (19 * "g2"); int32 "g3_19" (19 * "g3"); int32 "g4_19" (19 * "g4");
    int32 "g5_19" (19 * "g5"); int32 "g6_19" (19 * "g6"); int32 "g7_19" (19 * "g7"); int32 "g8_19" (19 * "g8");
    int32 "g9_19" (19 * "g9"); int32 "f1_2" (2 * "f1"); int32 "f3_2" (2 * "f3"); int32 "f5_2" (2 * "f5");
    int32 "f7_2" (2 * "f7"); int32 "f9_2" (2 * "f9");
    int64 "f0g0" ("f0" * "g0"); int64 "f0g1" ("f0" * "g1"); int64 "f0g2" ("f0" * "g2"); int64 "f0g3" ("f0" * "g3");
    int64 "f0g4" ("f0" * "g4"); int64 "f0g5" ("f0" * "g5"); int64 "f0g6" ("f0" * "g6"); int64 "f0g7" ("f0" * "g7");
    int64 "f0g8" ("f0" * "g8"); int64 "f0g9" ("f0" * "g9"); int64 "f1g0" ("f1" * "g0"); int64 "f1g1_2" ("f1_2" * "g1");
    int64 "f1g2" ("f1" * "g2"); int64 "f1g3_2" ("f1_2" * "g3"); int64 "f1g4" ("f1" * "g4"); int64 "f1g5_2" ("f1_2" * "g5");
    int64 "f1g6" ("f1" * "g6"); int64 "f1g7_2" ("f1_2" * "g7"); int64 "f1g8" ("f1" * "g8");
    int64 "f1g9_38" ("f1_2" * "g9_19"); int64 "f2g0" ("f2" * "g0"); int64 "f2g1" ("f2" * "g1"); int64 "f2g2" ("f2" * "g2");
    int64 "f2g3" ("f2" * "g3"); int64 "f2g4" ("f2" * "g4"); int64 "f2g5" ("f2" * "g5"); int64 "f2g6" ("f2" * "g6");
    int64 "f2g7" ("f2" * "g7"); int64 "f2g8_19" ("f2" * "g8_19"); int64 "f2g9_19" ("f2" * "g9_19");
    int64 "f3g0" ("f3" * "g0"); int64 "f3g1_2" ("f3_2" * "g1"); int64 "f3g2" ("f3" * "g2"); int64 "f3g3_2" ("f3_2" * "g3");
    int64 "f3g4" ("f3" * "g4"); int64 "f3g5_2" ("f3_2" * "g5"); int64 "f3g6" ("f3" * "g6");
    int64 "f3g7_38" ("f3_2" * "g7_19"); int64 "f3g8_19" ("f3" * "g8_19"); int64 "f3g9_38" ("f3_2" * "g9_19");
    int64 "f4g0" ("f4" * "g0"); int64 "f4g1" ("f4" * "g1"); int64 "f4g2" ("f4" * "g2"); int64 "f4g3" ("f4" * "g3");
    int64 "f4g4" ("f4" * "g4"); int64 "f4g5" ("f4" * "g5"); int64 "f4g6_19" ("f4" * "g6_19");
    int64 "f4g7_19" ("f4" * "g7_19"); int64 "f4g8_19" ("f4" * "g8_19"); int64 "f4g9_19" ("f4" * "g9_19");
    int64 "f5g0" ("f5" * "g0"); int64 "f5g1_2" ("f5_2" * "g1"); int64 "f5g2" ("f5" * "g2"); int64 "f5g3_2" ("f5_2" * "g3");
    int64 "f5g4" ("f5" * "g4"); int64 "f5g5_38" ("f5_2" * "g5_19"); int64 "f5g6_19" ("f5" * "g6_19");
    int64 "f5g7_38" ("f5_2" * "g7_19"); int64 "f5g8_19" ("f5" * "g8_19"); int64 "f5g9_38" ("f5_2" * "g9_19");
    int64 "f6g0" ("f6" * "g0"); int64 "f6g1" ("f6" * "g1"); int64 "f6g2" ("f6" * "g2"); int64 "f6g3" ("f6" * "g3");
    int64 "f6g4_19" ("f6" * "g4_19"); int64 "f6g5_19" ("f6" * "g5_19"); int64 "f6g6_19" ("f6" * "g6_19");
    int64 "f6g7_19" ("f6" * "g7_19"); int64 "f6g8_19" ("f6" * "g8_19"); int64 "f6g9_19" ("f6" * "g9_19");
    int64 "f7g0" ("f7" * "g0"); int64 "f7g1_2" ("f7_2" * "g1"); int64 "f7g2" ("f7" * "g2");
    int64 "f7g3_38" ("f7_2" * "g3_19"); int64 "f7g4_19" ("f7" * "g4_19"); int64 "f7g5_38" ("f7_2" * "g5_19");
    int64 "f7g6_19" ("f7" * "g6_19"); int64 "f7g7_38" ("f7_2" * "g7_19"); int64 "f7g8_19" ("f7" * "g8_19");
    int64 "f7g9_38" ("f7_2" * "g9_19"); int64 "f8g0" ("f8" * "g0"); int64 "f8g1" ("f8" * "g1");
    int64 "f8g2_19" ("f8" * "g2_19"); int64 "f8g3_19" ("f8" * "g3_19"); int64 "f8g4_19" ("f8" * "g4_19");
    int64 "f8g5_19" ("f8" * "g5_19"); int64 "f8g6_19" ("f8" * "g6_19"); int64 "f8g7_19" ("f8" * "g7_19");
    int64 "f8g8_19" ("f8" * "g8_19"); int64 "f8g9_19" ("f8" * "g9_19"); int64 "f9g0" ("f9" * "g0");
    int64 "f9g1_38" ("f9_2" * "g1_19"); int64 "f9g2_19" ("f9" * "g2_19"); int64 "f9g3_38" ("f9_2" * "g3_19");
    int64 "f9g4_19" ("f9" * "g4_19"); int64 "f9g5_38" ("f9_2" * "g5_19"); int64 "f9g6_19" ("f9" * "g6_19");
    int64 "f9g7_38" ("f9_2" * "g7_19"); int64 "f9g8_19" ("f9" * "g8_19"); int64 "f9g9_38" ("f9_2" * "g9_19");
    int64 "h0" ("f0g0" + "f1g9_38" + "f2g8_19" + "f3g7_38" + "f4g6_19" + "f5g5_38" + "f6g4_19" + "f7g3_38" + "f8g2_19" + "f9g1_38");
    int64 "h1" ("f0g1" + "f1g0" + "f2g9_19" + "f3g8_19" + "f4g7_19" + "f5g6_19" + "f6g5_19" + "f7g4_19" + "f8g3_19" + "f9g2_19");
    int64 "h2" ("f0g2" + "f1g1_2" + "f2g0" + "f3g9_38" + "f4g8_19" + "f5g7_38" + "f6g6_19" + "f7g5_38" + "f8g4_19" + "f9g3_38");
    int64 "h3" ("f0g3" + "f1g2" + "f2g1" + "f3g0" + "f4g9_19" + "f5g8_19" + "f6g7_19" + "f7g6_19" + "f8g5_19" + "f9g4_19");
    int64 "h4" ("f0g4" + "f1g3_2" + "f2g2" + "f3g1_2" + "f4g0" + "f5g9_38" + "f6g8_19" + "f7g7_38" + "f8g6_19" + "f9g5_38");
    int64 "h5" ("f0g5" + "f1g4" + "f2g3" + "f3g2" + "f4g1" + "f5g0" + "f6g9_19" + "f7g8_19" + "f8g7_19" + "f9g6_19");
    int64 "h6" ("f0g6" + "f1g5_2" + "f2g4" + "f3g3_2" + "f4g2" + "f5g1_2" + "f6g0" + "f7g9_38" + "f8g8_19" + "f9g7_38");
    int64 "h7" ("f0g7" + "f1g6" + "f2g5" + "f3g4" + "f4g3" + "f5g2" + "f6g1" + "f7g0" + "f8g9_19" + "f9g8_19");
    int64 "h8" ("f0g8" + "f1g7_2" + "f2g6" + "f3g5_2" + "f4g4" + "f5g3_2" + "f6g2" + "f7g1_2" + "f8g0" + "f9g9_38");
    int64 "h9" ("f0g9" + "f1g8" + "f2g7" + "f3g6" + "f4g5" + "f5g4" + "f6g3" + "f7g2" + "f8g1" + "f9g0") ].

Definition fe_mul_code : list stmt := load "f" ++ load "g" ++ products ++ carry_chain ++ save_64.

(** The statements [fe_sq] and [fe_sq2] have in common. *)
Definition squares : list stmt :=
  [ int32 "f0_2" (2 * "f0"); int32 "f1_2" (2 * "f1"); int32 "f2_2" (2 * "f2"); int32 "f3_2" (2 * "f3");
    int32 "f4_2" (2 * "f4"); int32 "f5_2" (2 * "f5"); int32 "f6_2" (2 * "f6"); int32 "f7_2" (2 * "f7");
    int32 "f5_38" (38 * "f5"); int32 "f6_19" (19 * "f6"); int32 "f7_38" (38 * "f7"); int32 "f8_19" (19 * "f8");
    int32 "f9_38" (38 * "f9");
    int64 "f0f0" ("f0" * "f0"); int64 "f0f1_2" ("f0_2" * "f1"); int64 "f0f2_2" ("f0_2" * "f2");
    int64 "f0f3_2" ("f0_2" * "f3"); int64 "f0f4_2" ("f0_2" * "f4"); int64 "f0f5_2" ("f0_2" * "f5");
    int64 "f0f6_2" ("f0_2" * "f6"); int64 "f0f7_2" ("f0_2" * "f7"); int64 "f0f8_2" ("f0_2" * "f8");
    int64 "f0f9_2" ("f0_2" * "f9"); int64 "f1f1_2" ("f1_2" * "f1"); int64 "f1f2_2" ("f1_2" * "f2");
    int64 "f1f3_4" ("f1_2" * "f3_2"); int64 "f1f4_2" ("f1_2" * "f4"); int64 "f1f5_4" ("f1_2" * "f5_2");
    int64 "f1f6_2" ("f1_2" * "f6"); int64 "f1f7_4" ("f1_2" * "f7_2"); int64 "f1f8_2" ("f1_2" * "f8");
    int64 "f1f9_76" ("f1_2" * "f9_38"); int64 "f2f2" ("f2" * "f2"); int64 "f2f3_2" ("f2_2" * "f3");
    int64 "f2f4_2" ("f2_2" * "f4"); int64 "f2f5_2" ("f2_2" * "f5"); int64 "f2f6_2" ("f2_2" * "f6");
    int64 "f2f7_2" ("f2_2" * "f7"); int64 "f2f8_38" ("f2_2" * "f8_19"); int64 "f2f9_38" ("f2" * "f9_38");
    int64 "f3f3_2" ("f3_2" * "f3"); int64 "f3f4_2" ("f3_2" * "f4"); int64 "f3f5_4" ("f3_2" * "f5_2");
    int64 "f3f6_2" ("f3_2" * "f6"); int64 "f3f7_76" ("f3_2" * "f7_38"); int64 "f3f8_38" ("f3_2" * "f8_19");
    int64 "f3f9_76" ("f3_2" * "f9_38"); int64 "f4f4" ("f4" * "f4"); int64 "f4f5_2" ("f4_2" * "f5");
    int64 "f4f6_38" ("f4_2" * "f6_19"); int64 "f4f7_38" ("f4" * "f7_38"); int64 "f4f8_38" ("f4_2" * "f8_19");
    int64 "f4f9_38" ("f4" * "f9_38"); int64 "f5f5_38" ("f5" * "f5_38"); int64 "f5f6_38" ("f5_2" * "f6_19");
    int64 "f5f7_76" ("f5_2" * "f7_38"); int64 "f5f8_38" ("f5_2" * "f8_19"); int64 "f5f9_76" ("f5_2" * "f9_38");
    int64 "f6f6_19" ("f6" * "f6_19"); int64 "f6f7_38" ("f6" * "f7_38"); int64 "f6f8_38" ("f6_2" * "f8_19");
    int64 "f6f9_38" ("f6" * "f9_38"); int64 "f7f7_38" ("f7" * "f7_38"); int64 "f7f8_38" ("f7_2" * "f8_19");
    int64 "f7f9_76" ("f7_2" * "f9_38"); int64 "f8f8_19" ("f8" * "f8_19"); int64 "f8f9_38" ("f8" * "f9_38");
    int64 "f9f9_38" ("f9" * "f9_38");
    int64 "h0" ("f0f0" + "f1f9_76" + "f2f8_38" + "f3f7_76" + "f4f6_38" + "f5f5_38");
    int64 "h1" ("f0f1_2" + "f2f9_38" + "f3f8_38" + "f4f7_38" + "f5f6_38");
    int64 "h2" ("f0f2_2" + "f1f1_2" + "f3f9_76" + "f4f8_38" + "f5f7_76" + "f6f6_19");
    int64 "h3" ("f0f3_2" + "f1f2_2" + "f4f9_38" + "f5f8_38" + "f6f7_38");
    int64 "h4" ("f0f4_2" + "f1f3_4" + "f2f2" + "f5f9_76" + "f6f8_38" + "f7f7_38");
    int64 "h5" ("f0f5_2" + "f1f4_2" + "f2f3_2" + "f6f9_38" + "f7f8_38");
    int64 "h6" ("f0f6_2" + "f1f5_4" + "f2f4_2" + "f3f3_2" + "f7f9_76" + "f8f8_19");
    int64 "h7" ("f0f7_2" + "f1f6_2" + "f2f5_2" + "f3f4_2" + "f8f9_38");
    int64 "h8" ("f0f8_2" + "f1f7_4" + "f2f6_2" + "f3f5_4" + "f4f4" + "f9f9_38");
    int64 "h9" ("f0f9_2" + "f1f8_2" + "f2f7_2" + "f3f6_2" + "f4f5_2") ].

Definition fe_sq_code : list stmt := load "f" ++ squares ++ carry_chain ++ save_64.

Definition fe_sq2_code : list stmt :=
  load "f" ++ squares ++ ((fun i => int64 (limb "h" i) (limb "h" i + limb "h" i)) <$> List.seq 0 10) ++ carry_chain ++ save_64.

(** ** The functions *)

Definition fe_unary (code : list stmt) (f : fe) : fe := elements "h" 10 (exec code (store (names "f" 10) f)).

Definition fe_binary (code : list stmt) (f g : fe) : fe := elements "h" 10 (exec code (store (names "f" 10 ++ names "g" 10) (f ++ g))).

Definition fe_0 : fe := elements "h" 10 (exec fe_0_code ∅).
Definition fe_1 : fe := elements "h" 10 (exec fe_1_code ∅).
Definition fe_add : fe -> fe -> fe := fe_binary fe_add_code.
Definition fe_sub : fe -> fe -> fe := fe_binary fe_sub_code.
Definition fe_neg : fe -> fe := fe_unary fe_neg_code.
Definition fe_copy : fe -> fe := fe_unary fe_copy_code.
Definition fe_mul : fe -> fe -> fe := fe_binary fe_mul_code.
Definition fe_sq : fe -> fe := fe_unary fe_sq_code.
Definition fe_sq2 : fe -> fe := fe_unary fe_sq2_code.

(** [fe_cmov] replaces [f] by [g] if [b] is 1; [None] is the failed assertion. *)
Definition fe_cmov (f g : fe) (b : Z) : option fe :=
  if (b =? 0) || (b =? 1) then Some (zip_with (fun x y => Z.lxor x (Z.land (Z.lxor x y) (- b))) f g) else None.

(** [fe_tobytes]: the quotient [q] of [h] by [p], and the limbs of [h - p * q]. *)
Definition quotient_code : list stmt :=
  load "h" ++ [ int32 "q" ((19 * "h9" + (1 << 24)) >> 25) ]
  ++ ((fun i => int32 "q" ((limb "h" i + "q") >> limb_bits i)) <$> List.seq 0 10).

Definition carry_floor (i : nat) : list stmt :=
  let bits := limb_bits i in
  [ int32 (limb "carry" i) (limb "h" i >> bits); int32 (limb "h" (S i)) (limb "h" (S i) + limb "carry" i);
    int32 (limb "h" i) (limb "h" i - (limb "carry" i << bits)) ].

Definition remainder_code : list stmt :=
  [ int32 "h0" ("h0" + 19 * "q") ] ++ mjoin (carry_floor <$> List.seq 0 9)
  ++ [ int32 "carry9" ("h9" >> 25); int32 "h9" ("h9" - ("carry9" << 25)) ].

Definition fe_store (ls : list Z) : bytes :=
  match ls with
  | [h0; h1; h2; h3; h4; h5; h6; h7; h8; h9] =>
      [u8 (Z.shiftr h0 0); u8 (Z.shiftr h0 8); u8 (Z.shiftr h0 16); u8 (Z.lor (Z.shiftr h0 24) (Z.shiftl h1 2));
       u8 (Z.shiftr h1 6); u8 (Z.shiftr h1 14); u8 (Z.lor (Z.shiftr h1 22) (Z.shiftl h2 3)); u8 (Z.shiftr h2 5);
       u8 (Z.shiftr h2 13); u8 (Z.lor (Z.shiftr h2 21) (Z.shiftl h3 5)); u8 (Z.shiftr h3 3); u8 (Z.shiftr h3
       11); u8 (Z.lor (Z.shiftr h3 19) (Z.shiftl h4 6)); u8 (Z.shiftr h4 2); u8 (Z.shiftr h4 10); u8 (Z.shiftr
       h4 18); u8 (Z.shiftr h5 0); u8 (Z.shiftr h5 8); u8 (Z.shiftr h5 16); u8 (Z.lor (Z.shiftr h5 24) (Z.shiftl
       h6 1)); u8 (Z.shiftr h6 7); u8 (Z.shiftr h6 15); u8 (Z.lor (Z.shiftr h6 23) (Z.shiftl h7 3)); u8
       (Z.shiftr h7 5); u8 (Z.shiftr h7 13); u8 (Z.lor (Z.shiftr h7 21) (Z.shiftl h8 4)); u8 (Z.shiftr h8 4); u8
       (Z.shiftr h8 12); u8 (Z.lor (Z.shiftr h8 20) (Z.shiftl h9 6)); u8 (Z.shiftr h9 2); u8 (Z.shiftr h9 10);
       u8 (Z.shiftr h9 18)]
  | _ => []
  end.

Definition fe_tobytes (h : fe) : bytes :=
  fe_store (read (exec remainder_code (exec quotient_code (store (names "h" 10) h))) <$> (limb "h" <$> List.seq 0 10)).

Definition fe_isnegative (f : fe) : Z := Z.land (fe_tobytes f !!! 0%nat) 1.

Definition fe_isnonzero (f : fe) : Z :=
  let s := fe_tobytes f in Z.shiftr (foldl Z.lor (s !!! 0%nat) (tail s) - 1) 8 + 1.

(** [for (i = 0; i < n; ++i) fe_sq(t, t)]. *)
Definition fe_sq_times (n : nat) (t : fe) : fe := Nat.iter n fe_sq t.

Definition fe_invert (z : fe) : fe :=
  let t0 := fe_sq z in
  let t1 := fe_sq t0 in
  let t1 := fe_sq t1 in
  let t1 := fe_mul z t1 in
  let t0 := fe_mul t0 t1 in
  let t2 := fe_sq t0 in
  let t1 := fe_mul t1 t2 in
  let t2 := fe_sq t1 in
  let t2 := fe_sq_times 4 t2 in
  let t1 := fe_mul t2 t1 in
  let t2 := fe_sq t1 in
  let t2 := fe_sq_times 9 t2 in
  let t2 := fe_mul t2 t1 in
  let t3 := fe_sq t2 in
  let t3 := fe_sq_times 19 t3 in
  let t2 := fe_mul t3 t2 in
  let t2 := fe_sq t2 in
  let t2 := fe_sq_times 9 t2 in
  let t1 := fe_mul t2 t1 in
  let t2 := fe_sq t1 in
  let t2 := fe_sq_times 49 t2 in
  let t2 := fe_mul t2 t1 in
  let t3 := fe_sq t2 in
  let t3 := fe_sq_times 99 t3 in
  let t2 := fe_mul t3 t2 in
  let t2 := fe_sq t2 in
  let t2 := fe_sq_times 49 t2 in
  let t1 := fe_mul t2 t1 in
  let t1 := fe_sq t1 in
  let t1 := fe_sq_times 4 t1 in
  fe_mul t1 t0.

Definition fe_divpowm1 (u v : fe) : fe :=
  let v3 := fe_sq v in
  let v3 := fe_mul v3 v in
  let uv7 := fe_sq v3 in
  let uv7 := fe_mul uv7 v in
  let uv7 := fe_mul uv7 u in
  let t0 := fe_sq uv7 in
  let t1 := fe_sq t0 in
  let t1 := fe_sq t1 in
  let t1 := fe_mul uv7 t1 in
  let t0 := fe_mul t0 t1 in
  let t0 := fe_sq t0 in
  let t0 := fe_mul t1 t0 in
  let t1 := fe_sq t0 in
  let t1 := fe_sq_times 4 t1 in
  let t0 := fe_mul t1 t0 in
  let t1 := fe_sq t0 in
  let t1 := fe_sq_times 9 t1 in
  let t1 := fe_mul t1 t0 in
  let t2 := fe_sq t1 in
  let t2 := fe_sq_times 19 t2 in
  let t1 := fe_mul t2 t1 in
  let t1 := fe_sq_times 10 t1 in
  let t0 := fe_mul t1 t0 in
  let t1 := fe_sq t0 in
  let t1 := fe_sq_times 49 t1 in
  let t1 := fe_mul t1 t0 in
  let t2 := fe_sq t1 in
  let t2 := fe_sq_times 99 t2 in
  let t1 := fe_mul t2 t1 in
  let t1 := fe_sq_times 50 t1 in
  let t0 := fe_mul t1 t0 in
  let t0 := fe_sq t0 in
  let t0 := fe_sq t0 in
  let t0 := fe_mul t0 uv7 in
  let t0 := fe_mul t0 v3 in
  fe_mul t0 u.

(** ** Correctness *)

(** The weights [2^0, 2^26, 2^51, 2^77, ..., 2^230]. *)
Definition Wf : list Z := (fun i => 2 ^ ((51 * Z.of_nat i + 1) / 2)) <$> List.seq 0 10.

Definition value (f : fe) : Z := dot Wf f.

(** Bounds [a * 2^25, a * 2^24, a * 2^25, ...] with [a] in hundredths. *)
Definition ranges (a : Z) : list interval :=
  (fun i => let b := a * 2 ^ (if Nat.even i then 25 else 24) / 100 in (- b, b)) <$> List.seq 0 10.

Definition fe_bounded (a : Z) (f : fe) : Prop := Forall2 within (ranges a) f.

#[export] Instance fe_bounded_dec a f : Decision (fe_bounded a f).
Proof. unfold fe_bounded. apply _. Defined.

(** [f] has limbs within [a / 100] times [2^25, 2^24, ...] and is [v] modulo [p]. *)
Definition is_fe (a : Z) (f : fe) (v : Z) : Prop := fe_bounded a f /\ value f mod p = v mod p.

Definition safe_unary (code : list stmt) (a c : Z) : bool := safe code (names "f" 10) (ranges a) (names "h" 10) (ranges c).

Definition safe_binary (code : list stmt) (a b c : Z) : bool :=
  safe code (names "f" 10 ++ names "g" 10) (ranges a ++ ranges b) (names "h" 10) (ranges c).

Definition computes (code : list stmt) (xs : list string) (rhs : poly) : bool := relates p code xs (zip Wf (names "h" 10)) rhs.

Lemma ranges_length a : length (ranges a) = 10%nat.
Proof. done. Qed.

Lemma fe_length a f : fe_bounded a f -> length f = 10%nat.
Proof. intros H. by apply Forall2_length in H. Qed.

Lemma first_value f l : length f = 10%nat -> poly_value (values (f ++ l)) (linear 0 Wf) = value f.
Proof.
  intros Hf. rewrite linear_value by (rewrite length_app, Hf; change (length Wf) with 10%nat; lia). rewrite drop_0. by apply dot_prefix.
Qed.

Lemma second_value f g : length f = 10%nat -> length g = 10%nat -> poly_value (values (f ++ g)) (linear 10 Wf) = value g.
Proof.
  intros Hf Hg. rewrite linear_value by (rewrite length_app, Hf, Hg; done). by rewrite drop_app_length' by (by rewrite Hf).
Qed.

Lemma elements_ok (a : Z) s : bounded s (start (names "h" 10) (ranges a)) -> fe_bounded a (elements "h" 10 s).
Proof. apply start_within; [bytes_compute|done]. Qed.

Lemma elements_value s : weighted (zip Wf (names "h" 10)) s = value (elements "h" 10 s).
Proof. apply weighted_dot. Qed.

Lemma unary_ok code a c rhs f : fe_bounded a f -> safe_unary code a c = true -> computes code (names "f" 10) rhs = true ->
  is_fe c (fe_unary code f) (poly_value (values f) rhs).
Proof.
  intros Hf Hs Hr. destruct (code_correct _ _ _ _ _ _ _ _ _ (start_bounded (names "f" 10) _ _ Hf) Hs Hr) as [Hb Hd].
  split; [by apply elements_ok|]. unfold fe_unary. rewrite <- elements_value, Hd, read_store; [done|bytes_compute|].
  by rewrite (fe_length a f).
Qed.

Lemma binary_ok code a b c rhs f g : fe_bounded a f -> fe_bounded b g -> safe_binary code a b c = true ->
  computes code (names "f" 10 ++ names "g" 10) rhs = true -> is_fe c (fe_binary code f g) (poly_value (values (f ++ g)) rhs).
Proof.
  intros Hf Hg Hs Hr. assert (Forall2 within (ranges a ++ ranges b) (f ++ g)) as Hfg by by apply Forall2_app.
  destruct (code_correct _ _ _ _ _ _ _ _ _ (start_bounded (names "f" 10 ++ names "g" 10) _ _ Hfg) Hs Hr) as [Hb Hd].
  split; [by apply elements_ok|]. unfold fe_binary. rewrite <- elements_value, Hd, read_store; [done|bytes_compute|].
  by rewrite !length_app, (fe_length a f), (fe_length b g).
Qed.

Lemma is_fe_mod a f v w : v mod p = w mod p -> is_fe a f v -> is_fe a f w.
Proof. intros Hv [H1 H2]. split; [done|]. by rewrite H2. Qed.

Lemma is_fe_eq a f v w : is_fe a f v -> v = w -> is_fe a f w.
Proof. by intros ? <-. Qed.

Lemma fe_mul_ok f g u v : is_fe 330 f u -> is_fe 330 g v -> is_fe 101 (fe_mul f g) (u * v).
Proof.
  intros [Hf Hu] [Hg Hv]. eapply is_fe_mod; [|eapply (binary_ok _ 330 330 101 (poly_mul (linear 0 Wf) (linear 10 Wf))); [done|done|vm_compute; reflexivity..]].
  rewrite poly_mul_value, first_value, second_value by by eapply fe_length. by rewrite Zmult_mod, Hu, Hv, <- Zmult_mod.
Qed.

Lemma fe_sq_ok f u : is_fe 330 f u -> is_fe 101 (fe_sq f) (u * u).
Proof.
  intros [Hf Hu]. eapply is_fe_mod; [|eapply (unary_ok _ 330 101 (poly_mul (linear 0 Wf) (linear 0 Wf))); [done|vm_compute; reflexivity..]].
  rewrite poly_mul_value, <- (app_nil_r f), first_value by by eapply fe_length. by rewrite Zmult_mod, Hu, <- Zmult_mod.
Qed.

Lemma fe_sq2_ok f u : is_fe 330 f u -> is_fe 101 (fe_sq2 f) (2 * (u * u)).
Proof.
  intros [Hf Hu]. eapply is_fe_mod; [|eapply (unary_ok _ 330 101 (poly_scale 2 (poly_mul (linear 0 Wf) (linear 0 Wf)))); [done|vm_compute; reflexivity..]].
  rewrite poly_scale_value, poly_mul_value, <- (app_nil_r f), first_value by by eapply fe_length.
  rewrite Zmult_mod, (Zmult_mod (value f)), Hu, <- (Zmult_mod u), <- Zmult_mod. done.
Qed.

(** Additions: the bounds add up, as far as 32 bits go. *)
Lemma fe_add_ok a b c f g u v : safe_binary fe_add_code a b c = true -> is_fe a f u -> is_fe b g v -> is_fe c (fe_add f g) (u + v).
Proof.
  intros Hs [Hf Hu] [Hg Hv]. eapply is_fe_mod; [|eapply (binary_ok _ a b c (poly_add (linear 0 Wf) (linear 10 Wf))); [done|done|done|vm_compute; reflexivity]].
  rewrite poly_add_value, first_value, second_value by by eapply fe_length. by rewrite Zplus_mod, Hu, Hv, <- Zplus_mod.
Qed.

Lemma fe_sub_ok a b c f g u v : safe_binary fe_sub_code a b c = true -> is_fe a f u -> is_fe b g v -> is_fe c (fe_sub f g) (u - v).
Proof.
  intros Hs [Hf Hu] [Hg Hv]. eapply is_fe_mod; [|eapply (binary_ok _ a b c (poly_add (linear 0 Wf) (poly_scale (-1) (linear 10 Wf)))); [done|done|done|vm_compute; reflexivity]].
  rewrite poly_add_value, poly_scale_value, first_value, second_value by by eapply fe_length.
  replace (value f + -1 * value g) with (value f - value g) by lia. by rewrite Zminus_mod, Hu, Hv, <- Zminus_mod.
Qed.

Lemma fe_neg_ok a f u : safe_unary fe_neg_code a a = true -> is_fe a f u -> is_fe a (fe_neg f) (- u).
Proof.
  intros Hs [Hf Hu]. eapply is_fe_mod; [|eapply (unary_ok _ a a (poly_scale (-1) (linear 0 Wf))); [done|done|vm_compute; reflexivity]].
  rewrite poly_scale_value, <- (app_nil_r f), first_value by by eapply fe_length.
  replace (-1 * value f) with (0 - value f) by lia. replace (- u) with (0 - u) by lia. by rewrite Zminus_mod, Hu, <- Zminus_mod.
Qed.

Lemma fe_0_ok : is_fe 0 fe_0 0.
Proof. split; [bytes_compute|]. reflexivity. Qed.

Lemma fe_1_ok : is_fe 100 fe_1 1.
Proof. split; [bytes_compute|]. reflexivity. Qed.

Definition limb_names : list string := limb "h" <$> List.seq 0 10.

(** The quotient is a chain of floors, which is one floor. *)
Fixpoint floors (xs : list (Z * Z)) (q : Z) : Z :=
  match xs with
  | [] => q
  | (x, k) :: xs => floors xs ((x + q) / 2 ^ k)
  end.

Fixpoint radices (xs : list (Z * Z)) : Z := match xs with [] => 0 | (x, k) :: xs => x + 2 ^ k * radices xs end.

Lemma floors_radices xs q : Forall (fun xk => 0 <= xk.2) xs -> floors xs q = (radices xs + q) / 2 ^ sumZ xs.*2.
Proof.
  intros H. revert q. induction H as [|[x k] xs Hk H IH]; intros q; cbn [floors radices]; [rewrite Z.div_1_r; lia|]. cbn [snd] in Hk.
  rewrite IH. rewrite fmap_cons. cbn [sumZ foldr snd]. change (foldr Z.add 0 xs.*2) with (sumZ xs.*2).
  assert (0 <= sumZ xs.*2) as Hs by (apply sumZ_nonneg; by apply Forall_fmap). pose proof (Z.pow_pos_nonneg 2 k).
  rewrite Z.pow_add_r, <- Z.div_div by lia.
  replace (x + 2 ^ k * radices xs + q) with (x + q + radices xs * 2 ^ k) by lia. rewrite Z.div_add by lia. f_equal. lia.
Qed.

Lemma limb_not_q i : limb "h" i <> "q".
Proof. done. Qed.

Lemma quotient_floors js s :
  let e := ideal_exec ((fun i => int32 "q" ((limb "h" i + "q") >> limb_bits i)) <$> js) s in
  read e "q" = floors ((fun i => (read s (limb "h" i), limb_bits i)) <$> js) (read s "q")
  /\ forall i, read e (limb "h" i) = read s (limb "h" i).
Proof.
  revert s. induction js as [|j js IH]; intros s; [done|]. rewrite !fmap_cons. cbn [floors]. unfold ideal_exec. cbn [foldl].
  set (s' := ideal_step s _). destruct (IH s') as [H1 H2]. unfold ideal_exec in H1, H2.
  assert (forall i, read s' (limb "h" i) = read s (limb "h" i)) as Hs by (intros i; apply read_insert_ne; exact (not_eq_sym (limb_not_q i))).
  split; [|intros i; by rewrite H2]. rewrite H1. unfold s' at 2. unfold ideal_step. cbn [var rhs int32]. rewrite read_insert_eq. cbn [ideal].
  f_equal. apply list_fmap_ext. intros i k _. by rewrite Hs.
Qed.

(** Loading copies the limbs. *)
Lemma load_read s : read (ideal_exec (load "h") s) <$> limb_names = read s <$> names "h" 10.
Proof.
  assert (Forall (fun i => relates 0 (load "h") (names "h" 10) [(1, limb "h" i)] (atom (N.of_nat i)) = true) (List.seq 0 10)) as H
    by (refine (bool_decide_eq_true_1 _ _); vm_compute; reflexivity).
  unfold limb_names, names. rewrite <- !list_fmap_compose. apply list_fmap_ext. intros k i Hi. cbn [compose].
  rewrite Forall_lookup in H. specialize (H k i Hi). apply (relates_sound _ _ _ _ _ s) in H. rewrite !Z.mod_0_r, atom_value in H.
  cbn [weighted foldr fst snd] in H. unfold values, names in H. rewrite Nnat.Nat2N.id in H.
  rewrite (list_lookup_total_correct _ _ (read s (elem "h" i))) in H; [lia|].
  apply lookup_seq in Hi as [-> Hk]. by rewrite !list_lookup_fmap, lookup_seq_lt.
Qed.

Lemma radices_value s : radices ((fun i => (read s (limb "h" i), limb_bits i)) <$> List.seq 0 10) = value (read s <$> limb_names).
Proof.
  unfold value, limb_names. let w := eval vm_compute in Wf in change Wf with w. cbn [List.seq fmap list_fmap radices]. rewrite !dot_cons.
  unfold dot. cbn [zip zip_with foldr limb_bits Nat.even]. numerals. ring.
Qed.

Lemma first_quotient s :
  read (ideal_step s (int32 "q" ((19 * "h9" + (1 << 24)) >> 25))) "q" = (19 * read s "h9" + 2 ^ 24) / 2 ^ 25.
Proof. unfold ideal_step. cbn [var rhs int32]. rewrite read_insert_eq. cbn [ideal]. by rewrite Z.mul_1_l. Qed.

Lemma ninth (l : list Z) (g : string -> Z) : g <$> limb_names = l -> l !!! 9%nat = g "h9".
Proof. by intros <-. Qed.

Lemma bits_total s : sumZ ((fun i => (read s (limb "h" i), limb_bits i)) <$> List.seq 0 10).*2 = 255.
Proof. by rewrite <- list_fmap_compose. Qed.

Lemma ideal_exec_app a b s : ideal_exec (a ++ b) s = ideal_exec b (ideal_exec a s).
Proof. apply foldl_app. Qed.

Lemma keeps_limbs e s f : (forall i, read e (limb "h" i) = read s (limb "h" i)) -> read s <$> limb_names = f -> read e <$> limb_names = f.
Proof. intros H <-. apply list_fmap_ext. intros k x Hx. apply list_lookup_fmap_Some in Hx as (i & -> & _). apply H. Qed.

Lemma first_quotient_keeps s i :
  read (ideal_step s (int32 "q" ((19 * "h9" + (1 << 24)) >> 25))) (limb "h" i) = read s (limb "h" i).
Proof. apply read_insert_ne. exact (not_eq_sym (limb_not_q i)). Qed.

Lemma quotient_ideal s f : read s <$> names "h" 10 = f ->
  read (ideal_exec quotient_code s) <$> limb_names = f
  /\ read (ideal_exec quotient_code s) "q" = (value f + (19 * (f !!! 9%nat) + 2 ^ 24) / 2 ^ 25) / 2 ^ 255.
Proof.
  intros Hf. unfold quotient_code. rewrite !ideal_exec_app. pose proof (load_read s) as H1. rewrite Hf in H1.
  generalize dependent (ideal_exec (load "h") s). intros s1 H1. pose proof (first_quotient s1) as H0.
  pose proof (keeps_limbs _ _ _ (first_quotient_keeps s1) H1) as H2.
  change (ideal_exec [?c] s1) with (ideal_step s1 c).
  generalize dependent (ideal_step s1 (int32 "q" ((19 * "h9" + (1 << 24)) >> 25))). intros s2 H0 H2.
  destruct (quotient_floors (List.seq 0 10) s2) as [Hq Hr]. split; [by apply (keeps_limbs _ s2)|].
  rewrite Hq, H0, floors_radices, radices_value, H2, (ninth _ _ H1), bits_total; [reflexivity|].
  apply Forall_fmap, Forall_forall; intros i _; cbn; unfold limb_bits; destruct (Nat.even i); lia.
Qed.

Lemma quotient_spec f : fe_bounded 330 f ->
  let e := exec quotient_code (store (names "h" 10) f) in
  bounded e (start (limb_names ++ ["q"]) (ranges 330 ++ [(-2, 2)]))
  /\ read e <$> limb_names = f
  /\ read e "q" = (value f + (19 * (f !!! 9%nat) + 2 ^ 24) / 2 ^ 25) / 2 ^ 255.
Proof.
  intros Hf e. destruct (safe_sound quotient_code (names "h" 10) (ranges 330) (limb_names ++ ["q"]) (ranges 330 ++ [(-2, 2)])
    (store (names "h" 10) f)) as [He Hb]; [by apply start_bounded|vm_compute; reflexivity|]. split; [done|].
  unfold e. rewrite He. apply quotient_ideal. apply read_store; [bytes_compute|by rewrite (fe_length 330 f)].
Qed.

(** The estimate of the quotient is exact (the proof in the comment of [fe_tobytes]). *)
Lemma quotient_exact H h9 q : Z.abs (H - 2 ^ 230 * h9) < 2 ^ 231 -> Z.abs q <= 2 ->
  q = (H + (19 * h9 + 2 ^ 24) / 2 ^ 25) / 2 ^ 255 -> 0 <= H - p * q < p.
Proof.
  intros Hlow Hq Eq. set (q0 := (19 * h9 + 2 ^ 24) / 2 ^ 25) in *.
  pose proof (Z.div_mod (19 * h9 + 2 ^ 24) (2 ^ 25)) as D0. pose proof (Z.mod_pos_bound (19 * h9 + 2 ^ 24) (2 ^ 25)) as B0.
  pose proof (Z.div_mod (H + q0) (2 ^ 255)) as D. pose proof (Z.mod_pos_bound (H + q0) (2 ^ 255)) as B. rewrite <- Eq in D. fold q0 in D0.
  unfold p. lia.
Qed.

Definition canonical_ranges : list interval := (fun i => (0, 2 ^ limb_bits i - 1)) <$> List.seq 0 10.

Lemma remainder_spec e f : bounded e (start (limb_names ++ ["q"]) (ranges 330 ++ [(-2, 2)])) -> read e <$> limb_names = f ->
  let r := read (exec remainder_code e) <$> limb_names in
  Forall2 within canonical_ranges r /\ value r = (value f + 19 * read e "q") mod 2 ^ 255.
Proof.
  intros Hb Hf r.
  destruct (code_correct 0 remainder_code (limb_names ++ ["q"]) (ranges 330 ++ [(-2, 2)]) limb_names canonical_ranges
    (zip (Wf ++ [2 ^ 255]) (limb_names ++ ["carry9"])) (poly_add (linear 0 Wf) [([10%N], 19)]) e) as [Hb' Hd]; [done|vm_compute; reflexivity..|].
  apply start_within in Hb'; [|bytes_compute|done]. split; [done|].
  rewrite weighted_dot, !Z.mod_0_r, poly_add_value, !fmap_app, Hf, first_value in Hd by (rewrite <- Hf; done).
  rewrite dot_app, !list_fmap_singleton, dot_cons in Hd by done. fold r in Hd, Hb'.
  unfold poly_value, mono_value in Hd. cbn [foldr fst snd] in Hd. unfold values in Hd.
  rewrite list_lookup_total_middle in Hd by (rewrite <- Hf; done).
  destruct (dot_bounds Wf canonical_ranges r) as [Hlo Hhi]; [bytes_compute|done|done|].
  assert (dot Wf canonical_ranges.*1 = 0) as E1 by (vm_compute; reflexivity).
  assert (dot Wf canonical_ranges.*2 = 2 ^ 255 - 1) as E2 by (vm_compute; reflexivity). rewrite E1 in Hlo. rewrite E2 in Hhi.
  unfold value in *. set (c := read (exec remainder_code e) "carry9") in *. clearbody c r. unfold dot at 2 in Hd. cbn [zip zip_with foldr] in Hd.
  replace (dot Wf f + 19 * read e "q") with (dot Wf r + c * 2 ^ 255) by lia. rewrite Z_mod_plus_full, Z.mod_small by lia. done.
Qed.

Lemma fe_store_value r : Forall2 within canonical_ranges r ->
  le_value (fe_store r) = value r /\ is_bytes (fe_store r) /\ length (fe_store r) = 32%nat.
Proof.
  intros Hr. destruct r as [|h0 [|h1 [|h2 [|h3 [|h4 [|h5 [|h6 [|h7 [|h8 [|h9 [|? ?]]]]]]]]]]]; try (apply Forall2_length in Hr; done).
  unfold within, canonical_ranges in Hr. cbn [List.seq fmap list_fmap limb_bits Nat.even] in Hr.
  repeat (apply Forall2_cons in Hr as [? Hr]). cbn [fst snd] in *. split; [|split; [repeat constructor; apply u8_range | done]].
  unfold fe_store. rewrite !u8_lor by lia. rewrite !u8_shiftr by lia. cbn [le_value]. numerals.
  unfold value. let w := eval vm_compute in Wf in change Wf with w. rewrite !dot_cons, !Z.div_1_r.
  rewrite (Z.div_small h4 67108864), (Z.div_small h9 67108864) by lia. unfold dot. cbn [zip zip_with foldr]. name_quotients. ring.
Qed.

Lemma fe_tobytes_ok f v : is_fe 330 f v ->
  le_value (fe_tobytes f) = v mod p /\ is_bytes (fe_tobytes f) /\ length (fe_tobytes f) = 32%nat.
Proof.
  intros [Hf Hv]. destruct (quotient_spec f Hf) as (Hb & Hl & Hq). destruct (remainder_spec _ f Hb Hl) as [Hr Hd].
  destruct (fe_store_value _ Hr) as (H1 & H2 & H3). unfold fe_tobytes. change (limb "h" <$> List.seq 0 10) with limb_names.
  split; [|done]. rewrite H1, Hd, <- Hv. clear H1 H2 H3 Hr Hd.
  assert (Forall2 within (ranges 330 ++ [(-2, 2)]) (f ++ [read (exec quotient_code (store (names "h" 10) f)) "q"])) as Hw.
  { apply start_within in Hb; [|bytes_compute|done]. by rewrite fmap_app, Hl in Hb. }
  apply Forall2_app_inv in Hw as [_ Hw]; [|by rewrite (fe_length 330 f)]. apply Forall2_cons in Hw as [Hw _].
  set (q := read _ "q") in *. clearbody q. clear Hb Hl. unfold within in Hw. cbn [fst snd] in Hw.
  assert (0 <= value f - p * q < p) as Hp.
  { apply (quotient_exact _ (f !!! 9%nat)); [|lia|done]. 
    destruct f as [|f0 [|f1 [|f2 [|f3 [|f4 [|f5 [|f6 [|f7 [|f8 [|f9 [|? ?]]]]]]]]]]]; try (apply Forall2_length in Hf; done).
    unfold fe_bounded, within in Hf. let r := eval vm_compute in (ranges 330) in change (ranges 330) with r in Hf.
    repeat (apply Forall2_cons in Hf as [? Hf]). cbn [fst snd] in *. unfold value. let w := eval vm_compute in Wf in change Wf with w.
    rewrite !dot_cons. unfold dot. cbn [zip zip_with foldr lookup_total list_lookup_total]. lia. }
  unfold p in Hp. replace (value f + 19 * q) with (value f - p * q + q * 2 ^ 255) by (unfold p; lia).
  rewrite Z_mod_plus_full, Z.mod_small by (unfold p; lia). replace (value f) with (value f - p * q + q * p) at 2 by lia.
  rewrite Z_mod_plus_full, Z.mod_small by (unfold p; lia). done.
Qed.

Lemma fe_isnegative_ok f v : is_fe 330 f v -> fe_isnegative f = (v mod p) mod 2.
Proof.
  intros H. destruct (fe_tobytes_ok f v H) as (H1 & H2 & H3). unfold fe_isnegative. rewrite <- H1.
  destruct (fe_tobytes f) as [|b l]; [done|]. change ((b :: l) !!! 0%nat) with b. cbn [le_value].
  change 1 with (Z.ones 1). rewrite Z.land_ones by lia. change (2 ^ 1) with 2.
  replace (b + 256 * le_value l) with (b + (128 * le_value l) * 2) by lia. by rewrite Z_mod_plus_full.
Qed.

Lemma fe_isnonzero_ok f v : is_fe 330 f v -> fe_isnonzero f = if v mod p =? 0 then 0 else 1.
Proof.
  intros H. destruct (fe_tobytes_ok f v H) as (H1 & H2 & H3). unfold fe_isnonzero. rewrite <- H1. apply or_bytes; [done|]. by intros E; rewrite E in H3.
Qed.

Lemma fe_cmov_ok f g b : length f = length g -> b = 0 \/ b = 1 -> fe_cmov f g b = Some (if b =? 1 then g else f).
Proof.
  intros Hl Hb. unfold fe_cmov. destruct Hb as [-> | ->]; cbn [Z.eqb orb Pos.eqb Z.opp]; f_equal.
  - revert g Hl. induction f as [|x f IH]; intros [|y g] Hl; try done. cbn [zip_with]. rewrite Z.land_0_r, Z.lxor_0_r, IH; [done|]. by cbn in Hl; lia.
  - revert g Hl. induction f as [|x f IH]; intros [|y g] Hl; try done. cbn [zip_with].
    rewrite Z.land_m1_r, <- Z.lxor_assoc, Z.lxor_nilpotent, Z.lxor_0_l, IH; [done|]. cbn in Hl; lia.
Qed.

Lemma weaken a b f v : is_fe a f v -> 0 <= a <= b -> is_fe b f v.
Proof.
  intros [H Hv] Hab. split; [|done]. unfold fe_bounded, ranges in *. clear Hv. revert f H. generalize (List.seq 0 10).
  intros l. induction l as [|i l IH]; intros f H; [done|]. rewrite fmap_cons in *. apply Forall2_cons_inv_l in H as (x & f' & Hx & H & ->).
  constructor; [|by apply IH]. unfold within in *. cbn [fst snd] in *.
  set (k := 2 ^ (if Nat.even i then 25 else 24)) in *. assert (0 <= k) by (unfold k; destruct (Nat.even i); lia).
  assert (a * k / 100 <= b * k / 100) by (apply Z.div_le_mono; nia). lia.
Qed.

(** ** Powers *)

(** [f] is [u^n * v^m]. *)
Definition is_mon (f : fe) (u v n m : Z) : Prop := 0 <= n /\ 0 <= m /\ is_fe 330 f (u ^ n * v ^ m).

Lemma mon_left f u v : is_fe 330 f u -> is_mon f u v 1 0.
Proof. intros H. split_and!; [lia..|]. by rewrite Z.pow_1_r, Z.mul_1_r. Qed.

Lemma mon_right f u v : is_fe 330 f v -> is_mon f u v 0 1.
Proof. intros H. split_and!; [lia..|]. by rewrite Z.pow_1_r, Z.mul_1_l. Qed.

Lemma mon_product f g u v n m n' m' : is_mon f u v n m -> is_mon g u v n' m' ->
  is_fe 101 (fe_mul f g) (u ^ (n + n') * v ^ (m + m')).
Proof.
  intros (Hn & Hm & Hf) (Hn' & Hm' & Hg). rewrite !Z.pow_add_r by lia.
  replace (u ^ n * u ^ n' * (v ^ m * v ^ m')) with (u ^ n * v ^ m * (u ^ n' * v ^ m')) by lia. by apply fe_mul_ok.
Qed.

Lemma mon_mul f g u v n m n' m' : is_mon f u v n m -> is_mon g u v n' m' -> is_mon (fe_mul f g) u v (n + n') (m + m').
Proof.
  intros Hf Hg. pose proof Hf as (? & ? & _). pose proof Hg as (? & ? & _). split_and!; [lia..|].
  apply (weaken 101); [by apply mon_product | lia].
Qed.

Lemma mon_sq f u v n m : is_mon f u v n m -> is_mon (fe_sq f) u v (n + n) (m + m).
Proof.
  intros (Hn & Hm & Hf). split_and!; [lia..|]. rewrite !Z.pow_add_r by lia. apply (weaken 101); [|lia].
  replace (u ^ n * u ^ n * (v ^ m * v ^ m)) with (u ^ n * v ^ m * (u ^ n * v ^ m)) by lia. by apply fe_sq_ok.
Qed.

Lemma mon_sq_times k f u v n m : is_mon f u v n m -> is_mon (fe_sq_times k f) u v (n * 2 ^ Z.of_nat k) (m * 2 ^ Z.of_nat k).
Proof.
  intros Hf. unfold fe_sq_times. induction k as [|k IH]; [by rewrite !Z.mul_1_r|]. cbn [Nat.iter].
  apply mon_sq in IH. rewrite Nat2Z.inj_succ, Z.pow_succ_r by lia.
  replace (n * (2 * 2 ^ Z.of_nat k)) with (n * 2 ^ Z.of_nat k + n * 2 ^ Z.of_nat k) by lia.
  by replace (m * (2 * 2 ^ Z.of_nat k)) with (m * 2 ^ Z.of_nat k + m * 2 ^ Z.of_nat k) by lia.
Qed.

(** One assignment of an addition chain: the exponents are computed. *)
Ltac chain_step :=
  lazymatch goal with
  | |- is_fe ?a (let t := ?e in @?b t) ?w =>
      let H := fresh "P" in
      eassert (is_mon e _ _ _ _) as H
        by (lazymatch e with fe_sq_times _ _ => eapply mon_sq_times | fe_sq _ => eapply mon_sq | fe_mul _ _ => eapply mon_mul end; eassumption);
      lazymatch type of H with
      | is_mon _ _ _ ?n ?m => let n' := eval vm_compute in n in let m' := eval vm_compute in m in change n with n' in H; change m with m' in H
      end;
      let f := fresh t in
      generalize dependent e; intros f H;
      let g := eval cbv beta in (b f) in change (is_fe a g w)
  end.

(** [fe_invert] computes the power [p - 2]. *)
Lemma fe_invert_ok f z : is_fe 330 f z -> is_fe 101 (fe_invert f) (z ^ (p - 2)).
Proof.
  intros Hf. apply (mon_left _ _ 1) in Hf. cbv beta delta [fe_invert]. repeat chain_step.
  eapply is_fe_eq; [by eapply mon_product|]. rewrite Z.pow_1_l, Z.mul_1_r by lia. f_equal.
Qed.

(** [fe_divpowm1] computes [u v^3 (u v^7)^((p-5)/8)], as its comment says. *)
Lemma fe_divpowm1_ok f g u v : is_fe 330 f u -> is_fe 330 g v ->
  is_fe 101 (fe_divpowm1 f g) (u ^ (2 ^ 252 - 2) * v ^ (7 * 2 ^ 252 - 18)).
Proof.
  intros Hf Hg. apply (mon_left _ _ v) in Hf. apply (mon_right _ u) in Hg. cbv beta delta [fe_divpowm1]. repeat chain_step.
  eapply is_fe_eq; [by eapply mon_product|]. f_equal.
Qed.

Lemma self a f : fe_bounded a f -> is_fe a f (value f).
Proof. by intros H. Qed.

(** Multiplication of field elements.  For limbs within the preconditions of
    the comments, 1.65 times [2^26, 2^25, ...], the limbs [fe_mul], [fe_sq] and
    [fe_sq2] compute with 32-bit and 64-bit operations are within the promised 1.01
    times [2^25, 2^24, ...], and the results are the product, the square and twice
    the square modulo [2^255 - 19]. *)
Theorem fe_multiplication f g : fe_bounded 330 f -> fe_bounded 330 g ->
  is_fe 101 (fe_mul f g) (value f * value g) /\ is_fe 101 (fe_sq f) (value f * value f) /\ is_fe 101 (fe_sq2 f) (2 * (value f * value f)).
Proof. intros Hf%self Hg%self. split_and!; [by apply fe_mul_ok | by apply fe_sq_ok | by apply fe_sq2_ok]. Qed.

Lemma fe_multiplication_witness :
  is_fe 101 (fe_mul (replicate 10 20000000) (replicate 10 (-30000000))) (value (replicate 10 20000000) * value (replicate 10 (-30000000))).
Proof. apply (fe_multiplication (replicate 10 20000000) (replicate 10 (-30000000))); bytes_compute. Defined.

(** The encoding of field elements is canonical.  For limbs within the
    precondition [fe_tobytes] writes the 32 bytes of the least non-negative
    residue, whatever representative the limbs are; [fe_isnegative] is its parity
    and [fe_isnonzero] tests whether it is zero. *)
Theorem fe_tobytes_canonical f : fe_bounded 330 f ->
  le_value (fe_tobytes f) = value f mod p /\ is_bytes (fe_tobytes f) /\ length (fe_tobytes f) = 32%nat
  /\ fe_isnegative f = (value f mod p) mod 2 /\ fe_isnonzero f = (if value f mod p =? 0 then 0 else 1).
Proof.
  intros Hf%self. destruct (fe_tobytes_ok f _ Hf) as (? & ? & ?).
  split_and!; [done..|by apply fe_isnegative_ok|by apply fe_isnonzero_ok].
Qed.

Lemma fe_tobytes_canonical_witness :
  le_value (fe_tobytes [-20; 0; 0; 0; 0; 0; 0; 0; 0; 0]) = value [-20; 0; 0; 0; 0; 0; 0; 0; 0; 0] mod p.
Proof. apply (fe_tobytes_canonical [-20; 0; 0; 0; 0; 0; 0; 0; 0; 0]). bytes_compute. Defined.

Lemma divpowm1_root u v : u ^ (2 ^ 252 - 2) * v ^ (7 * 2 ^ 252 - 18) = u * v ^ 3 * (u * v ^ 7) ^ ((p - 5) / 8).
Proof.
  assert ((p - 5) / 8 = 2 ^ 252 - 3) as -> by reflexivity.
  rewrite Z.pow_mul_l, <- Z.pow_mul_r by lia. replace (2 ^ 252 - 2) with (1 + (2 ^ 252 - 3)) by lia.
  replace (7 * 2 ^ 252 - 18) with (3 + 7 * (2 ^ 252 - 3)) by lia. rewrite !Z.pow_add_r, Z.pow_1_r by lia. ring.
Qed.

(** The addition chains.  [fe_invert], with its 254 squarings and 11
    multiplications, computes the power [p - 2], and [fe_divpowm1] computes
    [u v^3 (u v^7)^((p-5)/8)]. *)
Theorem fe_powers f g : fe_bounded 330 f -> fe_bounded 330 g ->
  let u := value f in let v := value g in
  is_fe 101 (fe_invert f) (u ^ (p - 2)) /\ is_fe 101 (fe_divpowm1 f g) (u * v ^ 3 * (u * v ^ 7) ^ ((p - 5) / 8)).
Proof.
  intros Hf%self Hg%self u v. split; [by apply fe_invert_ok|]. eapply is_fe_eq; [by apply fe_divpowm1_ok|].
  apply divpowm1_root.
Qed.

Lemma fe_powers_witness :
  is_fe 101 (fe_invert (replicate 10 3)) (value (replicate 10 3) ^ (p - 2))
  /\ is_fe 101 (fe_divpowm1 (replicate 10 3) (replicate 10 5))
       (value (replicate 10 3) * value (replicate 10 5) ^ 3 * (value (replicate 10 3) * value (replicate 10 5) ^ 7) ^ ((p - 5) / 8)).
Proof. apply (fe_powers (replicate 10 3) (replicate 10 5)); bytes_compute. Defined.

End Fe.
