(* ===== verification/Ge.v ===== *)
(** Points of the curve [-x^2 + y^2 = 1 + d x^2 y^2], src/crypto/crypto-ops.c: the
    four coordinate systems, additions and doublings, and the encoding of points.
    A structure of field elements represents an affine point; the functions are
    proved to realise the addition law of the curve on the points they represent. *)

From S2P Require Import Prelude.
From S2P Require Import Varint.
From S2P Require Import Serialization.
From S2P Require Import StraightLine.
From S2P Require Import CryptoOps.
From S2P Require Import Fe.
Import Stream StraightLine CryptoOps Fe.

Module Ge.

#[local] Open Scope list_scope.
#[local] Open Scope Z_scope.

(** ** Data *)

Record ge_p2 := P2 { p2_X : fe; p2_Y : fe; p2_Z : fe }.
Record ge_p3 := P3 { p3_X : fe; p3_Y : fe; p3_Z : fe; p3_T : fe }.
Record ge_p1p1 := P1P1 { p1p1_X : fe; p1p1_Y : fe; p1p1_Z : fe; p1p1_T : fe }.
Record ge_precomp := Precomp { yplusx : fe; yminusx : fe; xy2d : fe }.
Record ge_cached := Cached { YplusX : fe; YminusX : fe; cached_Z : fe; T2d : fe }.

Definition fe_d : fe := [-10913610; 13857413; -15372611; 6949391; 114729; -8787816; -6275908; -3247719; -18696448; -12055116].
Definition fe_sqrtm1 : fe := [-32595792; -7943725; 9377950; 3500415; 12389472; -272473; -25146209; -2005654; 326686; 11406482].
Definition fe_d2 : fe := [-21827239; -5839606; -30745221; 13898782; 229458; 15978800; -12551817; -6495438; 29715968; 9444199].

(** ** Operations *)

Definition ge_add (p : ge_p3) (q : ge_cached) : ge_p1p1 :=
  let X := fe_add (p3_Y p) (p3_X p) in
  let Y := fe_sub (p3_Y p) (p3_X p) in
  let Z := fe_mul X (YplusX q) in
  let Y := fe_mul Y (YminusX q) in
  let T := fe_mul (T2d q) (p3_T p) in
  let X := fe_mul (p3_Z p) (cached_Z q) in
  let t0 := fe_add X X in
  let X := fe_sub Z Y in
  let Y := fe_add Z Y in
  let Z := fe_add t0 T in
  let T := fe_sub t0 T in
  P1P1 X Y Z T.

Definition ge_sub (p : ge_p3) (q : ge_cached) : ge_p1p1 :=
  let X := fe_add (p3_Y p) (p3_X p) in
  let Y := fe_sub (p3_Y p) (p3_X p) in
  let Z := fe_mul X (YminusX q) in
  let Y := fe_mul Y (YplusX q) in
  let T := fe_mul (T2d q) (p3_T p) in
  let X := fe_mul (p3_Z p) (cached_Z q) in
  let t0 := fe_add X X in
  let X := fe_sub Z Y in
  let Y := fe_add Z Y in
  let Z := fe_sub t0 T in
  let T := fe_add t0 T in
  P1P1 X Y Z T.

Definition ge_madd (p : ge_p3) (q : ge_precomp) : ge_p1p1 :=
  let X := fe_add (p3_Y p) (p3_X p) in
  let Y := fe_sub (p3_Y p) (p3_X p) in
  let Z := fe_mul X (yplusx q) in
  let Y := fe_mul Y (yminusx q) in
  let T := fe_mul (xy2d q) (p3_T p) in
  let t0 := fe_add (p3_Z p) (p3_Z p) in
  let X := fe_sub Z Y in
  let Y := fe_add Z Y in
  let Z := fe_add t0 T in
  let T := fe_sub t0 T in
  P1P1 X Y Z T.

Definition ge_msub (p : ge_p3) (q : ge_precomp) : ge_p1p1 :=
  let X := fe_add (p3_Y p) (p3_X p) in
  let Y := fe_sub (p3_Y p) (p3_X p) in
  let Z := fe_mul X (yminusx q) in
  let Y := fe_mul Y (yplusx q) in
  let T := fe_mul (xy2d q) (p3_T p) in
  let t0 := fe_add (p3_Z p) (p3_Z p) in
  let X := fe_sub Z Y in
  let Y := fe_add Z Y in
  let Z := fe_sub t0 T in
  let T := fe_add t0 T in
  P1P1 X Y Z T.

Definition ge_p1p1_to_p2 (p : ge_p1p1) : ge_p2 :=
  P2 (fe_mul (p1p1_X p) (p1p1_T p)) (fe_mul (p1p1_Y p) (p1p1_Z p)) (fe_mul (p1p1_Z p) (p1p1_T p)).

Definition ge_p1p1_to_p3 (p : ge_p1p1) : ge_p3 :=
  P3 (fe_mul (p1p1_X p) (p1p1_T p)) (fe_mul (p1p1_Y p) (p1p1_Z p)) (fe_mul (p1p1_Z p) (p1p1_T p)) (fe_mul (p1p1_X p) (p1p1_Y p)).

Definition ge_p2_0 : ge_p2 := P2 fe_0 fe_1 fe_1.

Definition ge_p2_dbl (p : ge_p2) : ge_p1p1 :=
  let X := fe_sq (p2_X p) in
  let Z := fe_sq (p2_Y p) in
  let T := fe_sq2 (p2_Z p) in
  let Y := fe_add (p2_X p) (p2_Y p) in
  let t0 := fe_sq Y in
  let Y := fe_add Z X in
  let Z := fe_sub Z X in
  let X := fe_sub t0 Y in
  let T := fe_sub T Z in
  P1P1 X Y Z T.

Definition ge_p3_0 : ge_p3 := P3 fe_0 fe_1 fe_1 fe_0.

Definition ge_p3_to_p2 (p : ge_p3) : ge_p2 := P2 (fe_copy (p3_X p)) (fe_copy (p3_Y p)) (fe_copy (p3_Z p)).

Definition ge_p3_dbl (p : ge_p3) : ge_p1p1 := ge_p2_dbl (ge_p3_to_p2 p).

Definition ge_p3_to_cached (p : ge_p3) : ge_cached :=
  Cached (fe_add (p3_Y p) (p3_X p)) (fe_sub (p3_Y p) (p3_X p)) (fe_copy (p3_Z p)) (fe_mul (p3_T p) fe_d2).

Definition ge_precomp_0 : ge_precomp := Precomp fe_1 fe_1 fe_0.

Definition ge_cached_0 : ge_cached := Cached fe_1 fe_1 fe_1 fe_0.

Definition ge_mul8 (t : ge_p2) : ge_p1p1 :=
  let r := ge_p2_dbl t in
  let u := ge_p1p1_to_p2 r in
  let r := ge_p2_dbl u in
  let u := ge_p1p1_to_p2 r in
  ge_p2_dbl u.

(** ** Congruence modulo [p] *)

Definition eqm (a b : Z) : Prop := a mod p = b mod p.

Infix "≡p" := eqm (at level 70).

#[export] Instance eqm_equivalence : Equivalence eqm.
Proof. split; [by intros ?|by intros ? ? ?|intros a b c H1 H2; unfold eqm in *; congruence]. Qed.

#[export] Instance add_proper : Proper (eqm ==> eqm ==> eqm) Z.add.
Proof. intros a b H c d H'. unfold eqm in *. by rewrite Zplus_mod, H, H', <- Zplus_mod. Qed.

#[export] Instance sub_proper : Proper (eqm ==> eqm ==> eqm) Z.sub.
Proof. intros a b H c d H'. unfold eqm in *. by rewrite Zminus_mod, H, H', <- Zminus_mod. Qed.

#[export] Instance mul_proper : Proper (eqm ==> eqm ==> eqm) Z.mul.
Proof. intros a b H c d H'. unfold eqm in *. by rewrite Zmult_mod, H, H', <- Zmult_mod. Qed.

#[export] Instance opp_proper : Proper (eqm ==> eqm) Z.opp.
Proof. intros a b H. rewrite <- !Z.sub_0_l. by rewrite H. Qed.

#[export] Instance is_fe_proper a f : Proper (eqm ==> iff) (is_fe a f).
Proof. intros v w H. split; apply is_fe_mod; [done|by symmetry]. Qed.

#[export] Instance eqm_dec a b : Decision (a ≡p b) := decide (a mod p = b mod p).

Lemma eq_eqm a b : a = b -> a ≡p b.
Proof. by intros ->. Qed.

(** Invertible residues. *)
Definition unit (a : Z) : Prop := exists b, b * a ≡p 1.

Lemma unit_mul a b : unit a -> unit b -> unit (a * b).
Proof.
  intros [a' Ha] [b' Hb]. exists (a' * b'). assert (a' * b' * (a * b) = (a' * a) * (b' * b)) as -> by ring. rewrite Ha, Hb. done.
Qed.

#[export] Instance unit_proper : Proper (eqm ==> iff) unit.
Proof. intros a b H. split; intros [c Hc]; exists c; [by rewrite <- H | by rewrite H]. Qed.

(** ** The curve *)

(** [d = -121665 / 121666]. *)
Definition d : Z := value fe_d.

Lemma d_value : 121666 * d ≡p -121665.
Proof. vm_compute. reflexivity. Qed.

Lemma sqrtm1_value : value fe_sqrtm1 * value fe_sqrtm1 ≡p -1.
Proof. vm_compute. reflexivity. Qed.

Abbreviation point := (Z * Z)%type.

Definition on_curve (P : point) : Prop := P.2 * P.2 - P.1 * P.1 ≡p 1 + d * (P.1 * P.1) * (P.2 * P.2).

(** [R] is the sum of [P] and [Q] by the addition law, whose denominators do not vanish. *)
Definition adds (P Q R : point) : Prop :=
  let e := d * P.1 * Q.1 * P.2 * Q.2 in
  R.1 * (1 + e) ≡p P.1 * Q.2 + Q.1 * P.2 /\ R.2 * (1 - e) ≡p P.2 * Q.2 + P.1 * Q.1 /\ unit (1 + e) /\ unit (1 - e).

Definition neg (P : point) : point := (- P.1, P.2).

(** ** What a structure represents *)

Record is_p2 (h : ge_p2) (P : point) (z : Z) : Prop := {
  is_p2_X : is_fe 101 (p2_X h) (P.1 * z);
  is_p2_Y : is_fe 101 (p2_Y h) (P.2 * z);
  is_p2_Z : is_fe 101 (p2_Z h) z
}.

Record is_p3 (h : ge_p3) (P : point) (z : Z) : Prop := {
  is_p3_X : is_fe 101 (p3_X h) (P.1 * z);
  is_p3_Y : is_fe 101 (p3_Y h) (P.2 * z);
  is_p3_Z : is_fe 101 (p3_Z h) z;
  is_p3_T : is_fe 101 (p3_T h) (P.1 * P.2 * z)
}.

Record is_p1p1 (h : ge_p1p1) (P : point) (z t : Z) : Prop := {
  is_p1p1_X : is_fe 330 (p1p1_X h) (P.1 * z);
  is_p1p1_Y : is_fe 330 (p1p1_Y h) (P.2 * t);
  is_p1p1_Z : is_fe 330 (p1p1_Z h) z;
  is_p1p1_T : is_fe 330 (p1p1_T h) t
}.

Record is_cached (h : ge_cached) (P : point) (z : Z) : Prop := {
  is_cached_plus : is_fe 202 (YplusX h) ((P.2 + P.1) * z);
  is_cached_minus : is_fe 202 (YminusX h) ((P.2 - P.1) * z);
  is_cached_Z : is_fe 101 (cached_Z h) z;
  is_cached_T : is_fe 101 (T2d h) (2 * d * P.1 * P.2 * z)
}.

Record is_precomp (h : ge_precomp) (P : point) : Prop := {
  is_precomp_plus : is_fe 101 (yplusx h) (P.2 + P.1);
  is_precomp_minus : is_fe 101 (yminusx h) (P.2 - P.1);
  is_precomp_xy : is_fe 101 (xy2d h) (2 * d * P.1 * P.2)
}.

(** ** The operations realise the law *)

Ltac safe_add a b c := apply (fe_add_ok a b c); [vm_compute; reflexivity|..].
Ltac safe_sub a b c := apply (fe_sub_ok a b c); [vm_compute; reflexivity|..].

Lemma mul_ok a b f g u v : is_fe a f u -> is_fe b g v -> 0 <= a <= 330 -> 0 <= b <= 330 -> is_fe 101 (fe_mul f g) (u * v).
Proof. intros Hf Hg Ha Hb. apply fe_mul_ok; by eapply weaken. Qed.

Lemma sq_ok a f u : is_fe a f u -> 0 <= a <= 330 -> is_fe 101 (fe_sq f) (u * u).
Proof. intros Hf Ha. apply fe_sq_ok. by eapply weaken. Qed.

Lemma copy_ok a f u : safe_unary fe_copy_code a a = true -> is_fe a f u -> is_fe a (fe_copy f) u.
Proof.
  intros Hs [Hf Hu]. eapply is_fe_mod; [|eapply (unary_ok _ a a (linear 0 Wf)); [done|done|vm_compute; reflexivity]].
  rewrite <- (app_nil_r f), first_value by by eapply fe_length. done.
Qed.

(** The last four operations of the additions, from the products. *)
Lemma sum_ok fb fa fd fc b a dd c R z t : is_fe 101 fb b -> is_fe 101 fa a -> is_fe 202 fd dd -> is_fe 101 fc c ->
  b - a ≡p R.1 * z -> b + a ≡p R.2 * t -> dd + c ≡p z -> dd - c ≡p t ->
  is_p1p1 (P1P1 (fe_sub fb fa) (fe_add fb fa) (fe_add fd fc) (fe_sub fd fc)) R z t.
Proof.
  intros Hb Ha Hd Hc E1 E2 E3 E4. split; cbn [p1p1_X p1p1_Y p1p1_Z p1p1_T].
  - rewrite <- E1. safe_sub 101 101 330; done.
  - rewrite <- E2. safe_add 101 101 330; done.
  - rewrite <- E3. safe_add 202 101 330; done.
  - rewrite <- E4. safe_sub 202 101 330; done.
Qed.

Lemma difference_ok fb fa fd fc b a dd c R z t : is_fe 101 fb b -> is_fe 101 fa a -> is_fe 202 fd dd -> is_fe 101 fc c ->
  b - a ≡p R.1 * z -> b + a ≡p R.2 * t -> dd - c ≡p z -> dd + c ≡p t ->
  is_p1p1 (P1P1 (fe_sub fb fa) (fe_add fb fa) (fe_sub fd fc) (fe_add fd fc)) R z t.
Proof.
  intros Hb Ha Hd Hc E1 E2 E3 E4. split; cbn [p1p1_X p1p1_Y p1p1_Z p1p1_T].
  - rewrite <- E1. safe_sub 101 101 330; done.
  - rewrite <- E2. safe_add 101 101 330; done.
  - rewrite <- E3. safe_sub 202 101 330; done.
  - rewrite <- E4. safe_add 202 101 330; done.
Qed.

Lemma p3_plus p P z : is_p3 p P z -> is_fe 202 (fe_add (p3_Y p) (p3_X p)) ((P.2 + P.1) * z).
Proof. intros [HX HY _ _]. eapply is_fe_eq; [safe_add 101 101 202; done | ring]. Qed.

Lemma p3_minus p P z : is_p3 p P z -> is_fe 202 (fe_sub (p3_Y p) (p3_X p)) ((P.2 - P.1) * z).
Proof. intros [HX HY _ _]. eapply is_fe_eq; [safe_sub 101 101 202; done | ring]. Qed.

Lemma double_ok f u : is_fe 101 f u -> is_fe 202 (fe_add f f) (u + u).
Proof. intros H. safe_add 101 101 202; done. Qed.

(** The factors of the new [Z] and [T]. *)
Definition law_e (P Q : point) : Z := d * P.1 * Q.1 * P.2 * Q.2.

(** [b - a] and [b + a] are multiples of the numerators of the law. *)
Ltac law z w L :=
  lazymatch goal with |- _ ≡p ?x * (2 * _ * (1 + ?e)) => transitivity (2 * z * w * (x * (1 + e))); [|apply eq_eqm; ring]
  | |- _ ≡p ?x * (2 * _ * (1 - ?e)) => transitivity (2 * z * w * (x * (1 - e))); [|apply eq_eqm; ring] end;
  unfold law_e; rewrite L; apply eq_eqm; cbn [neg fst snd]; ring.

Lemma ge_add_ok p q P Q R z w : is_p3 p P z -> is_cached q Q w -> adds P Q R ->
  is_p1p1 (ge_add p q) R (2 * (z * w) * (1 + law_e P Q)) (2 * (z * w) * (1 - law_e P Q)).
Proof.
  intros Hp [H1 H2 H3 H4] (Lx & Ly & _ & _). pose proof Hp as [_ _ HZ HT]. unfold ge_add. eapply sum_ok.
  - eapply mul_ok; [by apply p3_plus|exact H1|lia..].
  - eapply mul_ok; [by apply p3_minus|exact H2|lia..].
  - apply double_ok. eapply mul_ok; [exact HZ|exact H3|lia..].
  - eapply mul_ok; [exact H4|exact HT|lia..].
  - law z w Lx.
  - law z w Ly.
  - apply eq_eqm. unfold law_e. ring.
  - apply eq_eqm. unfold law_e. ring.
Qed.

Lemma ge_sub_ok p q P Q R z w : is_p3 p P z -> is_cached q Q w -> adds P (neg Q) R ->
  is_p1p1 (ge_sub p q) R (2 * (z * w) * (1 + law_e P (neg Q))) (2 * (z * w) * (1 - law_e P (neg Q))).
Proof.
  intros Hp [H1 H2 H3 H4] (Lx & Ly & _ & _). pose proof Hp as [_ _ HZ HT]. unfold ge_sub. eapply difference_ok.
  - eapply mul_ok; [by apply p3_plus|exact H2|lia..].
  - eapply mul_ok; [by apply p3_minus|exact H1|lia..].
  - apply double_ok. eapply mul_ok; [exact HZ|exact H3|lia..].
  - eapply mul_ok; [exact H4|exact HT|lia..].
  - law z w Lx.
  - law z w Ly.
  - apply eq_eqm. unfold law_e. cbn [neg fst snd]. ring.
  - apply eq_eqm. unfold law_e. cbn [neg fst snd]. ring.
Qed.

Lemma ge_madd_ok p q P Q R z : is_p3 p P z -> is_precomp q Q -> adds P Q R ->
  is_p1p1 (ge_madd p q) R (2 * z * (1 + law_e P Q)) (2 * z * (1 - law_e P Q)).
Proof.
  intros Hp [H1 H2 H3] (Lx & Ly & _ & _). pose proof Hp as [_ _ HZ HT]. unfold ge_madd. eapply sum_ok.
  - eapply mul_ok; [by apply p3_plus|exact H1|lia..].
  - eapply mul_ok; [by apply p3_minus|exact H2|lia..].
  - apply double_ok. exact HZ.
  - eapply mul_ok; [exact H3|exact HT|lia..].
  - law z 1 Lx.
  - law z 1 Ly.
  - apply eq_eqm. unfold law_e. ring.
  - apply eq_eqm. unfold law_e. ring.
Qed.

Lemma ge_msub_ok p q P Q R z : is_p3 p P z -> is_precomp q Q -> adds P (neg Q) R ->
  is_p1p1 (ge_msub p q) R (2 * z * (1 + law_e P (neg Q))) (2 * z * (1 - law_e P (neg Q))).
Proof.
  intros Hp [H1 H2 H3] (Lx & Ly & _ & _). pose proof Hp as [_ _ HZ HT]. unfold ge_msub. eapply difference_ok.
  - eapply mul_ok; [by apply p3_plus|exact H2|lia..].
  - eapply mul_ok; [by apply p3_minus|exact H1|lia..].
  - apply double_ok. exact HZ.
  - eapply mul_ok; [exact H3|exact HT|lia..].
  - law z 1 Lx.
  - law z 1 Ly.
  - apply eq_eqm. unfold law_e. cbn [neg fst snd]. ring.
  - apply eq_eqm. unfold law_e. cbn [neg fst snd]. ring.
Qed.

Lemma to_p2_ok r P z t : is_p1p1 r P z t -> is_p2 (ge_p1p1_to_p2 r) P (z * t).
Proof.
  intros [H1 H2 H3 H4]. split; cbn [ge_p1p1_to_p2 p2_X p2_Y p2_Z].
  - eapply is_fe_eq; [by apply fe_mul_ok|ring].
  - eapply is_fe_eq; [by apply fe_mul_ok|ring].
  - by apply fe_mul_ok.
Qed.

Lemma to_p3_ok r P z t : is_p1p1 r P z t -> is_p3 (ge_p1p1_to_p3 r) P (z * t).
Proof.
  intros [H1 H2 H3 H4]. split; cbn [ge_p1p1_to_p3 p3_X p3_Y p3_Z p3_T].
  - eapply is_fe_eq; [by apply fe_mul_ok|ring].
  - eapply is_fe_eq; [by apply fe_mul_ok|ring].
  - by apply fe_mul_ok.
  - eapply is_fe_eq; [by apply fe_mul_ok|ring].
Qed.

Lemma d2_ok : is_fe 101 fe_d2 (2 * d).
Proof. split; [bytes_compute|]. vm_compute. reflexivity. Qed.

Lemma to_cached_ok p P z : is_p3 p P z -> is_cached (ge_p3_to_cached p) P z.
Proof.
  intros Hp. pose proof Hp as [HX HY HZ HT]. split; cbn [ge_p3_to_cached YplusX YminusX cached_Z T2d].
  - by apply p3_plus.
  - by apply p3_minus.
  - by apply copy_ok.
  - eapply is_fe_eq; [eapply mul_ok; [exact HT|exact d2_ok|lia..]|ring].
Qed.

Lemma p3_to_p2_ok p P z : is_p3 p P z -> is_p2 (ge_p3_to_p2 p) P z.
Proof. intros [HX HY HZ HT]. split; by apply copy_ok. Qed.

(** Doubling, with [Y] and [Z] of twice the size: on the curve the denominators of the
    law are [y^2 - x^2] and [2 - (y^2 - x^2)]. *)
Lemma ge_p2_dbl_wide p P R z : is_fe 101 (p2_X p) (P.1 * z) -> is_fe 210 (p2_Y p) (P.2 * z) -> is_fe 210 (p2_Z p) z -> on_curve P -> adds P P R ->
  is_p1p1 (ge_p2_dbl p) R (z * z * (1 + law_e P P)) (z * z * (1 - law_e P P)).
Proof.
  intros HX HY HZ Hc (Lx & Ly & _ & _). unfold on_curve in Hc. unfold ge_p2_dbl.
  assert (is_fe 101 (fe_sq (p2_X p)) (P.1 * z * (P.1 * z))) as A1 by (eapply sq_ok; [exact HX|lia]).
  assert (is_fe 101 (fe_sq (p2_Y p)) (P.2 * z * (P.2 * z))) as A2 by (eapply sq_ok; [exact HY|lia]).
  assert (is_fe 101 (fe_sq2 (p2_Z p)) (2 * (z * z))) as A3 by (apply fe_sq2_ok; eapply weaken; [exact HZ|lia]).
  assert (is_fe 311 (fe_add (p2_X p) (p2_Y p)) (P.1 * z + P.2 * z)) as A4 by (safe_add 101 210 311; done).
  pose proof (sq_ok _ _ _ A4 ltac:(lia)) as A5.
  assert (is_fe 202 (fe_add (fe_sq (p2_Y p)) (fe_sq (p2_X p))) (P.2 * z * (P.2 * z) + P.1 * z * (P.1 * z))) as A6 by (safe_add 101 101 202; done).
  assert (is_fe 202 (fe_sub (fe_sq (p2_Y p)) (fe_sq (p2_X p))) (P.2 * z * (P.2 * z) - P.1 * z * (P.1 * z))) as A7 by (safe_sub 101 101 202; done).
  assert (P.2 * z * (P.2 * z) - P.1 * z * (P.1 * z) ≡p z * z * (1 + law_e P P)) as E.
  { transitivity (z * z * (P.2 * P.2 - P.1 * P.1)); [apply eq_eqm; ring|]. rewrite Hc. apply eq_eqm. unfold law_e. ring. }
  split; cbn [p1p1_X p1p1_Y p1p1_Z p1p1_T].
  - eapply is_fe_mod; [|safe_sub 101 202 330; [exact A5|exact A6]].
    change (eqm ((P.1 * z + P.2 * z) * (P.1 * z + P.2 * z) - (P.2 * z * (P.2 * z) + P.1 * z * (P.1 * z))) (R.1 * (z * z * (1 + law_e P P)))).
    transitivity (z * z * (R.1 * (1 + law_e P P))); [|apply eq_eqm; ring]. unfold law_e. rewrite Lx. apply eq_eqm. ring.
  - eapply is_fe_mod; [|eapply weaken; [exact A6|lia]].
    change (eqm (P.2 * z * (P.2 * z) + P.1 * z * (P.1 * z)) (R.2 * (z * z * (1 - law_e P P)))).
    transitivity (z * z * (R.2 * (1 - law_e P P))); [|apply eq_eqm; ring]. unfold law_e. rewrite Ly. apply eq_eqm. ring.
  - eapply is_fe_mod; [exact E|]. eapply weaken; [exact A7|lia].
  - eapply is_fe_mod; [|safe_sub 101 202 330; [exact A3|exact A7]].
    change (eqm (2 * (z * z) - (P.2 * z * (P.2 * z) - P.1 * z * (P.1 * z))) (z * z * (1 - law_e P P))). rewrite E. apply eq_eqm. ring.
Qed.

Lemma ge_p2_dbl_ok p P R z : is_p2 p P z -> on_curve P -> adds P P R ->
  is_p1p1 (ge_p2_dbl p) R (z * z * (1 + law_e P P)) (z * z * (1 - law_e P P)).
Proof. intros [HX HY HZ]. apply ge_p2_dbl_wide; [done|by apply (weaken 101)|by apply (weaken 101)]. Qed.

End Ge.
