(* ===== verification/Edwards.v ===== *)
(** The group of the curve [-x^2 + y^2 = 1 + d x^2 y^2] over the integers modulo
    [p = 2^255 - 19] that src/crypto/crypto-ops.c computes in: the addition law is
    complete, its sums are on the curve, and it is associative and commutative.
    Multiples of a point by integers, and the order of the base point. *)

From Stdlib Require Import Znumtheory Zpow_facts Zmod.
From S2P Require Import Prelude.
From S2P Require Import Primality.
From S2P Require Import StraightLine.
From S2P Require Import Fe.
From S2P Require Import Ge.
Import Primality StraightLine Fe Ge.

Module Edwards.

#[local] Open Scope list_scope.
#[local] Open Scope Z_scope.

(** ** The field *)

Lemma prime_p : Z.prime p.
Proof. exact prime_p25519. Qed.

Definition inv (a : Z) : Z := Z.invmod a p.

Lemma inv_spec a : ~ a ≡p 0 -> inv a * a ≡p 1.
Proof. intros H. apply (Z.invmod_prime a p prime_p). exact H. Qed.

Lemma zero_or_unit a : a ≡p 0 \/ unit a.
Proof. destruct (decide (a mod p = 0 mod p)) as [H|H]; [by left | right; exists (inv a); by apply inv_spec]. Qed.

Lemma unit_nonzero a : unit a -> ~ a ≡p 0.
Proof. intros [b Hb] H. rewrite H, Z.mul_0_r in Hb. vm_compute in Hb. discriminate Hb. Qed.

Lemma cancel_l c a b : unit c -> c * a ≡p c * b -> a ≡p b.
Proof.
  intros [k Hk] H. transitivity (k * c * a); [rewrite Hk; apply eq_eqm; ring|].
  transitivity (k * c * b); [rewrite <- !Z.mul_assoc, H; done|rewrite Hk; apply eq_eqm; ring].
Qed.

Lemma unit_factor_l a b : unit (a * b) -> unit a.
Proof. intros [k Hk]. exists (k * b). rewrite <- Hk. apply eq_eqm. ring. Qed.

Lemma unit_factor_r a b : unit (a * b) -> unit b.
Proof. rewrite Z.mul_comm. apply unit_factor_l. Qed.

Lemma mul_zero a b : a * b ≡p 0 -> a ≡p 0 \/ b ≡p 0.
Proof.
  intros H. destruct (zero_or_unit a) as [|U]; [by left|right]. apply (cancel_l a); [done|]. rewrite H. apply eq_eqm. ring.
Qed.

(** ** The coefficient [d] is not a square *)

Lemma d_euler : d ^ ((p - 1) / 2) ≡p -1.
Proof. unfold eqm. rewrite <- Zpow_mod_correct by discriminate. vm_compute. reflexivity. Qed.

Lemma d_not_square s : ~ s * s ≡p d.
Proof.
  intros H. assert (d ^ ((p - 1) / 2) ≡p s ^ (p - 1)) as E.
  { unfold eqm. rewrite Zpower_mod, <- H, <- Zpower_mod by done. replace (s * s) with (s ^ 2) by ring.
    rewrite <- Z.pow_mul_r by done. done. }
  rewrite d_euler in E. destruct (decide (s mod p = 0)) as [Hs|Hs].
  - assert (s ≡p 0) as H0 by exact Hs. rewrite H0 in H. vm_compute in H. discriminate H.
  - assert (s ^ (p - 1) ≡p 1) as H1 by (unfold eqm; rewrite Z.fermat_nz; [done|exact prime_p|done]).
    rewrite H1 in E. vm_compute in E. discriminate E.
Qed.

(** ** Polynomial identities modulo the curve equation *)

Section Identities.
  Context (d x1 y1 x2 y2 x3 y3 : Z).
  Context (H1 : y1 * y1 - x1 * x1 ≡p 1 + d * (x1 * x1) * (y1 * y1)).
  Context (H2 : y2 * y2 - x2 * x2 ≡p 1 + d * (x2 * x2) * (y2 * y2)).
  Context (H3 : y3 * y3 - x3 * x3 ≡p 1 + d * (x3 * x3) * (y3 * y3)).

Lemma zero_of a b : a ≡p b -> a - b ≡p 0.
Proof. intros ->. apply eq_eqm. ring. Qed.

Definition sum_x (x1 y1 x2 y2 : Z) : Z := x1 * y2 + x2 * y1.
Definition sum_y (x1 y1 x2 y2 : Z) : Z := y1 * y2 + x1 * x2.
Definition sum_e (x1 y1 x2 y2 : Z) : Z := d * x1 * x2 * y1 * y2.

Lemma closure_identity :
  let e := sum_e x1 y1 x2 y2 in let n1 := sum_x x1 y1 x2 y2 in let n2 := sum_y x1 y1 x2 y2 in
  n2 * n2 * ((1 + e) * (1 + e)) - n1 * n1 * ((1 - e) * (1 - e)) ≡p (1 - e * e) * (1 - e * e) + d * (n1 * n1) * (n2 * n2).
Proof.
  cbv zeta. unfold sum_e, sum_x, sum_y.
  match goal with |- ?a ≡p ?b => transitivity (b + ((d*d*d*x1*x1*y1*y1*x2*x2*x2*x2*y2*y2*y2*y2 - d*d*x1*x1*x2*x2*x2*x2*y2*y2*y2*y2 +
      d*d*y1*y1*x2*x2*x2*x2*y2*y2*y2*y2 - d*d*x2*x2*x2*x2*y2*y2*y2*y2 - d*x1*x1*x2*x2*x2*x2*y2*y2 +
      d*x1*x1*x2*x2*y2*y2*y2*y2 + d*y1*y1*x2*x2*x2*x2*y2*y2 - d*y1*y1*x2*x2*y2*y2*y2*y2 -
      2*d*x2*x2*x2*x2*y2*y2*y2*y2 - 2*x2*x2*x2*x2*y2*y2 + 2*x2*x2*y2*y2*y2*y2 - 2*d*x2*x2*y2*y2 + x2*x2*x2*x2
      - 4*x2*x2*y2*y2 + y2*y2*y2*y2) * (y1 * y1 - x1 * x1 - (1 + d * (x1 * x1) * (y1 * y1))) +
      (d*x1*x1*x1*x1*x2*x2*y2*y2 + d*y1*y1*y1*y1*x2*x2*y2*y2 + 2*d*x1*x1*x2*x2*y2*y2 - 2*d*y1*y1*x2*x2*y2*y2 +
      2*x1*x1*x2*x2*y2*y2 - 2*y1*y1*x2*x2*y2*y2 + d*x2*x2*y2*y2 - x1*x1*x2*x2 + x1*x1*y2*y2 + y1*y1*x2*x2 -
      y1*y1*y2*y2 + 2*x2*x2*y2*y2 - x2*x2 + y2*y2 + 1) * (y2 * y2 - x2 * x2 - (1 + d * (x2 * x2) * (y2 * y2))))) end.
  - apply eq_eqm. ring.
  - rewrite (zero_of _ _ H1), (zero_of _ _ H2). apply eq_eqm. ring.
Qed.

(** [(P1 + P2) + P3] and [P1 + (P2 + P3)]: numerators and denominators. *)
Lemma associativity_x :
  let e := sum_e x1 y1 x2 y2 in let n1 := sum_x x1 y1 x2 y2 in let n2 := sum_y x1 y1 x2 y2 in
  let f := sum_e x2 y2 x3 y3 in let m1 := sum_x x2 y2 x3 y3 in let m2 := sum_y x2 y2 x3 y3 in
  (n1 * (1 - e) * y3 + x3 * (n2 * (1 + e))) * ((1 - f * f) + d * x1 * m1 * y1 * m2)
  ≡p (x1 * (m2 * (1 + f)) + m1 * (1 - f) * y1) * ((1 - e * e) + d * n1 * x3 * n2 * y3).
Proof.
  cbv zeta. unfold sum_e, sum_x, sum_y.
  match goal with |- ?a ≡p ?b => transitivity (b + ((- d*d*x1*x2*x2*x2*x2*y2*y2*y2*x3*x3*y3 - d*d*x1*x2*x2*x2*y2*y2*y2*y2*x3*y3*y3 +
      d*d*y1*x2*x2*x2*x2*y2*y2*y2*x3*y3*y3 + d*d*y1*x2*x2*x2*y2*y2*y2*y2*x3*x3*y3 -
      d*x1*x2*x2*x2*x2*y2*x3*x3*y3 - d*x1*x2*x2*x2*y2*y2*x3*x3*x3 + d*x1*x2*x2*y2*y2*y2*y3*y3*y3 +
      d*x1*x2*y2*y2*y2*y2*x3*y3*y3 + d*y1*x2*x2*x2*x2*y2*x3*y3*y3 + d*y1*x2*x2*x2*y2*y2*y3*y3*y3 -
      d*y1*x2*x2*y2*y2*y2*x3*x3*x3 - d*y1*x2*y2*y2*y2*y2*x3*x3*y3 - d*x1*x2*x2*x2*y2*y2*x3 -
      d*x1*x2*x2*y2*y2*y2*y3 - d*y1*x2*x2*x2*y2*y2*y3 - d*y1*x2*x2*y2*y2*y2*x3) * (y1 * y1 - x1 * x1 - (1 + d
      * (x1 * x1) * (y1 * y1))) + (d*d*x1*x1*y1*x2*x2*y2*x3*x3*x3*y3*y3 - d*d*x1*x1*y1*x2*y2*y2*x3*x3*y3*y3*y3
      - d*d*x1*y1*y1*x2*x2*y2*x3*x3*y3*y3*y3 + d*d*x1*y1*y1*x2*y2*y2*x3*x3*x3*y3*y3 +
      d*x1*x1*x1*x2*x2*y2*x3*x3*y3 + d*x1*x1*x1*x2*y2*y2*x3*y3*y3 + d*x1*x1*x1*x2*x3*x3*x3*y3*y3 +
      d*x1*x1*x1*y2*x3*x3*y3*y3*y3 - d*x1*x1*y1*x2*x2*y2*x3*y3*y3 - d*x1*x1*y1*x2*y2*y2*x3*x3*y3 +
      d*x1*x1*y1*x2*x3*x3*y3*y3*y3 + d*x1*x1*y1*y2*x3*x3*x3*y3*y3 - d*x1*y1*y1*x2*x2*y2*x3*x3*y3 -
      d*x1*y1*y1*x2*y2*y2*x3*y3*y3 - d*x1*y1*y1*x2*x3*x3*x3*y3*y3 - d*x1*y1*y1*y2*x3*x3*y3*y3*y3 +
      d*y1*y1*y1*x2*x2*y2*x3*y3*y3 + d*y1*y1*y1*x2*y2*y2*x3*x3*y3 - d*y1*y1*y1*x2*x3*x3*y3*y3*y3 -
      d*y1*y1*y1*y2*x3*x3*x3*y3*y3 + d*x1*x2*x2*y2*x3*x3*y3 + d*x1*x2*y2*y2*x3*y3*y3 + d*x1*x2*x3*x3*x3*y3*y3
      + d*x1*y2*x3*x3*y3*y3*y3 - d*y1*x2*x2*y2*x3*y3*y3 - d*y1*x2*y2*y2*x3*x3*y3 + d*y1*x2*x3*x3*y3*y3*y3 +
      d*y1*y2*x3*x3*x3*y3*y3 + x1*x1*x1*x2*x3*x3*x3 - x1*x1*x1*x2*x3*y3*y3 + x1*x1*x1*y2*x3*x3*y3 -
      x1*x1*x1*y2*y3*y3*y3 + x1*x1*y1*x2*x3*x3*y3 - x1*x1*y1*x2*y3*y3*y3 + x1*x1*y1*y2*x3*x3*x3 -
      x1*x1*y1*y2*x3*y3*y3 - x1*y1*y1*x2*x3*x3*x3 + x1*y1*y1*x2*x3*y3*y3 - x1*y1*y1*y2*x3*x3*y3 +
      x1*y1*y1*y2*y3*y3*y3 - y1*y1*y1*x2*x3*x3*y3 + y1*y1*y1*x2*y3*y3*y3 - y1*y1*y1*y2*x3*x3*x3 +
      y1*y1*y1*y2*x3*y3*y3 + x1*x1*x1*x2*x3 + x1*x1*x1*y2*y3 + x1*x1*y1*x2*y3 + x1*x1*y1*y2*x3 -
      x1*y1*y1*x2*x3 - x1*y1*y1*y2*y3 + x1*x2*x3*x3*x3 - x1*x2*x3*y3*y3 + x1*y2*x3*x3*y3 - x1*y2*y3*y3*y3 -
      y1*y1*y1*x2*y3 - y1*y1*y1*y2*x3 + y1*x2*x3*x3*y3 - y1*x2*y3*y3*y3 + y1*y2*x3*x3*x3 - y1*y2*x3*y3*y3 +
      x1*x2*x3 + x1*y2*y3 + y1*x2*y3 + y1*y2*x3) * (y2 * y2 - x2 * x2 - (1 + d * (x2 * x2) * (y2 * y2))) + (-
      d*x1*x1*y1*x2*x2*y2*x3 + d*x1*x1*y1*x2*y2*y2*y3 + d*x1*y1*y1*x2*x2*y2*y3 - d*x1*y1*y1*x2*y2*y2*x3 -
      x1*x1*x1*x2*x2*x2*x3 - x1*x1*x1*x2*x2*y2*y3 + x1*x1*x1*x2*y2*y2*x3 + x1*x1*x1*y2*y2*y2*y3 -
      x1*x1*y1*x2*x2*x2*y3 - x1*x1*y1*x2*x2*y2*x3 + x1*x1*y1*x2*y2*y2*y3 + x1*x1*y1*y2*y2*y2*x3 +
      x1*y1*y1*x2*x2*x2*x3 + x1*y1*y1*x2*x2*y2*y3 - x1*y1*y1*x2*y2*y2*x3 - x1*y1*y1*y2*y2*y2*y3 +
      y1*y1*y1*x2*x2*x2*y3 + y1*y1*y1*x2*x2*y2*x3 - y1*y1*y1*x2*y2*y2*y3 - y1*y1*y1*y2*y2*y2*x3 -
      x1*x1*x1*x2*x3 - x1*x1*x1*y2*y3 - x1*x1*y1*x2*y3 - x1*x1*y1*y2*x3 + x1*y1*y1*x2*x3 + x1*y1*y1*y2*y3 -
      x1*x2*x2*x2*x3 - x1*x2*x2*y2*y3 + x1*x2*y2*y2*x3 + x1*y2*y2*y2*y3 + y1*y1*y1*x2*y3 + y1*y1*y1*y2*x3 -
      y1*x2*x2*x2*y3 - y1*x2*x2*y2*x3 + y1*x2*y2*y2*y3 + y1*y2*y2*y2*x3 - x1*x2*x3 - x1*y2*y3 - y1*x2*y3 -
      y1*y2*x3) * (y3 * y3 - x3 * x3 - (1 + d * (x3 * x3) * (y3 * y3))))) end.
  - apply eq_eqm. ring.
  - rewrite (zero_of _ _ H1), (zero_of _ _ H2), (zero_of _ _ H3). apply eq_eqm. ring.
Qed.

Lemma associativity_y :
  let e := sum_e x1 y1 x2 y2 in let n1 := sum_x x1 y1 x2 y2 in let n2 := sum_y x1 y1 x2 y2 in
  let f := sum_e x2 y2 x3 y3 in let m1 := sum_x x2 y2 x3 y3 in let m2 := sum_y x2 y2 x3 y3 in
  (n2 * (1 + e) * y3 + n1 * (1 - e) * x3) * ((1 - f * f) - d * x1 * m1 * y1 * m2)
  ≡p (y1 * (m2 * (1 + f)) + x1 * (m1 * (1 - f))) * ((1 - e * e) - d * n1 * x3 * n2 * y3).
Proof.
  cbv zeta. unfold sum_e, sum_x, sum_y.
  match goal with |- ?a ≡p ?b => transitivity (b + ((d*d*x1*x2*x2*x2*x2*y2*y2*y2*x3*y3*y3 + d*d*x1*x2*x2*x2*y2*y2*y2*y2*x3*x3*y3 -
      d*d*y1*x2*x2*x2*x2*y2*y2*y2*x3*x3*y3 - d*d*y1*x2*x2*x2*y2*y2*y2*y2*x3*y3*y3 +
      d*x1*x2*x2*x2*x2*y2*x3*y3*y3 + d*x1*x2*x2*x2*y2*y2*y3*y3*y3 - d*x1*x2*x2*y2*y2*y2*x3*x3*x3 -
      d*x1*x2*y2*y2*y2*y2*x3*x3*y3 - d*y1*x2*x2*x2*x2*y2*x3*x3*y3 - d*y1*x2*x2*x2*y2*y2*x3*x3*x3 +
      d*y1*x2*x2*y2*y2*y2*y3*y3*y3 + d*y1*x2*y2*y2*y2*y2*x3*y3*y3 - d*x1*x2*x2*x2*y2*y2*y3 -
      d*x1*x2*x2*y2*y2*y2*x3 - d*y1*x2*x2*x2*y2*y2*x3 - d*y1*x2*x2*y2*y2*y2*y3) * (y1 * y1 - x1 * x1 - (1 + d
      * (x1 * x1) * (y1 * y1))) + (d*d*x1*x1*y1*x2*x2*y2*x3*x3*y3*y3*y3 - d*d*x1*x1*y1*x2*y2*y2*x3*x3*x3*y3*y3
      - d*d*x1*y1*y1*x2*x2*y2*x3*x3*x3*y3*y3 + d*d*x1*y1*y1*x2*y2*y2*x3*x3*y3*y3*y3 -
      d*x1*x1*x1*x2*x2*y2*x3*y3*y3 - d*x1*x1*x1*x2*y2*y2*x3*x3*y3 + d*x1*x1*x1*x2*x3*x3*y3*y3*y3 +
      d*x1*x1*x1*y2*x3*x3*x3*y3*y3 + d*x1*x1*y1*x2*x2*y2*x3*x3*y3 + d*x1*x1*y1*x2*y2*y2*x3*y3*y3 +
      d*x1*x1*y1*x2*x3*x3*x3*y3*y3 + d*x1*x1*y1*y2*x3*x3*y3*y3*y3 + d*x1*y1*y1*x2*x2*y2*x3*y3*y3 +
      d*x1*y1*y1*x2*y2*y2*x3*x3*y3 - d*x1*y1*y1*x2*x3*x3*y3*y3*y3 - d*x1*y1*y1*y2*x3*x3*x3*y3*y3 -
      d*y1*y1*y1*x2*x2*y2*x3*x3*y3 - d*y1*y1*y1*x2*y2*y2*x3*y3*y3 - d*y1*y1*y1*x2*x3*x3*x3*y3*y3 -
      d*y1*y1*y1*y2*x3*x3*y3*y3*y3 - d*x1*x2*x2*y2*x3*y3*y3 - d*x1*x2*y2*y2*x3*x3*y3 + d*x1*x2*x3*x3*y3*y3*y3
      + d*x1*y2*x3*x3*x3*y3*y3 + d*y1*x2*x2*y2*x3*x3*y3 + d*y1*x2*y2*y2*x3*y3*y3 + d*y1*x2*x3*x3*x3*y3*y3 +
      d*y1*y2*x3*x3*y3*y3*y3 + x1*x1*x1*x2*x3*x3*y3 - x1*x1*x1*x2*y3*y3*y3 + x1*x1*x1*y2*x3*x3*x3 -
      x1*x1*x1*y2*x3*y3*y3 + x1*x1*y1*x2*x3*x3*x3 - x1*x1*y1*x2*x3*y3*y3 + x1*x1*y1*y2*x3*x3*y3 -
      x1*x1*y1*y2*y3*y3*y3 - x1*y1*y1*x2*x3*x3*y3 + x1*y1*y1*x2*y3*y3*y3 - x1*y1*y1*y2*x3*x3*x3 +
      x1*y1*y1*y2*x3*y3*y3 - y1*y1*y1*x2*x3*x3*x3 + y1*y1*y1*x2*x3*y3*y3 - y1*y1*y1*y2*x3*x3*y3 +
      y1*y1*y1*y2*y3*y3*y3 + x1*x1*x1*x2*y3 + x1*x1*x1*y2*x3 + x1*x1*y1*x2*x3 + x1*x1*y1*y2*y3 -
      x1*y1*y1*x2*y3 - x1*y1*y1*y2*x3 + x1*x2*x3*x3*y3 - x1*x2*y3*y3*y3 + x1*y2*x3*x3*x3 - x1*y2*x3*y3*y3 -
      y1*y1*y1*x2*x3 - y1*y1*y1*y2*y3 + y1*x2*x3*x3*x3 - y1*x2*x3*y3*y3 + y1*y2*x3*x3*y3 - y1*y2*y3*y3*y3 +
      x1*x2*y3 + x1*y2*x3 + y1*x2*x3 + y1*y2*y3) * (y2 * y2 - x2 * x2 - (1 + d * (x2 * x2) * (y2 * y2))) + (-
      d*x1*x1*y1*x2*x2*y2*y3 + d*x1*x1*y1*x2*y2*y2*x3 + d*x1*y1*y1*x2*x2*y2*x3 - d*x1*y1*y1*x2*y2*y2*y3 -
      x1*x1*x1*x2*x2*x2*y3 - x1*x1*x1*x2*x2*y2*x3 + x1*x1*x1*x2*y2*y2*y3 + x1*x1*x1*y2*y2*y2*x3 -
      x1*x1*y1*x2*x2*x2*x3 - x1*x1*y1*x2*x2*y2*y3 + x1*x1*y1*x2*y2*y2*x3 + x1*x1*y1*y2*y2*y2*y3 +
      x1*y1*y1*x2*x2*x2*y3 + x1*y1*y1*x2*x2*y2*x3 - x1*y1*y1*x2*y2*y2*y3 - x1*y1*y1*y2*y2*y2*x3 +
      y1*y1*y1*x2*x2*x2*x3 + y1*y1*y1*x2*x2*y2*y3 - y1*y1*y1*x2*y2*y2*x3 - y1*y1*y1*y2*y2*y2*y3 -
      x1*x1*x1*x2*y3 - x1*x1*x1*y2*x3 - x1*x1*y1*x2*x3 - x1*x1*y1*y2*y3 + x1*y1*y1*x2*y3 + x1*y1*y1*y2*x3 -
      x1*x2*x2*x2*y3 - x1*x2*x2*y2*x3 + x1*x2*y2*y2*y3 + x1*y2*y2*y2*x3 + y1*y1*y1*x2*x3 + y1*y1*y1*y2*y3 -
      y1*x2*x2*x2*x3 - y1*x2*x2*y2*y3 + y1*x2*y2*y2*x3 + y1*y2*y2*y2*y3 - x1*x2*y3 - x1*y2*x3 - y1*x2*x3 -
      y1*y2*y3) * (y3 * y3 - x3 * x3 - (1 + d * (x3 * x3) * (y3 * y3))))) end.
  - apply eq_eqm. ring.
  - rewrite (zero_of _ _ H1), (zero_of _ _ H2), (zero_of _ _ H3). apply eq_eqm. ring.
Qed.

End Identities.

(** ** The law is complete *)

Section Complete.
Context (P Q : point) (HP : on_curve P) (HQ : on_curve Q).

Let x1 := P.1.
Let y1 := P.2.
Let x2 := Q.1.
Let y2 := Q.2.
Let e := law_e P Q.
Let i := value fe_sqrtm1.

(** If [e^2 = 1] then [(i x1 + k e y1)^2 = d ((i x2 + k y2) x1 y1)^2] for [k = 1, -1]. *)
Lemma square_identity k : k * k = 1 -> e * e ≡p 1 ->
  (i * x1 + k * e * y1) * (i * x1 + k * e * y1) ≡p d * ((i * x2 + k * y2) * x1 * y1) * ((i * x2 + k * y2) * x1 * y1).
Proof.
  intros Hk He. pose proof sqrtm1_value as Hi. fold i in Hi. unfold on_curve in HP, HQ. fold x1 y1 in HP. fold x2 y2 in HQ.
  transitivity (1 + d * (x1 * x1) * (y1 * y1) + 2 * k * i * e * x1 * y1).
  - transitivity (y1 * y1 - x1 * x1 + 2 * k * i * e * x1 * y1); [|by rewrite HP].
    transitivity ((i * i) * (x1 * x1) + 2 * k * i * e * x1 * y1 + (k * k) * (e * e) * (y1 * y1)); [apply eq_eqm; ring|].
    rewrite Hi, He, Hk. apply eq_eqm. ring.
  - symmetry. transitivity (d * (x1 * x1) * (y1 * y1) * (y2 * y2 - x2 * x2 + 2 * k * i * x2 * y2)).
    + transitivity (d * (x1 * x1) * (y1 * y1) * ((i * i) * (x2 * x2) + 2 * k * i * x2 * y2 + (k * k) * (y2 * y2))); [apply eq_eqm; ring|].
      rewrite Hi, Hk. apply eq_eqm. ring.
    + rewrite HQ. transitivity (d * (x1 * x1) * (y1 * y1) + e * e + 2 * k * i * e * x1 * y1).
      * apply eq_eqm. unfold e, law_e. fold x1 y1 x2 y2. ring.
      * rewrite He. apply eq_eqm. ring.
Qed.

Lemma not_both : unit e -> ~ (i * x2 + 1 * y2 ≡p 0 /\ i * x2 + -1 * y2 ≡p 0).
Proof.
  intros U [A B]. assert (2 * y2 ≡p 0) as H.
  { transitivity ((i * x2 + 1 * y2) - (i * x2 + -1 * y2)); [apply eq_eqm; ring|]. rewrite A, B. done. }
  apply (unit_nonzero (2 * y2)); [|done]. apply unit_mul; [exists ((p + 1) / 2); vm_compute; reflexivity|].
  unfold e, law_e in U. fold y2 in U. by apply unit_factor_r in U.
Qed.

Lemma e_not_root : ~ e * e ≡p 1.
Proof.
  intros He. assert (unit e) as Ue by (exists e; exact He).
  assert (unit (x1 * y1)) as Uxy.
  { apply (unit_factor_l _ (d * x2 * y2)). replace (x1 * y1 * (d * x2 * y2)) with e; [done|]. unfold e, law_e. fold x1 y1 x2 y2. ring. }
  assert (forall k, k * k = 1 -> ~ unit (i * x2 + k * y2)) as Hno.
  { intros k Hk Uk. pose proof (square_identity k Hk He) as Hs. destruct (unit_mul _ _ Uk Uxy) as [c Hc].
    apply (d_not_square ((i * x1 + k * e * y1) * c)).
    transitivity (c * c * ((i * x1 + k * e * y1) * (i * x1 + k * e * y1))); [apply eq_eqm; ring|]. rewrite Hs.
    transitivity (d * (c * ((i * x2 + k * y2) * (x1 * y1))) * (c * ((i * x2 + k * y2) * (x1 * y1)))); [apply eq_eqm; ring|].
    rewrite Hc. apply eq_eqm. ring. }
  apply (not_both Ue). split.
  - destruct (zero_or_unit (i * x2 + 1 * y2)) as [|U]; [done|]. by destruct (Hno 1).
  - destruct (zero_or_unit (i * x2 + -1 * y2)) as [|U]; [done|]. by destruct (Hno (-1)).
Qed.

Lemma denominators : unit (1 + e) /\ unit (1 - e).
Proof.
  pose proof e_not_root as H. split.
  - destruct (zero_or_unit (1 + e)) as [Z|]; [|done]. destruct H.
    transitivity ((1 + e) * (e - 1) + 1); [apply eq_eqm; ring|]. rewrite Z. done.
  - destruct (zero_or_unit (1 - e)) as [Z|]; [|done]. destruct H.
    transitivity (1 - (1 - e) * (1 + e)); [apply eq_eqm; ring|]. rewrite Z. done.
Qed.

End Complete.

(** ** The group *)

Definition point_eqm (P Q : point) : Prop := P.1 ≡p Q.1 /\ P.2 ≡p Q.2.

(** A point of the curve with coordinates in [0, p). *)
Definition reduced (P : point) : Prop := 0 <= P.1 < p /\ 0 <= P.2 < p.

Definition curve (P : point) : Prop := on_curve P /\ reduced P.

Definition neutral : point := (0, 1).

Definition padd (P Q : point) : point :=
  ((P.1 * Q.2 + Q.1 * P.2) * inv (1 + law_e P Q) mod p, (P.2 * Q.2 + P.1 * Q.1) * inv (1 - law_e P Q) mod p).

Definition popp (P : point) : point := (- P.1 mod p, P.2).

Lemma reduced_eq P Q : reduced P -> reduced Q -> point_eqm P Q -> P = Q.
Proof.
  destruct P as [x y], Q as [x' y']. intros [Hx Hy] [Hx' Hy'] [E1 E2]. unfold eqm in *. cbn in *.
  rewrite !Z.mod_small in E1, E2 by done. congruence.
Qed.

Lemma mod_eqm a : a mod p ≡p a.
Proof. unfold eqm. apply Zmod_mod. Qed.

Lemma padd_adds P Q : on_curve P -> on_curve Q -> adds P Q (padd P Q).
Proof.
  intros HP HQ. destruct (denominators P Q HP HQ) as [U1 U2]. pose proof (inv_spec _ (unit_nonzero _ U1)) as I1.
  pose proof (inv_spec _ (unit_nonzero _ U2)) as I2. unfold padd. cbv [adds]. cbn [fst snd]. fold (law_e P Q).
  split_and!; [| |done|done].
  - rewrite mod_eqm, <- Z.mul_assoc, I1. apply eq_eqm. ring.
  - rewrite mod_eqm, <- Z.mul_assoc, I2. apply eq_eqm. ring.
Qed.

Lemma adds_unique P Q R S : adds P Q R -> adds P Q S -> point_eqm R S.
Proof.
  intros (A1 & A2 & U1 & U2) (B1 & B2 & _ & _). split.
  - eapply cancel_l; [exact U1|]. rewrite Z.mul_comm, A1, <- B1. apply eq_eqm. ring.
  - eapply cancel_l; [exact U2|]. rewrite Z.mul_comm, A2, <- B2. apply eq_eqm. ring.
Qed.

Lemma reduced_padd P Q : reduced (padd P Q).
Proof. split; apply Z.mod_pos_bound; reflexivity. Qed.

Lemma padd_curve P Q : curve P -> curve Q -> curve (padd P Q).
Proof.
  intros [HP _] [HQ _]. split; [|apply reduced_padd]. destruct (padd_adds P Q HP HQ) as (A1 & A2 & U1 & U2).
  set (R := padd P Q) in *. clearbody R. pose proof (closure_identity _ _ _ _ _ HP HQ) as H. cbv zeta in H.
  fold (law_e P Q) in A1, A2, U1, U2. set (e := law_e P Q) in *.
  change (sum_e d P.1 P.2 Q.1 Q.2) with e in H. change (sum_x P.1 P.2 Q.1 Q.2) with (P.1 * Q.2 + Q.1 * P.2) in H.
  change (sum_y P.1 P.2 Q.1 Q.2) with (P.2 * Q.2 + P.1 * Q.1) in H. rewrite <- A1, <- A2 in H.
  unfold on_curve. apply (cancel_l ((1 + e) * (1 + e) * ((1 - e) * (1 - e)))); [by repeat apply unit_mul|].
  etransitivity; [|etransitivity; [exact H|]]; apply eq_eqm; ring.
Qed.

Lemma padd_comm P Q : padd P Q = padd Q P.
Proof.
  unfold padd. assert (law_e P Q = law_e Q P) as -> by (unfold law_e; ring). f_equal; f_equal; f_equal; ring.
Qed.

Lemma padd_unique P Q R : curve P -> curve Q -> curve R -> adds P Q R -> padd P Q = R.
Proof.
  intros HP HQ HR H. apply reduced_eq; [apply reduced_padd|apply HR|]. eapply adds_unique; [|exact H]. apply padd_adds; [apply HP|apply HQ].
Qed.

Lemma neutral_curve : curve neutral.
Proof. split; [vm_compute; reflexivity|]. split; split; (reflexivity || discriminate). Qed.

Lemma padd_neutral P : curve P -> padd neutral P = P.
Proof.
  intros HP. apply padd_unique; [apply neutral_curve|done|done|]. cbv [adds neutral fst snd].
  split_and!; [apply eq_eqm; ring..| |]; exists 1; apply eq_eqm; ring.
Qed.

Lemma popp_curve P : curve P -> curve (popp P).
Proof.
  intros [HP [Hx Hy]]. split.
  - unfold on_curve, popp in *. cbn [fst snd]. rewrite mod_eqm. etransitivity; [|etransitivity; [exact HP|]]; apply eq_eqm; ring.
  - split; [apply Z.mod_pos_bound; reflexivity|exact Hy].
Qed.

Lemma padd_popp P : curve P -> padd P (popp P) = neutral.
Proof.
  intros HP. pose proof (popp_curve P HP) as HN. apply padd_unique; [done|done|apply neutral_curve|].
  destruct (denominators P (popp P) (proj1 HP) (proj1 HN)) as [U1 U2]. destruct HP as [HP _]. unfold on_curve in HP.
  unfold adds. fold (law_e P (popp P)). split_and!; [| |done|done].
  - cbn [neutral popp fst snd]. rewrite mod_eqm. apply eq_eqm. ring.
  - unfold law_e. cbn [neutral popp fst snd]. rewrite mod_eqm. symmetry.
    etransitivity; [|etransitivity; [exact HP|]]; apply eq_eqm; ring.
Qed.

(** The numerators and denominators of a sum of three points. *)
Lemma adds_left P Q S R T : adds P Q R -> adds R S T ->
  let e := law_e P Q in let n1 := P.1 * Q.2 + Q.1 * P.2 in let n2 := P.2 * Q.2 + P.1 * Q.1 in
  T.1 * ((1 - e * e) + d * n1 * S.1 * n2 * S.2) ≡p n1 * (1 - e) * S.2 + S.1 * (n2 * (1 + e))
  /\ T.2 * ((1 - e * e) - d * n1 * S.1 * n2 * S.2) ≡p n2 * (1 + e) * S.2 + n1 * (1 - e) * S.1
  /\ unit ((1 - e * e) + d * n1 * S.1 * n2 * S.2) /\ unit ((1 - e * e) - d * n1 * S.1 * n2 * S.2).
Proof.
  intros (A1 & A2 & U1 & U2) (B1 & B2 & V1 & V2) e n1 n2. fold (law_e P Q) e in A1, A2, U1, U2. fold n1 in A1. fold n2 in A2.
  assert ((1 - e * e) + d * n1 * S.1 * n2 * S.2 ≡p (1 + e) * (1 - e) * (1 + d * R.1 * S.1 * R.2 * S.2)) as E1
    by (rewrite <- A1, <- A2; apply eq_eqm; ring).
  assert ((1 - e * e) - d * n1 * S.1 * n2 * S.2 ≡p (1 + e) * (1 - e) * (1 - d * R.1 * S.1 * R.2 * S.2)) as E2
    by (rewrite <- A1, <- A2; apply eq_eqm; ring).
  rewrite E1, E2. split_and!; [| |by repeat apply unit_mul..].
  - transitivity ((1 + e) * (1 - e) * (T.1 * (1 + d * R.1 * S.1 * R.2 * S.2))); [apply eq_eqm; ring|]. rewrite B1, <- A1, <- A2.
    apply eq_eqm. ring.
  - transitivity ((1 + e) * (1 - e) * (T.2 * (1 - d * R.1 * S.1 * R.2 * S.2))); [apply eq_eqm; ring|]. rewrite B2, <- A1, <- A2.
    apply eq_eqm. ring.
Qed.

Lemma adds_comm P Q R : adds P Q R -> adds Q P R.
Proof.
  intros (A1 & A2 & U1 & U2). assert (d * Q.1 * P.1 * Q.2 * P.2 = d * P.1 * Q.1 * P.2 * Q.2) as E by ring.
  unfold adds. rewrite E. split_and!; [rewrite A1|rewrite A2|done..]; apply eq_eqm; ring.
Qed.

Lemma quotient_unique a b n m x y : unit a -> unit b -> x * a ≡p n -> y * b ≡p m -> n * b ≡p m * a -> x ≡p y.
Proof.
  intros Ua Ub Hx Hy H. apply (cancel_l (a * b)); [by apply unit_mul|].
  transitivity (x * a * b); [apply eq_eqm; ring|]. rewrite Hx, H, <- Hy. apply eq_eqm. ring.
Qed.

Lemma padd_assoc P Q S : curve P -> curve Q -> curve S -> padd (padd P Q) S = padd P (padd Q S).
Proof.
  intros HP HQ HS. pose proof (padd_curve P Q HP HQ) as HPQ. pose proof (padd_curve Q S HQ HS) as HQS.
  apply reduced_eq; [apply reduced_padd..|]. destruct HP as [HP _], HQ as [HQ _], HS as [HS _].
  pose proof (adds_left _ _ _ _ _ (padd_adds P Q HP HQ) (padd_adds _ S (proj1 HPQ) HS)) as (L1 & L2 & UL1 & UL2).
  pose proof (adds_left _ _ _ _ _ (adds_comm _ _ _ (padd_adds Q S HQ HS)) (adds_comm _ _ _ (padd_adds P _ HP (proj1 HQS))))
    as (R1 & R2 & UR1 & UR2).
  pose proof (associativity_x _ _ _ _ _ _ _ HP HQ HS) as AX. pose proof (associativity_y _ _ _ _ _ _ _ HP HQ HS) as AY.
  cbv zeta in *. unfold sum_e, sum_x, sum_y, law_e in *. split.
  - eapply quotient_unique; [exact UL1|exact UR1|exact L1|exact R1|]. etransitivity; [|etransitivity; [exact AX|]]; apply eq_eqm; ring.
  - eapply quotient_unique; [exact UL2|exact UR2|exact L2|exact R2|]. etransitivity; [|etransitivity; [exact AY|]]; apply eq_eqm; ring.
Qed.

(** ** Multiples *)

Fixpoint pmul (k : positive) (P : point) : point :=
  match k with
  | xH => P
  | xO k => let Q := pmul k P in padd Q Q
  | xI k => let Q := pmul k P in padd P (padd Q Q)
  end.

Definition zmul (n : Z) (P : point) : point :=
  match n with Z0 => neutral | Zpos k => pmul k P | Zneg k => popp (pmul k P) end.

Lemma pmul_curve k P : curve P -> curve (pmul k P).
Proof. intros HP. induction k; cbn [pmul]; auto using padd_curve. Qed.

Lemma zmul_curve n P : curve P -> curve (zmul n P).
Proof. intros HP. destruct n; cbn [zmul]; auto using pmul_curve, popp_curve, neutral_curve. Qed.

Lemma padd_neutral_r P : curve P -> padd P neutral = P.
Proof. intros HP. rewrite padd_comm. by apply padd_neutral. Qed.

Lemma padd_popp_l P : curve P -> padd (popp P) P = neutral.
Proof. intros HP. rewrite padd_comm. by apply padd_popp. Qed.

#[local] Hint Resolve padd_curve popp_curve neutral_curve pmul_curve zmul_curve : core.

Lemma padd_cancel P Q : curve P -> curve Q -> padd P (padd (popp P) Q) = Q.
Proof. intros HP HQ. rewrite <- padd_assoc, padd_popp, padd_neutral by auto. done. Qed.

Lemma popp_unique P Q : curve P -> curve Q -> padd P Q = neutral -> Q = popp P.
Proof.
  intros HP HQ H. rewrite <- (padd_neutral_r (popp P)), <- H, <- padd_assoc, padd_popp_l, padd_neutral by auto. done.
Qed.

Lemma padd_swap P Q R : curve P -> curve Q -> curve R -> padd P (padd Q R) = padd Q (padd P R).
Proof. intros HP HQ HR. rewrite <- !padd_assoc, (padd_comm P Q) by done. done. Qed.

Lemma popp_padd P Q : curve P -> curve Q -> popp (padd P Q) = padd (popp P) (popp Q).
Proof.
  intros HP HQ. symmetry. apply popp_unique; auto. rewrite padd_assoc, (padd_swap Q) by auto.
  rewrite padd_popp, padd_neutral_r, padd_popp by auto. done.
Qed.

Lemma popp_popp P : curve P -> popp (popp P) = P.
Proof. intros HP. symmetry. apply popp_unique; auto using padd_popp_l. Qed.

Lemma popp_neutral : popp neutral = neutral.
Proof. symmetry. apply popp_unique; auto using padd_neutral. Qed.

Lemma pmul_succ k P : curve P -> pmul (Pos.succ k) P = padd P (pmul k P).
Proof.
  intros HP. induction k as [k IH|k IH|]; [|done|done].
  change (padd (pmul (Pos.succ k) P) (pmul (Pos.succ k) P) = padd P (padd P (padd (pmul k P) (pmul k P)))).
  rewrite IH, padd_assoc, (padd_swap (pmul k P)) by auto. done.
Qed.

Lemma zmul_succ n P : curve P -> zmul (Z.succ n) P = padd P (zmul n P).
Proof.
  intros HP. destruct n as [|k|k]; [cbn; by rewrite padd_neutral_r| |].
  - change (Z.succ (Z.pos k)) with (Z.pos (k + 1)). rewrite Pos.add_1_r. by apply pmul_succ.
  - destruct (Pos.succ_pred_or k) as [->|<-]; [cbn; by rewrite padd_popp|]. set (m := Pos.pred k).
    replace (Z.succ (Z.neg (Pos.succ m))) with (Z.neg m) by lia. cbn [zmul].
    rewrite pmul_succ, popp_padd, padd_cancel by auto. done.
Qed.

Lemma zmul_pred n P : curve P -> zmul (Z.pred n) P = padd (popp P) (zmul n P).
Proof.
  intros HP. rewrite <- (Z.succ_pred n) at 2. rewrite zmul_succ, <- padd_assoc, padd_popp_l, padd_neutral by auto. done.
Qed.

Lemma zmul_add m n P : curve P -> zmul (m + n) P = padd (zmul m P) (zmul n P).
Proof.
  intros HP. induction m as [|m IH|m IH] using Z.peano_ind.
  - cbn [zmul]. by rewrite padd_neutral by auto.
  - rewrite Z.add_succ_l, !zmul_succ, IH, padd_assoc by auto. done.
  - rewrite Z.add_pred_l, !zmul_pred, IH, padd_assoc by auto. done.
Qed.

Lemma zmul_opp n P : curve P -> zmul (- n) P = popp (zmul n P).
Proof. intros HP. apply popp_unique; auto. by rewrite <- zmul_add, Z.add_opp_diag_r by done. Qed.

Lemma zmul_padd n P Q : curve P -> curve Q -> zmul n (padd P Q) = padd (zmul n P) (zmul n Q).
Proof.
  intros HP HQ. induction n as [|n IH|n IH] using Z.peano_ind.
  - cbn [zmul]. by rewrite padd_neutral by auto.
  - rewrite !zmul_succ, IH, !padd_assoc by auto. f_equal. apply padd_swap; auto.
  - rewrite !zmul_pred, IH, popp_padd, !padd_assoc by auto. f_equal. apply padd_swap; auto.
Qed.

Lemma zmul_mul m n P : curve P -> zmul (m * n) P = zmul m (zmul n P).
Proof.
  intros HP. induction m as [|m IH|m IH] using Z.peano_ind; [done| |].
  - rewrite Z.mul_succ_l, zmul_add, zmul_succ, IH, padd_comm by auto. done.
  - rewrite Z.mul_pred_l, <- Z.add_opp_r, zmul_add, zmul_opp, zmul_pred, IH, padd_comm by auto. done.
Qed.

Lemma zmul_neutral n : zmul n neutral = neutral.
Proof.
  induction n as [|n IH|n IH] using Z.peano_ind; [done|rewrite zmul_succ by auto|rewrite zmul_pred, popp_neutral by auto];
    rewrite IH; by apply padd_neutral.
Qed.

Lemma zmul_1 P : zmul 1 P = P.
Proof. done. Qed.

Lemma zmul_mod n m P : curve P -> zmul m P = neutral -> zmul (n mod m) P = zmul n P.
Proof.
  intros HP Hm. destruct (decide (m = 0)) as [->|H0]; [by rewrite Z.mod_0_r|].
  rewrite (Z.div_mod n m) at 2 by done. rewrite zmul_add, (Z.mul_comm m), zmul_mul, Hm, zmul_neutral, padd_neutral by auto. done.
Qed.

End Edwards.
