(* ===== verification/ScalarMult.v ===== *)
(** Multiplication of curve points by scalars, src/crypto/crypto-ops.c:
    [ge_scalarmult] with its signed radix-16 digits and constant-time selection of
    multiples.  For every point of the curve the function is proved to compute the
    multiple it is asked for. *)

From S2P Require Import Prelude.
From S2P Require Import Varint.
From S2P Require Import Serialization.
From S2P Require Import StraightLine.
From S2P Require Import CryptoOps.
From S2P Require Import Fe.
From S2P Require Import Ge.
From S2P Require Import Edwards.
Import Stream StraightLine CryptoOps Fe Ge Edwards.

Module ScalarMult.

#[local] Open Scope list_scope.
#[local] Open Scope Z_scope.

(** Conversion to [signed char]. *)
Definition s8 (x : Z) : Z := (x + 128) mod 256 - 128.

(** ** Selection without branches *)

Definition equal (b c : Z) : Z := Z.shiftr (u32 (Z.lxor (u8 b) (u8 c) - 1)) 31.

Definition negative (b : Z) : Z := u8 (Z.shiftr (u64 b) 63).

(** [babs = b - (((-bnegative) & b) << 1)]. *)
Definition absolute (b : Z) : Z := u8 (b - Z.shiftl (Z.land (- negative b) b) 1).

Definition ge_cached_cmov (t u : ge_cached) (b : Z) : option ge_cached :=
  yp ← fe_cmov (YplusX t) (YplusX u) b;
  ym ← fe_cmov (YminusX t) (YminusX u) b;
  z ← fe_cmov (cached_Z t) (cached_Z u) b;
  t2 ← fe_cmov (T2d t) (T2d u) b;
  Some (Cached yp ym z t2).

(** ** Digits *)

(** The loop over the bytes 0 to 30: two digits for every byte. *)
Fixpoint recode_loop (a : bytes) (carry : Z) : list Z * Z :=
  match a with
  | [] => ([], carry)
  | x :: a =>
      let carry := carry + x in
      let carry2 := Z.shiftr (carry + 8) 4 in
      let e0 := s8 (carry - Z.shiftl carry2 4) in
      let carry := Z.shiftr (carry2 + 8) 4 in
      let e1 := s8 (carry2 - Z.shiftl carry 4) in
      let '(e, carry) := recode_loop a carry in
      (e0 :: e1 :: e, carry)
  end.

Definition recode (a : bytes) : list Z :=
  let '(e, carry) := recode_loop (take 31 a) 0 in
  let carry := carry + (a !!! 31%nat) in
  let carry2 := Z.shiftr (carry + 8) 4 in
  e ++ [s8 (carry - Z.shiftl carry2 4); s8 carry2].

(** ** The multiplication *)

(** [Ai[0] = A; Ai[i + 1] = A + Ai[i]]: [n] more entries after [c]. *)
Fixpoint table (n : nat) (A : ge_p3) (c : ge_cached) : list ge_cached :=
  c :: match n with
       | O => []
       | S n => table n A (ge_p3_to_cached (ge_p1p1_to_p3 (ge_add A c)))
       end.

(** The chain of conditional moves from entry [j] of the table [Ai] on, [cur] being
    the selection so far. *)
Fixpoint cmov_chain {T} (cmov : T -> T -> Z -> option T) (Ai : list T) (j babs : Z) (cur : T) : option T :=
  match Ai with
  | [] => Some cur
  | c :: Ai => cur ← cmov cur c (equal babs j); cmov_chain cmov Ai (j + 1) babs cur
  end.

Definition select (Ai : list ge_cached) (b : Z) : option ge_cached :=
  cur ← cmov_chain ge_cached_cmov Ai 1 (absolute b) ge_cached_0;
  let minuscur := Cached (fe_copy (YminusX cur)) (fe_copy (YplusX cur)) (fe_copy (cached_Z cur)) (fe_neg (T2d cur)) in
  ge_cached_cmov cur minuscur (negative b).

(** One digit: four doublings and one addition. *)
Definition scalarmult_step (Ai : list ge_cached) (b : Z) (r : ge_p2) : option ge_p2 :=
  let r := ge_p1p1_to_p2 (ge_p2_dbl r) in
  let r := ge_p1p1_to_p2 (ge_p2_dbl r) in
  let r := ge_p1p1_to_p2 (ge_p2_dbl r) in
  let u := ge_p1p1_to_p3 (ge_p2_dbl r) in
  cur ← select Ai b;
  Some (ge_p1p1_to_p2 (ge_add u cur)).

(** [for (i = 63; i >= 0; i--)]: the digits from the last to the first. *)
Fixpoint scalarmult_loop (Ai : list ge_cached) (e : list Z) : option ge_p2 :=
  match e with
  | [] => Some ge_p2_0
  | b :: e => r ← scalarmult_loop Ai e; scalarmult_step Ai b r
  end.

Definition ge_scalarmult (a : bytes) (A : ge_p3) : option ge_p2 :=
  scalarmult_loop (table 7 A (ge_p3_to_cached A)) (recode a).

(** ** Multiples of a point *)

(** The points of a group of indices: sums of indices are sums by the addition law,
    whose denominators never vanish. *)
Record family {I : Type} (zero : I) (add : I -> I -> I) (opp : I -> I) (M : I -> point) : Prop := {
  family_zero : point_eqm (M zero) neutral;
  family_add : forall i j, adds (M i) (M j) (M (add i j));
  family_opp : forall i, point_eqm (M (opp i)) (neg (M i));
  family_curve : forall i, on_curve (M i)
}.

(** [M n] is [n] times [M 1]. *)
Definition multiples : (Z -> point) -> Prop := family 0 Z.add Z.opp.

Lemma popp_neg P : point_eqm (popp P) (neg P).
Proof. split; [apply mod_eqm|done]. Qed.

(** The multiples of a point of the curve, and the combinations of two. *)
Lemma zmul_multiples P : curve P -> multiples (fun n => zmul n P).
Proof.
  intros HP. split.
  - done.
  - intros i j. rewrite zmul_add by done. apply padd_adds; by apply zmul_curve.
  - intros i. rewrite zmul_opp by done. apply popp_neg.
  - intros i. by apply zmul_curve.
Qed.

Definition combination (P Q : point) (ij : Z * Z) : point := padd (zmul ij.1 P) (zmul ij.2 Q).

Definition combinations : (Z * Z -> point) -> Prop :=
  family (0, 0) (fun a b => (a.1 + b.1, a.2 + b.2)) (fun a => (- a.1, - a.2)).

Lemma combination_family P Q : curve P -> curve Q -> combinations (combination P Q).
Proof.
  intros HP HQ. pose proof (fun n => zmul_curve n P HP) as CP. pose proof (fun n => zmul_curve n Q HQ) as CQ. split.
  - unfold combination. cbn [fst snd zmul]. by rewrite padd_neutral by apply neutral_curve.
  - intros i j. unfold combination. cbn [fst snd].
    replace (padd (zmul (i.1 + j.1) P) (zmul (i.2 + j.2) Q)) with (padd (padd (zmul i.1 P) (zmul i.2 Q)) (padd (zmul j.1 P) (zmul j.2 Q))).
    + apply padd_adds; apply padd_curve; auto.
    + rewrite !zmul_add, !padd_assoc by auto using padd_curve. f_equal. apply padd_swap; auto.
  - intros i. unfold combination. cbn [fst snd]. rewrite !zmul_opp, <- popp_padd by auto. apply popp_neg.
  - intros i. apply padd_curve; auto.
Qed.

(** A structure that represents [P] with invertible denominators. *)
Definition rep_p2 (h : ge_p2) (P : point) : Prop := exists z, unit z /\ is_p2 h P z.
Definition rep_p3 (h : ge_p3) (P : point) : Prop := exists z, unit z /\ is_p3 h P z.
Definition rep_p1p1 (h : ge_p1p1) (P : point) : Prop := exists z t, unit z /\ unit t /\ is_p1p1 h P z t.
Definition rep_cached (h : ge_cached) (P : point) : Prop := exists z, unit z /\ is_cached h P z.

Lemma unit_2 : unit 2.
Proof. exists ((p + 1) / 2). vm_compute. reflexivity. Qed.

Lemma add_rep p q P Q R : rep_p3 p P -> rep_cached q Q -> adds P Q R -> rep_p1p1 (ge_add p q) R.
Proof.
  intros (z & Uz & Hp) (w & Uw & Hq) L. pose proof L as (_ & _ & U1 & U2).
  exists (2 * (z * w) * (1 + law_e P Q)), (2 * (z * w) * (1 - law_e P Q)).
  split_and!; [| |by apply ge_add_ok]; repeat apply unit_mul; try done; apply unit_2.
Qed.

Lemma dbl_rep p P R : rep_p2 p P -> on_curve P -> adds P P R -> rep_p1p1 (ge_p2_dbl p) R.
Proof.
  intros (z & Uz & Hp) Hc L. pose proof L as (_ & _ & U1 & U2).
  exists (z * z * (1 + law_e P P)), (z * z * (1 - law_e P P)). split_and!; [| |by apply ge_p2_dbl_ok]; by repeat apply unit_mul.
Qed.

Lemma to_p2_rep r P : rep_p1p1 r P -> rep_p2 (ge_p1p1_to_p2 r) P.
Proof. intros (z & t & Uz & Ut & H). exists (z * t). split; [by apply unit_mul | by apply to_p2_ok]. Qed.

Lemma to_p3_rep r P : rep_p1p1 r P -> rep_p3 (ge_p1p1_to_p3 r) P.
Proof. intros (z & t & Uz & Ut & H). exists (z * t). split; [by apply unit_mul | by apply to_p3_ok]. Qed.

Lemma to_cached_rep p P : rep_p3 p P -> rep_cached (ge_p3_to_cached p) P.
Proof. intros (z & Uz & H). exists z. split; [done | by apply to_cached_ok]. Qed.

Lemma neutral_p2 : rep_p2 ge_p2_0 neutral.
Proof. exists 1. split; [by exists 1|]. split; (split; [bytes_compute|reflexivity]). Qed.

Lemma neutral_cached : rep_cached ge_cached_0 neutral.
Proof.
  exists 1. split; [by exists 1|].
  split; (split; [bytes_compute|reflexivity]).
Qed.

Lemma rep_p2_eqm h P Q : point_eqm P Q -> rep_p2 h P -> rep_p2 h Q.
Proof.
  intros [Hx Hy] (z & U & [H1 H2 H3]). exists z. split; [done|]. split.
  - by rewrite <- Hx.
  - by rewrite <- Hy.
  - done.
Qed.

Lemma rep_cached_eqm h P Q : point_eqm P Q -> rep_cached h P -> rep_cached h Q.
Proof.
  intros [Hx Hy] (z & U & [H1 H2 H3 H4]). exists z. split; [done|]. split; [| |done|].
  - by rewrite <- Hx, <- Hy.
  - by rewrite <- Hx, <- Hy.
  - by rewrite <- Hx, <- Hy.
Qed.

(** ** The selection *)

Lemma equal_spec b c : 0 <= b <= 8 -> 0 <= c <= 16 -> equal b c = if b =? c then 1 else 0.
Proof.
  intros Hb Hc.
  assert (Forall (fun b => Forall (fun c => equal b c = if b =? c then 1 else 0) (seqZ 0 17)) (seqZ 0 9)) as H by bytes_compute.
  rewrite Forall_forall in H. specialize (H b ltac:(apply elem_of_seqZ; lia)). rewrite Forall_forall in H.
  apply H. apply elem_of_seqZ. lia.
Qed.

Lemma absolute_spec b : -8 <= b <= 8 -> absolute b = Z.abs b /\ negative b = if b <? 0 then 1 else 0.
Proof.
  intros Hb. assert (Forall (fun b => absolute b = Z.abs b /\ negative b = if b <? 0 then 1 else 0) (seqZ (-8) 17)) as H by bytes_compute.
  rewrite Forall_forall in H. apply H. apply elem_of_seqZ. lia.
Qed.

Lemma cached_cmov_spec t u P Q b : rep_cached t P -> rep_cached u Q -> b = 0 \/ b = 1 ->
  ge_cached_cmov t u b = Some (if b =? 1 then u else t).
Proof.
  intros (z & _ & [[H1 _] [H2 _] [H3 _] [H4 _]]) (w & _ & [[K1 _] [K2 _] [K3 _] [K4 _]]) Hb. unfold ge_cached_cmov.
  rewrite !fe_cmov_ok by (done || by erewrite !fe_length by done). cbn. destruct t, u, (b =? 1); done.
Qed.

Section Chain.
  Context {T : Type} (cmov : T -> T -> Z -> option T) (valid : T -> point -> Prop).
  Context (cmov_spec : forall t u P Q b, valid t P -> valid u Q -> b = 0 \/ b = 1 -> cmov t u b = Some (if b =? 1 then u else t)).

Lemma cmov_chain_spec M Ai j k cur : Forall2 (fun i c => valid c (M i)) (seqZ j (Z.of_nat (length Ai))) Ai ->
  (exists P, valid cur P) -> 0 <= k <= 8 -> 0 <= j -> j + Z.of_nat (length Ai) <= 17 ->
  cmov_chain cmov Ai j k cur = Some (if j <=? k then nth (Z.to_nat (k - j)) Ai cur else cur).
Proof.
  revert j cur. induction Ai as [|c Ai IH]; intros j cur H [P Hcur] Hk Hj Hl.
  - cbn. by destruct (j <=? k), (Z.to_nat (k - j)).
  - cbn [length] in *. rewrite seqZ_cons in H by lia. apply Forall2_cons in H as [Hc H]. rewrite Nat2Z.inj_succ, Z.pred_succ in H.
    cbn [cmov_chain]. rewrite (cmov_spec _ _ _ _ _ Hcur Hc) by (rewrite equal_spec by lia; destruct (k =? j); auto).
    cbn [mbind option_bind]. rewrite equal_spec by lia. change (j + 1) with (Z.succ j).
    rewrite IH; [|done|destruct (k =? j); cbn; by eauto|lia..]. f_equal.
    destruct (Z.eqb_spec k j) as [->|Hkj]; cbn [Z.eqb Pos.eqb].
    + destruct (Z.leb_spec (Z.succ j) j); [lia|]. by rewrite Z.leb_refl, Z.sub_diag.
    + destruct (Z.leb_spec (Z.succ j) k), (Z.leb_spec j k); try lia; [|done].
      by replace (Z.to_nat (k - j)) with (S (Z.to_nat (k - Z.succ j))) by lia.
Qed.

(** From a table of the multiples 1 to 8 the chain selects the multiple asked for. *)
Lemma cmov_chain_selects M Ai k t0 : Forall2 (fun i c => valid c (M i)) (seqZ 1 8) Ai -> valid t0 (M 0) -> 0 <= k <= 8 ->
  exists c, cmov_chain cmov Ai 1 k t0 = Some c /\ valid c (M k).
Proof.
  intros HA H0 Hk. assert (length Ai = 8%nat) as Hl by (apply Forall2_length in HA; by rewrite length_seqZ in HA).
  rewrite (cmov_chain_spec M); [|by rewrite Hl|by eexists|lia..]. eexists. split; [done|]. destruct (Z.leb_spec 1 k).
  - destruct (lookup_lt_is_Some_2 Ai (Z.to_nat (k - 1))) as [c Hc]; [lia|].
    rewrite (nth_lookup_Some _ _ _ _ Hc). eapply Forall2_lookup_r in HA as (i & Hi & HA); [|exact Hc].
    apply lookup_seqZ in Hi as [-> _]. by replace (1 + Z.of_nat _) with k in HA by lia.
  - by replace k with 0 by lia.
Qed.

End Chain.

Lemma rep_cached_neg c P : rep_cached c P ->
  rep_cached (Cached (fe_copy (YminusX c)) (fe_copy (YplusX c)) (fe_copy (cached_Z c)) (fe_neg (T2d c))) (neg P).
Proof.
  intros (z & U & [H1 H2 H3 H4]). exists z. split; [done|]. split; cbn [YplusX YminusX cached_Z T2d neg fst snd].
  - eapply is_fe_eq; [by apply copy_ok|ring].
  - eapply is_fe_eq; [by apply copy_ok|ring].
  - by apply copy_ok.
  - eapply is_fe_eq; [by apply fe_neg_ok|ring].
Qed.

Section Multiples.
  Context (M : Z -> point) (HM : multiples M).

Lemma point_eqm_sym P Q : point_eqm P Q -> point_eqm Q P.
Proof. intros [H1 H2]. by split. Qed.

(** The table holds the multiples [k, ..., k + n]. *)
Lemma multiples_table n A c k : rep_p3 A (M 1) -> rep_cached c (M k) ->
  Forall2 (fun i c => rep_cached c (M i)) (seqZ k (Z.of_nat (S n))) (table n A c).
Proof.
  intros HA. revert c k. induction n as [|n IH]; intros c k Hc; rewrite seqZ_cons by lia; constructor; try done.
  replace (Z.pred (Z.of_nat (S (S n)))) with (Z.of_nat (S n)) by lia. apply IH.
  apply to_cached_rep, to_p3_rep. eapply add_rep; [done..|]. replace (Z.succ k) with (1 + k) by lia. apply HM.
Qed.

Definition tabulates (Ai : list ge_cached) : Prop := Forall2 (fun i c => rep_cached c (M i)) (seqZ 1 8) Ai.

Lemma select_spec Ai b : tabulates Ai -> -8 <= b <= 8 -> exists c, select Ai b = Some c /\ rep_cached c (M b).
Proof.
  intros HA Hb. destruct (absolute_spec b Hb) as [Ea En]. unfold select. rewrite Ea.
  assert (rep_cached ge_cached_0 (M 0)) as H0 by (eapply rep_cached_eqm; [apply point_eqm_sym, HM|apply neutral_cached]).
  destruct (cmov_chain_selects _ _ cached_cmov_spec M Ai (Z.abs b) _ HA H0) as (cur & -> & Hcur); [lia|].
  pose proof (rep_cached_neg _ _ Hcur) as Hneg. cbn [mbind option_bind].
  rewrite (cached_cmov_spec _ _ _ _ _ Hcur Hneg) by (rewrite En; destruct (b <? 0); auto). eexists. split; [done|].
  rewrite En. destruct (Z.ltb_spec b 0); cbn [Z.eqb Pos.eqb].
  - eapply rep_cached_eqm; [|exact Hneg]. replace b with (- Z.abs b) at 2 by lia. apply point_eqm_sym, HM.
  - by replace b with (Z.abs b) by lia.
Qed.

Lemma double_rep r v : rep_p2 r (M v) -> rep_p1p1 (ge_p2_dbl r) (M (2 * v)).
Proof. intros H. eapply dbl_rep; [done|apply HM|]. replace (2 * v) with (v + v) by lia. apply HM. Qed.

Lemma scalarmult_step_spec Ai b r v : tabulates Ai -> -8 <= b <= 8 -> rep_p2 r (M v) ->
  exists r', scalarmult_step Ai b r = Some r' /\ rep_p2 r' (M (b + 16 * v)).
Proof.
  intros HA Hb Hr. destruct (select_spec Ai b HA Hb) as (c & Hc & Hrep). unfold scalarmult_step. rewrite Hc. cbn [mbind option_bind].
  eexists. split; [done|]. apply to_p2_rep. eapply add_rep; [|exact Hrep|].
  - apply to_p3_rep, double_rep, to_p2_rep, double_rep, to_p2_rep, double_rep, to_p2_rep, double_rep, Hr.
  - replace (b + 16 * v) with (2 * (2 * (2 * (2 * v))) + b) by lia. apply HM.
Qed.

Lemma scalarmult_loop_spec Ai e : tabulates Ai -> Forall (fun b => -8 <= b <= 8) e ->
  exists r, scalarmult_loop Ai e = Some r /\ rep_p2 r (M (radix 16 e)).
Proof.
  intros HA. induction 1 as [|b e Hb He (r & Hr & Hrep)].
  - eexists. split; [done|]. eapply rep_p2_eqm; [apply point_eqm_sym, HM|apply neutral_p2].
  - cbn [scalarmult_loop radix]. rewrite Hr. by apply scalarmult_step_spec.
Qed.

End Multiples.

(** ** The digits *)

Lemma s8_small x : -128 <= x < 128 -> s8 x = x.
Proof. intros H. unfold s8. rewrite Z.mod_small by lia. lia. Qed.

Lemma recode_loop_spec a carry : Forall is_u8 a -> 0 <= carry <= 1 ->
  let '(e, carry') := recode_loop a carry in
  radix 16 e + 256 ^ Z.of_nat (length a) * carry' = le_value a + carry /\ 0 <= carry' <= 1 /\ Forall (fun b => -8 <= b <= 8) e
  /\ length e = (2 * length a)%nat.
Proof.
  intros Ha. revert carry. induction Ha as [|x a Hx Ha IH]; intros carry Hc.
  - cbn. split_and!; [lia..|constructor|done].
  - cbn [recode_loop]. rewrite !Z.shiftr_div_pow2, !Z.shiftl_mul_pow2 by lia. change (2 ^ 4) with 16.
    set (c2 := (carry + x + 8) / 16). set (c3 := (c2 + 8) / 16).
    pose proof (Z.div_mod (carry + x + 8) 16 ltac:(lia)) as E1. pose proof (Z.mod_pos_bound (carry + x + 8) 16 ltac:(lia)) as B1.
    pose proof (Z.div_mod (c2 + 8) 16 ltac:(lia)) as E2. pose proof (Z.mod_pos_bound (c2 + 8) 16 ltac:(lia)) as B2.
    fold c2 in E1. fold c3 in E2. unfold is_u8 in Hx. specialize (IH c3 ltac:(lia)). destruct (recode_loop a c3) as [e c'].
    destruct IH as (IH & Hc' & He & Hl). split_and!.
    + cbn [radix length le_value]. rewrite !s8_small by lia. rewrite Nat2Z.inj_succ, Z.pow_succ_r by lia. lia.
    + lia.
    + lia.
    + repeat constructor; [rewrite s8_small; lia..|done].
    + cbn [length]. lia.
Qed.

Lemma radix_app base xs ys : radix base (xs ++ ys) = radix base xs + base ^ Z.of_nat (length xs) * radix base ys.
Proof.
  induction xs as [|x xs IH]; cbn [app radix length]; [change (base ^ Z.of_nat 0) with 1; ring|].
  rewrite IH, Nat2Z.inj_succ, Z.pow_succ_r by lia. ring.
Qed.

Lemma recode_spec a : is_bytes a -> length a = 32%nat -> a !!! 31%nat <= 127 ->
  radix 16 (recode a) = le_value a /\ Forall (fun b => -8 <= b <= 8) (recode a) /\ length (recode a) = 64%nat.
Proof.
  intros Ha Hl Hlast. unfold recode. pose proof (recode_loop_spec (take 31 a) 0 ltac:(by apply Forall_take) ltac:(lia)) as H.
  destruct (recode_loop (take 31 a) 0) as [e c]. destruct H as (H & Hc & He & Hle). rewrite length_take_le in H, Hle by lia.
  assert (le_value a = le_value (take 31 a) + 256 ^ 31 * (a !!! 31%nat)) as Ev.
  { rewrite <- (take_drop 31 a) at 1. rewrite le_value_app, length_take_le by lia.
    rewrite (drop_S a _ 31 (list_lookup_lookup_total_lt a 31 ltac:(lia))), drop_ge by lia. cbn [le_value]. lia. }
  assert (0 <= a !!! 31%nat) as H0 by (apply (Forall_lookup_total_1 is_u8); [done|lia]).
  rewrite !Z.shiftr_div_pow2, !Z.shiftl_mul_pow2 by lia. change (2 ^ 4) with 16. set (x := c + _). set (c2 := (x + 8) / 16).
  pose proof (Z.div_mod (x + 8) 16 ltac:(lia)) as E1. pose proof (Z.mod_pos_bound (x + 8) 16 ltac:(lia)) as B1. fold c2 in E1.
  assert (0 <= x <= 128) as Hx by lia. split_and!.
  - rewrite radix_app, Hle, !s8_small by lia. cbn [radix]. change (16 ^ Z.of_nat (2 * 31)) with (256 ^ 31).
    change (256 ^ Z.of_nat 31) with (256 ^ 31) in H. generalize dependent (256 ^ 31). unfold x in *. intros. nia.
  - apply Forall_app. split; [done|]. repeat constructor; rewrite s8_small; lia.
  - rewrite length_app, Hle. done.
Qed.

Lemma scalarmult_rep P a A : curve P -> is_bytes a -> length a = 32%nat -> a !!! 31%nat <= 127 ->
  rep_p3 A P -> exists r, ge_scalarmult a A = Some r /\ rep_p2 r (zmul (le_value a) P).
Proof.
  intros HP Ha Hl Hlast HA. destruct (recode_spec a Ha Hl Hlast) as (Ev & Hd & _). pose proof (zmul_multiples P HP) as HM.
  rewrite <- Ev. apply (scalarmult_loop_spec _ HM); [|done]. apply (multiples_table _ HM 7); [done|by apply to_cached_rep].
Qed.

(** C28: [ge_scalarmult] multiplies: for every point [P] of the curve, every 32-byte
    scalar whose last byte is at most 127 and every extended representation of [P],
    the function ends without a failed assertion and returns a projective
    representation, with an invertible [Z], of the multiple of [P] in the group of
    the curve. *)
Theorem ge_scalarmult_correct P a A : curve P -> is_bytes a -> length a = 32%nat -> a !!! 31%nat <= 127 ->
  rep_p3 A P -> exists r, ge_scalarmult a A = Some r /\ rep_p2 r (zmul (le_value a) P).
Proof. intros. by apply scalarmult_rep. Qed.

(** The point of order four [(sqrt(-1), 0)]. *)
Definition fourth : point := (value fe_sqrtm1 mod p, 0).

Lemma fourth_curve : curve fourth.
Proof. split; [vm_compute; reflexivity|]. split; split; vm_compute; (reflexivity || discriminate). Qed.

Definition fourth_p3 : ge_p3 := P3 fe_sqrtm1 fe_0 fe_1 fe_0.

Lemma fourth_rep : rep_p3 fourth_p3 fourth.
Proof. exists 1. split; [by exists 1|]. split; (split; [bytes_compute|reflexivity]). Qed.

Lemma ge_scalarmult_correct_witness :
  exists r, ge_scalarmult (7 :: replicate 31 0) fourth_p3 = Some r /\ rep_p2 r (zmul (le_value (7 :: replicate 31 0)) fourth).
Proof.
  apply (ge_scalarmult_correct fourth); [apply fourth_curve|bytes_compute|reflexivity|vm_compute; discriminate|apply fourth_rep].
Defined.

End ScalarMult.
