(* ===== verification/BasePoint.v ===== *)
(** The base point, src/crypto/crypto-ops.c and crypto-ops-data.c: every entry of the
    precomputed tables is the multiple of the base point its comment says, the base
    point has the order of the scalars, and [ge_scalarmult_base] multiplies it. *)

From S2P Require Import Prelude.
From S2P Require Import Varint.
From S2P Require Import Serialization.
From S2P Require Import StraightLine.
From S2P Require Import CryptoOps.
From S2P Require Import Sc.
From S2P Require Import Fe.
From S2P Require Import Ge.
From S2P Require Import Edwards.
From S2P Require Import ScalarMult.
From S2P Require Import BaseTables.
Import Stream StraightLine CryptoOps Fe Ge Edwards ScalarMult BaseTables.

Module BasePoint.

#[local] Open Scope list_scope.
#[local] Open Scope Z_scope.

(** ** [ge_scalarmult_base] *)

Definition ge_precomp_cmov (t u : ge_precomp) (b : Z) : option ge_precomp :=
  yp ← fe_cmov (yplusx t) (yplusx u) b;
  ym ← fe_cmov (yminusx t) (yminusx u) b;
  xy ← fe_cmov (xy2d t) (xy2d u) b;
  Some (Precomp yp ym xy).

(** [select(t, pos, b)], given [ge_base[pos]]. *)
Definition select_base (row : list ge_precomp) (b : Z) : option ge_precomp :=
  t ← cmov_chain ge_precomp_cmov row 1 (absolute b) ge_precomp_0;
  let minust := Precomp (fe_copy (yminusx t)) (fe_copy (yplusx t)) (fe_neg (xy2d t)) in
  ge_precomp_cmov t minust (negative b).

(** [e[2*i] = (a[i] >> 0) & 15; e[2*i+1] = (a[i] >> 4) & 15]. *)
Fixpoint nibbles (a : bytes) : list Z :=
  match a with
  | [] => []
  | x :: a => s8 (Z.land (Z.shiftr x 0) 15) :: s8 (Z.land (Z.shiftr x 4) 15) :: nibbles a
  end.

(** The carry runs over all digits but the last, which only receives it. *)
Fixpoint carry_digits (e : list Z) (carry : Z) : list Z :=
  match e with
  | [] => []
  | [x] => [s8 (x + carry)]
  | x :: e =>
      let x := s8 (x + carry) in
      let carry := Z.shiftr (s8 (x + 8)) 4 in
      s8 (x - Z.shiftl carry 4) :: carry_digits e carry
  end.

Definition base_digits (a : bytes) : list Z := carry_digits (nibbles a) 0.

(** [select(&t, i / 2, e[i]); ge_madd(&r, h, &t); ge_p1p1_to_p3(h, &r)]. *)
Fixpoint base_loop (rows : list (list ge_precomp)) (e : list Z) (h : ge_p3) : option ge_p3 :=
  match rows, e with
  | row :: rows, b :: e => t ← select_base row b; base_loop rows e (ge_p1p1_to_p3 (ge_madd h t))
  | _, _ => Some h
  end.

(** The digits at even and at odd positions. *)
Fixpoint evens (e : list Z) : list Z := match e with x :: _ :: e => x :: evens e | _ => [] end.
Fixpoint odds (e : list Z) : list Z := match e with _ :: y :: e => y :: odds e | _ => [] end.

Definition ge_scalarmult_base (a : bytes) : option ge_p3 :=
  let e := base_digits a in
  h ← base_loop ge_base (odds e) ge_p3_0;
  let s := ge_p1p1_to_p2 (ge_p3_dbl h) in
  let s := ge_p1p1_to_p2 (ge_p2_dbl s) in
  let s := ge_p1p1_to_p2 (ge_p2_dbl s) in
  let h := ge_p1p1_to_p3 (ge_p2_dbl s) in
  base_loop ge_base (evens e) h.

(** ** Computing in the field *)

(** Reduction by [2^255 = 19]. *)
Definition red (x : Z) : Z := Z.land x (2 ^ 255 - 1) + 19 * Z.shiftr x 255.

Definition mulp (a b : Z) : Z := red (red (a * b)).

Definition eqb_p (a b : Z) : bool := existsb (Z.eqb (a - b)) [0; p; -p; 2 * p; -2 * p; 3 * p; -3 * p].

Lemma red_eqm x : red x ≡p x.
Proof.
  unfold red, eqm. change (2 ^ 255 - 1) with (Z.ones 255). rewrite Z.land_ones, Z.shiftr_div_pow2 by lia.
  rewrite (Z.div_mod x (2 ^ 255)) at 3 by lia.
  replace (2 ^ 255 * (x / 2 ^ 255) + x mod 2 ^ 255) with (x mod 2 ^ 255 + 19 * (x / 2 ^ 255) + x / 2 ^ 255 * p) by (unfold p; ring).
  by rewrite Z_mod_plus_full.
Qed.

Lemma mulp_eqm a b : mulp a b ≡p a * b.
Proof. unfold mulp. by rewrite !red_eqm. Qed.

Lemma eqb_p_spec a b : eqb_p a b = true -> a ≡p b.
Proof.
  unfold eqb_p. intros H. assert (exists k, a = b + k * p) as [k ->].
  { cbn [existsb] in H. repeat (apply orb_true_iff in H as [H|H]; [apply Z.eqb_eq in H|]); [..|done];
      [exists 0|exists 1|exists (-1)|exists 2|exists (-2)|exists 3|exists (-3)]; lia. }
  unfold eqm. apply Z_mod_plus_full.
Qed.

Definition dp : Z := Eval vm_compute in d mod p.

Lemma dp_eqm : dp ≡p d.
Proof. vm_compute. reflexivity. Qed.

Lemma eqm_mul a b a' b' : a ≡p a' -> b ≡p b' -> a * b ≡p a' * b'.
Proof. by intros -> ->. Qed.

Lemma eqm_add a b a' b' : a ≡p a' -> b ≡p b' -> a + b ≡p a' + b'.
Proof. by intros -> ->. Qed.

Lemma eqm_sub a b a' b' : a ≡p a' -> b ≡p b' -> a - b ≡p a' - b'.
Proof. by intros -> ->. Qed.

Lemma eqm_opp a a' : a ≡p a' -> - a ≡p - a'.
Proof. by intros ->. Qed.

(** Replaces the left side of a congruence by the polynomial it computes, the
    variables by what the hypotheses say of them. *)
Ltac eqm_step :=
  lazymatch goal with
  | H : ?a ≡p _ |- ?a ≡p _ => exact H
  | |- mulp _ _ ≡p _ => etransitivity; [apply mulp_eqm|]; apply eqm_mul
  | |- _ * _ ≡p _ => apply eqm_mul
  | |- _ + _ ≡p _ => apply eqm_add
  | |- _ - _ ≡p _ => apply eqm_sub
  | |- - _ ≡p _ => apply eqm_opp
  | |- dp ≡p _ => apply dp_eqm
  | |- _ => reflexivity
  end.

Ltac polynomial := etransitivity; [repeat eqm_step|].

(** ** Sums of affine points, by cross multiplication *)

Definition adds_ok (P Q R : point) : bool :=
  let t1 := mulp P.1 Q.1 in
  let t2 := mulp P.2 Q.2 in
  let e := mulp (mulp dp t1) t2 in
  eqb_p (mulp R.1 (1 + e)) (mulp (P.1 + P.2) (Q.1 + Q.2) - t1 - t2) && eqb_p (mulp R.2 (1 - e)) (t1 + t2).

(** [c] are coordinates, not necessarily reduced, of the point [P]. *)
Definition denotes (c P : point) : Prop := point_eqm c P /\ curve P.

Lemma adds_ok_spec c c' c'' P Q : denotes c P -> denotes c' Q -> adds_ok c c' c'' = true -> denotes c'' (padd P Q).
Proof.
  intros [[E1 E2] HP] [[F1 F2] HQ] H. split; [|by apply padd_curve]. apply andb_true_iff in H as [H1%eqb_p_spec H2%eqb_p_spec].
  rewrite !mulp_eqm, dp_eqm in H1. rewrite !mulp_eqm, dp_eqm in H2.
  destruct (padd_adds P Q (proj1 HP) (proj1 HQ)) as (A & B & U & V). split.
  - eapply cancel_l; [exact U|]. transitivity (c''.1 * (1 + d * (c.1 * c'.1) * (c.2 * c'.2))).
    + rewrite E1, E2, F1, F2. apply eq_eqm. ring.
    + rewrite H1, E1, E2, F1, F2. etransitivity; [|etransitivity; [symmetry; exact A|]]; apply eq_eqm; ring.
  - eapply cancel_l; [exact V|]. transitivity (c''.2 * (1 - d * (c.1 * c'.1) * (c.2 * c'.2))).
    + rewrite E1, E2, F1, F2. apply eq_eqm. ring.
    + rewrite H2, E1, E2, F1, F2. etransitivity; [|etransitivity; [symmetry; exact B|]]; apply eq_eqm; ring.
Qed.

(** ** Doubling in projective coordinates *)

Record proj := Proj { pX : Z; pY : Z; pZ : Z }.

Definition proj_rep (q : proj) (P : point) : Prop := unit (pZ q) /\ pX q ≡p P.1 * pZ q /\ pY q ≡p P.2 * pZ q.

Definition proj_dbl (q : proj) : proj :=
  let B := mulp (pX q + pY q) (pX q + pY q) in
  let C := mulp (pX q) (pX q) in
  let D := mulp (pY q) (pY q) in
  let F := D - C in
  let H := mulp (pZ q) (pZ q) in
  let J := F - 2 * H in
  Proj (mulp (B - C - D) J) (mulp (- F) (C + D)) (mulp F J).

(** Sum of a projective and an affine point. *)
Definition proj_madd (q : proj) (c : point) : proj :=
  let B := mulp (pZ q) (pZ q) in
  let C := mulp (pX q) c.1 in
  let D := mulp (pY q) c.2 in
  let E := mulp (mulp dp C) D in
  let F := B - E in
  let G := B + E in
  let A := pZ q in
  Proj (mulp A (mulp F (mulp (pX q + pY q) (c.1 + c.2) - C - D))) (mulp A (mulp G (D + C))) (mulp F G).

Definition same (q : proj) (c : point) : bool := eqb_p (mulp c.1 (pZ q)) (pX q) && eqb_p (mulp c.2 (pZ q)) (pY q).

Lemma same_spec q c P : proj_rep q P -> curve P -> same q c = true -> denotes c P.
Proof.
  intros (U & HX & HY) HP [H1%eqb_p_spec H2%eqb_p_spec]%andb_true_iff. rewrite mulp_eqm in H1. rewrite mulp_eqm in H2. split; [|done]. split.
  - eapply cancel_l; [exact U|]. rewrite Z.mul_comm, H1, HX. apply eq_eqm. ring.
  - eapply cancel_l; [exact U|]. rewrite Z.mul_comm, H2, HY. apply eq_eqm. ring.
Qed.

Lemma affine_rep c P : denotes c P -> proj_rep (Proj c.1 c.2 1) P.
Proof. intros [[H1 H2] _]. split_and!; [by exists 1|rewrite <- H1|rewrite <- H2]; apply eq_eqm; cbn; ring. Qed.

(** On the curve [Y^2 - X^2] is the denominator of the doubling. *)
Lemma doubling_denominator X Y z P : on_curve P -> X ≡p P.1 * z -> Y ≡p P.2 * z ->
  Y * Y - X * X ≡p z * z * (1 + law_e P P).
Proof.
  intros HP HX HY. polynomial. unfold on_curve in HP. transitivity (z * z * (P.2 * P.2 - P.1 * P.1)); [apply eq_eqm; ring|].
  rewrite HP. apply eq_eqm. unfold law_e. ring.
Qed.

Lemma unit_opp a : unit a -> unit (- a).
Proof. intros [c Hc]. exists (- c). rewrite <- Hc. apply eq_eqm. ring. Qed.

Lemma proj_dbl_rep q P : proj_rep q P -> curve P -> proj_rep (proj_dbl q) (padd P P).
Proof.
  intros (U & HX & HY) [HP _]. destruct (padd_adds P P HP HP) as (A & B & U1 & U2). fold (law_e P P) in *.
  set (R := padd P P) in *. clearbody R. pose proof (doubling_denominator _ _ _ _ HP HX HY) as HF.
  destruct q as [X Y z]. cbn [pX pY pZ] in *. set (e := law_e P P) in *.
  assert (mulp Y Y - mulp X X ≡p z * z * (1 + e)) as HF' by (etransitivity; [|exact HF]; apply eqm_sub; apply mulp_eqm).
  assert (mulp Y Y - mulp X X - 2 * mulp z z ≡p - (z * z * (1 - e))) as HJ by (polynomial; apply eq_eqm; ring).
  assert (pZ (proj_dbl (Proj X Y z)) ≡p z * z * (1 + e) * - (z * z * (1 - e))) as HZ by (unfold proj_dbl; cbn [pX pY pZ]; by polynomial).
  unfold proj_rep. rewrite HZ. split_and!.
  - repeat apply unit_mul; try done. by apply unit_opp; repeat apply unit_mul.
  - unfold proj_dbl. cbn [pX pY pZ]. etransitivity; [apply mulp_eqm|]. rewrite HJ.
    transitivity (z * z * (2 * (P.1 * P.2)) * - (z * z * (1 - e))); [apply eqm_mul; [polynomial; apply eq_eqm; ring|done]|].
    transitivity (z * z * - (z * z * (1 - e)) * (R.1 * (1 + e))); [|apply eq_eqm; ring]. rewrite A. apply eq_eqm. ring.
  - unfold proj_dbl. cbn [pX pY pZ]. etransitivity; [apply mulp_eqm|]. rewrite HF'.
    transitivity (z * z * (1 + e) * - (z * z) * (R.2 * (1 - e))); [|apply eq_eqm; ring]. rewrite B.
    transitivity (- (z * z * (1 + e)) * ((P.1 * z) * (P.1 * z) + (P.2 * z) * (P.2 * z))); [apply eqm_mul; [done|by polynomial]|].
    apply eq_eqm. ring.
Qed.

Lemma proj_madd_rep q c P Q : proj_rep q P -> curve P -> denotes c Q -> proj_rep (proj_madd q c) (padd Q P).
Proof.
  intros (U & HX & HY) [HP _] [[E1 E2] [HQ _]]. destruct (padd_adds Q P HQ HP) as (A & B & U1 & U2). fold (law_e Q P) in *.
  set (R := padd Q P) in *. clearbody R. destruct q as [X Y z]. cbn [pX pY pZ] in *. unfold proj_rep, proj_madd. cbn [pX pY pZ].
  set (C := mulp X c.1). set (D := mulp Y c.2). set (E := mulp (mulp dp C) D).
  assert (C ≡p P.1 * z * Q.1) as HC by (unfold C; by polynomial). assert (D ≡p P.2 * z * Q.2) as HD by (unfold D; by polynomial).
  assert (E ≡p z * z * law_e Q P) as HE by (unfold E; polynomial; apply eq_eqm; unfold law_e; ring).
  clearbody C D E. set (e := law_e Q P) in *.
  assert (mulp z z - E ≡p z * z * (1 - e)) as HF by (polynomial; apply eq_eqm; ring).
  assert (mulp z z + E ≡p z * z * (1 + e)) as HG by (polynomial; apply eq_eqm; ring).
  assert (mulp (mulp z z - E) (mulp z z + E) ≡p z * z * (1 - e) * (z * z * (1 + e))) as HZ by by polynomial.
  rewrite HZ. split_and!.
  - by repeat apply unit_mul.
  - transitivity (z * (z * z * (1 - e) * ((P.1 * z + P.2 * z) * (Q.1 + Q.2) - P.1 * z * Q.1 - P.2 * z * Q.2))).
    { repeat eqm_step. }
    transitivity (z * z * (1 - e) * (z * z) * (R.1 * (1 + e))); [|apply eq_eqm; ring]. rewrite A. apply eq_eqm. ring.
  - transitivity (z * (z * z * (1 + e) * (P.2 * z * Q.2 + P.1 * z * Q.1))); [repeat eqm_step|].
    transitivity (z * z * (1 + e) * (z * z) * (R.2 * (1 - e))); [|apply eq_eqm; ring]. rewrite B. apply eq_eqm. ring.
Qed.

(** ** The tables *)

(** The base point [(x, 4/5)] with [x] even. *)
Definition B : point :=
  (15112221349535400772501151409588531511454012693041857206046113283949847762202,
   46316835694926478169428394003475163141307993866256225615783033603165251855960).

Lemma B_curve : curve B.
Proof. split; [vm_compute; reflexivity|]. split; split; vm_compute; (reflexivity || discriminate). Qed.

Lemma B_coordinates : 5 * B.2 ≡p 4 /\ Z.even B.1 = true.
Proof. split; vm_compute; reflexivity. Qed.

Definition half : Z := Eval vm_compute in (p + 1) / 2.

Lemma half_eqm a : 2 * half * a ≡p a.
Proof. transitivity (1 * a); [apply eqm_mul; [vm_compute; reflexivity|done]|apply eq_eqm; ring]. Qed.

(** The coordinates of a table entry [(y + x, y - x, 2dxy)]. *)
Definition entry_point (e : ge_precomp) : point :=
  (mulp (value (yplusx e) - value (yminusx e)) half, mulp (value (yplusx e) + value (yminusx e)) half).

Definition entry_bounded (e : ge_precomp) : bool :=
  bool_decide (fe_bounded 101 (yplusx e)) && bool_decide (fe_bounded 101 (yminusx e)) && bool_decide (fe_bounded 101 (xy2d e)).

Definition entry_ok (e : ge_precomp) (c : point) : bool :=
  entry_bounded e && eqb_p (mulp (2 * dp) (mulp c.1 c.2)) (value (xy2d e)).

Lemma entry_spec e P : denotes (entry_point e) P -> entry_ok e (entry_point e) = true -> is_precomp e P.
Proof.
  intros [[E1 E2] _] [Hb H%eqb_p_spec]%andb_true_iff. unfold entry_bounded in Hb. rewrite !andb_true_iff, !bool_decide_eq_true in Hb.
  destruct Hb as [[B1 B2] B3]. split; (split; [done|]).
  - change (value (yplusx e) ≡p P.2 + P.1). rewrite <- E1, <- E2. clear E1 E2 H. symmetry. unfold entry_point. cbn [fst snd]. polynomial.
    transitivity (2 * half * value (yplusx e)); [apply eq_eqm; ring|apply half_eqm].
  - change (value (yminusx e) ≡p P.2 - P.1). rewrite <- E1, <- E2. clear E1 E2 H. symmetry. unfold entry_point. cbn [fst snd]. polynomial.
    transitivity (2 * half * value (yminusx e)); [apply eq_eqm; ring|apply half_eqm].
  - change (value (xy2d e) ≡p 2 * d * P.1 * P.2). rewrite <- H. clear H. polynomial. apply eq_eqm. ring.
Qed.

(** The entries after [c] are [c + c0], [c + 2 c0], ...; the result is the last one. *)
Fixpoint check_row (c0 c : point) (row : list ge_precomp) : option point :=
  match row with
  | [] => Some c
  | e :: row =>
      let c' := entry_point e in
      if entry_ok e c' && adds_ok c c0 c' then check_row c0 c' row else None
  end.

Lemma check_row_spec row c0 c c' P Q n : denotes c0 P -> denotes c (padd Q (zmul n P)) -> curve Q -> check_row c0 c row = Some c' ->
  denotes c' (padd Q (zmul (n + Z.of_nat (length row)) P))
  /\ Forall2 (fun j e => is_precomp e (padd Q (zmul j P))) (seqZ (n + 1) (Z.of_nat (length row))) row.
Proof.
  intros H0 Hc HQ. revert c n Hc. induction row as [|e row IH]; intros c n Hc H.
  - injection H as <-. cbn [length]. rewrite Z.add_0_r. done.
  - cbn [check_row] in H. destruct (entry_ok e (entry_point e)) eqn:He; [|done].
    destruct (adds_ok c c0 (entry_point e)) eqn:Ha; [|done]. cbn [andb] in H. destruct (H0) as [_ HP].
    assert (denotes (entry_point e) (padd Q (zmul (n + 1) P))) as Hd.
    { rewrite zmul_add, <- padd_assoc by auto using zmul_curve. by eapply adds_ok_spec. }
    destruct (IH _ _ Hd H) as [IH1 IH2]. cbn [length]. rewrite seqZ_cons by lia.
    replace (n + Z.of_nat (S (length row))) with (n + 1 + Z.of_nat (length row)) by lia. split; [done|]. constructor.
    + by apply entry_spec.
    + replace (Z.pred (Z.of_nat (S (length row)))) with (Z.of_nat (length row)) by lia. by replace (Z.succ (n + 1)) with (n + 1 + 1) by lia.
Qed.

Fixpoint check_rows (q : proj) (rows : list (list ge_precomp)) : bool :=
  match rows with
  | [] => true
  | [] :: _ => false
  | (e :: row) :: rows =>
      let c0 := entry_point e in
      entry_ok e c0 && same q c0 && (length row =? 7)%nat &&
      match check_row c0 c0 row with
      | None => false
      | Some c => check_rows (proj_dbl (proj_dbl (proj_dbl (proj_dbl (proj_dbl (Proj c.1 c.2 1)))))) rows
      end
  end.

(** Row [i] holds the multiples 1 to 8 of [256^i P]. *)
Fixpoint rows_hold (P : point) (rows : list (list ge_precomp)) : Prop :=
  match rows with
  | [] => True
  | row :: rows => Forall2 (fun j e => is_precomp e (zmul j P)) (seqZ 1 8) row /\ rows_hold (zmul 256 P) rows
  end.

Lemma check_rows_spec rows q P : proj_rep q P -> curve P -> check_rows q rows = true -> rows_hold P rows.
Proof.
  revert q P. induction rows as [|[|e row] rows IH]; intros q P Hq HP H; [done|done|].
  cbn [check_rows] in H. rewrite !andb_true_iff in H. destruct H as [[[He Hs] Hl%Nat.eqb_eq] H].
  destruct (check_row (entry_point e) (entry_point e) row) as [c|] eqn:Hr; [|done].
  pose proof (same_spec _ _ _ Hq HP Hs) as H0.
  assert (denotes (entry_point e) (padd P (zmul 0 P))) as H0' by (cbn [zmul]; rewrite padd_neutral_r by done; done).
  destruct (check_row_spec _ _ _ _ _ _ _ H0 H0' HP Hr) as [Hc Hrow]. rewrite Hl in Hc, Hrow.
  assert (forall j, padd P (zmul j P) = zmul (j + 1) P) as Ej by (intros j; rewrite Z.add_comm, zmul_add by done; done).
  rewrite Ej in Hc. change (0 + Z.of_nat 7 + 1) with 8 in Hc. split.
  - change (seqZ 1 8) with (1 :: seqZ 2 7). constructor; [by apply entry_spec|].
    change (seqZ 2 7) with (Z.succ <$> seqZ 1 7). apply Forall2_fmap_l. eapply Forall2_impl; [exact Hrow|].
    intros j x Hx. cbv beta in Hx |- *. rewrite Ej in Hx. exact Hx.
  - eapply IH; [|by apply zmul_curve|exact H]. replace (zmul 256 P) with (zmul 2 (zmul 2 (zmul 2 (zmul 2 (zmul 2 (zmul 8 P))))))
      by (rewrite <- !zmul_mul by auto using zmul_curve; done).
    repeat (apply proj_dbl_rep; [|auto 6 using zmul_curve]). by apply affine_rep.
Qed.

Lemma B_denotes : denotes B B.
Proof. split; [done|apply B_curve]. Qed.

Lemma ge_base_holds : rows_hold B ge_base.
Proof.
  apply (check_rows_spec _ (Proj B.1 B.2 1)); [apply affine_rep, B_denotes|apply B_curve|vm_compute; reflexivity].
Qed.

(** ** The order of the base point *)

Fixpoint proj_pmul (k : positive) : proj :=
  match k with
  | xH => Proj B.1 B.2 1
  | xO k => proj_dbl (proj_pmul k)
  | xI k => proj_madd (proj_dbl (proj_pmul k)) B
  end.

Lemma proj_pmul_rep k : proj_rep (proj_pmul k) (pmul k B).
Proof.
  pose proof (pmul_curve k B B_curve) as Hk. induction k as [k IH|k IH|]; cbn [proj_pmul pmul].
  - pose proof (pmul_curve k B B_curve). apply proj_madd_rep; [apply proj_dbl_rep; auto|by apply padd_curve|apply B_denotes].
  - apply proj_dbl_rep; auto using pmul_curve, B_curve.
  - apply affine_rep, B_denotes.
Qed.

Definition is_neutral (q : proj) : bool := eqb_p (pX q) 0 && eqb_p (pY q) (pZ q).

Lemma zero_multiple n : is_neutral (proj_pmul n) = true -> zmul (Z.pos n) B = neutral.
Proof.
  intros [H1%eqb_p_spec H2%eqb_p_spec]%andb_true_iff. destruct (proj_pmul_rep n) as (U & HX & HY).
  apply reduced_eq; [apply (pmul_curve n B B_curve)|apply neutral_curve|]. split.
  - apply (cancel_l (pZ (proj_pmul n))); [done|]. rewrite Z.mul_comm. cbn [zmul]. rewrite <- HX, H1. apply eq_eqm. cbn. ring.
  - apply (cancel_l (pZ (proj_pmul n))); [done|]. rewrite Z.mul_comm. cbn [zmul]. rewrite <- HY, H2. apply eq_eqm. cbn. ring.
Qed.

Lemma B_order : zmul Sc.l B = neutral.
Proof.
  assert (Sc.l = Z.pos (Z.to_pos Sc.l)) as -> by reflexivity. apply zero_multiple. vm_compute. reflexivity.
Qed.

(** ** The digits *)

Lemma nibbles_spec a : is_bytes a -> radix 16 (nibbles a) = le_value a /\ Forall (fun x => 0 <= x < 16) (nibbles a) /\ length (nibbles a) = (2 * length a)%nat.
Proof.
  induction 1 as [|x a Hx Ha (IH1 & IH2 & IH3)]; [done|]. unfold is_u8 in Hx. cbn [nibbles radix le_value length].
  change 15 with (Z.ones 4). rewrite !Z.land_ones, !Z.shiftr_div_pow2 by lia. change (2 ^ 0) with 1. change (2 ^ 4) with 16.
  rewrite Z.div_1_r. pose proof (Z.mod_pos_bound x 16 ltac:(lia)). pose proof (Z.mod_pos_bound (x / 16) 16 ltac:(lia)).
  rewrite !s8_small by lia. rewrite (Z.mod_small (x / 16)) by (split; [apply Z.div_pos|apply Z.div_lt_upper_bound]; lia).
  pose proof (Z.div_mod x 16 ltac:(lia)). split_and!; [lia| |lia]. assert (0 <= x / 16 < 16) by (split; [apply Z.div_pos|apply Z.div_lt_upper_bound]; lia).
  constructor; [lia|constructor; [lia|done]].
Qed.

Lemma carry_digits_cons x y e carry : carry_digits (x :: y :: e) carry =
  let x := s8 (x + carry) in let carry := Z.shiftr (s8 (x + 8)) 4 in s8 (x - Z.shiftl carry 4) :: carry_digits (y :: e) carry.
Proof. done. Qed.

Lemma carry_digits_spec e carry : Forall (fun x => 0 <= x < 16) e -> 0 <= carry <= 1 -> (e <> [] -> default 0 (last e) <= 7) ->
  (e = [] -> carry = 0) ->
  radix 16 (carry_digits e carry) = radix 16 e + carry /\ Forall (fun b => -8 <= b <= 8) (carry_digits e carry)
  /\ length (carry_digits e carry) = length e.
Proof.
  intros He. revert carry. induction He as [|x e Hx He IH]; intros carry Hc Hlast H0; [cbn; rewrite (H0 eq_refl); done|].
  destruct e as [|y e].
  - cbn [carry_digits radix last default] in *. specialize (Hlast ltac:(done)). cbn in Hlast. rewrite s8_small by lia. split_and!; [lia| |done].
    repeat constructor; lia.
  - rewrite carry_digits_cons. cbv zeta. rewrite !(s8_small (x + carry)) by lia. rewrite (s8_small (x + carry + 8)) by lia.
    rewrite Z.shiftr_div_pow2, Z.shiftl_mul_pow2 by lia. change (2 ^ 4) with 16. set (c := (x + carry + 8) / 16).
    pose proof (Z.div_mod (x + carry + 8) 16 ltac:(lia)) as E. pose proof (Z.mod_pos_bound (x + carry + 8) 16 ltac:(lia)) as Hb. fold c in E.
    destruct (IH c) as (IH1 & IH2 & IH3); [lia|intros _; by apply Hlast|done|]. rewrite s8_small by lia.
    set (r := carry_digits (y :: e) c) in *.
    change (radix 16 ((x + carry - c * 16) :: r)) with (x + carry - c * 16 + 16 * radix 16 r). rewrite IH1.
    split_and!; [cbn [radix]; lia|constructor; [lia|done]|cbn [length] in *; lia].
Qed.

Lemma last_nibble a x : nibbles (a ++ [x]) = nibbles a ++ nibbles [x].
Proof. induction a as [|y a IH]; [done|]. cbn [app nibbles]. by rewrite IH. Qed.

Lemma base_digits_spec a : is_bytes a -> length a = 32%nat -> a !!! 31%nat <= 127 ->
  radix 16 (base_digits a) = le_value a /\ Forall (fun b => -8 <= b <= 8) (base_digits a) /\ length (base_digits a) = 64%nat.
Proof.
  intros Ha Hl Hlast. destruct (nibbles_spec a Ha) as (E1 & E2 & E3). unfold base_digits.
  destruct (carry_digits_spec (nibbles a) 0) as (F1 & F2 & F3); [done|lia| |done|].
  - intros _. destruct (decide (a = [])) as [->|Hne]; [done|]. destruct (exists_last Hne) as (b & x & ->).
    rewrite length_app in Hl. cbn [length] in Hl. rewrite list_lookup_total_middle in Hlast by lia.
    rewrite last_nibble. cbn [nibbles]. rewrite last_app. cbn [last default].
    apply Forall_app in Ha as [_ Hx]. apply Forall_cons in Hx as [Hx _]. unfold is_u8 in Hx.
    change 15 with (Z.ones 4). rewrite Z.land_ones, Z.shiftr_div_pow2 by lia. change (2 ^ 4) with 16.
    assert (0 <= x / 16 <= 7) by (split; [apply Z.div_pos|apply Z.lt_succ_r, Z.div_lt_upper_bound]; lia).
    rewrite Z.mod_small, s8_small by lia. cbn. lia.
  - rewrite F1, E1, Z.add_0_r, F3, E3, Hl. done.
Qed.

(** ** The multiplication *)

Lemma precomp_length e P : is_precomp e P -> length (yplusx e) = 10%nat /\ length (yminusx e) = 10%nat /\ length (xy2d e) = 10%nat.
Proof. intros [[H1 _] [H2 _] [H3 _]]. by rewrite (fe_length _ _ H1), (fe_length _ _ H2), (fe_length _ _ H3). Qed.

Lemma precomp_cmov_spec t u P Q b : is_precomp t P -> is_precomp u Q -> b = 0 \/ b = 1 ->
  ge_precomp_cmov t u b = Some (if b =? 1 then u else t).
Proof.
  intros (H1 & H2 & H3)%precomp_length (K1 & K2 & K3)%precomp_length Hb. unfold ge_precomp_cmov.
  rewrite !fe_cmov_ok by (done || congruence). cbn. destruct t, u, (b =? 1); done.
Qed.

Lemma neutral_precomp : is_precomp ge_precomp_0 neutral.
Proof. split; (split; [bytes_compute|reflexivity]). Qed.

Lemma precomp_neg t P : is_precomp t P -> is_precomp (Precomp (fe_copy (yminusx t)) (fe_copy (yplusx t)) (fe_neg (xy2d t))) (neg P).
Proof.
  intros [H1 H2 H3]. split; cbn [yplusx yminusx xy2d neg fst snd].
  - eapply is_fe_eq; [by apply copy_ok|ring].
  - eapply is_fe_eq; [by apply copy_ok|ring].
  - eapply is_fe_eq; [by apply fe_neg_ok|ring].
Qed.

Lemma precomp_eqm t P Q : point_eqm P Q -> is_precomp t P -> is_precomp t Q.
Proof. intros [Hx Hy] [H1 H2 H3]. split; by rewrite <- Hx, <- Hy. Qed.

Lemma madd_rep p q P Q R : rep_p3 p P -> is_precomp q Q -> adds P Q R -> rep_p1p1 (ge_madd p q) R.
Proof.
  intros (z & Uz & Hp) Hq L. pose proof L as (_ & _ & U1 & U2). exists (2 * z * (1 + law_e P Q)), (2 * z * (1 - law_e P Q)).
  split_and!; [| |by apply ge_madd_ok]; repeat apply unit_mul; try done; apply unit_2.
Qed.

Lemma select_base_spec row b P : curve P -> Forall2 (fun j e => is_precomp e (zmul j P)) (seqZ 1 8) row -> -8 <= b <= 8 ->
  exists t, select_base row b = Some t /\ is_precomp t (zmul b P).
Proof.
  intros HP Hrow Hb. destruct (absolute_spec b Hb) as [Ea En]. unfold select_base. rewrite Ea.
  destruct (cmov_chain_selects _ _ precomp_cmov_spec (fun j => zmul j P) row (Z.abs b) ge_precomp_0 Hrow neutral_precomp) as (t & -> & Ht); [lia|].
  pose proof (precomp_neg _ _ Ht) as Hneg. cbn [mbind option_bind].
  rewrite (precomp_cmov_spec _ _ _ _ _ Ht Hneg) by (rewrite En; destruct (b <? 0); auto). eexists. split; [done|].
  rewrite En. destruct (Z.ltb_spec b 0); cbn [Z.eqb Pos.eqb].
  - eapply precomp_eqm; [|exact Hneg]. replace b with (- Z.abs b) at 2 by lia. rewrite zmul_opp by done. apply point_eqm_sym, popp_neg.
  - by replace b with (Z.abs b) by lia.
Qed.

Lemma base_loop_spec rows e h P R : curve P -> curve R -> rows_hold P rows -> Forall (fun b => -8 <= b <= 8) e ->
  length e = length rows -> rep_p3 h R -> exists h', base_loop rows e h = Some h' /\ rep_p3 h' (padd R (zmul (radix 256 e) P)).
Proof.
  revert e h P R. induction rows as [|row rows IH]; intros [|b e] h P R HP HR Hrows He Hl Hh; try done.
  - eexists. split; [done|]. cbn [radix zmul]. by rewrite padd_neutral_r.
  - destruct Hrows as [Hrow Hrows]. apply Forall_cons in He as [Hb He]. cbn [base_loop].
    destruct (select_base_spec row b P HP Hrow Hb) as (t & -> & Ht). cbn [mbind option_bind].
    assert (curve (zmul b P)) as Hc by by apply zmul_curve.
    destruct (IH e (ge_p1p1_to_p3 (ge_madd h t)) (zmul 256 P) (padd R (zmul b P))) as (h' & -> & Hh'); auto using zmul_curve, padd_curve.
    + apply to_p3_rep. eapply madd_rep; [done..|]. by apply padd_adds; [apply HR|apply Hc].
    + eexists. split; [done|]. cbn [radix]. rewrite zmul_add, (Z.mul_comm 256), zmul_mul by done.
      rewrite padd_assoc in Hh' by auto using zmul_curve. done.
Qed.

Lemma evens_odds n e : length e = (2 * n)%nat -> Forall (fun b => -8 <= b <= 8) e ->
  radix 16 e = radix 256 (evens e) + 16 * radix 256 (odds e) /\ length (evens e) = n /\ length (odds e) = n
  /\ Forall (fun b => -8 <= b <= 8) (evens e) /\ Forall (fun b => -8 <= b <= 8) (odds e).
Proof.
  revert e. induction n as [|n IH]; intros [|x [|y e]] Hl He; cbn [length] in Hl; try lia; [done|].
  apply Forall_cons in He as [Hx He]. apply Forall_cons in He as [Hy He].
  destruct (IH e) as (E & L1 & L2 & F1 & F2); [lia|done|]. cbn [evens odds radix length].
  split_and!; [lia|lia|lia|by constructor|by constructor].
Qed.

Lemma neutral_p3 : rep_p3 ge_p3_0 neutral.
Proof. exists 1. split; [by exists 1|]. split; (split; [bytes_compute|reflexivity]). Qed.

Lemma p3_dbl_rep h P : rep_p3 h P -> curve P -> rep_p1p1 (ge_p3_dbl h) (padd P P).
Proof.
  intros (z & U & Hh) HP. eapply dbl_rep; [|apply HP|apply padd_adds; apply HP]. exists z. split; [done|]. by apply p3_to_p2_ok.
Qed.

Lemma p2_dbl_rep h P : rep_p2 h P -> curve P -> rep_p1p1 (ge_p2_dbl h) (padd P P).
Proof. intros Hh HP. eapply dbl_rep; [done|apply HP|apply padd_adds; apply HP]. Qed.

Lemma scalarmult_base_rep a : is_bytes a -> length a = 32%nat -> a !!! 31%nat <= 127 ->
  exists h, ge_scalarmult_base a = Some h /\ rep_p3 h (zmul (le_value a) B).
Proof.
  intros Ha Hl Hlast. destruct (base_digits_spec a Ha Hl Hlast) as (Ev & Hd & Hn). pose proof B_curve as HB.
  destruct (evens_odds 32 _ Hn Hd) as (E & L1 & L2 & F1 & F2). unfold ge_scalarmult_base.
  destruct (base_loop_spec ge_base (odds (base_digits a)) ge_p3_0 B neutral) as (h & -> & Hh);
    [done|apply neutral_curve|apply ge_base_holds|done|done|apply neutral_p3|]. cbn [mbind option_bind].
  rewrite padd_neutral in Hh by by apply zmul_curve. set (m := radix 256 (odds (base_digits a))) in *.
  destruct (base_loop_spec ge_base (evens (base_digits a)) (ge_p1p1_to_p3 (ge_p2_dbl (ge_p1p1_to_p2 (ge_p2_dbl (ge_p1p1_to_p2
    (ge_p2_dbl (ge_p1p1_to_p2 (ge_p3_dbl h)))))))) B (zmul (16 * m) B)) as (h' & -> & Hh');
    [done|by apply zmul_curve|apply ge_base_holds|done|done| |].
  - replace (zmul (16 * m) B) with (zmul 2 (zmul 2 (zmul 2 (zmul 2 (zmul m B))))) by (rewrite <- !zmul_mul by auto using zmul_curve; f_equal; lia).
    apply to_p3_rep, p2_dbl_rep; [|auto 6 using zmul_curve]. do 2 (apply to_p2_rep, p2_dbl_rep; [|auto 6 using zmul_curve]).
    apply to_p2_rep, p3_dbl_rep; [done|auto using zmul_curve].
  - eexists. split; [done|]. rewrite <- zmul_add, Z.add_comm, <- E, Ev in Hh' by done. done.
Qed.

(** The first entry is the base point and the next ones are two multiples apart. *)
Definition check_Bi (Bi : list ge_precomp) : bool :=
  let c2 := entry_point (nth 1 (nth 0 ge_base []) ge_precomp_0) in
  match Bi with
  | [] => false
  | e :: row =>
      let c := entry_point e in
      adds_ok B B c2 && same (Proj B.1 B.2 1) c && entry_ok e c && (length row =? 7)%nat &&
      match check_row c2 c row with None => false | Some _ => true end
  end.

Lemma check_Bi_spec Bi : check_Bi Bi = true -> Forall2 (fun i e => is_precomp e (zmul (2 * i + 1) B)) (seqZ 0 8) Bi.
Proof.
  pose proof B_curve as HB. destruct Bi as [|e row]; [done|]. unfold check_Bi. set (c2 := entry_point (nth 1 _ _)). clearbody c2.
  intros [[[[H2 Hs]%andb_true_iff He]%andb_true_iff Hl%Nat.eqb_eq]%andb_true_iff H]%andb_true_iff.
  destruct (check_row c2 (entry_point e) row) as [c|] eqn:Hr; [|done].
  pose proof (adds_ok_spec _ _ _ _ _ B_denotes B_denotes H2) as Hc2.
  pose proof (same_spec _ _ _ (affine_rep _ _ B_denotes) HB Hs) as Hc.
  assert (denotes (entry_point e) (padd B (zmul 0 (padd B B)))) as Hc' by (cbn [zmul]; by rewrite padd_neutral_r).
  destruct (check_row_spec _ _ _ _ _ _ _ Hc2 Hc' HB Hr) as [_ Hrow]. rewrite Hl in Hrow.
  change (seqZ 0 8) with (0 :: seqZ 1 7). constructor; [by apply entry_spec|]. eapply Forall2_impl; [exact Hrow|].
  intros j x Hx. cbv beta in Hx |- *. change (padd B B) with (zmul 2 B) in Hx.
  by rewrite <- zmul_mul, <- (zmul_1 B), <- zmul_mul, Z.mul_1_r, <- zmul_add, Z.add_comm, Z.mul_comm in Hx by done.
Qed.

Lemma ge_Bi_holds : Forall2 (fun i e => is_precomp e (zmul (2 * i + 1) B)) (seqZ 0 8) ge_Bi.
Proof. apply check_Bi_spec. vm_compute. reflexivity. Qed.

(** The tables of the base point.  The base point [B = (x, 4/5)], [x] even, lies
    on the curve and has the order the scalars are reduced by; row [i] of [ge_base]
    holds the multiples [256^i B, ..., 8 * 256^i B] and [ge_Bi] the odd multiples
    [B, 3 B, ..., 15 B], every entry with limbs within the bounds the additions
    need. *)
Theorem base_tables_correct : curve B /\ 5 * B.2 ≡p 4 /\ Z.even B.1 = true /\ zmul Sc.l B = neutral
  /\ rows_hold B ge_base /\ Forall2 (fun i e => is_precomp e (zmul (2 * i + 1) B)) (seqZ 0 8) ge_Bi.
Proof.
  destruct B_coordinates. split_and!; [apply B_curve|done|done|apply B_order|apply ge_base_holds|apply ge_Bi_holds].
Qed.

(** C24: [ge_scalarmult_base] multiplies the base point: for every 32-byte scalar
    whose last byte is at most 127 the function ends without a failed assertion and
    returns an extended representation, with an invertible [Z], of that multiple of
    the base point. *)
Theorem ge_scalarmult_base_correct a : is_bytes a -> length a = 32%nat -> a !!! 31%nat <= 127 ->
  exists h, ge_scalarmult_base a = Some h /\ rep_p3 h (zmul (le_value a) B).
Proof. apply scalarmult_base_rep. Qed.

Lemma ge_scalarmult_base_correct_witness :
  exists h, ge_scalarmult_base (200 :: replicate 31 127) = Some h /\ rep_p3 h (zmul (le_value (200 :: replicate 31 127)) B).
Proof. apply ge_scalarmult_base_correct; [bytes_compute|reflexivity|vm_compute; discriminate]. Defined.

End BasePoint.
