(* ===== verification/PointCodec.v ===== *)
(** The encoding of curve points in 32 bytes, src/crypto/crypto-ops.c: [ge_tobytes]
    and [ge_p3_tobytes] write [y] and the parity of [x], [ge_frombytes_vartime] finds
    [x] from them.  A byte string decodes exactly when it is the encoding of a point
    of the curve, and then to that point. *)

From Stdlib Require Import Znumtheory Zpow_facts Zmod.
From S2P Require Import Prelude.
From S2P Require Import Varint.
From S2P Require Import Serialization.
From S2P Require Import StraightLine.
From S2P Require Import CryptoOps.
From S2P Require Import Fe.
From S2P Require Import Ge.
From S2P Require Import Edwards.
From S2P Require Import ScalarMult.
Import Stream StraightLine CryptoOps Fe Ge Edwards ScalarMult.

Module PointCodec.

#[local] Open Scope list_scope.
#[local] Open Scope Z_scope.

(** ** Encoding *)

(** [fe_tobytes(s, y); s[31] ^= fe_isnegative(x) << 7]. *)
Definition write_point (x y : fe) : bytes :=
  let s := fe_tobytes y in
  <[31%nat := u8 (Z.lxor (s !!! 31%nat) (Z.shiftl (fe_isnegative x) 7))]> s.

Definition ge_tobytes (h : ge_p2) : bytes :=
  let recip := fe_invert (p2_Z h) in
  let x := fe_mul (p2_X h) recip in
  let y := fe_mul (p2_Y h) recip in
  write_point x y.

Definition ge_p3_tobytes (h : ge_p3) : bytes :=
  let recip := fe_invert (p3_Z h) in
  let x := fe_mul (p3_X h) recip in
  let y := fe_mul (p3_Y h) recip in
  write_point x y.

(** ** Decoding *)

(** [h0 = load_4(s), ..., h9]; the last limb is masked in [ge_frombytes_vartime]. *)
Definition load_fe (s : bytes) (top : Z) : list Z :=
  [ load_4 s;
    Z.shiftl (load_3 (drop 4 s)) 6;
    Z.shiftl (load_3 (drop 7 s)) 5;
    Z.shiftl (load_3 (drop 10 s)) 3;
    Z.shiftl (load_3 (drop 13 s)) 2;
    load_4 (drop 16 s);
    Z.shiftl (load_3 (drop 20 s)) 7;
    Z.shiftl (load_3 (drop 23 s)) 5;
    Z.shiftl (load_3 (drop 26 s)) 4;
    Z.shiftl top 2 ].

Definition frombytes_code : list stmt :=
  carry_9 ++ mjoin (carry_step <$> [1; 3; 5; 7]%nat) ++ mjoin (carry_step <$> [0; 2; 4; 6; 8]%nat) ++ save_64.

Definition fe_carry (ls : list Z) : fe := elements "h" 10 (exec frombytes_code (store limb_names ls)).

(** "Validate the number to be canonical". *)
Definition noncanonical (h : list Z) : bool :=
  (h !!! 9%nat =? 33554428) && (h !!! 8%nat =? 268435440) && (h !!! 7%nat =? 536870880) && (h !!! 6%nat =? 2147483520)
  && (h !!! 5%nat =? 4294967295) && (h !!! 4%nat =? 67108860) && (h !!! 3%nat =? 134217720) && (h !!! 2%nat =? 536870880)
  && (h !!! 1%nat =? 1073741760) && (4294967277 <=? h !!! 0%nat).

(** The root of [u / v]: [x = uv^3(uv^7)^((q-5)/8)], times the root of -1 if [vx^2 = -u]. *)
Definition find_x (u v : fe) : option fe :=
  let X := fe_divpowm1 u v in
  let vxx := fe_sq X in
  let vxx := fe_mul vxx v in
  let check := fe_sub vxx u in
  if negb (fe_isnonzero check =? 0) then
    let check := fe_add vxx u in
    if negb (fe_isnonzero check =? 0) then None else Some (fe_mul X fe_sqrtm1)
  else Some X.

(** [sign] is [s[31] >> 7]; if [x = 0] it must be positive. *)
Definition adjust_sign (X : fe) (sign : Z) : option fe :=
  if negb (fe_isnegative X =? sign) then
    if fe_isnonzero X =? 0 then None else Some (fe_neg X)
  else Some X.

(** From "End fe_frombytes.c" on, given [h->Y]. *)
Definition solve_point (Y : fe) (sign : Z) : option ge_p3 :=
  let Z := fe_1 in
  let u := fe_sq Y in
  let v := fe_mul u fe_d in
  let u := fe_sub u Z in
  let v := fe_add v Z in
  X ← find_x u v;
  X ← adjust_sign X sign;
  Some (P3 X Y Z (fe_mul X Y)).

Definition ge_frombytes_vartime (s : bytes) : option ge_p3 :=
  let h := load_fe s (Z.land (load_3 (drop 29 s)) 8388607) in
  if noncanonical h then None else solve_point (fe_carry h) (Z.shiftr (s !!! 31%nat) 7).

(** ** Limbs of a number *)

Lemma fe_carry_ok ls ivs : Forall2 within ivs ls -> length ls = 10%nat ->
  safe frombytes_code limb_names ivs (names "h" 10) (ranges 101) = true -> is_fe 101 (fe_carry ls) (dot Wf ls).
Proof.
  intros Hls Hl Hs.
  assert (relates p frombytes_code limb_names (zip Wf (names "h" 10)) (linear 0 Wf) = true) as Hr by (vm_compute; reflexivity).
  destruct (code_correct _ _ _ _ _ _ _ _ _ (start_bounded limb_names _ _ Hls) Hs Hr) as [Hb Hd].
  split; [by apply elements_ok|]. unfold fe_carry. rewrite <- elements_value, Hd, read_store; [|bytes_compute|by rewrite Hl].
  rewrite <- (app_nil_r ls) at 1. by rewrite first_value.
Qed.

Lemma load_3_bits s k : is_bytes s -> (k + 3 <= length s)%nat -> load_3 (drop k s) = bits (le_value s) (8 * Z.of_nat k) 24.
Proof.
  intros Hs Hl. rewrite <- (mask_load_3 s k 24) by (done || lia). rewrite Z.land_comm, Z.land_ones by lia.
  symmetry. apply Z.mod_small. rewrite load_3_value by (by apply Forall_drop || (rewrite length_drop; lia)). apply Z.mod_pos_bound. lia.
Qed.

Lemma load_4_bits s k : is_bytes s -> (k + 4 <= length s)%nat -> load_4 (drop k s) = bits (le_value s) (8 * Z.of_nat k) 32.
Proof.
  intros Hs Hl. pose proof (mask_shift_load_4 s k 0 32 Hs Hl) as H. rewrite Z.shiftr_0_r, Z.add_0_r in H. rewrite <- H by lia.
  rewrite Z.land_comm, Z.land_ones by lia. symmetry. apply Z.mod_small.
  rewrite load_4_value by (by apply Forall_drop || (rewrite length_drop; lia)). apply Z.mod_pos_bound. lia.
Qed.

Lemma bits_step v a w : 0 <= a -> 0 <= w -> v mod 2 ^ (a + w) = v mod 2 ^ a + 2 ^ a * bits v a w.
Proof. intros Ha Hw. unfold bits. rewrite Z.pow_add_r, Z.rem_mul_r by lia. done. Qed.

(** The pieces of the 32 bytes the limbs are made of; the last one has [w] bits. *)
Definition pieces (v w : Z) : list Z :=
  [bits v 0 32; bits v 32 24; bits v 56 24; bits v 80 24; bits v 104 24; bits v 128 32; bits v 160 24; bits v 184 24; bits v 208 24; bits v 232 w].

Lemma pieces_value v w : 0 <= w ->
  dot [1; 2 ^ 32; 2 ^ 56; 2 ^ 80; 2 ^ 104; 2 ^ 128; 2 ^ 160; 2 ^ 184; 2 ^ 208; 2 ^ 232] (pieces v w) = v mod 2 ^ (232 + w).
Proof.
  intros Hw. unfold pieces. rewrite bits_step by lia.
  pose proof (bits_step v 0 32 ltac:(lia) ltac:(lia)) as E0. rewrite Z.mod_1_r in E0.
  pose proof (bits_step v 32 24 ltac:(lia) ltac:(lia)) as E1. pose proof (bits_step v 56 24 ltac:(lia) ltac:(lia)) as E2.
  pose proof (bits_step v 80 24 ltac:(lia) ltac:(lia)) as E3. pose proof (bits_step v 104 24 ltac:(lia) ltac:(lia)) as E4.
  pose proof (bits_step v 128 32 ltac:(lia) ltac:(lia)) as E5. pose proof (bits_step v 160 24 ltac:(lia) ltac:(lia)) as E6.
  pose proof (bits_step v 184 24 ltac:(lia) ltac:(lia)) as E7. pose proof (bits_step v 208 24 ltac:(lia) ltac:(lia)) as E8.
  change (0 + 32) with 32 in E0. change (32 + 24) with 56 in E1. change (56 + 24) with 80 in E2. change (80 + 24) with 104 in E3.
  change (104 + 24) with 128 in E4. change (128 + 32) with 160 in E5. change (160 + 24) with 184 in E6. change (184 + 24) with 208 in E7.
  change (208 + 24) with 232 in E8. rewrite E8, E7, E6, E5, E4, E3, E2, E1, E0. unfold dot. cbn [zip zip_with foldr fst snd]. ring.
Qed.

Definition shifts_of_pieces : list Z := [0; 6; 5; 3; 2; 0; 7; 5; 4; 2].

Lemma load_fe_pieces s w top : is_bytes s -> length s = 32%nat -> top = bits (le_value s) 232 w ->
  load_fe s top = zip_with Z.shiftl (pieces (le_value s) w) shifts_of_pieces.
Proof.
  intros Hs Hl ->. unfold load_fe. change s with (drop 0 s) at 1.
  rewrite !load_3_bits, !load_4_bits by (done || (rewrite Hl; lia)). cbn [pieces shifts_of_pieces zip_with]. by rewrite !Z.shiftl_0_r.
Qed.

Definition piece_ranges (w : Z) : list interval :=
  [(0, 2 ^ 32 - 1); (0, (2 ^ 24 - 1) * 2 ^ 6); (0, (2 ^ 24 - 1) * 2 ^ 5); (0, (2 ^ 24 - 1) * 2 ^ 3); (0, (2 ^ 24 - 1) * 2 ^ 2);
   (0, 2 ^ 32 - 1); (0, (2 ^ 24 - 1) * 2 ^ 7); (0, (2 ^ 24 - 1) * 2 ^ 5); (0, (2 ^ 24 - 1) * 2 ^ 4); (0, (2 ^ w - 1) * 2 ^ 2)].

Lemma load_fe_ok s w top : is_bytes s -> length s = 32%nat -> top = bits (le_value s) 232 w -> w = 23 \/ w = 24 ->
  is_fe 101 (fe_carry (load_fe s top)) (le_value s mod 2 ^ (232 + w)).
Proof.
  intros Hs Hl Ht Hw. rewrite (load_fe_pieces s w) by done. set (v := le_value s).
  eapply is_fe_eq; [eapply (fe_carry_ok _ (piece_ranges w))|].
  - unfold pieces, shifts_of_pieces, piece_ranges. cbn [zip_with]. rewrite !Z.shiftl_mul_pow2 by lia.
    assert (0 <= w) as H0 by lia. pose proof (fun a => bits_range v a 24 ltac:(lia)) as B24. pose proof (fun a => bits_range v a 32 ltac:(lia)) as B32.
    pose proof (bits_range v 232 w H0) as Bw.
    repeat constructor; unfold within; cbn [fst snd];
      match goal with |- _ => repeat match goal with |- context [bits v ?a 24] => generalize (B24 a); generalize (bits v a 24)
        | |- context [bits v ?a 32] => generalize (B32 a); generalize (bits v a 32) end; intros; try nia end.
  - done.
  - destruct Hw as [-> | ->]; vm_compute; reflexivity.
  - rewrite <- pieces_value by lia. unfold pieces, shifts_of_pieces. cbn [zip_with]. rewrite !Z.shiftl_mul_pow2 by lia.
    unfold dot. let w' := eval vm_compute in Wf in change Wf with w'. cbn [zip zip_with foldr fst snd]. ring.
Qed.

Lemma top_bits s : is_bytes s -> length s = 32%nat -> Z.land (load_3 (drop 29 s)) 8388607 = bits (le_value s) 232 23.
Proof.
  intros Hs Hl. change 8388607 with (Z.ones 23). rewrite Z.land_comm. apply (mask_load_3 s 29 23); [done|rewrite Hl; lia|lia].
Qed.

Lemma noncanonical_spec s : is_bytes s -> length s = 32%nat ->
  noncanonical (load_fe s (Z.land (load_3 (drop 29 s)) 8388607)) = (p <=? le_value s mod 2 ^ 255).
Proof.
  intros Hs Hl. rewrite (load_fe_pieces s 23) by (done || by apply top_bits).
  set (v := le_value s). change 255 with (232 + 23). rewrite <- pieces_value by lia.
  pose proof (fun a => bits_range v a 24 ltac:(lia)) as B24. pose proof (fun a => bits_range v a 32 ltac:(lia)) as B32.
  pose proof (bits_range v 232 23 ltac:(lia)) as B9.
  unfold pieces, noncanonical, shifts_of_pieces, dot, p. cbn [zip_with zip foldr fst snd lookup_total list_lookup_total].
  rewrite !Z.shiftl_mul_pow2 by lia. generalize (B32 0), (B24 32), (B24 56), (B24 80), (B24 104), (B32 128), (B24 160), (B24 184), (B24 208), B9.
  clear B24 B32 B9. generalize (bits v 0 32), (bits v 32 24), (bits v 56 24), (bits v 80 24), (bits v 104 24), (bits v 128 32),
    (bits v 160 24), (bits v 184 24), (bits v 208 24), (bits v 232 23). clear. intros b0 b1 b2 b3 b4 b5 b6 b7 b8 b9 **.
  apply eq_bool_prop_intro. rewrite !andb_True, !Is_true_true, !Z.eqb_eq, !Z.leb_le. lia.
Qed.

(** ** Square roots *)

Lemma pow_eqm a b n : 0 <= n -> a ≡p b -> a ^ n ≡p b ^ n.
Proof. intros Hn H. unfold eqm in *. by rewrite Zpower_mod, H, <- Zpower_mod. Qed.

Lemma fermat_p a : ~ a ≡p 0 -> a ^ (p - 1) ≡p 1.
Proof. intros H. unfold eqm. rewrite (Z.fermat_nz p a prime_p); [done|exact H]. Qed.

(** The candidate of [fe_divpowm1] for the root of [u / v]. *)
Definition root (u v : Z) : Z := u * v ^ 3 * (u * v ^ 7) ^ ((p - 5) / 8).

Lemma root_square u v : v * (root u v * root u v) = u * (u * v ^ 7) ^ (2 * ((p - 5) / 8) + 1).
Proof.
  unfold root. assert (0 <= (p - 5) / 8) as Hn by (vm_compute; discriminate). generalize dependent ((p - 5) / 8). intros n Hn.
  rewrite Z.pow_add_r, (Z.mul_comm 2 n), Z.pow_mul_r, Z.pow_1_r by lia. ring.
Qed.

Lemma root_spec u v x : unit v -> v * (x * x) ≡p u -> v * (root u v * root u v) ≡p u \/ v * (root u v * root u v) ≡p - u.
Proof.
  intros Uv Hx. rewrite root_square. assert (0 <= (p - 5) / 8 /\ 8 * ((p - 5) / 8) + 4 = p - 1) as [Hn Hp] by (split; vm_compute; (reflexivity || discriminate)).
  set (n := (p - 5) / 8) in *. clearbody n. set (w := v ^ 4 * x).
  assert (u * v ^ 7 ≡p w ^ 2) as Hw by (rewrite <- Hx; apply eq_eqm; unfold w; ring).
  destruct (decide (w mod p = 0 mod p)) as [H0|H0].
  - left. assert (x ≡p 0) as Hx0.
    { apply (cancel_l (v ^ 4)); [replace (v ^ 4) with (v * v * (v * v)) by ring; by repeat apply unit_mul|]. fold w. rewrite Z.mul_0_r. exact H0. }
    assert (u ≡p 0) as Hu by (rewrite <- Hx, Hx0; apply eq_eqm; ring). transitivity (0 * (u * v ^ 7) ^ (2 * n + 1)); [by apply mul_proper|]. by rewrite Z.mul_0_l, Hu.
  - set (q := (u * v ^ 7) ^ (2 * n + 1)). assert (q * q ≡p 1) as Hq.
    { unfold q. rewrite <- Z.pow_2_r, <- Z.pow_mul_r by lia. etransitivity; [apply pow_eqm; [|exact Hw]; lia|].
      rewrite <- Z.pow_mul_r by lia. replace (2 * ((2 * n + 1) * 2)) with (p - 1) by lia. by apply fermat_p. }
    destruct (mul_zero (q - 1) (q + 1)) as [E|E].
    + transitivity (q * q - 1); [apply eq_eqm; ring|]. rewrite Hq. done.
    + left. transitivity (u * ((q - 1) + 1)); [apply eq_eqm; ring|]. rewrite E. apply eq_eqm. ring.
    + right. transitivity (u * ((q + 1) - 1)); [apply eq_eqm; ring|]. rewrite E. apply eq_eqm. ring.
Qed.

Lemma v_unit y : unit (d * (y * y) + 1).
Proof.
  destruct (zero_or_unit (d * (y * y) + 1)) as [H|]; [exfalso|done]. destruct (zero_or_unit y) as [Hy|[c Hc]].
  - rewrite Hy in H. vm_compute in H. discriminate H.
  - apply (d_not_square (value fe_sqrtm1 * c)).
    transitivity (value fe_sqrtm1 * value fe_sqrtm1 * (c * c)); [apply eq_eqm; ring|]. rewrite sqrtm1_value.
    transitivity (d * (c * y * (c * y)) - c * c * (d * (y * y) + 1)); [apply eq_eqm; ring|]. rewrite H, Hc. apply eq_eqm. ring.
Qed.

(** The curve equation solved for [x^2]. *)
Lemma curve_solved x y : on_curve (x, y) <-> (d * (y * y) + 1) * (x * x) ≡p y * y - 1.
Proof.
  unfold on_curve. cbn [fst snd]. split; intros H.
  - transitivity (y * y - 1 - (y * y - x * x - (1 + d * (x * x) * (y * y)))); [apply eq_eqm; ring|]. rewrite H. apply eq_eqm. ring.
  - transitivity (1 + d * (x * x) * (y * y) + (y * y - 1 - (d * (y * y) + 1) * (x * x))); [apply eq_eqm; ring|]. rewrite H. apply eq_eqm. ring.
Qed.

(** ** The encoding *)

Definition encode (P : point) : bytes := le_bytes 32 (P.2 + 2 ^ 255 * (P.1 mod 2)).

Lemma encode_value P : reduced P -> le_value (encode P) = P.2 + 2 ^ 255 * (P.1 mod 2).
Proof.
  intros [_ Hy]. apply le_value_bytes. pose proof (Z.mod_pos_bound P.1 2 ltac:(lia)). unfold p in Hy. change (256 ^ Z.of_nat 32) with (2 ^ 256). lia.
Qed.

Lemma encode_bytes P : is_bytes (encode P) /\ length (encode P) = 32%nat.
Proof. split; [apply le_bytes_is_bytes|apply length_le_bytes]. Qed.

Lemma encode_of_value s P : is_bytes s -> length s = 32%nat -> reduced P -> le_value s = P.2 + 2 ^ 255 * (P.1 mod 2) -> s = encode P.
Proof. intros Hs Hl HP H. unfold encode. rewrite <- H, <- Hl. by rewrite le_bytes_value. Qed.

Lemma last_byte s : length s = 32%nat -> le_value s = le_value (take 31 s) + 2 ^ 248 * (s !!! 31%nat).
Proof.
  intros Hl. rewrite <- (take_drop 31 s) at 1. rewrite le_value_app, length_take_le by lia.
  rewrite (drop_S s _ 31 (list_lookup_lookup_total_lt s 31 ltac:(lia))), drop_ge by lia. cbn [le_value]. change (256 ^ Z.of_nat 31) with (2 ^ 248). lia.
Qed.

Lemma set_sign s b : is_bytes s -> length s = 32%nat -> le_value s < 2 ^ 255 -> b = 0 \/ b = 1 ->
  let s' := <[31%nat := u8 (Z.lxor (s !!! 31%nat) (Z.shiftl b 7))]> s in
  is_bytes s' /\ length s' = 32%nat /\ le_value s' = le_value s + 2 ^ 255 * b.
Proof.
  intros Hs Hl Hv Hb s'. pose proof (last_byte s Hl) as Ev. assert (is_bytes (take 31 s)) as Ht by by apply Forall_take.
  pose proof (le_value_range _ Ht) as Hr. rewrite length_take_le in Hr by lia. change (256 ^ Z.of_nat 31) with (2 ^ 248) in Hr.
  assert (is_u8 (s !!! 31%nat)) as Hc by (apply Forall_lookup_total_1; [done|lia]). assert (0 <= s !!! 31%nat < 128) as Hc' by (unfold is_u8 in Hc; lia).
  assert (u8 (Z.lxor (s !!! 31%nat) (Z.shiftl b 7)) = (s !!! 31%nat) + 128 * b) as E.
  { assert (Forall (fun c => u8 (Z.lxor c (Z.shiftl b 7)) = c + 128 * b) (seqZ 0 128)) as H by (destruct Hb as [-> | ->]; bytes_compute).
    rewrite Forall_forall in H. apply H, elem_of_seqZ. lia. }
  unfold s'. rewrite E. split_and!.
  - apply Forall_insert; [done|]. unfold is_u8. destruct Hb; lia.
  - by rewrite length_insert.
  - rewrite last_byte by by rewrite length_insert. rewrite take_insert_ge, list_lookup_total_insert_eq by lia. lia.
Qed.

Lemma write_point_ok x y P : reduced P -> is_fe 330 x P.1 -> is_fe 330 y P.2 -> write_point x y = encode P.
Proof.
  intros HP Hx Hy. pose proof HP as [Rx Ry]. destruct (fe_tobytes_ok _ _ Hy) as (H1 & H2 & H3). rewrite Z.mod_small in H1 by done.
  pose proof (fe_isnegative_ok _ _ Hx) as Hn. rewrite (Z.mod_small P.1 p) in Hn by done. unfold write_point. rewrite Hn.
  destruct (set_sign (fe_tobytes y) (P.1 mod 2)) as (S1 & S2 & S3); [done|done|unfold p in Ry; lia|pose proof (Z.mod_pos_bound P.1 2); lia|].
  apply encode_of_value; [done..|]. by rewrite S3, H1.
Qed.

Lemma recip_ok f z : is_fe 101 f z -> unit z -> is_fe 101 (fe_invert f) (z ^ (p - 2)) /\ z * z ^ (p - 2) ≡p 1.
Proof.
  intros Hf U. split; [apply fe_invert_ok; by apply (weaken 101)|]. rewrite <- Z.pow_succ_r by (vm_compute; discriminate).
  replace (Z.succ (p - 2)) with (p - 1) by lia. apply fermat_p. by apply unit_nonzero.
Qed.

Lemma quotient_ok fx fz x z : is_fe 101 fx (x * z) -> is_fe 101 fz z -> unit z -> is_fe 330 (fe_mul fx (fe_invert fz)) x.
Proof.
  intros Hx Hz U. destruct (recip_ok fz z Hz U) as [Hr Hi]. apply (weaken 101); [|lia].
  eapply is_fe_mod; [|eapply mul_ok; [exact Hx|exact Hr|lia..]].
  change (x * z * z ^ (p - 2) ≡p x). rewrite <- Z.mul_assoc, Hi. apply eq_eqm. ring.
Qed.

Lemma ge_tobytes_ok h P : rep_p2 h P -> curve P -> ge_tobytes h = encode P.
Proof. intros (z & U & [HX HY HZ]) [_ HP]. apply write_point_ok; [done|by eapply quotient_ok..]. Qed.

Lemma ge_p3_tobytes_ok h P : rep_p3 h P -> curve P -> ge_p3_tobytes h = encode P.
Proof. intros (z & U & [HX HY HZ _]) [_ HP]. apply write_point_ok; [done|by eapply quotient_ok..]. Qed.

(** ** The decoding *)

Lemma fe_one_ok : is_fe 1 fe_1 1.
Proof. split; [bytes_compute|reflexivity]. Qed.

Lemma fe_d_ok : is_fe 101 fe_d d.
Proof. split; [bytes_compute|reflexivity]. Qed.

Lemma fe_sqrtm1_ok : is_fe 101 fe_sqrtm1 (value fe_sqrtm1).
Proof. split; [bytes_compute|reflexivity]. Qed.

Lemma nonzero_test f v : is_fe 330 f v -> (fe_isnonzero f =? 0) = bool_decide (v ≡p 0).
Proof.
  intros H. rewrite (fe_isnonzero_ok _ _ H). unfold eqm. change (0 mod p) with 0. destruct (Z.eqb_spec (v mod p) 0) as [E|E]; symmetry.
  - by apply bool_decide_eq_true.
  - by apply bool_decide_eq_false.
Qed.

(** The root of [u / v], if there is one. *)
Lemma find_root fu fv u v : is_fe 102 fu u -> is_fe 102 fv v -> unit v ->
  (exists f x, find_x fu fv = Some f /\ is_fe 101 f x /\ v * (x * x) ≡p u) \/ (find_x fu fv = None /\ forall x, ~ v * (x * x) ≡p u).
Proof.
  intros Hu Hv U. unfold find_x. set (X := fe_divpowm1 fu fv). set (vxx := fe_mul (fe_sq X) fv). assert (is_fe 101 X (root u v)) as HX.
  { eapply is_fe_eq; [apply fe_divpowm1_ok; eapply weaken; [exact Hu|lia|exact Hv|lia]|]. apply divpowm1_root. }
  assert (is_fe 101 vxx (root u v * root u v * v)) as Hvxx by (eapply mul_ok; [eapply sq_ok; [exact HX|lia]|exact Hv|lia..]).
  assert (is_fe 330 (fe_sub vxx fu) (root u v * root u v * v - u)) as H1 by (safe_sub 101 102 330; done).
  assert (is_fe 330 (fe_add vxx fu) (root u v * root u v * v + u)) as H2 by (safe_add 101 102 330; done).
  rewrite (nonzero_test _ _ H1), (nonzero_test _ _ H2). clearbody vxx X.
  case_bool_decide as E1; cbn [negb]; [|case_bool_decide as E2; cbn [negb]].
  - left. exists X, (root u v). split_and!; [done..|]. transitivity (root u v * root u v * v - u + u); [apply eq_eqm; ring|]. rewrite E1. done.
  - left. exists (fe_mul X fe_sqrtm1), (root u v * value fe_sqrtm1).
    split_and!; [done|eapply mul_ok; [exact HX|exact fe_sqrtm1_ok|lia..]|].
    transitivity (value fe_sqrtm1 * value fe_sqrtm1 * (root u v * root u v * v + u - u)); [apply eq_eqm; ring|].
    rewrite sqrtm1_value, E2. apply eq_eqm. ring.
  - right. split; [done|]. intros x Hx. destruct (root_spec u v x U Hx) as [E|E].
    + apply E1. rewrite (Z.mul_comm _ v), E. apply eq_eqm. ring.
    + apply E2. rewrite (Z.mul_comm _ v), E. apply eq_eqm. ring.
Qed.

(** Roots are unique up to sign. *)
Lemma roots_opposite v x y : unit v -> v * (x * x) ≡p v * (y * y) -> x ≡p y \/ x ≡p - y.
Proof.
  intros U H. apply cancel_l in H; [|done]. destruct (mul_zero (x - y) (x + y)) as [E|E].
  - transitivity (x * x - y * y); [apply eq_eqm; ring|]. rewrite H. apply eq_eqm. ring.
  - left. transitivity (x - y + y); [apply eq_eqm; ring|]. rewrite E. done.
  - right. transitivity (x + y - y); [apply eq_eqm; ring|]. rewrite E. done.
Qed.

Lemma parity_opp x : ~ x ≡p 0 -> (- x mod p) mod 2 = 1 - (x mod p) mod 2.
Proof.
  intros H. assert (x mod p <> 0) as H0 by exact H. rewrite Z_mod_nz_opp_full by done. unfold p in *. pose proof (Z.mod_pos_bound x (2 ^ 255 - 19) ltac:(lia)).
  generalize dependent (x mod (2 ^ 255 - 19)). intros r Hr0 Hr. rewrite Zminus_mod. change ((2 ^ 255 - 19) mod 2) with 1.
  pose proof (Z.mod_pos_bound r 2 ltac:(lia)). destruct (decide (r mod 2 = 0)) as [-> |]; [done|]. by replace (r mod 2) with 1 by lia.
Qed.

(** The sign of the root: the root [x] or its opposite with parity [b]. *)
Lemma choose_sign fX x b : is_fe 101 fX x -> b = 0 \/ b = 1 ->
  (exists f x', adjust_sign fX b = Some f /\ is_fe 101 f x' /\ (x' ≡p x \/ x' ≡p - x) /\ (x' mod p) mod 2 = b)
  \/ (adjust_sign fX b = None /\ x ≡p 0 /\ b = 1).
Proof.
  intros HX Hb. unfold adjust_sign. assert (is_fe 330 fX x) as HX' by (by apply (weaken 101)). pose proof (fe_isnegative_ok _ _ HX') as Hn.
  pose proof (Z.mod_pos_bound (x mod p) 2 ltac:(lia)) as Hr. rewrite (nonzero_test _ _ HX'), Hn.
  destruct (Z.eqb_spec ((x mod p) mod 2) b) as [E|E]; cbn [negb].
  - left. exists fX, x. split_and!; [done..|by left|done].
  - case_bool_decide as E0.
    + right. split_and!; [done..|]. unfold eqm in E0. rewrite E0 in E. change ((0 mod p) mod 2) with 0 in E. lia.
    + left. exists (fe_neg fX), (- x). split_and!; [done|by apply fe_neg_ok|by right|]. rewrite parity_opp by done. lia.
Qed.

Lemma sign_bit s : is_bytes s -> length s = 32%nat ->
  Z.shiftr (s !!! 31%nat) 7 = le_value s / 2 ^ 255 /\ (le_value s / 2 ^ 255 = 0 \/ le_value s / 2 ^ 255 = 1).
Proof.
  intros Hs Hl. pose proof (last_byte s Hl) as Ev. assert (is_bytes (take 31 s)) as Ht by by apply Forall_take.
  pose proof (le_value_range _ Ht) as Hr. rewrite length_take_le in Hr by lia. change (256 ^ Z.of_nat 31) with (2 ^ 248) in Hr.
  assert (is_u8 (s !!! 31%nat)) as Hc by (apply Forall_lookup_total_1; [done|lia]). unfold is_u8 in Hc.
  rewrite Z.shiftr_div_pow2 by lia. replace (2 ^ 255) with (2 ^ 248 * 2 ^ 7) by (rewrite <- Z.pow_add_r by lia; done).
  rewrite <- Z.div_div, Ev, (Z.mul_comm (2 ^ 248)), Z.div_add, (Z.div_small (le_value (take 31 s))), Z.add_0_l by lia. split; [done|].
  assert (0 <= (s !!! 31%nat) / 2 ^ 7 < 2) by (split; [apply Z.div_pos|apply Z.div_lt_upper_bound]; lia). lia.
Qed.

(** What [encode P = s] says of the parts of [s]. *)
Lemma encode_parts s P : reduced P -> s = encode P -> le_value s mod 2 ^ 255 = P.2 /\ le_value s / 2 ^ 255 = P.1 mod 2.
Proof.
  intros HR ->. rewrite encode_value by done. destruct HR as [_ Hy]. unfold p in Hy. rewrite (Z.mul_comm (2 ^ 255)).
  rewrite Z_mod_plus_full, Z.div_add, Z.mod_small, Z.div_small by lia. done.
Qed.

(** Two points with one ordinate have abscissas opposite to each other, of different parity unless they are zero. *)
Lemma encode_inj P Q : curve P -> curve Q -> encode Q = encode P -> Q = P.
Proof.
  destruct P as [x y], Q as [x' y']. intros [HP RP] [HQ RQ] E. destruct (encode_parts (encode (x', y')) (x', y') RQ eq_refl) as [E1 E2].
  destruct (encode_parts (encode (x', y')) (x, y) RP E) as [E3 E4]. rewrite E1 in E3. rewrite E2 in E4. cbn [fst snd] in *. subst y'.
  f_equal. destruct RP as [Rx _], RQ as [Rx' _]. cbn [fst snd] in *. apply curve_solved in HP, HQ. rewrite <- HP in HQ.
  rewrite <- (Z.mod_small x p), <- (Z.mod_small x' p) by done. destruct (roots_opposite _ _ _ (v_unit y) HQ) as [H|H]; [exact H|].
  destruct (decide (x ≡p 0)) as [H0|H0]; [rewrite H0 in H; unfold eqm in H, H0; rewrite H, H0; done|].
  exfalso. pose proof (parity_opp x H0) as Hp. unfold eqm in H. rewrite <- H in Hp. rewrite (Z.mod_small x p), (Z.mod_small x' p) in Hp by done.
  rewrite E4 in Hp. pose proof (Z.mod_pos_bound x 2). lia.
Qed.

Lemma bind_some {X Y} (f : X -> option Y) x : Some x ≫= f = f x.
Proof. reflexivity. Qed.

Lemma bind_none {X Y} (f : X -> option Y) : None ≫= f = None.
Proof. reflexivity. Qed.

Lemma solve_point_bind Y b : solve_point Y b =
  find_x (fe_sub (fe_sq Y) fe_1) (fe_add (fe_mul (fe_sq Y) fe_d) fe_1) ≫= fun X =>
  adjust_sign X b ≫= fun X => Some (P3 X Y fe_1 (fe_mul X Y)).
Proof. reflexivity. Qed.

Lemma curve_from_root x' x y : (d * (y * y) + 1) * (x * x) ≡p y * y - 1 -> x' ≡p x \/ x' ≡p - x -> 0 <= y < p -> curve (x' mod p, y).
Proof.
  intros Hx Hxx Hy. split; [|split; [apply Z.mod_pos_bound; reflexivity|done]]. apply curve_solved. rewrite mod_eqm, <- Hx.
  destruct Hxx as [-> | ->]; apply eq_eqm; ring.
Qed.

(** The only point with the ordinate of a zero root is [(0, y)], whose sign is 0. *)
Lemma zero_root x x0 y : (d * (y * y) + 1) * (x * x) ≡p y * y - 1 -> x ≡p 0 -> curve (x0, y) -> x0 mod 2 = 0.
Proof.
  intros Hx Hx0 [HP [HR _]]. cbn [fst] in HR. apply curve_solved in HP. rewrite <- Hx in HP. apply roots_opposite in HP; [|apply v_unit].
  assert (x0 ≡p 0) as H0 by (destruct HP as [-> | ->]; rewrite Hx0; done). unfold eqm in H0. rewrite Z.mod_small in H0 by done. by rewrite H0.
Qed.

Lemma solved_p3 f x Y y : is_fe 101 f x -> is_fe 101 Y y -> is_p3 (P3 f Y fe_1 (fe_mul f Y)) (x mod p, y) 1.
Proof.
  intros Hf HY. split; cbn [p3_X p3_Y p3_Z p3_T fst snd]; rewrite ?mod_eqm, ?Z.mul_1_r; [done..|apply (weaken 1); [apply fe_one_ok|lia]|].
  eapply mul_ok; [exact Hf|exact HY|lia..].
Qed.

(** The numerator and the denominator of [x^2]. *)
Lemma fraction_ok Y y : is_fe 101 Y y ->
  is_fe 102 (fe_sub (fe_sq Y) fe_1) (y * y - 1) /\ is_fe 102 (fe_add (fe_mul (fe_sq Y) fe_d) fe_1) (d * (y * y) + 1).
Proof.
  intros HY. split; [safe_sub 101 1 102; [eapply sq_ok; [exact HY|lia]|apply fe_one_ok]|].
  safe_add 101 1 102; [|apply fe_one_ok]. rewrite (Z.mul_comm d). eapply mul_ok; [eapply sq_ok; [exact HY|lia]|apply fe_d_ok|lia..].
Qed.

Lemma solve_point_cases Y y b : is_fe 101 Y y -> 0 <= y < p -> b = 0 \/ b = 1 ->
  (exists P h, curve P /\ P.2 = y /\ P.1 mod 2 = b /\ solve_point Y b = Some h /\ is_p3 h P 1)
  \/ (solve_point Y b = None /\ forall P, curve P -> P.2 = y -> P.1 mod 2 <> b).
Proof.
  intros HY Hy Hb. rewrite solve_point_bind. destruct (fraction_ok Y y HY) as [Hu Hv].
  destruct (find_root _ _ _ _ Hu Hv (v_unit y)) as [(f & x & E & Hf & Hx)|[E Hno]]; rewrite E, ?bind_some, ?bind_none; clear E Hu Hv.
  - destruct (choose_sign f x b Hf Hb) as [(f' & x' & E & Hf' & Hxx & Hpar)|(E & Hx0 & Hb1)]; rewrite E, ?bind_some, ?bind_none; clear E.
    + left. exists (x' mod p, y), (P3 f' Y fe_1 (fe_mul f' Y)).
      split; [by apply (curve_from_root x' x)|]. split; [reflexivity|]. split; [exact Hpar|]. split; [reflexivity|by apply solved_p3].
    + right. split; [reflexivity|]. intros [x0 y0] HP Ey Eb. cbn [fst snd] in Ey, Eb. subst y0. rewrite (zero_root x x0 y) in Eb by done. lia.
  - right. split; [reflexivity|]. intros [x0 y0] [HP _] Ey _. cbn [fst snd] in Ey. subst y0. apply curve_solved in HP. exact (Hno _ HP).
Qed.

Lemma frombytes_bind s : ge_frombytes_vartime s =
  if noncanonical (load_fe s (Z.land (load_3 (drop 29 s)) 8388607)) then None
  else solve_point (fe_carry (load_fe s (Z.land (load_3 (drop 29 s)) 8388607))) (Z.shiftr (s !!! 31%nat) 7).
Proof. reflexivity. Qed.

Lemma frombytes_cases s : is_bytes s -> length s = 32%nat ->
  (exists P h, curve P /\ s = encode P /\ ge_frombytes_vartime s = Some h /\ is_p3 h P 1)
  \/ (ge_frombytes_vartime s = None /\ forall P, curve P -> s <> encode P).
Proof.
  intros Hs Hl. rewrite frombytes_bind, noncanonical_spec by done. destruct (sign_bit s Hs Hl) as [Eb Hb].
  pose proof (load_fe_ok s 23 _ Hs Hl (top_bits s Hs Hl) (or_introl eq_refl)) as HY. change (232 + 23) with 255 in HY.
  rewrite Eb. generalize dependent (fe_carry (load_fe s (Z.land (load_3 (drop 29 s)) 8388607))). intros Y HY.
  pose proof (Z.mod_pos_bound (le_value s) (2 ^ 255) ltac:(lia)) as Hr.
  destruct (Z.leb_spec p (le_value s mod 2 ^ 255)) as [Hp|Hp].
  - right. split; [reflexivity|]. intros P [_ HR] E. destruct (encode_parts s P HR E) as [Ey _]. destruct HR as [_ HR]. lia.
  - destruct (solve_point_cases Y (le_value s mod 2 ^ 255) (le_value s / 2 ^ 255)) as [(P & h & HP & Ey & Ex & E & Hh)|[E Hno]]; [done|lia|done|..].
    + left. exists P, h. split; [done|]. split; [|exact (conj E Hh)]. apply encode_of_value; [done..|apply HP|]. rewrite Ey, Ex.
      rewrite (Z.div_mod (le_value s) (2 ^ 255)) at 1 by lia. lia.
    + right. split; [exact E|]. intros P HP Es. destruct (encode_parts s P (proj2 HP) Es) as [E1 E2]. apply (Hno P HP); done.
Qed.

Lemma is_p3_rep h P : is_p3 h P 1 -> rep_p3 h P.
Proof. intros H. exists 1. split; [by exists 1|done]. Qed.

(** C26: [ge_frombytes_vartime] accepts a string of 32 bytes exactly when it is the
    canonical encoding of a point of the curve: [y < p], [y] the ordinate of a point,
    and no sign bit on [x = 0].  It then returns the point, in coordinates within the
    bounds of the field arithmetic, and [ge_p3_tobytes] writes the same bytes back. *)
Theorem ge_frombytes_vartime_correct s : is_bytes s -> length s = 32%nat ->
  match ge_frombytes_vartime s with
  | Some h => exists P, curve P /\ s = encode P /\ rep_p3 h P /\ ge_p3_tobytes h = s
  | None => forall P, curve P -> s <> encode P
  end.
Proof.
  intros Hs Hl. destruct (frombytes_cases s Hs Hl) as [(P & h & HP & E & Eh & Hh)|[Eh Hno]]; rewrite Eh; [|done].
  exists P. pose proof (is_p3_rep h P Hh). split; [exact HP|]. split; [exact E|]. split; [assumption|]. rewrite E. by apply ge_p3_tobytes_ok.
Qed.

Lemma ge_frombytes_vartime_correct_witness :
  exists h P, ge_frombytes_vartime (encode fourth) = Some h /\ curve P /\ encode fourth = encode P /\ rep_p3 h P /\ ge_p3_tobytes h = encode fourth.
Proof.
  destruct (encode_bytes fourth) as [Hb Hl]. pose proof (ge_frombytes_vartime_correct (encode fourth) Hb Hl) as H.
  destruct (ge_frombytes_vartime (encode fourth)) as [h|]; [|destruct (H fourth fourth_curve eq_refl)].
  destruct H as [P H]. exists h, P. split; [reflexivity|exact H].
Defined.

(** Every representative of a point of the curve, in projective or extended
    coordinates, is written as the same 32 bytes, and [ge_frombytes_vartime] reads the
    point back from them. *)
Theorem point_roundtrip P h2 h3 : curve P -> rep_p2 h2 P -> rep_p3 h3 P ->
  ge_tobytes h2 = ge_p3_tobytes h3 /\ exists h, ge_frombytes_vartime (ge_tobytes h2) = Some h /\ rep_p3 h P.
Proof.
  intros HP H2 H3. rewrite (ge_tobytes_ok h2 P), (ge_p3_tobytes_ok h3 P) by done. split; [done|].
  destruct (encode_bytes P) as [Hb Hl]. destruct (frombytes_cases (encode P) Hb Hl) as [(Q & h & HQ & E & Eh & Hh)|[_ Hno]]; [|by destruct (Hno P HP)].
  exists h. split; [exact Eh|]. replace P with Q; [by apply is_p3_rep|]. by apply encode_inj.
Qed.

Lemma point_roundtrip_witness :
  let h2 := ge_p3_to_p2 fourth_p3 in
  ge_tobytes h2 = ge_p3_tobytes fourth_p3 /\ exists h, ge_frombytes_vartime (ge_tobytes h2) = Some h /\ rep_p3 h fourth.
Proof.
  apply (point_roundtrip fourth); [apply fourth_curve| |apply fourth_rep].
  destruct fourth_rep as (z & U & [HX HY HZ _]). exists z. split; [exact U|]. split; assumption.
Defined.

End PointCodec.
