(* ===== verification/DoubleScalarMult.v ===== *)
(** Multiplications by two scalars at once, src/crypto/crypto-ops.c: the signed sliding
    window recoding [slide], the table of odd multiples [ge_dsm_precomp], and
    [ge_double_scalarmult_base_vartime] and [ge_double_scalarmult_precomp_vartime], which
    add [a * A] and [b * B]; and what the multiplication by the cofactor, [ge_mul8], computes. *)

From S2P Require Import Prelude.
From S2P Require Import Varint.
From S2P Require Import Serialization.
From S2P Require Import StraightLine.
From S2P Require Import CryptoOps.
From S2P Require Import Fe.
From S2P Require Import Ge.
From S2P Require Import Edwards.
From S2P Require Import ScalarMult.
From S2P Require Import BaseTables.
From S2P Require Import BasePoint.
From S2P Require Import PointCodec.
Import Stream StraightLine CryptoOps Fe Ge Edwards ScalarMult BaseTables BasePoint PointCodec.

Module DoubleScalarMult.

#[local] Open Scope list_scope.
#[local] Open Scope Z_scope.

(** ** The sliding window *)

(** [r[i] = 1 & (a[i >> 3] >> (i & 7))]. *)
Definition slide_bits (a : bytes) : list Z :=
  (fun i => s8 (Z.land 1 (Z.shiftr (a !!! (i / 8)%nat) (Z.of_nat (i mod 8))))) <$> seq 0 256.

(** [for (k = ...; k < 256; ++k)]: the zero that ends the run of ones becomes 1, the ones become 0. *)
Fixpoint propagate (fuel k : nat) (r : list Z) : list Z :=
  match fuel with
  | O => r
  | S fuel =>
      if (k <? 256)%nat then
        if r !!! k =? 0 then <[k := 1]> r else propagate fuel (S k) (<[k := 0]> r)
      else r
  end.

(** [for (b = 1; b <= 6 && i + b < 256; ++b)], from [b] on; [fuel] is [7 - b]. *)
Fixpoint absorb (fuel b i : nat) (r : list Z) : list Z :=
  match fuel with
  | O => r
  | S fuel =>
      if (b <=? 6)%nat && (i + b <? 256)%nat then
        if negb (r !!! (i + b)%nat =? 0) then
          let step := Z.shiftl (r !!! (i + b)%nat) (Z.of_nat b) in
          if r !!! i + step <=? 15 then
            absorb fuel (S b) i (<[(i + b)%nat := 0]> (<[i := s8 (r !!! i + step)]> r))
          else if -15 <=? r !!! i - step then
            absorb fuel (S b) i (propagate 256 (i + b) (<[i := s8 (r !!! i - step)]> r))
          else r
        else absorb fuel (S b) i r
      else r
  end.

Definition slide_step (r : list Z) (i : nat) : list Z := if negb (r !!! i =? 0) then absorb 6 1 i r else r.

Definition slide (a : bytes) : list Z := foldl slide_step (slide_bits a) (seq 0 256).

(** ** The multiplications *)

(** [ge_add(&t, &s2, &r[n]); ge_p1p1_to_p3(&u, &t); ge_p3_to_cached(&r[n + 1], &u)], [n] times. *)
Fixpoint odd_multiples (n : nat) (s2 : ge_p3) (c : ge_cached) : list ge_cached :=
  c :: match n with
       | O => []
       | S n => odd_multiples n s2 (ge_p3_to_cached (ge_p1p1_to_p3 (ge_add s2 c)))
       end.

Definition ge_dsm_precomp (s : ge_p3) : list ge_cached :=
  odd_multiples 7 (ge_p1p1_to_p3 (ge_p3_dbl s)) (ge_p3_to_cached s).

(** [if (x > 0) add Ai[x/2] else if (x < 0) subtract Ai[(-x)/2]]; reading outside the
    table is [None]. *)
Definition add_digit {E} (add sub : ge_p3 -> E -> ge_p1p1) (Ai : list E) (x : Z) (t : ge_p1p1) : option ge_p1p1 :=
  if 0 <? x then c ← Ai !! Z.to_nat (Z.quot x 2); Some (add (ge_p1p1_to_p3 t) c)
  else if x <? 0 then c ← Ai !! Z.to_nat (Z.quot (- x) 2); Some (sub (ge_p1p1_to_p3 t) c)
  else Some t.

(** [for (i = 255; i >= 0; --i) if (aslide[i] || bslide[i]) break]: the result is [i + 1]. *)
Fixpoint top_digit (aslide bslide : list Z) (n : nat) : nat :=
  match n with
  | O => O
  | S i => if negb (aslide !!! i =? 0) || negb (bslide !!! i =? 0) then n else top_digit aslide bslide i
  end.

(** [for (; i >= 0; --i)], [n = i + 1]. *)
Fixpoint double_loop {E} (add sub : ge_p3 -> E -> ge_p1p1) (Ai : list ge_cached) (Bi : list E) (aslide bslide : list Z)
    (n : nat) (r : ge_p2) : option ge_p2 :=
  match n with
  | O => Some r
  | S i =>
      let t := ge_p2_dbl r in
      t ← add_digit ge_add ge_sub Ai (aslide !!! i) t;
      t ← add_digit add sub Bi (bslide !!! i) t;
      double_loop add sub Ai Bi aslide bslide i (ge_p1p1_to_p2 t)
  end.

Definition ge_double_scalarmult_base_vartime (a : bytes) (A : ge_p3) (b : bytes) : option ge_p2 :=
  let aslide := slide a in
  let bslide := slide b in
  let Ai := ge_dsm_precomp A in
  double_loop ge_madd ge_msub Ai ge_Bi aslide bslide (top_digit aslide bslide 256) ge_p2_0.

Definition ge_double_scalarmult_precomp_vartime (a : bytes) (A : ge_p3) (b : bytes) (Bi : list ge_cached) : option ge_p2 :=
  let aslide := slide a in
  let bslide := slide b in
  let Ai := ge_dsm_precomp A in
  double_loop ge_add ge_sub Ai Bi aslide bslide (top_digit aslide bslide 256) ge_p2_0.

(** ** The window on the digits from [i] on *)

Definition is_bit (x : Z) : Prop := x = 0 \/ x = 1.

(** [propagate] on the digits from [k] on. *)
Fixpoint increment (ds : list Z) : list Z :=
  match ds with
  | [] => []
  | x :: ds => if x =? 0 then 1 :: ds else 0 :: increment ds
  end.

Lemma propagate_app fuel pre ds : (length pre + length ds = 256)%nat -> (length ds <= fuel)%nat ->
  propagate fuel (length pre) (pre ++ ds) = pre ++ increment ds.
Proof.
  revert pre ds. induction fuel as [|fuel IH]; intros pre [|x ds] Hl Hf; cbn [length] in *; try lia; cbn [propagate increment].
  - done.
  - destruct (Nat.ltb_spec (length pre) 256); [lia|done].
  - destruct (Nat.ltb_spec (length pre) 256); [|lia]. rewrite list_lookup_total_middle by done. destruct (x =? 0).
    + by rewrite insert_app_r_alt, Nat.sub_diag by lia.
    + rewrite insert_app_r_alt, Nat.sub_diag by lia. cbn [list_insert insert].
      specialize (IH (pre ++ [0]) ds). rewrite length_app, <- app_assoc in IH. cbn [length app] in IH.
      replace (length pre + 1)%nat with (S (length pre)) in IH by lia. rewrite IH by lia. by rewrite <- app_assoc.
Qed.

Lemma increment_spec ds : Forall is_bit ds -> radix 2 ds + 1 < 2 ^ Z.of_nat (length ds) ->
  radix 2 (increment ds) = radix 2 ds + 1 /\ Forall is_bit (increment ds) /\ length (increment ds) = length ds.
Proof.
  induction 1 as [|x ds Hx Hds IH]; intros Hv; [cbn in Hv; lia|]. cbn [increment radix length] in *.
  rewrite Nat2Z.inj_succ, Z.pow_succ_r in Hv by lia. destruct Hx as [-> | ->]; cbn [Z.eqb radix length].
  - split_and!; [lia|constructor; [by right|done]|done].
  - destruct IH as (E & F & L); [lia|]. split_and!; [lia|constructor; [by left|done]|lia].
Qed.

Lemma radix_bits ds : Forall is_bit ds -> 0 <= radix 2 ds.
Proof. induction 1 as [|x ds [-> | ->] _ IH]; cbn [radix]; lia. Qed.

Lemma radix_zeros n : radix 2 (replicate n 0) = 0.
Proof. induction n as [|n IH]; cbn [replicate radix]; lia. Qed.

(** The digit being built when [b] of the next digits have been looked at. *)
Definition window (b : nat) (x : Z) : Prop := Z.odd x = true /\ -15 <= x <= 15 /\ ((b <= 4)%nat -> 0 < x < 2 ^ Z.of_nat b).

(** A digit and the rest of the digits [n] positions from the end of the array, of value at most [2^n]. *)
Definition settled (v : Z) (n : nat) (x : Z) (tl : list Z) : Prop :=
  Z.odd x = true /\ -15 <= x <= 15 /\ Forall is_bit tl /\ length tl = n /\ x + 2 * radix 2 tl = v /\ 2 * radix 2 tl <= 2 ^ Z.of_nat n.

Lemma radix_zeros_app c tl : radix 2 (replicate c 0 ++ tl) = 2 ^ Z.of_nat c * radix 2 tl.
Proof. by rewrite radix_app, radix_zeros, length_replicate. Qed.

(** What remains is at most [2^n]: it is a multiple of 16 once the digit is negative. *)
Lemma window_settled c x tl : window (S c) x -> Forall is_bit tl -> x + 2 * 2 ^ Z.of_nat c * radix 2 tl <= 2 ^ Z.of_nat (c + length tl) ->
  settled (x + 2 * 2 ^ Z.of_nat c * radix 2 tl) (c + length tl) x (replicate c 0 ++ tl).
Proof.
  intros (Ho & Hx & Hw) Ht Hv. split_and!; try done; try lia.
  - apply Forall_app. split; [|done]. apply Forall_replicate. by left.
  - by rewrite length_app, length_replicate.
  - rewrite radix_zeros_app. ring.
  - rewrite radix_zeros_app. pose proof (radix_bits tl Ht). destruct (decide (0 < x)) as [|Hn]; [lia|].
    assert (4 <= c)%nat as Hc by (destruct (decide (S c <= 4)%nat) as [H4|]; [specialize (Hw H4); lia|lia]).
    replace (Z.of_nat (c + length tl)) with (4 + (Z.of_nat c - 4) + Z.of_nat (length tl)) in * by lia.
    replace (2 ^ Z.of_nat c) with (2 ^ 4 * 2 ^ (Z.of_nat c - 4)) in * by (rewrite <- Z.pow_add_r by lia; f_equal; lia).
    rewrite !Z.pow_add_r in * by lia. change (2 ^ 4) with 16 in *.
    set (m := 2 ^ (Z.of_nat c - 4)) in *. set (t := 2 ^ Z.of_nat (length tl)) in *. clearbody m t. lia.
Qed.

Lemma array_digit (pre : list Z) x tl : (pre ++ x :: tl) !!! length pre = x.
Proof. by apply list_lookup_total_middle. Qed.

Lemma array_next (pre : list Z) x c y tl : (pre ++ x :: replicate c 0 ++ y :: tl) !!! (length pre + S c)%nat = y.
Proof.
  rewrite lookup_total_app_r by lia. replace (length pre + S c - length pre)%nat with (S c) by lia.
  change (x :: replicate c 0 ++ y :: tl) with ((x :: replicate c 0) ++ y :: tl). apply list_lookup_total_middle. cbn [length]. by rewrite length_replicate.
Qed.

Lemma array_set (pre : list Z) x x' tl : <[length pre := x']> (pre ++ x :: tl) = pre ++ x' :: tl.
Proof. by rewrite insert_app_r_alt, Nat.sub_diag by lia. Qed.

(** The array seen from its next digit. *)
Lemma array_split (pre : list Z) x c tl : pre ++ x :: replicate c 0 ++ tl = (pre ++ x :: replicate c 0) ++ tl
  /\ length (pre ++ x :: replicate c 0) = (length pre + S c)%nat.
Proof. rewrite <- app_assoc, length_app. cbn [length app]. by rewrite length_replicate. Qed.

Lemma array_clear (pre : list Z) x c y tl : <[(length pre + S c)%nat := 0]> (pre ++ x :: replicate c 0 ++ y :: tl) = pre ++ x :: replicate (S c) 0 ++ tl.
Proof.
  destruct (array_split pre x c (y :: tl)) as [-> <-]. rewrite array_set. change (0 :: tl) with ([0] ++ tl).
  rewrite replicate_S_end, <- !app_assoc. done.
Qed.

Lemma array_propagate (pre : list Z) x c tl : (length pre + S (c + S (length tl)) = 256)%nat ->
  propagate 256 (length pre + S c) (pre ++ x :: replicate c 0 ++ 1 :: tl) = pre ++ x :: replicate (S c) 0 ++ increment tl.
Proof.
  intros Hl. destruct (array_split pre x c (1 :: tl)) as [-> <-]. rewrite propagate_app.
  - cbn [increment Z.eqb]. rewrite replicate_S_end, <- !app_assoc. done.
  - rewrite length_app. cbn [length] in *. rewrite length_replicate. lia.
  - cbn [length] in *. lia.
Qed.

Lemma window_skip b x : window b x -> window (S b) x.
Proof. intros (Ho & Hx & Hw). split_and!; try done; try lia. intros Hb. specialize (Hw ltac:(lia)). rewrite Nat2Z.inj_succ, Z.pow_succ_r by lia. lia. Qed.

Lemma odd_even x k : Z.odd x = true -> Z.odd (x + 2 * k) = true.
Proof. intros H. by rewrite Z.odd_add, Z.odd_mul, H. Qed.

Lemma absorb_spec fuel c pre x tl : (fuel + S c = 7)%nat -> (length pre + S (c + length tl) = 256)%nat -> window (S c) x -> Forall is_bit tl ->
  x + 2 * 2 ^ Z.of_nat c * radix 2 tl <= 2 ^ Z.of_nat (c + length tl) ->
  exists x' tl', absorb fuel (S c) (length pre) (pre ++ x :: replicate c 0 ++ tl) = pre ++ x' :: tl'
    /\ settled (x + 2 * 2 ^ Z.of_nat c * radix 2 tl) (c + length tl) x' tl'.
Proof.
  revert c x tl. induction fuel as [|fuel IH]; intros c x tl Hf Hl Hw Ht Hv; cbn [absorb].
  { eexists _, _. split; [done|]. by apply window_settled. }
  destruct (Nat.leb_spec (S c) 6); [|lia]. cbn [andb]. destruct tl as [|y tl].
  { destruct (Nat.ltb_spec (length pre + S c) 256); [cbn [length] in Hl; lia|]. eexists _, _. split; [done|]. by apply window_settled. }
  cbn [length] in Hl. destruct (Nat.ltb_spec (length pre + S c) 256); [|lia]. rewrite array_next, array_digit.
  pose proof Ht as [Hy Ht']%Forall_cons.
  assert (forall x1 tl1, length tl1 = length tl -> window (S (S c)) x1 -> Forall is_bit tl1 ->
    x1 + 2 * 2 ^ Z.of_nat (S c) * radix 2 tl1 = x + 2 * 2 ^ Z.of_nat c * radix 2 (y :: tl) ->
    exists x' tl', absorb fuel (S (S c)) (length pre) (pre ++ x1 :: replicate (S c) 0 ++ tl1) = pre ++ x' :: tl'
    /\ settled (x + 2 * 2 ^ Z.of_nat c * radix 2 (y :: tl)) (c + length (y :: tl)) x' tl') as next.
  { intros x1 tl1 El Hx1 Ht1 Ev. cbn [length] in *. replace (c + S (length tl))%nat with (S c + length tl1)%nat in * by lia. rewrite <- Ev in Hv |- *.
    apply IH; (done || lia). }
  assert (2 ^ Z.of_nat (S c) = 2 * 2 ^ Z.of_nat c) as Ec by (rewrite Nat2Z.inj_succ, Z.pow_succ_r by lia; done).
  pose proof Hw as (Ho & Hx & Hw'). destruct Hy as [-> | ->]; cbn [Z.eqb negb].
  - change (0 :: tl) with ([0] ++ tl). rewrite (app_assoc (replicate c 0)), <- replicate_S_end.
    apply next; [done|by apply window_skip|done|]. cbn [radix]. rewrite Ec. ring.
  - rewrite Z.shiftl_mul_pow2, Z.mul_1_l by lia. destruct (Z.leb_spec (x + 2 ^ Z.of_nat (S c)) 15) as [H15|H15].
    + rewrite array_set, array_clear, s8_small by lia. apply next; [done| |done|cbn [radix]; rewrite Ec; ring].
      split_and!; [rewrite Ec; by apply odd_even|lia|lia|]. intros Hc. specialize (Hw' ltac:(lia)). rewrite (Nat2Z.inj_succ (S c)), Z.pow_succ_r by lia. lia.
    + destruct (Z.leb_spec (-15) (x - 2 ^ Z.of_nat (S c))) as [Hm|Hm]; [|eexists _, _; split; [done|by apply window_settled]].
      rewrite array_set, array_propagate, s8_small by lia. assert (c = 3%nat) as ->.
      { destruct c as [|[|[|[|[|[|c]]]]]]; try done; cbn in *; lia. }
      specialize (Hw' ltac:(lia)). change (2 ^ Z.of_nat 4) with 16 in *. change (2 ^ Z.of_nat 3) with 8 in *. cbn [radix length] in Hv.
      replace (Z.of_nat (3 + S (length tl))) with (4 + Z.of_nat (length tl)) in Hv by lia. rewrite Z.pow_add_r in Hv by lia.
      pose proof (radix_bits tl Ht'). destruct (increment_spec tl Ht') as (Ei & Fi & Li); [lia|].
      apply next; [done| |done|cbn [radix]; lia]. split_and!; [|lia..]. replace (x - 16) with (x + 2 * -8) by lia. by apply odd_even.
Qed.

(** The digits that are done, and the bits to come. *)
Definition is_digit (x : Z) : Prop := x = 0 \/ Z.odd x = true /\ -15 <= x <= 15.

Lemma slide_step_spec pre tl : (length pre + length tl = 256)%nat -> Forall is_digit pre -> Forall is_bit tl -> tl <> [] ->
  2 * radix 2 tl <= 2 ^ Z.of_nat (length tl) ->
  exists x tl', slide_step (pre ++ tl) (length pre) = pre ++ x :: tl' /\ is_digit x /\ Forall is_bit tl' /\ S (length tl') = length tl
    /\ x + 2 * radix 2 tl' = radix 2 tl /\ 2 * radix 2 tl' <= 2 ^ Z.of_nat (length tl').
Proof.
  intros Hl Hpre Ht Hne Hv. destruct tl as [|x tl]; [done|]. apply Forall_cons in Ht as [Hx Ht]. cbn [length radix] in *.
  rewrite Nat2Z.inj_succ, Z.pow_succ_r in Hv by lia. unfold slide_step. rewrite array_digit. destruct Hx as [-> | ->]; cbn [Z.eqb negb].
  - exists 0, tl. split_and!; [done|by left|done|done|lia|lia].
  - destruct (absorb_spec 6 0 pre 1 tl) as (x & tl' & E & Ho & Hx & Ht' & Ll & Ev & Hv'); [done|cbn; lia|by split_and!|done|cbn [Nat.add]; lia|].
    exists x, tl'. cbn [Nat.add replicate app] in *. split_and!; [done|by right|done|lia|lia|by rewrite Ll].
Qed.

Lemma slide_loop_spec n pre tl : length tl = n -> (length pre + n = 256)%nat -> Forall is_digit pre -> Forall is_bit tl ->
  2 * radix 2 tl <= 2 ^ Z.of_nat n ->
  let r := foldl slide_step (pre ++ tl) (seq (length pre) n) in
  length r = 256%nat /\ Forall is_digit r /\ radix 2 r = radix 2 (pre ++ tl).
Proof.
  revert pre tl. induction n as [|n IH]; intros pre tl Hn Hl Hpre Ht Hv.
  - destruct tl; [|done]. cbn [seq foldl]. rewrite app_nil_r. split_and!; [lia|done|done].
  - cbn [seq foldl]. destruct (slide_step_spec pre tl) as (x & tl' & -> & Hx & Ht' & Hl' & Ev & Hv'); [lia|done..|by destruct tl|by rewrite Hn|].
    specialize (IH (pre ++ [x]) tl'). rewrite length_app, <- app_assoc in IH. cbn [length app] in IH.
    replace (length pre + 1)%nat with (S (length pre)) in IH by lia. destruct IH as (L & F & E); [lia|lia| |done|by replace n with (length tl') by lia|].
    + apply Forall_app. split; [done|]. by constructor.
    + cbv zeta. split_and!; [done|done|]. rewrite E, !radix_app. cbn [radix]. by rewrite Ev.
Qed.

Definition byte_bits (x : Z) : list Z := (fun i => s8 (Z.land 1 (Z.shiftr x (Z.of_nat i)))) <$> seq 0 8.

Lemma byte_bits_spec x : is_u8 x -> radix 2 (byte_bits x) = x /\ Forall is_bit (byte_bits x).
Proof.
  intros Hx. assert (Forall (fun x => radix 2 (byte_bits x) = x /\ Forall (fun y => y = 0 \/ y = 1) (byte_bits x)) (seqZ 0 256)) as H by bytes_compute.
  rewrite Forall_forall in H. apply H, elem_of_seqZ. unfold is_u8 in Hx. lia.
Qed.

Definition slide_bits_of (a : bytes) (n : nat) : list Z :=
  (fun i => s8 (Z.land 1 (Z.shiftr (a !!! (i / 8)%nat) (Z.of_nat (i mod 8))))) <$> seq 0 (8 * n).

Lemma slide_bits_cons x a n : slide_bits_of (x :: a) (S n) = byte_bits x ++ slide_bits_of a n.
Proof.
  unfold slide_bits_of. replace (8 * S n)%nat with (8 + 8 * n)%nat by lia. rewrite seq_app, fmap_app. f_equal.
  change (0 + 8)%nat with (8 + 0)%nat. rewrite <- fmap_add_seq, <- list_fmap_compose. apply list_fmap_ext. intros _ i _. cbn [compose].
  unfold compose. replace (8 + i)%nat with (i + 1 * 8)%nat by lia. rewrite Nat.div_add, Nat.Div0.mod_add by lia.
  by replace (i / 8 + 1)%nat with (S (i / 8)) by lia.
Qed.

Lemma slide_bits_spec a : is_bytes a -> radix 2 (slide_bits_of a (length a)) = le_value a /\ Forall is_bit (slide_bits_of a (length a)).
Proof.
  induction 1 as [|x a Hx Ha [IH1 IH2]]; [by split; [|constructor]|]. cbn [length le_value]. rewrite slide_bits_cons.
  destruct (byte_bits_spec x Hx) as [E F]. rewrite radix_app, E, IH1. split; [change (2 ^ Z.of_nat (length (byte_bits x))) with 256; lia|].
  by apply Forall_app.
Qed.

Lemma scalar_range a : is_bytes a -> length a = 32%nat -> a !!! 31%nat <= 127 -> 0 <= le_value a < 2 ^ 255.
Proof.
  intros Ha Hl Hlast. rewrite (last_byte a Hl). assert (is_u8 (a !!! 31%nat)) as H by (apply Forall_lookup_total_1; [done|lia]). unfold is_u8 in H.
  pose proof (le_value_range (take 31 a) ltac:(by apply Forall_take)) as Hr. rewrite length_take_le in Hr by lia.
  change (256 ^ Z.of_nat 31) with (2 ^ 248) in Hr. lia.
Qed.

Lemma slide_spec a : is_bytes a -> length a = 32%nat -> a !!! 31%nat <= 127 ->
  length (slide a) = 256%nat /\ Forall is_digit (slide a) /\ radix 2 (slide a) = le_value a.
Proof.
  intros Ha Hl Hlast. destruct (slide_bits_spec a Ha) as [Ev Hb]. rewrite Hl in Ev, Hb. unfold slide.
  change (slide_bits a) with (slide_bits_of a 32). rewrite <- Ev. refine (slide_loop_spec 256 [] (slide_bits_of a 32) _ eq_refl (Forall_nil_2 _) Hb _).
  - unfold slide_bits_of. by rewrite length_fmap, length_seq.
  - rewrite Ev. pose proof (scalar_range a Ha Hl Hlast). lia.
Qed.

(** ** Adding a digit *)

Lemma adds_eqm P Q Q' R : point_eqm Q Q' -> adds P Q R -> adds P Q' R.
Proof. intros [Hx Hy]. unfold adds. intros (H1 & H2 & H3 & H4). rewrite <- !Hx, <- !Hy. done. Qed.

Lemma padd_neg P Q : curve P -> curve Q -> adds P (neg Q) (padd P (popp Q)).
Proof. intros HP HQ. eapply adds_eqm; [apply popp_neg|]. apply padd_adds; [apply HP|apply popp_curve, HQ]. Qed.

Lemma cached_add u c U C : rep_p3 u U -> rep_cached c C -> curve U -> curve C -> rep_p1p1 (ge_add u c) (padd U C).
Proof. intros Hu Hc HU HC. eapply add_rep; [done..|]. apply padd_adds; [apply HU|apply HC]. Qed.

Lemma cached_sub u c U C : rep_p3 u U -> rep_cached c C -> curve U -> curve C -> rep_p1p1 (ge_sub u c) (padd U (popp C)).
Proof.
  intros (z & Uz & Hu) (w & Uw & Hc) HU HC. pose proof (padd_neg U C HU HC) as L. pose proof L as (_ & _ & U1 & U2).
  exists (2 * (z * w) * (1 + law_e U (neg C))), (2 * (z * w) * (1 - law_e U (neg C))).
  split_and!; [| |by apply ge_sub_ok]; repeat apply unit_mul; try done; apply unit_2.
Qed.

Lemma precomp_add u c U C : rep_p3 u U -> is_precomp c C -> curve U -> curve C -> rep_p1p1 (ge_madd u c) (padd U C).
Proof. intros Hu Hc HU HC. eapply madd_rep; [done..|]. apply padd_adds; [apply HU|apply HC]. Qed.

Lemma precomp_sub u c U C : rep_p3 u U -> is_precomp c C -> curve U -> curve C -> rep_p1p1 (ge_msub u c) (padd U (popp C)).
Proof.
  intros (z & Uz & Hu) Hc HU HC. pose proof (padd_neg U C HU HC) as L. pose proof L as (_ & _ & U1 & U2).
  exists (2 * z * (1 + law_e U (neg C))), (2 * z * (1 - law_e U (neg C))).
  split_and!; [| |by apply ge_msub_ok]; repeat apply unit_mul; try done; apply unit_2.
Qed.

#[local] Hint Resolve padd_curve popp_curve neutral_curve zmul_curve : core.

Section digits.
Context {E : Type} (add sub : ge_p3 -> E -> ge_p1p1) (valid : E -> point -> Prop).
Context (add_ok : forall u c U C, rep_p3 u U -> valid c C -> curve U -> curve C -> rep_p1p1 (add u c) (padd U C)).
Context (sub_ok : forall u c U C, rep_p3 u U -> valid c C -> curve U -> curve C -> rep_p1p1 (sub u c) (padd U (popp C))).

(** The table of the odd multiples [P, 3 P, ..., 15 P]. *)
Definition odd_table (P : point) (Ai : list E) : Prop := Forall2 (fun i c => valid c (zmul (2 * i + 1) P)) (seqZ 0 8) Ai.

Lemma odd_table_lookup P Ai x : odd_table P Ai -> Z.odd x = true -> 0 < x <= 15 ->
  exists c, Ai !! Z.to_nat (Z.quot x 2) = Some c /\ valid c (zmul x P).
Proof.
  intros HA Ho Hx. rewrite Z.quot_div_nonneg by lia. pose proof (Z.div_mod x 2 ltac:(lia)) as E1. rewrite Zmod_odd, Ho in E1.
  destruct (Forall2_lookup_l _ _ _ (Z.to_nat (x / 2)) (x / 2) HA) as (c & Hc & Hv).
  - apply lookup_seqZ. lia.
  - exists c. split; [done|]. by replace x with (2 * (x / 2) + 1) by lia.
Qed.

Lemma add_digit_spec P Ai x t T : curve P -> odd_table P Ai -> is_digit x -> rep_p1p1 t T -> curve T ->
  exists t', add_digit add sub Ai x t = Some t' /\ rep_p1p1 t' (padd T (zmul x P)).
Proof.
  intros HP HA Hx Ht HT. unfold add_digit. destruct Hx as [-> |[Ho Hx]]; [cbn; eexists; split; [done|]; by rewrite padd_neutral_r|].
  assert (x <> 0) by (by intros ->). destruct (Z.ltb_spec 0 x); [|destruct (Z.ltb_spec x 0); [|lia]].
  - destruct (odd_table_lookup P Ai x HA Ho) as (c & -> & Hc); [lia|]. eexists. split; [done|]. apply add_ok; auto using to_p3_rep.
  - destruct (odd_table_lookup P Ai (- x) HA) as (c & -> & Hc); [by rewrite Z.odd_opp|lia|]. eexists. split; [done|].
    replace (zmul x P) with (popp (zmul (- x) P)) by (rewrite zmul_opp by done; by apply popp_popp, zmul_curve). apply sub_ok; auto using to_p3_rep.
Qed.
End digits.

(** ** The loop *)

Lemma odd_multiples_spec n s2 c P k : curve P -> rep_p3 s2 (zmul 2 P) -> rep_cached c (zmul (2 * k + 1) P) ->
  Forall2 (fun i c => rep_cached c (zmul (2 * i + 1) P)) (seqZ k (Z.of_nat (S n))) (odd_multiples n s2 c).
Proof.
  intros HP H2. revert c k. induction n as [|n IH]; intros c k Hc; rewrite seqZ_cons by lia; constructor; try done.
  replace (Z.pred (Z.of_nat (S (S n)))) with (Z.of_nat (S n)) by lia. apply IH, to_cached_rep, to_p3_rep.
  replace (2 * Z.succ k + 1) with (2 + (2 * k + 1)) by lia. rewrite zmul_add by done. apply cached_add; auto.
Qed.

Lemma ge_dsm_precomp_spec A P : curve P -> rep_p3 A P -> odd_table rep_cached P (ge_dsm_precomp A).
Proof.
  intros HP HA. apply (odd_multiples_spec 7); [done|by apply to_p3_rep, p3_dbl_rep|by apply to_cached_rep].
Qed.

Lemma combination_curve P Q u v : curve P -> curve Q -> curve (combination P Q (u, v)).
Proof. intros HP HQ. unfold combination. auto. Qed.

Lemma combination_step P Q u v x y : curve P -> curve Q ->
  padd (padd (padd (combination P Q (u, v)) (combination P Q (u, v))) (zmul x P)) (zmul y Q) = combination P Q (x + 2 * u, y + 2 * v).
Proof.
  intros HP HQ. unfold combination. cbn [fst snd]. set (U := zmul u P). set (V := zmul v Q). set (X := zmul x P). set (Y := zmul y Q).
  assert (curve U /\ curve V /\ curve X /\ curve Y) as (CU & CV & CX & CY) by (split_and!; by apply zmul_curve).
  replace (2 * u) with (u + u) by lia. replace (2 * v) with (v + v) by lia. rewrite !zmul_add by done. fold U V X Y.
  rewrite !(padd_assoc U), !(padd_assoc V), !(padd_assoc X), !(padd_assoc U) by auto. rewrite (padd_swap X U) by auto. f_equal.
  rewrite (padd_swap V U), (padd_swap X U) by auto. f_equal.
  rewrite <- (padd_assoc X), (padd_assoc V X), <- (padd_assoc V V) by auto. apply padd_comm.
Qed.

Lemma radix_take_S xs i : (i < length xs)%nat -> radix 2 (take (S i) xs) = radix 2 (take i xs) + 2 ^ Z.of_nat i * (xs !!! i).
Proof.
  intros H. rewrite (take_S_r xs i (xs !!! i)) by by apply list_lookup_lookup_total_lt. rewrite radix_app, length_take_le by lia. cbn [radix]. lia.
Qed.

Lemma top_digit_spec as_ bs n : (n <= length as_)%nat -> (n <= length bs)%nat ->
  (top_digit as_ bs n <= n)%nat /\ radix 2 (take (top_digit as_ bs n) as_) = radix 2 (take n as_) /\ radix 2 (take (top_digit as_ bs n) bs) = radix 2 (take n bs).
Proof.
  induction n as [|n IH]; intros Ha Hb; [done|]. cbn [top_digit]. destruct (Z.eqb_spec (as_ !!! n) 0) as [Ea|]; [|done].
  destruct (Z.eqb_spec (bs !!! n) 0) as [Eb|]; [|done]. cbn [negb orb]. rewrite !radix_take_S, Ea, Eb by lia. destruct IH as (H1 & H2 & H3); [lia..|]. lia.
Qed.

Section loop.
Context {E : Type} (add sub : ge_p3 -> E -> ge_p1p1) (valid : E -> point -> Prop).
Context (add_ok : forall u c U C, rep_p3 u U -> valid c C -> curve U -> curve C -> rep_p1p1 (add u c) (padd U C)).
Context (sub_ok : forall u c U C, rep_p3 u U -> valid c C -> curve U -> curve C -> rep_p1p1 (sub u c) (padd U (popp C))).
Context (P Q : point) (HP : curve P) (HQ : curve Q) (Ai : list ge_cached) (HA : odd_table rep_cached P Ai) (Bi : list E) (HB : odd_table valid Q Bi).

Lemma double_loop_spec as_ bs n r u v : Forall is_digit as_ -> Forall is_digit bs -> (n <= length as_)%nat -> (n <= length bs)%nat ->
  rep_p2 r (combination P Q (u, v)) ->
  exists r', double_loop add sub Ai Bi as_ bs n r = Some r'
    /\ rep_p2 r' (combination P Q (radix 2 (take n as_) + 2 ^ Z.of_nat n * u, radix 2 (take n bs) + 2 ^ Z.of_nat n * v)).
Proof.
  intros Fa Fb. revert r u v. induction n as [|n IH]; intros r u v La Lb Hr.
  - eexists. split; [done|]. cbn [take radix]. by rewrite !Z.mul_1_l, !Z.add_0_l.
  - cbn [double_loop]. pose proof (combination_curve P Q u v HP HQ) as HR.
    set (R := combination P Q (u, v)) in *.
    destruct (add_digit_spec ge_add ge_sub rep_cached cached_add cached_sub P Ai (as_ !!! n) (ge_p2_dbl r) (padd R R) HP HA) as (t & -> & Ht);
      [apply Forall_lookup_total_1; [done|lia]|by apply p2_dbl_rep|auto|]. cbn [mbind option_bind].
    destruct (add_digit_spec add sub valid add_ok sub_ok Q Bi (bs !!! n) t (padd (padd R R) (zmul (as_ !!! n) P)) HQ HB) as (t' & -> & Ht');
      [apply Forall_lookup_total_1; [done|lia]|done|auto|]. cbn [mbind option_bind]. unfold R in Ht'. rewrite combination_step in Ht' by done.
    destruct (IH (ge_p1p1_to_p2 t') (as_ !!! n + 2 * u) (bs !!! n + 2 * v)) as (r' & -> & Hr'); [lia..|by apply to_p2_rep|].
    eexists. split; [done|]. rewrite !radix_take_S, Nat2Z.inj_succ, Z.pow_succ_r by lia.
    match type of Hr' with rep_p2 _ (combination _ _ (?x, ?y)) => match goal with |- rep_p2 _ (combination _ _ (?x', ?y')) =>
      replace x' with x by ring; replace y' with y by ring end end. done.
Qed.

Lemma double_scalarmult_spec a b : is_bytes a -> length a = 32%nat -> a !!! 31%nat <= 127 -> is_bytes b -> length b = 32%nat -> b !!! 31%nat <= 127 ->
  exists r, double_loop add sub Ai Bi (slide a) (slide b) (top_digit (slide a) (slide b) 256) ge_p2_0 = Some r
    /\ rep_p2 r (padd (zmul (le_value a) P) (zmul (le_value b) Q)).
Proof.
  intros Ha La Ta Hb Lb Tb. destruct (slide_spec a Ha La Ta) as (L1 & F1 & E1). destruct (slide_spec b Hb Lb Tb) as (L2 & F2 & E2).
  destruct (top_digit_spec (slide a) (slide b) 256) as (Ht & R1 & R2); [by rewrite L1|by rewrite L2|].
  destruct (double_loop_spec (slide a) (slide b) (top_digit (slide a) (slide b) 256) ge_p2_0 0 0) as (r & -> & Hr);
    [done..|by rewrite L1|by rewrite L2| |].
  - unfold combination. cbn [fst snd zmul]. rewrite padd_neutral by auto. apply neutral_p2.
  - eexists. split; [done|]. rewrite R1, R2, !take_ge, E1, E2, !Z.mul_0_r, !Z.add_0_r in Hr by lia. exact Hr.
Qed.
End loop.

Lemma ge_mul8_rep t P : rep_p2 t P -> curve P -> rep_p1p1 (ge_mul8 t) (zmul 8 P).
Proof.
  intros Ht HP. replace (zmul 8 P) with (padd (padd (padd P P) (padd P P)) (padd (padd P P) (padd P P))).
  - apply p2_dbl_rep; [|auto]. apply to_p2_rep, p2_dbl_rep; [|auto]. by apply to_p2_rep, p2_dbl_rep.
  - replace P with (zmul 1 P) at 1 2 3 4 5 6 7 8 by done. by rewrite <- !zmul_add.
Qed.

Lemma double_base_rep P a A b : curve P -> rep_p3 A P -> is_bytes a -> length a = 32%nat -> a !!! 31%nat <= 127 ->
  is_bytes b -> length b = 32%nat -> b !!! 31%nat <= 127 ->
  exists r, ge_double_scalarmult_base_vartime a A b = Some r /\ rep_p2 r (padd (zmul (le_value a) P) (zmul (le_value b) B)).
Proof.
  intros HP HA Ha La Ta Hb Lb Tb. unfold ge_double_scalarmult_base_vartime. cbv zeta.
  apply (double_scalarmult_spec _ _ is_precomp precomp_add precomp_sub P B HP B_curve); [by apply ge_dsm_precomp_spec|apply ge_Bi_holds|done..].
Qed.

Lemma double_precomp_rep P Q a A b Bi : curve P -> curve Q -> rep_p3 A P -> odd_table rep_cached Q Bi ->
  is_bytes a -> length a = 32%nat -> a !!! 31%nat <= 127 -> is_bytes b -> length b = 32%nat -> b !!! 31%nat <= 127 ->
  exists r, ge_double_scalarmult_precomp_vartime a A b Bi = Some r /\ rep_p2 r (padd (zmul (le_value a) P) (zmul (le_value b) Q)).
Proof.
  intros HP HQ HA HB Ha La Ta Hb Lb Tb. unfold ge_double_scalarmult_precomp_vartime. cbv zeta.
  apply (double_scalarmult_spec _ _ rep_cached cached_add cached_sub P Q HP HQ); [by apply ge_dsm_precomp_spec|done..].
Qed.

(** C25: the double multiplications, with the recoding of both scalars into signed
    digits.  For 32-byte scalars whose last byte is at most 127 and points of the curve,
    [ge_double_scalarmult_base_vartime] returns [a P + b B] and
    [ge_double_scalarmult_precomp_vartime], given the table [ge_dsm_precomp] builds for
    [Q], returns [a P + b Q]: no digit reads outside its table. *)
Theorem ge_double_scalarmult_correct P Q a A b C : curve P -> curve Q -> rep_p3 A P -> rep_p3 C Q ->
  is_bytes a -> length a = 32%nat -> a !!! 31%nat <= 127 -> is_bytes b -> length b = 32%nat -> b !!! 31%nat <= 127 ->
  (exists r, ge_double_scalarmult_base_vartime a A b = Some r /\ rep_p2 r (padd (zmul (le_value a) P) (zmul (le_value b) B)))
  /\ exists r, ge_double_scalarmult_precomp_vartime a A b (ge_dsm_precomp C) = Some r
      /\ rep_p2 r (padd (zmul (le_value a) P) (zmul (le_value b) Q)).
Proof. intros. split; [by apply double_base_rep|]. apply double_precomp_rep; try done. by apply ge_dsm_precomp_spec. Qed.

Lemma ge_double_scalarmult_correct_witness : let a := 200 :: replicate 31 127 in let b := replicate 31 255 ++ [100] in
  (exists r, ge_double_scalarmult_base_vartime a fourth_p3 b = Some r /\ rep_p2 r (padd (zmul (le_value a) fourth) (zmul (le_value b) B)))
  /\ exists r, ge_double_scalarmult_precomp_vartime a fourth_p3 b (ge_dsm_precomp fourth_p3) = Some r
      /\ rep_p2 r (padd (zmul (le_value a) fourth) (zmul (le_value b) fourth)).
Proof.
  apply (ge_double_scalarmult_correct fourth fourth);
    [apply fourth_curve|apply fourth_curve|apply fourth_rep|apply fourth_rep|bytes_compute|reflexivity|vm_compute; discriminate
    |bytes_compute|reflexivity|vm_compute; discriminate].
Defined.

End DoubleScalarMult.
