(* ===== verification/HashToPoint.v ===== *)
(** Hashing to the curve, src/crypto/crypto-ops.c: [ge_fromfe_frombytes_vartime] maps any
    32 bytes to a point of the curve.  None of its assertions fails, the test of the
    curve equation at its end included. *)

From Stdlib Require Import Znumtheory Zpow_facts.
From S2P Require Import Prelude.
From S2P Require Import Varint.
From S2P Require Import Serialization.
From S2P Require Import StraightLine.
From S2P Require Import CryptoOps.
From S2P Require Import Fe.
From S2P Require Import Ge.
From S2P Require Import Edwards.
From S2P Require Import ScalarMult.
From S2P Require Import PointCodec.
Import Stream StraightLine CryptoOps Fe Ge Edwards ScalarMult PointCodec.

Module HashToPoint.

#[local] Open Scope list_scope.
#[local] Open Scope Z_scope.

(** ** The constants *)

Definition fe_ma2 : fe := [-12721188; -3529; 0; 0; 0; 0; 0; 0; 0; 0].
Definition fe_ma : fe := [-486662; 0; 0; 0; 0; 0; 0; 0; 0; 0].
Definition fe_fffb1 : fe := [-31702527; -2466483; -26106795; -12203692; -12169197; -321052; 14850977; -10296299; -16929438; -407568].
Definition fe_fffb2 : fe := [8166131; -6741800; -17040804; 3154616; 21461005; 1466302; -30876704; -6368709; 10503587; -13363080].
Definition fe_fffb3 : fe := [-13620103; 14639558; 4532995; 7679154; 16815101; -15883539; -22863840; -14813421; 13716513; -6477756].
Definition fe_fffb4 : fe := [-21786234; -12173074; 21573800; 4524538; -4645904; 16204591; 8012863; -8444712; 3212926; 6885324].

(** ** The map *)

(** The cases up to [setsign], given the candidate [X] and [x = X^2 x]: they give
    [r->X], [z] and [sign]; the assertion that the last case is the only one left is
    [None]. *)
Definition choose_case (u v w X x : fe) : option (fe * fe * Z) :=
  let y := fe_sub w x in
  let z := fe_copy fe_ma in
  if negb (fe_isnonzero y =? 0) then
    let y := fe_add w x in
    if negb (fe_isnonzero y =? 0) then
      let x := fe_mul x fe_sqrtm1 in
      let y := fe_sub w x in
      if negb (fe_isnonzero y =? 0) then
        if fe_isnonzero (fe_add w x) =? 0 then Some (fe_mul X fe_fffb3, z, 1) else None
      else Some (fe_mul X fe_fffb4, z, 1)
    else Some (fe_mul (fe_mul X fe_fffb1) u, fe_mul z v, 0)
  else Some (fe_mul (fe_mul X fe_fffb2) u, fe_mul z v, 0).

Definition choose_root (u v w x : fe) : option (fe * fe * Z) :=
  let X := fe_divpowm1 w x in
  let y := fe_sq X in
  let x := fe_mul y x in
  choose_case u v w X x.

(** The test of the curve equation, compiled without [NDEBUG]. *)
Definition check_point (X Y Z : fe) : bool :=
  let check_iz := fe_invert Z in
  let check_x := fe_mul X check_iz in
  let check_y := fe_mul Y check_iz in
  let check_x := fe_sq check_x in
  let check_y := fe_sq check_y in
  let check_v := fe_mul check_x check_y in
  let check_v := fe_mul fe_d check_v in
  let check_v := fe_add check_v check_x in
  let check_v := fe_sub check_v check_y in
  let check_x := fe_1 in
  let check_v := fe_add check_v check_x in
  fe_isnonzero check_v =? 0.

(** The last step, after the sign is set. *)
Definition finish_point (X z w : fe) : option ge_p2 :=
  let Z := fe_add z w in
  let Y := fe_sub z w in
  let X := fe_mul X Z in
  if check_point X Y Z then Some (P2 X Y Z) else None.

Definition ge_fromfe_frombytes_vartime (s : bytes) : option ge_p2 :=
  let u := fe_carry (load_fe s (load_3 (drop 29 s))) in
  let v := fe_sq2 u in
  let w := fe_1 in
  let w := fe_add v w in
  let x := fe_sq w in
  let y := fe_mul fe_ma2 v in
  let x := fe_add x y in
  '(X, z, sign) ← choose_root u v w x;
  X ← adjust_sign X sign;
  finish_point X z w.

(** The steps of the map are unfolded before the field operations in them. *)
#[local] Strategy expand [choose_root check_point ge_fromfe_frombytes_vartime].

(** ** Squares *)

Definition i : Z := value fe_sqrtm1.

Lemma i_square : i * i ≡p -1.
Proof. apply sqrtm1_value. Qed.

(** If 2 were a square then so were [i = (1 + i)^2 / 2], whose fourth power is 1 and
    not the power of an odd exponent of [-1]. *)
Lemma two_not_square s : ~ s * s ≡p 2.
Proof.
  intros H. assert (unit s) as [c Hc].
  { destruct (zero_or_unit s) as [H0|]; [|done]. rewrite H0 in H. vm_compute in H. discriminate H. }
  set (q := (1 + i) * c). assert (q ^ 4 ≡p -1) as Hq.
  { assert (q * q ≡p i) as Hi.
    { apply (cancel_l 2); [apply unit_2|]. transitivity ((1 + 2 * i + i * i) * (c * c) * (s * s)); [rewrite H; apply eq_eqm; unfold q; ring|].
      transitivity ((1 + 2 * i + i * i) * ((c * s) * (c * s))); [apply eq_eqm; ring|]. rewrite Hc, i_square. apply eq_eqm. ring. }
    transitivity (q * q * (q * q)); [apply eq_eqm; ring|]. rewrite Hi. apply i_square. }
  assert (~ q ≡p 0) as Hn.
  { intros H0. assert (q ^ 4 ≡p 0) as H4 by (transitivity (q * (q * (q * q))); [apply eq_eqm; ring|]; rewrite H0; done).
    rewrite Hq in H4. vm_compute in H4. discriminate H4. }
  pose proof (fermat_p q Hn) as Hf. assert (exists k, 0 <= k /\ p - 1 = 4 * (2 * k + 1)) as (k & Hk & Ek).
  { exists (2 ^ 252 - 3). split; [vm_compute; discriminate|vm_compute; reflexivity]. }
  rewrite Ek, Z.pow_mul_r in Hf by lia. rewrite (pow_eqm _ _ (2 * k + 1) ltac:(lia) Hq) in Hf.
  rewrite Z.pow_add_r, Z.pow_mul_r, Z.pow_1_l in Hf by lia. vm_compute in Hf. discriminate Hf.
Qed.

Lemma fourth_roots t : t * t * (t * t) ≡p 1 -> t ≡p 1 \/ t ≡p -1 \/ t ≡p i \/ t ≡p - i.
Proof.
  intros H. assert (forall a b, a - b ≡p 0 -> a ≡p b) as sub_zero.
  { intros a b E. transitivity (a - b + b); [apply eq_eqm; ring|]. by rewrite E. }
  destruct (mul_zero (t * t - 1) (t * t + 1)) as [E|E].
  - transitivity (t * t * (t * t) - 1); [apply eq_eqm; ring|]. rewrite H. done.
  - destruct (mul_zero (t - 1) (t - -1)) as [F|F]; [rewrite <- E; apply eq_eqm; ring|..]; auto.
  - destruct (mul_zero (t - i) (t - - i)) as [F|F]; [|auto 6..].
    transitivity (t * t + 1 - (i * i + 1)); [apply eq_eqm; ring|]. rewrite E, i_square. done.
Qed.

(** The candidate root of [w / x], squared, is [w / x] times a fourth root of one. *)
Lemma root_cases w x : unit w -> unit x -> let y := root w x * root w x * x in
  y ≡p w \/ y ≡p - w \/ y * i ≡p w \/ y * i ≡p - w.
Proof.
  intros Uw Ux y. assert (0 <= (p - 5) / 8 /\ 8 * ((p - 5) / 8) + 4 = p - 1) as [Hn Hp] by (split; vm_compute; (reflexivity || discriminate)).
  pose proof (root_square w x) as E. set (n := (p - 5) / 8) in *. clearbody n. set (t := (w * x ^ 7) ^ (2 * n + 1)) in *.
  assert (y = w * t) as -> by (rewrite <- E; unfold y; ring). destruct (fourth_roots t) as [H|[H|[H|H]]].
  - unfold t. rewrite <- !Z.pow_add_r by lia. replace (2 * n + 1 + (2 * n + 1) + (2 * n + 1 + (2 * n + 1))) with (p - 1) by lia.
    apply fermat_p, unit_nonzero, unit_mul; [done|]. replace (x ^ 7) with (x * x * (x * x) * (x * x) * x) by ring. by repeat apply unit_mul.
  - left. rewrite H. apply eq_eqm. ring.
  - right; left. rewrite H. apply eq_eqm. ring.
  - do 3 right. transitivity (w * t * i); [done|]. rewrite H. transitivity (w * (i * i)); [apply eq_eqm; ring|]. rewrite i_square. apply eq_eqm. ring.
  - do 2 right; left. rewrite H. transitivity (- w * (i * i)); [apply eq_eqm; ring|]. rewrite i_square. apply eq_eqm. ring.
Qed.

(** ** The equation of the curve *)

Definition A : Z := 486662.

Lemma A_d : (A + 2) * d ≡p 2 - A.
Proof. vm_compute. reflexivity. Qed.

Lemma A_unit : unit (A + 2) /\ unit A.
Proof. split; [exists (inv (A + 2))|exists (inv A)]; apply inv_spec; vm_compute; discriminate. Qed.

(** The denominator [x] of [w / x] for either value of [z]. *)
Definition denominator (z w : Z) : Z := z * z + A * z * w + w * w.

Section equation.
Context (z w X : Z) (HX : X * X * denominator z w ≡p - (A + 2) * (z * w)).

Lemma Z_unit : unit w -> unit (z + w).
Proof.
  intros Uw. destruct (zero_or_unit (z + w)) as [H|]; [exfalso|done].
  assert (z ≡p - w) as Hz by (transitivity (z + w - w); [apply eq_eqm; ring|]; rewrite H; done).
  assert (d * (X * X) ≡p 1) as Hd.
  { apply (cancel_l (A + 2)); [apply A_unit|]. apply (cancel_l (w * w)); [by apply unit_mul|].
    transitivity ((A + 2) * d * (X * X * (w * w))); [apply eq_eqm; ring|]. rewrite A_d.
    transitivity (X * X * denominator (- w) w); [apply eq_eqm; unfold denominator; ring|]. unfold denominator in *. rewrite <- Hz at 1 2 3.
    rewrite HX, Hz. apply eq_eqm. ring. }
  assert (unit X) as [c Hc] by (exists (d * X); rewrite <- Hd; apply eq_eqm; ring).
  apply (d_not_square c). transitivity (c * c * (d * (X * X))); [rewrite Hd; apply eq_eqm; ring|].
  transitivity (d * (c * X * (c * X))); [apply eq_eqm; ring|]. rewrite Hc. apply eq_eqm. ring.
Qed.

Lemma point_on_curve y : unit (z + w) -> y * (z + w) ≡p z - w -> on_curve (X, y).
Proof.
  intros U Hy. unfold on_curve. cbn [fst snd]. apply (cancel_l (A + 2)); [apply A_unit|].
  apply (cancel_l ((z + w) * (z + w))); [by apply unit_mul|].
  transitivity ((A + 2) * ((y * (z + w)) * (y * (z + w))) - (A + 2) * (X * X) * ((z + w) * (z + w))); [apply eq_eqm; ring|].
  transitivity ((A + 2) * ((z + w) * (z + w)) + (A + 2) * d * (X * X) * ((y * (z + w)) * (y * (z + w)))); [|apply eq_eqm; ring].
  rewrite Hy, A_d. transitivity ((A + 2) * ((z - w) * (z - w)) - (A + 2) * (X * X) * ((z + w) * (z + w))
    + 4 * (X * X * denominator z w - - (A + 2) * (z * w))); [rewrite HX; apply eq_eqm; ring|].
  apply eq_eqm. unfold denominator. ring.
Qed.
End equation.

(** ** The numbers *)

(** [v = 2 u^2], [w = v + 1] and [x = w^2 - A^2 v] for the number [u]. *)
Lemma w_unit u : unit (2 * (u * u) + 1).
Proof.
  destruct (zero_or_unit (2 * (u * u) + 1)) as [H|]; [exfalso|done]. apply (two_not_square (2 * u * i)).
  transitivity (2 * (2 * (u * u) + 1 - 1) * (i * i)); [apply eq_eqm; ring|]. rewrite H, i_square. done.
Qed.

Lemma x_unit u : let v := 2 * (u * u) in unit ((v + 1) * (v + 1) + - (A * A) * v).
Proof.
  intros v. destruct (zero_or_unit ((v + 1) * (v + 1) + - (A * A) * v)) as [H|]; [exfalso|done]. destruct (zero_or_unit u) as [Hu|[c Hc]].
  - unfold v in H. rewrite Hu in H. vm_compute in H. discriminate H.
  - destruct A_unit as [_ [a Ha]]. apply (two_not_square ((v + 1) * (a * c))).
    transitivity ((v + 1) * (v + 1) * (a * c * (a * c))); [apply eq_eqm; ring|].
    transitivity (((v + 1) * (v + 1) + - (A * A) * v + A * A * v) * (a * c * (a * c))); [apply eq_eqm; ring|]. rewrite H.
    transitivity (2 * ((a * A) * (a * A)) * ((c * u) * (c * u))); [apply eq_eqm; unfold v; ring|]. rewrite Ha, Hc. done.
Qed.

(** What [choose_root] returns for [u]: the abscissa [X] up to sign, and [z]. *)
Definition chosen (u : Z) (X z sign : Z) : Prop :=
  let v := 2 * (u * u) in let w := v + 1 in
  X * X * denominator z w ≡p - (A + 2) * (z * w) /\ (sign = 0 /\ z = - A * v \/ sign = 1 /\ z = - A).

Lemma denominator_x v : denominator (- A * v) (v + 1) = (v + 1) * (v + 1) + - (A * A) * v
  /\ denominator (- A) (v + 1) = (v + 1) * (v + 1) + - (A * A) * v.
Proof. unfold denominator. split; ring. Qed.

Lemma constants_ok : is_fe 101 fe_ma2 (- (A * A)) /\ is_fe 101 fe_ma (- A) /\ is_fe 101 fe_fffb1 (value fe_fffb1)
  /\ is_fe 101 fe_fffb2 (value fe_fffb2) /\ is_fe 101 fe_fffb3 (value fe_fffb3) /\ is_fe 101 fe_fffb4 (value fe_fffb4).
Proof. split_and!; (split; [bytes_compute|reflexivity]). Qed.

Lemma fffb_squares : value fe_fffb1 * value fe_fffb1 ≡p - (2 * A * (A + 2)) /\ value fe_fffb2 * value fe_fffb2 ≡p 2 * A * (A + 2)
  /\ value fe_fffb3 * value fe_fffb3 ≡p - (i * (A * (A + 2))) /\ value fe_fffb4 * value fe_fffb4 ≡p i * (A * (A + 2)).
Proof. split_and!; vm_compute; reflexivity. Qed.

Lemma chosen_square u r c k : let v := 2 * (u * u) in let x := (v + 1) * (v + 1) + - (A * A) * v in
  c * c ≡p k * (2 * A * (A + 2)) -> k * (r * r * x) ≡p v + 1 -> chosen u (r * c * u) (- A * v) 0.
Proof.
  intros v x Hc Hr. split; [|by left]. fold v. rewrite (proj1 (denominator_x v)). fold x.
  transitivity (c * c * (u * u) * (r * r * x)); [apply eq_eqm; ring|]. rewrite Hc.
  transitivity (2 * A * (A + 2) * (u * u) * (k * (r * r * x))); [apply eq_eqm; ring|]. rewrite Hr. apply eq_eqm. unfold v. ring.
Qed.

Lemma chosen_nonsquare u r c k : let v := 2 * (u * u) in let x := (v + 1) * (v + 1) + - (A * A) * v in
  c * c ≡p k * (i * (A * (A + 2))) -> k * (r * r * x * i) ≡p v + 1 -> chosen u (r * c) (- A) 1.
Proof.
  intros v x Hc Hr. split; [|by right]. fold v. rewrite (proj2 (denominator_x v)). fold x.
  transitivity (c * c * (r * r * x)); [apply eq_eqm; ring|]. rewrite Hc.
  transitivity (A * (A + 2) * (k * (r * r * x * i))); [apply eq_eqm; ring|]. rewrite Hr. apply eq_eqm. ring.
Qed.

Lemma zero_sub a b : a - b ≡p 0 <-> b ≡p a.
Proof.
  split; intros H; [|rewrite H; apply eq_eqm; ring]. transitivity (a - (a - b)); [apply eq_eqm; ring|]. rewrite H. apply eq_eqm. ring.
Qed.

Lemma zero_add a b : a + b ≡p 0 <-> b ≡p - a.
Proof.
  split; intros H; [|rewrite H; apply eq_eqm; ring]. transitivity (a + b - a); [apply eq_eqm; ring|]. rewrite H. apply eq_eqm. ring.
Qed.

(** The outcome of a test as a boolean of its own, and the branch it takes. *)
Lemma if_zero {T} (a b : T) : (if negb true then a else b) = b.
Proof. reflexivity. Qed.

Lemma if_nonzero {T} (a b : T) : (if negb false then a else b) = a.
Proof. reflexivity. Qed.

Ltac test_zero e b R := pose proof (bool_decide_reflect (e ≡p 0)) as R; generalize dependent (bool_decide (e ≡p 0)); intros b R.

Lemma choose_case_spec fu fv fw fX fy u r : let v := 2 * (u * u) in let x := (v + 1) * (v + 1) + - (A * A) * v in
  is_fe 101 fu u -> is_fe 101 fv v -> is_fe 102 fw (v + 1) -> is_fe 101 fX r -> is_fe 101 fy (r * r * x) ->
  (r * r * x ≡p v + 1 \/ r * r * x ≡p - (v + 1) \/ r * r * x * i ≡p v + 1 \/ r * r * x * i ≡p - (v + 1)) ->
  exists fX' fz sign X z, choose_case fu fv fw fX fy = Some (fX', fz, sign) /\ is_fe 101 fX' X /\ is_fe 101 fz z /\ chosen u X z sign.
Proof.
  intros v x Hu Hv Hw HX Hy Hcases. unfold choose_case.
  assert (is_fe 101 (fe_mul fy fe_sqrtm1) (r * r * x * i)) as Hyi by (eapply mul_ok; [exact Hy|exact fe_sqrtm1_ok|lia..]).
  assert (is_fe 101 (fe_copy fe_ma) (- A)) as Hz by (apply copy_ok; [vm_compute; reflexivity|apply constants_ok]).
  assert (is_fe 330 (fe_sub fw fy) (v + 1 - r * r * x)) as H1 by (safe_sub 102 101 330; done).
  assert (is_fe 330 (fe_add fw fy) (v + 1 + r * r * x)) as H2 by (safe_add 102 101 330; done).
  assert (is_fe 330 (fe_sub fw (fe_mul fy fe_sqrtm1)) (v + 1 - r * r * x * i)) as H3 by (safe_sub 102 101 330; done).
  assert (is_fe 330 (fe_add fw (fe_mul fy fe_sqrtm1)) (v + 1 + r * r * x * i)) as H4 by (safe_add 102 101 330; done).
  rewrite (nonzero_test _ _ H1), (nonzero_test _ _ H2), (nonzero_test _ _ H3), (nonzero_test _ _ H4). clear H1 H2 H3 H4.
  destruct constants_ok as (_ & _ & K1 & K2 & K3 & K4), fffb_squares as (S1 & S2 & S3 & S4).
  assert (is_fe 101 (fe_mul (fe_copy fe_ma) fv) (- A * v)) as Hzv by (eapply mul_ok; [exact Hz|exact Hv|lia..]).
  generalize dependent (fe_copy fe_ma). intros fz Hz Hzv.
  test_zero (v + 1 - r * r * x) b1 R1. test_zero (v + 1 + r * r * x) b2 R2.
  test_zero (v + 1 - r * r * x * i) b3 R3. test_zero (v + 1 + r * r * x * i) b4 R4.
  destruct R1 as [E1|E1]; rewrite ?if_zero, ?if_nonzero; [|destruct R2 as [E2|E2]; rewrite ?if_zero, ?if_nonzero;
    [|destruct R3 as [E3|E3]; rewrite ?if_zero, ?if_nonzero; [|destruct R4 as [E4|E4]]]].
  - eexists _, _, _, _, _. split; [reflexivity|]. split; [eapply mul_ok; [eapply mul_ok; [exact HX|exact K2|lia..]|exact Hu|lia..]|].
    split; [exact Hzv|]. apply (chosen_square u r _ 1); [by rewrite Z.mul_1_l|]. rewrite Z.mul_1_l. by apply zero_sub.
  - eexists _, _, _, _, _. split; [reflexivity|]. split; [eapply mul_ok; [eapply mul_ok; [exact HX|exact K1|lia..]|exact Hu|lia..]|].
    split; [exact Hzv|]. apply (chosen_square u r _ (-1)); [rewrite S1; apply eq_eqm; ring|]. apply zero_add in E2. fold v x. rewrite E2. apply eq_eqm. ring.
  - eexists _, _, _, _, _. split; [reflexivity|]. split; [eapply mul_ok; [exact HX|exact K4|lia..]|]. split; [exact Hz|].
    apply (chosen_nonsquare u r _ 1); [by rewrite Z.mul_1_l|]. rewrite Z.mul_1_l. by apply zero_sub.
  - eexists _, _, _, _, _. split; [reflexivity|]. split; [eapply mul_ok; [exact HX|exact K3|lia..]|]. split; [exact Hz|].
    apply (chosen_nonsquare u r _ (-1)); [rewrite S3; apply eq_eqm; ring|]. apply zero_add in E4. fold v x. rewrite E4. apply eq_eqm. ring.
  - exfalso. rewrite zero_sub in E1, E3. rewrite zero_add in E2, E4. destruct Hcases as [H|[H|[H|H]]]; [exact (E1 H)|exact (E2 H)|exact (E3 H)|exact (E4 H)].
Qed.

(** ** The result *)

(** Projective coordinates of [P], with [Y] and [Z] sums of two field elements. *)
Record wide_p2 (h : ge_p2) (P : point) (z : Z) : Prop := {
  wide_X : is_fe 101 (p2_X h) (P.1 * z);
  wide_Y : is_fe 210 (p2_Y h) (P.2 * z);
  wide_Z : is_fe 210 (p2_Z h) z
}.

Lemma divide_ok a fx fz x z : 0 <= a <= 330 -> is_fe a fx (x * z) -> is_fe 210 fz z -> unit z -> is_fe 101 (fe_mul fx (fe_invert fz)) x.
Proof.
  intros Ha Hx Hz U. assert (is_fe 101 (fe_invert fz) (z ^ (p - 2))) as Hi by (apply fe_invert_ok; by apply (weaken 210)).
  eapply is_fe_mod; [|eapply mul_ok; [exact Hx|exact Hi|lia..]]. change (x * z * z ^ (p - 2) ≡p x).
  transitivity (x * z ^ (p - 1)); [|rewrite fermat_p by (by apply unit_nonzero); apply eq_eqm; ring].
  replace (p - 1) with (Z.succ (p - 2)) by lia. rewrite Z.pow_succ_r by (vm_compute; discriminate). apply eq_eqm. ring.
Qed.

Lemma check_point_ok h P z : wide_p2 h P z -> unit z -> on_curve P -> check_point (p2_X h) (p2_Y h) (p2_Z h) = true.
Proof.
  intros [HX HY HZ] U Hc. unfold check_point.
  pose proof (divide_ok 101 _ _ _ _ ltac:(lia) HX HZ U) as Hx. pose proof (divide_ok 210 _ _ _ _ ltac:(lia) HY HZ U) as Hy.
  generalize dependent (fe_mul (p2_X h) (fe_invert (p2_Z h))). intros fx Hx. generalize dependent (fe_mul (p2_Y h) (fe_invert (p2_Z h))). intros fy Hy.
  pose proof (sq_ok _ _ _ Hx ltac:(lia)) as Hxx. pose proof (sq_ok _ _ _ Hy ltac:(lia)) as Hyy.
  generalize dependent (fe_sq fx). intros fxx Hxx. generalize dependent (fe_sq fy). intros fyy Hyy.
  assert (is_fe 101 (fe_mul fe_d (fe_mul fxx fyy)) (d * (P.1 * P.1 * (P.2 * P.2)))) as Hd
    by (eapply mul_ok; [apply fe_d_ok|eapply mul_ok; [exact Hxx|exact Hyy|lia..]|lia..]).
  generalize dependent (fe_mul fe_d (fe_mul fxx fyy)). intros fd Hd.
  erewrite nonzero_test; [apply bool_decide_eq_true_2|safe_add 303 1 330; [safe_sub 202 101 303; [safe_add 101 101 202; [exact Hd|exact Hxx]|exact Hyy]|apply fe_one_ok]].
  unfold on_curve in Hc. transitivity (1 + d * (P.1 * P.1) * (P.2 * P.2) - (P.2 * P.2 - P.1 * P.1)); [apply eq_eqm; ring|]. rewrite Hc. apply eq_eqm. ring.
Qed.

Lemma chosen_sign u X X' z sign : chosen u X z sign -> X' ≡p X \/ X' ≡p - X -> chosen u X' z sign.
Proof.
  intros [H Hz] HX. split; [|done]. rewrite <- H. destruct HX as [-> | ->]; [done|]. apply eq_eqm. ring.
Qed.

Lemma chosen_nonzero u X z : chosen u X z 1 -> ~ X ≡p 0.
Proof.
  intros [H [[Hs _]|[_ ->]]] H0; [discriminate Hs|]. rewrite H0 in H. apply (unit_nonzero ((A + 2) * (A * (2 * (u * u) + 1)))).
  - apply unit_mul; [apply A_unit|]. apply unit_mul; [apply A_unit|apply w_unit].
  - transitivity (- (A + 2) * (- A * (2 * (u * u) + 1))); [apply eq_eqm; ring|]. rewrite <- H. done.
Qed.

(** From [setsign] on. *)
Lemma set_sign_ok fX X u z sign : is_fe 101 fX X -> chosen u X z sign ->
  exists fX' X', adjust_sign fX sign = Some fX' /\ is_fe 101 fX' X' /\ chosen u X' z sign /\ (X' mod p) mod 2 = sign.
Proof.
  intros HX Hc. assert (sign = 0 \/ sign = 1) as Hs by (destruct Hc as [_ [[-> _]|[-> _]]]; auto).
  destruct (choose_sign fX X sign HX Hs) as [(f & x & E & Hf & Hx & Hp)|(_ & H0 & ->)].
  - exists f, x. split; [exact E|]. split; [exact Hf|]. split; [by apply (chosen_sign u X)|exact Hp].
  - destruct (chosen_nonzero u X z Hc H0).
Qed.

(** The point of the chosen coordinates. *)
Definition chosen_point (u X z : Z) : point :=
  let w := 2 * (u * u) + 1 in (X mod p, ((z - w) * inv (z + w)) mod p).

Lemma chosen_point_ok u X z sign : chosen u X z sign ->
  curve (chosen_point u X z) /\ unit (z + (2 * (u * u) + 1)) /\ (chosen_point u X z).2 * (z + (2 * (u * u) + 1)) ≡p z - (2 * (u * u) + 1).
Proof.
  intros [H _]. set (w := 2 * (u * u) + 1) in *. assert (unit (z + w)) as U by (apply (Z_unit z w X H), w_unit).
  assert (((z - w) * inv (z + w)) mod p * (z + w) ≡p z - w) as Hy.
  { rewrite mod_eqm, <- Z.mul_assoc, inv_spec by (by apply unit_nonzero). apply eq_eqm. ring. }
  split; [|done]. split; [|split; apply Z.mod_pos_bound; reflexivity]. apply (point_on_curve z w); [|done..].
  by rewrite mod_eqm.
Qed.

(** The field elements before the choice of the root. *)
Lemma numbers_ok fu u : is_fe 101 fu u -> let v := 2 * (u * u) in
  is_fe 101 (fe_sq2 fu) v /\ is_fe 102 (fe_add (fe_sq2 fu) fe_1) (v + 1)
  /\ is_fe 202 (fe_add (fe_sq (fe_add (fe_sq2 fu) fe_1)) (fe_mul fe_ma2 (fe_sq2 fu))) ((v + 1) * (v + 1) + - (A * A) * v).
Proof.
  intros Hu v. assert (is_fe 101 (fe_sq2 fu) v) as Hv by (apply fe_sq2_ok; apply (weaken 101); [exact Hu|lia]).
  assert (is_fe 102 (fe_add (fe_sq2 fu) fe_1) (v + 1)) as Hw by (safe_add 101 1 102; [exact Hv|apply fe_one_ok]).
  split; [exact Hv|]. split; [exact Hw|]. safe_add 101 101 202; [eapply sq_ok; [exact Hw|lia]|].
  eapply mul_ok; [apply constants_ok|exact Hv|lia..].
Qed.

Lemma choose_root_spec fu fv fw fx u : let v := 2 * (u * u) in let x := (v + 1) * (v + 1) + - (A * A) * v in
  is_fe 101 fu u -> is_fe 101 fv v -> is_fe 102 fw (v + 1) -> is_fe 202 fx x ->
  exists fX fz sign X z, choose_root fu fv fw fx = Some (fX, fz, sign) /\ is_fe 101 fX X /\ is_fe 101 fz z /\ chosen u X z sign.
Proof.
  intros v x Hu Hv Hw Hx. unfold choose_root. assert (is_fe 101 (fe_divpowm1 fw fx) (root (v + 1) x)) as HX.
  { eapply is_fe_eq; [apply fe_divpowm1_ok; eapply weaken; [exact Hw|lia|exact Hx|lia]|]. apply divpowm1_root. }
  apply (choose_case_spec _ _ _ _ _ u (root (v + 1) x) Hu Hv Hw HX); [eapply mul_ok; [eapply sq_ok; [exact HX|lia]|exact Hx|lia..]|].
  apply (root_cases (v + 1) x); [apply w_unit|apply x_unit].
Qed.

Lemma fromfe_bind s : ge_fromfe_frombytes_vartime s =
  let u := fe_carry (load_fe s (load_3 (drop 29 s))) in
  let w := fe_add (fe_sq2 u) fe_1 in
  choose_root u (fe_sq2 u) w (fe_add (fe_sq w) (fe_mul fe_ma2 (fe_sq2 u))) ≫= fun '(X, z, sign) =>
  adjust_sign X sign ≫= fun X => finish_point X z w.
Proof. reflexivity. Qed.

Lemma finish_point_ok fX fz fw u X z sign : is_fe 101 fX X -> is_fe 101 fz z -> is_fe 102 fw (2 * (u * u) + 1) -> chosen u X z sign ->
  exists h, finish_point fX fz fw = Some h /\ wide_p2 h (chosen_point u X z) (z + (2 * (u * u) + 1)).
Proof.
  intros HX Hz Hw Hc. destruct (chosen_point_ok u X z sign Hc) as (HP & U & Hy). unfold finish_point.
  assert (is_fe 210 (fe_add fz fw) (z + (2 * (u * u) + 1))) as HZ by (safe_add 101 102 210; assumption).
  assert (is_fe 210 (fe_sub fz fw) (z - (2 * (u * u) + 1))) as HY by (safe_sub 101 102 210; assumption).
  assert (wide_p2 (P2 (fe_mul fX (fe_add fz fw)) (fe_sub fz fw) (fe_add fz fw)) (chosen_point u X z) (z + (2 * (u * u) + 1))) as Hh.
  { split; cbn [p2_X p2_Y p2_Z].
    - unfold chosen_point. cbn [fst]. rewrite mod_eqm. eapply mul_ok; [exact HX|exact HZ|lia..].
    - rewrite Hy. exact HY.
    - exact HZ. }
  pose proof (check_point_ok _ _ _ Hh U (proj1 HP)) as Hk. cbn [p2_X p2_Y p2_Z] in Hk.
  eexists. split; [rewrite Hk; reflexivity|exact Hh].
Qed.

Lemma fromfe_ok s : is_bytes s -> length s = 32%nat -> exists h X z sign,
  ge_fromfe_frombytes_vartime s = Some h /\ chosen (le_value s) X z sign /\ (X mod p) mod 2 = sign
  /\ wide_p2 h (chosen_point (le_value s) X z) (z + (2 * (le_value s * le_value s) + 1)).
Proof.
  intros Hs Hl. rewrite fromfe_bind. cbv zeta. assert (load_3 (drop 29 s) = bits (le_value s) 232 24) as Ht by (apply (load_3_bits s 29); [exact Hs|rewrite Hl; lia]).
  pose proof (load_fe_ok s 24 _ Hs Hl Ht (or_intror eq_refl)) as Hu.
  rewrite Z.mod_small in Hu by (pose proof (le_value_range s Hs) as Hr; rewrite Hl in Hr; change (256 ^ Z.of_nat 32) with (2 ^ (232 + 24)) in Hr; lia).
  generalize dependent (fe_carry (load_fe s (load_3 (drop 29 s)))). intros fu Hu. destruct (numbers_ok fu _ Hu) as (Hv & Hw & Hx).
  destruct (choose_root_spec _ _ _ _ _ Hu Hv Hw Hx) as (fX & fz & sign & X & z & E & HX & Hz & Hc). rewrite E, bind_some. clear E Hx Hv.
  destruct (set_sign_ok fX X (le_value s) z sign HX Hc) as (fX' & X' & E & HX' & Hc' & Hp). rewrite E, bind_some.
  destruct (finish_point_ok fX' fz _ _ X' z sign HX' Hz Hw Hc') as (h & Eh & Hh). exists h, X', z, sign. split; [exact Eh|]. split; [exact Hc'|]. split; [exact Hp|exact Hh].
Qed.

Lemma fromfe_curve s : is_bytes s -> length s = 32%nat ->
  exists h P z, ge_fromfe_frombytes_vartime s = Some h /\ curve P /\ unit z /\ wide_p2 h P z.
Proof.
  intros Hs Hl. destruct (fromfe_ok s Hs Hl) as (h & X & z & sign & E & Hc & _ & Hh). destruct (chosen_point_ok _ X z sign Hc) as (HP & U & _).
  eexists h, _, _. split; [exact E|]. split; [exact HP|]. split; [exact U|exact Hh].
Qed.

(** C27: [ge_fromfe_frombytes_vartime] is total: for every 32 bytes, as the number [u],
    no assertion fails and the result is a projective representation, with an invertible
    [Z], of a point [(x, y)] of the curve.  With [w = 2 u^2 + 1], [y = (z - w) / (z + w)]
    for [z = -2 A u^2] and an even [x] or for [z = -A] and an odd [x]. *)
Theorem ge_fromfe_frombytes_vartime_correct s : is_bytes s -> length s = 32%nat ->
  let u := le_value s in let w := 2 * (u * u) + 1 in
  exists h P z Z, ge_fromfe_frombytes_vartime s = Some h /\ curve P /\ unit Z /\ wide_p2 h P Z
  /\ P.2 * (z + w) ≡p z - w /\ (P.1 mod 2 = 0 /\ z = - A * (2 * (u * u)) \/ P.1 mod 2 = 1 /\ z = - A).
Proof.
  intros Hs Hl u w. destruct (fromfe_ok s Hs Hl) as (h & X & z & sign & E & Hc & Hp & Hh). destruct (chosen_point_ok _ X z sign Hc) as (HP & U & Hy).
  eexists h, _, z, _. split; [exact E|]. split; [exact HP|]. split; [exact U|]. split; [exact Hh|]. split; [exact Hy|].
  destruct Hc as [_ [[-> Hz]|[-> Hz]]]; [left|right]; (split; [exact Hp|exact Hz]).
Qed.

Lemma ge_fromfe_frombytes_vartime_correct_witness : let s := replicate 31 200 ++ [255] in
  let u := le_value s in let w := 2 * (u * u) + 1 in
  exists h P z Z, ge_fromfe_frombytes_vartime s = Some h /\ curve P /\ unit Z /\ wide_p2 h P Z
  /\ P.2 * (z + w) ≡p z - w /\ (P.1 mod 2 = 0 /\ z = - A * (2 * (u * u)) \/ P.1 mod 2 = 1 /\ z = - A).
Proof. apply (ge_fromfe_frombytes_vartime_correct (replicate 31 200 ++ [255])); [bytes_compute|reflexivity]. Defined.

End HashToPoint.
