(* ===== verification/GroupOrder.v ===== *)
(** The order of the curve.  The scalars of src/crypto/crypto-ops.c are reduced modulo
    the prime [l], and key images, hashed points and derivations are multiplied by the
    cofactor 8: the points of the curve are the [8 l] sums of a multiple of the base
    point and a multiple of a point of order 8, so [8 l] times any point is neutral. *)

From Stdlib Require Import Znumtheory.
From S2P Require Import Prelude.
From S2P Require Import Primality.
From S2P Require Import Fe.
From S2P Require Import Ge.
From S2P Require Import Edwards.
From S2P Require Import Sc.
From S2P Require Import ScalarMult.
From S2P Require Import BasePoint.
From S2P Require Import PointCodec.
Import Primality Fe Ge Edwards ScalarMult BasePoint PointCodec.

Module GroupOrder.

#[local] Open Scope list_scope.
#[local] Open Scope Z_scope.

#[local] Hint Resolve padd_curve popp_curve neutral_curve zmul_curve : core.

(** ** Counting *)

Lemma pigeonhole N M (f : Z -> Z) : 0 <= M -> (forall n, 0 <= n < N -> 0 <= f n < M) ->
  (forall n m, 0 <= n < N -> 0 <= m < N -> f n = f m -> n = m) -> N <= M.
Proof.
  intros HM Hf Hinj. assert (NoDup (f <$> seqZ 0 N)) as Hnd.
  { apply NoDup_fmap_2_strong; [|apply NoDup_seqZ]. intros x y Hx%elem_of_seqZ Hy%elem_of_seqZ. apply Hinj; lia. }
  assert (f <$> seqZ 0 N ⊆+ seqZ 0 M) as Hs.
  { apply NoDup_submseteq; [done|]. intros x (n & -> & Hn)%list_elem_of_fmap. apply elem_of_seqZ in Hn. apply elem_of_seqZ. apply Hf. lia. }
  apply submseteq_length in Hs. rewrite length_fmap, !length_seqZ in Hs. destruct (Z.le_gt_cases N 0); [lia|]. apply Z2Nat.inj_le; lia.
Qed.

(** A point is its ordinate and the parity of its abscissa: there are at most [2 p]. *)
Definition index (P : point) : Z := P.2 + p * (P.1 mod 2).

Lemma index_range P : curve P -> 0 <= index P < 2 * p.
Proof.
  intros [_ [_ Hy]]. unfold index. pose proof (Z.mod_pos_bound P.1 2 ltac:(lia)) as Hb. assert (0 < p) by reflexivity.
  generalize dependent (P.1 mod 2). intros b Hb. nia.
Qed.

Lemma index_inj P Q : curve P -> curve Q -> index P = index Q -> P = Q.
Proof.
  intros HP HQ E. apply encode_inj; [done..|]. unfold encode, index in *. pose proof HP as [_ [_ H1]]. pose proof HQ as [_ [_ H2]].
  pose proof (Z.mod_pos_bound P.1 2 ltac:(lia)) as B1. pose proof (Z.mod_pos_bound Q.1 2 ltac:(lia)) as B2. assert (0 < p) by reflexivity.
  assert (P.1 mod 2 = Q.1 mod 2) as Eb by (generalize dependent (P.1 mod 2); generalize dependent (Q.1 mod 2); intros; nia).
  f_equal. rewrite Eb in *. lia.
Qed.

(** ** Orders *)

Lemma coprime_orders m n P : curve P -> Z.coprime m n -> zmul m P = neutral -> zmul n P = neutral -> P = neutral.
Proof.
  intros HP Hc Hm Hn. destruct (Z.Bezout_coprime _ _ Hc) as (u & v & E). rewrite <- (zmul_1 P), <- E, zmul_add, !zmul_mul, Hm, Hn, !zmul_neutral by done.
  by apply padd_neutral.
Qed.

Lemma prime_l : Z.prime Sc.l.
Proof.
  unfold Sc.l. certify 276602624281642239937218680557139826668747. certify 19757330305831588566944191468367130476339.
  certify 172054593956031949258510691. certify 4434155615661930479. certify 1257559732178653. certify2 1224481 531581; small.
Qed.

(** A point of order 8. *)
Definition T8 : point :=
  (14399317868200118260347934320527232580618823971194345261214217575416788799818,
   55188659117513257062467267217118295137698188065244968500265048394206261417927).

Lemma T8_curve : curve T8.
Proof. split; [vm_compute; reflexivity|]. split; split; vm_compute; (reflexivity || discriminate). Qed.

(** Four times the point is [(0, -1)]. *)
Lemma T8_multiples : zmul 4 T8 = (0, p - 1) /\ zmul 8 T8 = neutral.
Proof.
  assert (denotes T8 T8) as H1 by (split; [split; reflexivity|exact T8_curve]).
  assert (denotes (p - value fe_sqrtm1, 0) (padd T8 T8)) as H2 by (eapply adds_ok_spec; [exact H1|exact H1|vm_compute; reflexivity]).
  assert (denotes (0, p - 1) (padd (padd T8 T8) (padd T8 T8))) as H4 by (eapply adds_ok_spec; [exact H2|exact H2|vm_compute; reflexivity]).
  assert (denotes (0, 1) (padd (padd (padd T8 T8) (padd T8 T8)) (padd (padd T8 T8) (padd T8 T8)))) as H8
    by (eapply adds_ok_spec; [exact H4|exact H4|vm_compute; reflexivity]).
  change (zmul 4 T8) with (padd (padd T8 T8) (padd T8 T8)).
  change (zmul 8 T8) with (padd (padd (padd T8 T8) (padd T8 T8)) (padd (padd T8 T8) (padd T8 T8))).
  generalize dependent (padd (padd (padd T8 T8) (padd T8 T8)) (padd (padd T8 T8) (padd T8 T8))). intros Q8 [E8 [_ R8]].
  generalize dependent (padd (padd T8 T8) (padd T8 T8)). intros Q4 [E4 [_ R4]].
  split; symmetry; (apply reduced_eq; [split; split; vm_compute; (reflexivity || discriminate)|assumption..]).
Qed.

Lemma l_coprime n : 0 < n < Sc.l -> Z.coprime Sc.l n.
Proof. intros Hn. apply Z.coprime_prime_l; [apply prime_l|]. intros Hd. apply Z.divide_pos_le in Hd; lia. Qed.

Section grid.
Context (B T8 : point) (HB : curve B) (HT : curve T8).
Context (B_order : zmul Sc.l B = neutral) (B_other : B <> neutral) (T8_order : zmul 8 T8 = neutral) (T8_fourfold : zmul 4 T8 <> neutral).

Lemma B_exact n : 0 < n < Sc.l -> zmul n B <> neutral.
Proof.
  intros Hn H. assert (B = neutral) as E by (apply (coprime_orders Sc.l n); [done|by apply l_coprime|exact B_order|done]). done.
Qed.

(** A multiple of [n] is 4 modulo 8. *)
Lemma T8_exact n : 0 < n < 8 -> zmul n T8 <> neutral.
Proof.
  intros Hn H. assert (zmul 4 T8 = neutral) as E; [|exact (T8_fourfold E)].
  assert (exists k, 4 = (k * n) mod 8) as [k ->].
  { assert (n = 1 \/ n = 2 \/ n = 3 \/ n = 4 \/ n = 5 \/ n = 6 \/ n = 7) as Hc by lia.
    destruct Hc as [-> |[-> |[-> |[-> |[-> |[-> | ->]]]]]]; [exists 4|exists 2|exists 4|exists 1|exists 4|exists 2|exists 4]; reflexivity. }
  rewrite zmul_mod, zmul_mul, H by (done || exact T8_order). apply zmul_neutral.
Qed.

(** ** The points *)

(** The sums of the multiples of both points. *)
Definition grid (n : Z) : point := padd (zmul (n mod Sc.l) B) (zmul (n / Sc.l) T8).

Lemma grid_curve n : curve (grid n).
Proof. unfold grid. auto. Qed.

Lemma difference i j (P : point) : curve P -> zmul i P = zmul j P -> zmul (i - j) P = neutral.
Proof. intros HP H. by rewrite <- Z.add_opp_r, zmul_add, zmul_opp, H, padd_popp by auto. Qed.

Lemma exact_inj n i j P : curve P -> (forall k, 0 < k < n -> zmul k P <> neutral) -> 0 <= i < n -> 0 <= j < n -> zmul i P = zmul j P -> i = j.
Proof.
  intros HP Hn Hi Hj H. destruct (Z.lt_trichotomy i j) as [Hlt|[->|Hlt]]; [|done|].
  - destruct (Hn (j - i)); [lia|]. by apply difference.
  - destruct (Hn (i - j)); [lia|]. by apply difference.
Qed.

(** Multiples of both points are different but for the neutral element. *)
Lemma grid_independent i j i' j' : padd (zmul i B) (zmul j T8) = padd (zmul i' B) (zmul j' T8) -> zmul i B = zmul i' B /\ zmul j T8 = zmul j' T8.
Proof.
  intros H. assert (zmul (i - i') B = zmul (j' - j) T8) as E.
  { rewrite <- !Z.add_opp_r, !zmul_add, !zmul_opp by auto.
    replace (padd (zmul j' T8) (popp (zmul j T8))) with (padd (padd (zmul i' B) (zmul j' T8)) (padd (popp (zmul i' B)) (popp (zmul j T8)))).
    - rewrite <- H. rewrite !padd_assoc by auto. f_equal. rewrite (padd_swap (zmul j T8)), padd_popp, padd_neutral_r by auto. done.
    - rewrite !padd_assoc by auto. rewrite (padd_swap (zmul j' T8)) by auto. rewrite <- padd_assoc, padd_popp, padd_neutral by auto. done. }
  assert (zmul (i - i') B = neutral) as E0.
  { apply (coprime_orders Sc.l 8); [auto|apply l_coprime; split; reflexivity| |].
    - by rewrite <- zmul_mul, Z.mul_comm, zmul_mul, B_order, zmul_neutral.
    - by rewrite E, <- zmul_mul, Z.mul_comm, zmul_mul, T8_order, zmul_neutral. }
  pose proof E0 as E1. rewrite E in E1.
  assert (forall P a b, curve P -> zmul (a - b) P = neutral -> zmul a P = zmul b P) as Hd.
  { intros P a b HP H0. replace a with (a - b + b) by lia. rewrite zmul_add, H0 by done. by apply padd_neutral, zmul_curve. }
  split; [by apply Hd|]. symmetry. by apply Hd.
Qed.

Lemma grid_inj n m : 0 <= n < 8 * Sc.l -> 0 <= m < 8 * Sc.l -> grid n = grid m -> n = m.
Proof.
  intros Hn Hm H. assert (0 < Sc.l) as Hl by reflexivity. apply grid_independent in H as [E1 E2].
  apply (exact_inj Sc.l) in E1; [|done|apply B_exact|by apply Z.mod_pos_bound..].
  apply (exact_inj 8) in E2; [|done|apply T8_exact|split; [apply Z.div_pos; lia|apply Z.div_lt_upper_bound; lia]..].
  rewrite (Z.div_mod n Sc.l), (Z.div_mod m Sc.l) by lia. by rewrite E1, E2.
Qed.

Lemma grid_order n : zmul (8 * Sc.l) (grid n) = neutral.
Proof.
  unfold grid. rewrite zmul_padd by auto. rewrite <- !zmul_mul by done.
  rewrite (Z.mul_comm (8 * Sc.l) (n mod Sc.l)), (Z.mul_assoc (n mod Sc.l)), zmul_mul, B_order, zmul_neutral by done.
  replace (8 * Sc.l * (n / Sc.l)) with (Sc.l * (n / Sc.l) * 8) by ring. rewrite zmul_mul, T8_order, zmul_neutral by done. by apply padd_neutral.
Qed.

(** The order of every point divides [8 l]: a point of another order and the grid would
    be more than [2 p] points. *)
Lemma grid_exhausts P : curve P -> zmul (8 * Sc.l) P = neutral.
Proof.
  intros HP. destruct (decide (zmul (8 * Sc.l) P = neutral)) as [|Hne]; [done|exfalso].
  set (f := fun n => if n <? 8 * Sc.l then grid n else padd P (grid (n - 8 * Sc.l))).
  assert (forall n, curve (f n)) as Hf by (intros n; unfold f; destruct (_ <? _); auto using grid_curve).
  assert (forall n m, grid n = padd P (grid m) -> False) as Hdis.
  { intros n m E. apply Hne. assert (zmul (8 * Sc.l) (grid n) = padd (zmul (8 * Sc.l) P) (zmul (8 * Sc.l) (grid m))) as E'
      by (rewrite E; apply zmul_padd; auto using grid_curve).
    rewrite !grid_order, padd_neutral_r in E' by auto. done. }
  assert (16 * Sc.l <= 2 * p) as Hle; [|vm_compute in Hle; by destruct Hle].
  apply (pigeonhole _ _ (fun n => index (f n))); [vm_compute; discriminate|intros; by apply index_range|].
  intros n m Hn Hm E. apply index_inj in E; [|done..]. unfold f in E.
  destruct (Z.ltb_spec n (8 * Sc.l)), (Z.ltb_spec m (8 * Sc.l)).
  - apply grid_inj; [lia..|done].
  - destruct (Hdis _ _ E).
  - destruct (Hdis m (n - 8 * Sc.l)). done.
  - assert (grid (n - 8 * Sc.l) = grid (m - 8 * Sc.l)) as E2; [|apply grid_inj in E2; lia].
    rewrite <- (padd_cancel (popp P) (grid (n - 8 * Sc.l))), <- (padd_cancel (popp P) (grid (m - 8 * Sc.l))) by auto using grid_curve.
    rewrite popp_popp by done. by rewrite E.
Qed.
End grid.

Lemma curve_order P : curve P -> zmul (8 * Sc.l) P = neutral.
Proof.
  destruct T8_multiples as [H4 H8]. apply (grid_exhausts B T8 B_curve T8_curve B_order); [discriminate|exact H8|rewrite H4; discriminate].
Qed.

End GroupOrder.
