(* ===== verification/Crypto.v ===== *)
(** Keys and signatures, src/crypto/crypto.cpp: key pairs, key derivation, one-time
    keys, signatures, transaction proofs, key images and ring signatures, on the curve
    arithmetic of src/crypto/crypto-ops.c.  Random bytes are arguments.  [None] is a call
    that does not return: a failed assertion, [abort] or an exception. *)

From S2P Require Import Prelude.
From S2P Require Import Varint.
From S2P Require Import Serialization.
From S2P Require Import CryptoNote.
From S2P Require Import Keccak.
From S2P Require Import StraightLine.
From S2P Require Import CryptoOps.
From S2P Require Import Sc.
From S2P Require Import Fe.
From S2P Require Import Ge.
From S2P Require Import Edwards.
From S2P Require Import ScalarMult.
From S2P Require Import BasePoint.
From S2P Require Import PointCodec.
From S2P Require Import DoubleScalarMult.
From S2P Require Import HashToPoint.
From S2P Require Import GroupOrder.
Import Varint Stream Keccak CryptoOps Sc Fe Ge Edwards ScalarMult BasePoint PointCodec DoubleScalarMult HashToPoint GroupOrder.

Module Crypto.

#[local] Open Scope list_scope.
#[local] Open Scope Z_scope.

(** ** Control flow *)

Definition assertion (b : bool) : option Datatypes.unit := if b then Some tt else None.

(** [if (call fails) return fail; ...]. *)
Definition attempt {X Y} (fail : Y) (o : option X) (k : X -> option Y) : option Y :=
  match o with Some x => k x | None => Some fail end.

(** [if (b) return fail; ...]. *)
Definition unless {Y} (fail : Y) (b : bool) (k : option Y) : option Y := if b then Some fail else k.

(** ** Scalars *)

Definition random_scalar (tmp : bytes) : bytes := sc_reduce tmp.

Definition hash_to_scalar (data : bytes) : bytes := sc_reduce32 (cn_fast_hash data).

(** ** Key pairs *)

(** [generate_keys]: the public and the secret key. *)
Definition generate_keys (tmp : bytes) : option (PublicKey * bytes) :=
  let sec := random_scalar tmp in
  point ← ge_scalarmult_base sec;
  Some (ge_p3_tobytes point, sec).

Definition generate_keys_from_seed (seed : bytes) : option (PublicKey * bytes) :=
  let sec := sc_reduce32 seed in
  point ← ge_scalarmult_base sec;
  Some (ge_p3_tobytes point, sec).

Definition check_key (key : PublicKey) : bool := bool_decide (is_Some (ge_frombytes_vartime key)).

Definition secret_key_to_public_key (sec : bytes) : option (option PublicKey) :=
  unless None (negb (sc_check sec =? 0)) (
  point ← ge_scalarmult_base sec;
  Some (Some (ge_p3_tobytes point))).

(** ** Derivations *)

Definition generate_key_derivation (key1 : PublicKey) (key2 : bytes) : option (option bytes) :=
  _ ← assertion (sc_check key2 =? 0);
  attempt None (ge_frombytes_vartime key1) (fun point =>
  point2 ← ge_scalarmult key2 point;
  let point3 := ge_mul8 point2 in
  let point2 := ge_p1p1_to_p2 point3 in
  Some (Some (ge_tobytes point2))).

(** The buffer for the index has [(sizeof(size_t) * 8 + 6) / 7 = 10] bytes. *)
Definition derivation_to_scalar (derivation : bytes) (output_index : Z) : option bytes :=
  let index := write_varint output_index in
  _ ← assertion (length index <=? 10)%nat;
  Some (hash_to_scalar (derivation ++ index)).

Definition derivation_to_scalar_suffix (derivation : bytes) (output_index : Z) (suffix : bytes) : option bytes :=
  _ ← assertion (length suffix <=? 32)%nat;
  let index := write_varint output_index in
  _ ← assertion (length index <=? 10 + 32)%nat;
  Some (hash_to_scalar (derivation ++ index ++ suffix)).

(** [derive_public_key] after the scalar is known: [base + scalar G]. *)
Definition add_public_key (point1 : ge_p3) (scalar : bytes) : option (option PublicKey) :=
  point2 ← ge_scalarmult_base scalar;
  let point3 := ge_p3_to_cached point2 in
  let point4 := ge_add point1 point3 in
  let point5 := ge_p1p1_to_p2 point4 in
  Some (Some (ge_tobytes point5)).

Definition derive_public_key (derivation : bytes) (output_index : Z) (base : PublicKey) : option (option PublicKey) :=
  attempt None (ge_frombytes_vartime base) (fun point1 =>
  scalar ← derivation_to_scalar derivation output_index;
  add_public_key point1 scalar).

Definition derive_public_key_suffix (derivation : bytes) (output_index : Z) (base : PublicKey) (suffix : bytes) : option (option PublicKey) :=
  attempt None (ge_frombytes_vartime base) (fun point1 =>
  scalar ← derivation_to_scalar_suffix derivation output_index suffix;
  add_public_key point1 scalar).

(** [underive_public_key] after the scalar is known: [derived_key - scalar G]. *)
Definition sub_public_key (point1 : ge_p3) (scalar : bytes) : option (option PublicKey) :=
  point2 ← ge_scalarmult_base scalar;
  let point3 := ge_p3_to_cached point2 in
  let point4 := ge_sub point1 point3 in
  let point5 := ge_p1p1_to_p2 point4 in
  Some (Some (ge_tobytes point5)).

Definition underive_public_key (derivation : bytes) (output_index : Z) (derived_key : PublicKey) : option (option PublicKey) :=
  attempt None (ge_frombytes_vartime derived_key) (fun point1 =>
  scalar ← derivation_to_scalar derivation output_index;
  sub_public_key point1 scalar).

Definition underive_public_key_suffix (derivation : bytes) (output_index : Z) (derived_key : PublicKey) (suffix : bytes) : option (option PublicKey) :=
  attempt None (ge_frombytes_vartime derived_key) (fun point1 =>
  scalar ← derivation_to_scalar_suffix derivation output_index suffix;
  sub_public_key point1 scalar).

(** The base key and the scalar. *)
Definition underive_public_key_and_get_scalar (derivation : bytes) (output_index : Z) (derived_key : PublicKey) : option (option (PublicKey * bytes)) :=
  attempt None (ge_frombytes_vartime derived_key) (fun point1 =>
  hashed_derivation ← derivation_to_scalar derivation output_index;
  base ← sub_public_key point1 hashed_derivation;
  Some (option_map (fun base : PublicKey => (base, hashed_derivation)) base)).

Definition derive_secret_key (derivation : bytes) (output_index : Z) (base : bytes) : option bytes :=
  _ ← assertion (sc_check base =? 0);
  scalar ← derivation_to_scalar derivation output_index;
  Some (sc_add base scalar).

Definition derive_secret_key_suffix (derivation : bytes) (output_index : Z) (base : bytes) (suffix : bytes) : option bytes :=
  _ ← assertion (sc_check base =? 0);
  scalar ← derivation_to_scalar_suffix derivation output_index suffix;
  Some (sc_add base scalar).

(** ** Signatures *)

(** A signature is the scalars [c] and [r]. *)
Definition sig_c (sig : Signature) : bytes := take 32 sig.
Definition sig_r (sig : Signature) : bytes := drop 32 sig.

(** The assertions on the key pair, compiled without [NDEBUG]. *)
Definition assert_key_pair (pub : PublicKey) (sec : bytes) : option Datatypes.unit :=
  _ ← assertion (sc_check sec =? 0);
  t ← ge_scalarmult_base sec;
  assertion (bool_decide (pub = ge_p3_tobytes t)).

Definition generate_signature (prefix_hash : Hash) (pub : PublicKey) (sec : bytes) (tmp : bytes) : option Signature :=
  _ ← assert_key_pair pub sec;
  let k := random_scalar tmp in
  tmp3 ← ge_scalarmult_base k;
  let comm := ge_p3_tobytes tmp3 in
  let c := hash_to_scalar (prefix_hash ++ pub ++ comm) in
  let r := sc_mulsub c sec k in
  Some (c ++ r).

Definition check_signature (prefix_hash : Hash) (pub : PublicKey) (sig : Signature) : option bool :=
  _ ← assertion (check_key pub);
  tmp3 ← ge_frombytes_vartime pub;
  unless false (negb (sc_check (sig_c sig) =? 0) || negb (sc_check (sig_r sig) =? 0)) (
  tmp2 ← ge_double_scalarmult_base_vartime (sig_c sig) tmp3 (sig_r sig);
  let comm := ge_tobytes tmp2 in
  let c := hash_to_scalar (prefix_hash ++ pub ++ comm) in
  let c := sc_sub c (sig_c sig) in
  Some (sc_isnonzero c =? 0)).

(** ** Transaction proofs *)

Definition generate_tx_proof (prefix_hash : Hash) (R A D : PublicKey) (r : bytes) (tmp : bytes) : option Signature :=
  R_p3 ← ge_frombytes_vartime R;
  A_p3 ← ge_frombytes_vartime A;
  D_p3 ← ge_frombytes_vartime D;
  _ ← assertion (sc_check r =? 0);
  dbg_R_p3 ← ge_scalarmult_base r;
  let dbg_R := ge_p3_tobytes dbg_R_p3 in
  _ ← assertion (bool_decide (R = dbg_R));
  dbg_D_p2 ← ge_scalarmult r A_p3;
  let dbg_D := ge_tobytes dbg_D_p2 in
  _ ← assertion (bool_decide (D = dbg_D));
  let k := random_scalar tmp in
  X_p3 ← ge_scalarmult_base k;
  Y_p2 ← ge_scalarmult k A_p3;
  let c := hash_to_scalar (prefix_hash ++ D ++ ge_p3_tobytes X_p3 ++ ge_tobytes Y_p2) in
  Some (c ++ sc_mulsub c r k).

(** The sum of two points as it is computed for [X] and [Y]. *)
Definition add_points (p : ge_p3) (q : ge_p3) : ge_p2 := ge_p1p1_to_p2 (ge_add p (ge_p3_to_cached q)).

Definition check_tx_proof (prefix_hash : Hash) (R A D : PublicKey) (sig : Signature) : option bool :=
  attempt false (ge_frombytes_vartime R) (fun R_p3 =>
  attempt false (ge_frombytes_vartime A) (fun A_p3 =>
  attempt false (ge_frombytes_vartime D) (fun D_p3 =>
  unless false (negb (sc_check (sig_c sig) =? 0) || negb (sc_check (sig_r sig) =? 0)) (
  cR_p2 ← ge_scalarmult (sig_c sig) R_p3;
  rG_p3 ← ge_scalarmult_base (sig_r sig);
  cD_p2 ← ge_scalarmult (sig_c sig) D_p3;
  rA_p2 ← ge_scalarmult (sig_r sig) A_p3;
  attempt false (ge_frombytes_vartime (ge_tobytes cR_p2)) (fun cR_p3 =>
  let X_p2 := add_points cR_p3 rG_p3 in
  attempt false (ge_frombytes_vartime (ge_tobytes cD_p2)) (fun cD_p3 =>
  attempt false (ge_frombytes_vartime (ge_tobytes rA_p2)) (fun rA_p3 =>
  let Y_p2 := add_points cD_p3 rA_p3 in
  let c2 := hash_to_scalar (prefix_hash ++ D ++ ge_tobytes X_p2 ++ ge_tobytes Y_p2) in
  let c2 := sc_sub c2 (sig_c sig) in
  Some (sc_isnonzero c2 =? 0)))))))).

(** ** Key images *)

Definition hash_to_ec (key : PublicKey) : option ge_p3 :=
  let h := cn_fast_hash key in
  point ← ge_fromfe_frombytes_vartime h;
  let point2 := ge_mul8 point in
  Some (ge_p1p1_to_p3 point2).

(** The point is not read when [ge_frombytes_vartime] fails: [None]. *)
Definition scalarmultKey (P a : KeyImage) : option KeyImage :=
  A ← ge_frombytes_vartime P;
  R ← ge_scalarmult a A;
  Some (ge_tobytes R).

Definition hash_data_to_ec (data : bytes) : option PublicKey :=
  let h := cn_fast_hash data in
  point ← ge_fromfe_frombytes_vartime h;
  let point2 := ge_mul8 point in
  let point := ge_p1p1_to_p2 point2 in
  Some (ge_tobytes point).

Definition generate_key_image (pub : PublicKey) (sec : bytes) : option KeyImage :=
  _ ← assertion (sc_check sec =? 0);
  point ← hash_to_ec pub;
  point2 ← ge_scalarmult sec point;
  Some (ge_tobytes point2).

Definition generate_incomplete_key_image (pub : PublicKey) : option bytes :=
  point ← hash_to_ec pub;
  Some (ge_p3_tobytes point).

(** ** Ring signatures *)

(** [buf->ab[i]] for the scalars [c] and [r] of [sig[i]]. *)
Definition ring_commitment (image_pre : list ge_cached) (pub : PublicKey) (sig : Signature) : option bytes :=
  tmp3 ← ge_frombytes_vartime pub;
  tmp2 ← ge_double_scalarmult_base_vartime (sig_c sig) tmp3 (sig_r sig);
  let a := ge_tobytes tmp2 in
  tmp3 ← hash_to_ec pub;
  tmp2 ← ge_double_scalarmult_precomp_vartime (sig_r sig) tmp3 (sig_c sig) image_pre;
  let b := ge_tobytes tmp2 in
  Some (a ++ b).

(** [buf->ab[sec_index]] for the random scalar [k]. *)
Definition own_commitment (pub : PublicKey) (k : bytes) : option bytes :=
  tmp3 ← ge_scalarmult_base k;
  let a := ge_p3_tobytes tmp3 in
  tmp3 ← hash_to_ec pub;
  tmp2 ← ge_scalarmult k tmp3;
  let b := ge_tobytes tmp2 in
  Some (a ++ b).

(** The variables of the loop: [sig], [buf->ab], [sum] and [k], and the random bytes
    left, 64 for each scalar. *)
Record ring_state := RingState {
  ring_sig : list Signature;
  ring_ab : bytes;
  ring_sum : bytes;
  ring_k : option bytes;
  ring_random : list bytes
}.

Definition ring_step (image_pre : list ge_cached) (sec_index : nat) (s : ring_state) (i : nat) (pub : PublicKey) : option ring_state :=
  if decide (i = sec_index) then
    match ring_random s with
    | tmp :: random =>
        let k := random_scalar tmp in
        ab ← own_commitment pub k;
        Some (RingState (ring_sig s) (ring_ab s ++ ab) (ring_sum s) (Some k) random)
    | _ => None
    end
  else
    match ring_random s with
    | tmp :: tmp' :: random =>
        let sig := random_scalar tmp ++ random_scalar tmp' in
        ab ← ring_commitment image_pre pub sig;
        Some (RingState (<[i := sig]> (ring_sig s)) (ring_ab s ++ ab) (sc_add (ring_sum s) (sig_c sig)) (ring_k s) random)
    | _ => None
    end.

Fixpoint ring_loop (image_pre : list ge_cached) (sec_index : nat) (s : ring_state) (i : nat) (pubs : list PublicKey) : option ring_state :=
  match pubs with
  | [] => Some s
  | pub :: pubs => s ← ring_step image_pre sec_index s i pub; ring_loop image_pre sec_index s (S i) pubs
  end.

(** The assertions on the arguments, compiled without [NDEBUG]. *)
Definition assert_ring (image : KeyImage) (pubs : list PublicKey) (sec : bytes) (sec_index : nat) : option Datatypes.unit :=
  pub ← pubs !! sec_index;
  _ ← assert_key_pair pub sec;
  t3 ← generate_key_image pub sec;
  _ ← assertion (bool_decide (image = t3));
  assertion (forallb check_key pubs).

(** [sig] is the array the signature is written to, [random] the random bytes. *)
Definition generate_ring_signature (prefix_hash : Hash) (image : KeyImage) (pubs : list PublicKey) (sec : bytes) (sec_index : nat)
    (sig : list Signature) (random : list bytes) : option (list Signature) :=
  _ ← assert_ring image pubs sec sec_index;
  image_unp ← ge_frombytes_vartime image;
  let image_pre := ge_dsm_precomp image_unp in
  s ← ring_loop image_pre sec_index (RingState sig [] sc_0 None random) 0 pubs;
  k ← ring_k s;
  let h := hash_to_scalar (prefix_hash ++ ring_ab s) in
  let c := sc_sub h (ring_sum s) in
  let r := sc_mulsub c sec k in
  Some (<[sec_index := c ++ r]> (ring_sig s)).

(** The loop of [check_ring_signature]: [buf->ab] and [sum]; a scalar out of range
    makes it return false, the inner [None]. *)
Fixpoint check_ring_loop (image_pre : list ge_cached) (pubs : list PublicKey) (sig : list Signature) (ab sum : bytes) : option (option (bytes * bytes)) :=
  match pubs, sig with
  | [], _ => Some (Some (ab, sum))
  | pub :: pubs, s :: sig =>
      unless None (negb (sc_check (sig_c s) =? 0) || negb (sc_check (sig_r s) =? 0)) (
      ab' ← ring_commitment image_pre pub s;
      check_ring_loop image_pre pubs sig (ab ++ ab') (sc_add sum (sig_c s)))
  | _, [] => None
  end.

Definition check_ring_signature (prefix_hash : Hash) (image : KeyImage) (pubs : list PublicKey) (sig : list Signature) : option bool :=
  _ ← assertion (forallb check_key pubs);
  attempt false (ge_frombytes_vartime image) (fun image_unp =>
  let image_pre := ge_dsm_precomp image_unp in
  res ← check_ring_loop image_pre pubs sig [] sc_0;
  attempt false res (fun '(ab, sum) =>
  let h := hash_to_scalar (prefix_hash ++ ab) in
  let h := sc_sub h sum in
  Some (sc_isnonzero h =? 0))).

(** The functions are unfolded before the curve arithmetic in them. *)
#[local] Strategy expand [generate_keys generate_keys_from_seed secret_key_to_public_key generate_key_derivation derivation_to_scalar
  derivation_to_scalar_suffix add_public_key derive_public_key derive_public_key_suffix sub_public_key underive_public_key
  underive_public_key_suffix underive_public_key_and_get_scalar derive_secret_key derive_secret_key_suffix assert_key_pair
  generate_signature check_signature generate_tx_proof check_tx_proof hash_to_ec scalarmultKey hash_data_to_ec generate_key_image
  generate_incomplete_key_image ring_commitment own_commitment ring_step assert_ring generate_ring_signature check_ring_signature].

(** ** Scalars and points *)

#[local] Hint Resolve padd_curve popp_curve neutral_curve zmul_curve : core.

Definition scalar (s : bytes) (v : Z) : Prop := is_bytes s /\ length s = 32%nat /\ le_value s = v /\ 0 <= v < l.

(** The public key of a secret scalar. *)
Definition pub_of (v : Z) : PublicKey := encode (zmul v B).

Lemma scalar_mod r v : represents_mod r v -> scalar r (v mod l).
Proof. intros (E & Hb & Hl). split_and!; [done..|apply Z.mod_pos_bound; reflexivity|apply Z.mod_pos_bound; reflexivity]. Qed.

Lemma scalar_check s v : scalar s v -> sc_check s = 0.
Proof. intros (Hb & Hl & E & Hv). rewrite sc_check_value, E by done. by destruct (Z.ltb_spec v l); [|lia]. Qed.

Lemma scalar_last s v : scalar s v -> s !!! 31%nat <= 127.
Proof.
  intros (Hb & Hl & E & Hv). pose proof (last_byte s Hl) as Hs. pose proof (le_value_range (take 31 s) ltac:(by apply Forall_take)) as Hr.
  assert (l < 2 ^ 255) by reflexivity. lia.
Qed.

Lemma random_scalar_ok tmp : is_bytes tmp -> length tmp = 64%nat -> exists v, scalar (random_scalar tmp) v.
Proof. intros Hb Hl. eexists. by apply scalar_mod, sc_reduce_value. Qed.

Lemma hash_to_scalar_ok data : exists v, scalar (hash_to_scalar data) v.
Proof. destruct (cn_fast_hash_pod data) as [Hl Hb]. eexists. by apply scalar_mod, sc_reduce32_value. Qed.

Lemma base_ok s v : scalar s v -> exists h, ge_scalarmult_base s = Some h /\ rep_p3 h (zmul v B) /\ ge_p3_tobytes h = pub_of v.
Proof.
  intros Hs. pose proof Hs as (Hb & Hl & E & _). destruct (scalarmult_base_rep s Hb Hl (scalar_last s v Hs)) as (h & Eh & Hh). rewrite E in Hh.
  exists h. split; [exact Eh|]. split; [exact Hh|]. apply ge_p3_tobytes_ok; [exact Hh|apply zmul_curve, B_curve].
Qed.

Lemma mult_ok s v A P : scalar s v -> curve P -> rep_p3 A P ->
  exists r, ge_scalarmult s A = Some r /\ rep_p2 r (zmul v P) /\ ge_tobytes r = encode (zmul v P).
Proof.
  intros Hs HP HA. pose proof Hs as (Hb & Hl & E & _). destruct (scalarmult_rep P s A HP Hb Hl (scalar_last s v Hs) HA) as (r & Er & Hr). rewrite E in Hr.
  exists r. split; [exact Er|]. split; [exact Hr|]. apply ge_tobytes_ok; [exact Hr|by apply zmul_curve].
Qed.

Lemma decode_ok P : curve P -> exists h, ge_frombytes_vartime (encode P) = Some h /\ rep_p3 h P.
Proof.
  intros HP. destruct (encode_bytes P) as [Hb Hl]. destruct (frombytes_cases _ Hb Hl) as [(Q & h & HQ & E & Eh & Hh)|[_ Hno]]; [|by destruct (Hno P HP)].
  exists h. split; [exact Eh|]. replace P with Q; [by apply is_p3_rep|]. by apply encode_inj.
Qed.

Lemma pub_decode v : exists h, ge_frombytes_vartime (pub_of v) = Some h /\ rep_p3 h (zmul v B).
Proof. apply decode_ok, zmul_curve, B_curve. Qed.

Lemma check_key_ok P : curve P -> check_key (encode P) = true.
Proof. intros HP. destruct (decode_ok P HP) as (h & E & _). apply bool_decide_eq_true_2. by exists h. Qed.

Lemma assertion_true b : b = true -> assertion b = Some tt.
Proof. by intros ->. Qed.

Lemma assertion_scalar s v : scalar s v -> assertion (sc_check s =? 0) = Some tt.
Proof. intros H. by rewrite (scalar_check s v H). Qed.

Lemma unless_scalar {Y} (fail : Y) s v k : scalar s v -> unless fail (negb (sc_check s =? 0)) k = k.
Proof. intros H. by rewrite (scalar_check s v H). Qed.

Lemma attempt_some {X Y} (fail : Y) (x : X) k : attempt fail (Some x) k = k x.
Proof. reflexivity. Qed.

(** ** Key pairs *)

Lemma secret_key_to_public_key_ok s v : scalar s v -> secret_key_to_public_key s = Some (Some (pub_of v)).
Proof.
  intros Hs. unfold secret_key_to_public_key. rewrite (unless_scalar _ s v) by exact Hs. destruct (base_ok s v Hs) as (h & E & _ & Ep).
  rewrite E, bind_some, Ep. reflexivity.
Qed.

Lemma generate_key_derivation_ok s v P : scalar s v -> curve P -> generate_key_derivation (encode P) s = Some (Some (encode (zmul 8 (zmul v P)))).
Proof.
  intros Hs HP. unfold generate_key_derivation. rewrite (assertion_scalar s v), bind_some by exact Hs.
  destruct (decode_ok P HP) as (h & E & Hh). rewrite E, attempt_some. destruct (mult_ok s v h P Hs HP Hh) as (r & Er & Hr & _). rewrite Er, bind_some.
  cbv zeta. erewrite ge_tobytes_ok; [reflexivity|apply to_p2_rep, ge_mul8_rep; [exact Hr|by apply zmul_curve]|by apply zmul_curve, zmul_curve].
Qed.

(** ** One-time keys *)

Lemma pub_of_mod v : pub_of (v mod l) = pub_of v.
Proof. unfold pub_of. by rewrite (zmul_mod v l B B_curve B_order). Qed.

Lemma zmul_l v : zmul (v mod l) B = zmul v B.
Proof. exact (zmul_mod v l B B_curve B_order). Qed.

Lemma derivation_to_scalar_ok D i : is_u64 i -> exists s v, derivation_to_scalar D i = Some s /\ scalar s v.
Proof.
  intros Hi. destruct (hash_to_scalar_ok (D ++ write_varint i)) as [v Hv]. exists (hash_to_scalar (D ++ write_varint i)), v. split; [|exact Hv].
  unfold derivation_to_scalar. cbv zeta. rewrite assertion_true; [reflexivity|]. apply Nat.leb_le. by apply write_varint_length.
Qed.

Lemma derivation_to_scalar_suffix_ok D i suffix : is_u64 i -> (length suffix <= 32)%nat ->
  exists s v, derivation_to_scalar_suffix D i suffix = Some s /\ scalar s v.
Proof.
  intros Hi Hs. destruct (hash_to_scalar_ok (D ++ write_varint i ++ suffix)) as [v Hv]. exists (hash_to_scalar (D ++ write_varint i ++ suffix)), v. split; [|exact Hv].
  unfold derivation_to_scalar_suffix. cbv zeta. pose proof (write_varint_length i Hi).
  rewrite !assertion_true; [reflexivity|apply Nat.leb_le; lia..].
Qed.

Lemma add_public_key_ok h P s v : rep_p3 h P -> curve P -> scalar s v -> add_public_key h s = Some (Some (encode (padd P (zmul v B)))).
Proof.
  intros Hh HP Hs. destruct (base_ok s v Hs) as (g & E & Hg & _). pose proof (zmul_curve v B B_curve) as HV. unfold add_public_key. rewrite E, bind_some. cbv zeta.
  erewrite ge_tobytes_ok; [reflexivity|apply to_p2_rep, cached_add; [exact Hh|apply to_cached_rep; exact Hg|exact HP|exact HV]|by apply padd_curve].
Qed.

Lemma sub_public_key_ok h P s v : rep_p3 h P -> curve P -> scalar s v -> sub_public_key h s = Some (Some (encode (padd P (popp (zmul v B))))).
Proof.
  intros Hh HP Hs. destruct (base_ok s v Hs) as (g & E & Hg & _). pose proof (zmul_curve v B B_curve) as HV. unfold sub_public_key. rewrite E, bind_some. cbv zeta.
  erewrite ge_tobytes_ok; [reflexivity|apply to_p2_rep, cached_sub; [exact Hh|apply to_cached_rep; exact Hg|exact HP|exact HV]|by apply padd_curve; [|apply popp_curve]].
Qed.

(** The derived secret key belongs to the derived public key. *)
Lemma derived_secret s b t v : scalar s b -> scalar t v ->
  scalar (sc_add s t) ((b + v) mod l) /\ pub_of ((b + v) mod l) = encode (padd (zmul b B) (zmul v B)).
Proof.
  intros (Hb & Hl & E & _) (Hb' & Hl' & E' & _). split.
  - apply scalar_mod. rewrite <- E, <- E'. by apply sc_add_value.
  - rewrite pub_of_mod. unfold pub_of. by rewrite zmul_add by apply B_curve.
Qed.

(** Subtracting the scalar's multiple again. *)
Lemma padd_sub P Q : curve P -> curve Q -> padd (padd P Q) (popp Q) = P.
Proof. intros HP HQ. rewrite padd_assoc, padd_popp, padd_neutral_r by auto. done. Qed.

Lemma derive_keys_ok D i sb b : is_u64 i -> scalar sb b -> exists out x vx,
  derive_public_key D i (pub_of b) = Some (Some out) /\ derive_secret_key D i sb = Some x /\ scalar x vx /\ pub_of vx = out
  /\ underive_public_key D i out = Some (Some (pub_of b)).
Proof.
  intros Hi Hb. destruct (derivation_to_scalar_ok D i Hi) as (s & v & E & Hs). destruct (derived_secret sb b s v Hb Hs) as [Hx Hp].
  pose proof (zmul_curve b B B_curve) as HB. pose proof (zmul_curve v B B_curve) as HV.
  exists (encode (padd (zmul b B) (zmul v B))), (sc_add sb s), ((b + v) mod l). split; [|split; [|split; [exact Hx|split; [exact Hp|]]]].
  - unfold derive_public_key. destruct (pub_decode b) as (h & Eh & Hh). rewrite Eh, attempt_some, E, bind_some. by apply add_public_key_ok.
  - unfold derive_secret_key. rewrite (assertion_scalar sb b), bind_some, E, bind_some by exact Hb. reflexivity.
  - unfold underive_public_key. destruct (decode_ok _ (padd_curve _ _ HB HV)) as (h & Eh & Hh). rewrite Eh, attempt_some, E, bind_some.
    rewrite (sub_public_key_ok h _ s v Hh (padd_curve _ _ HB HV) Hs), padd_sub by assumption. reflexivity.
Qed.

Lemma derive_keys_suffix_ok D i suffix sb b : is_u64 i -> (length suffix <= 32)%nat -> scalar sb b -> exists out x vx,
  derive_public_key_suffix D i (pub_of b) suffix = Some (Some out) /\ derive_secret_key_suffix D i sb suffix = Some x /\ scalar x vx /\ pub_of vx = out
  /\ underive_public_key_suffix D i out suffix = Some (Some (pub_of b)).
Proof.
  intros Hi Hl Hb. destruct (derivation_to_scalar_suffix_ok D i suffix Hi Hl) as (s & v & E & Hs). destruct (derived_secret sb b s v Hb Hs) as [Hx Hp].
  pose proof (zmul_curve b B B_curve) as HB. pose proof (zmul_curve v B B_curve) as HV.
  exists (encode (padd (zmul b B) (zmul v B))), (sc_add sb s), ((b + v) mod l). split; [|split; [|split; [exact Hx|split; [exact Hp|]]]].
  - unfold derive_public_key_suffix. destruct (pub_decode b) as (h & Eh & Hh). rewrite Eh, attempt_some, E, bind_some. by apply add_public_key_ok.
  - unfold derive_secret_key_suffix. rewrite (assertion_scalar sb b), bind_some, E, bind_some by exact Hb. reflexivity.
  - unfold underive_public_key_suffix. destruct (decode_ok _ (padd_curve _ _ HB HV)) as (h & Eh & Hh). rewrite Eh, attempt_some, E, bind_some.
    rewrite (sub_public_key_ok h _ s v Hh (padd_curve _ _ HB HV) Hs), padd_sub by assumption. reflexivity.
Qed.

Lemma cofactor_product a r : zmul 8 (zmul r (zmul a B)) = zmul (8 * (r * a)) B.
Proof. rewrite (zmul_mul 8 (r * a)), (zmul_mul r a) by apply B_curve. done. Qed.

Lemma derivations_agree sa a sr r : scalar sa a -> scalar sr r ->
  generate_key_derivation (pub_of a) sr = Some (Some (pub_of (8 * (a * r)))) /\ generate_key_derivation (pub_of r) sa = Some (Some (pub_of (8 * (a * r)))).
Proof.
  intros Ha Hr. unfold pub_of. rewrite (generate_key_derivation_ok sr r), (generate_key_derivation_ok sa a) by (assumption || apply zmul_curve, B_curve).
  rewrite !cofactor_product, (Z.mul_comm r a). done.
Qed.

(** ** Signatures *)

Lemma sig_parts c r : length c = 32%nat -> sig_c (c ++ r) = c /\ sig_r (c ++ r) = r.
Proof. intros Hl. unfold sig_c, sig_r. by rewrite take_app_length', drop_app_length' by done. Qed.

(** [c P + r B] of the commitments. *)
Definition combine (c r : Z) (P Q : point) : point := padd (zmul c P) (zmul r Q).

Lemma double_base_enc sc c sr r A P : scalar sc c -> scalar sr r -> rep_p3 A P -> curve P ->
  exists t, ge_double_scalarmult_base_vartime sc A sr = Some t /\ ge_tobytes t = encode (combine c r P B).
Proof.
  intros Hc Hr HA HP. pose proof Hc as (Bc & Lc & Ec & _). pose proof Hr as (Br & Lr & Er & _).
  destruct (double_base_rep P sc A sr HP HA Bc Lc (scalar_last _ _ Hc) Br Lr (scalar_last _ _ Hr)) as (t & E & Ht). rewrite Ec, Er in Ht.
  exists t. split; [exact E|]. apply ge_tobytes_ok; [exact Ht|]. apply padd_curve; apply zmul_curve; [exact HP|apply B_curve].
Qed.

Lemma double_precomp_enc sc c sr r A P Bi Q : scalar sc c -> scalar sr r -> rep_p3 A P -> curve P -> odd_table rep_cached Q Bi -> curve Q ->
  exists t, ge_double_scalarmult_precomp_vartime sc A sr Bi = Some t /\ ge_tobytes t = encode (combine c r P Q).
Proof.
  intros Hc Hr HA HP HB HQ. pose proof Hc as (Bc & Lc & Ec & _). pose proof Hr as (Br & Lr & Er & _).
  destruct (double_precomp_rep P Q sc A sr Bi HP HQ HA HB Bc Lc (scalar_last _ _ Hc) Br Lr (scalar_last _ _ Hr)) as (t & E & Ht). rewrite Ec, Er in Ht.
  exists t. split; [exact E|]. apply ge_tobytes_ok; [exact Ht|]. apply padd_curve; by apply zmul_curve.
Qed.

(** Comparing two scalars by their difference. *)
Lemma sub_is_zero a u b v : scalar a u -> scalar b v -> (sc_isnonzero (sc_sub a b) =? 0) = bool_decide (u = v).
Proof.
  intros (Ba & La & Ea & Ha) (Bb & Lb & Eb & Hb). destruct (sc_sub_value a b Ba La Bb Lb) as (E & Hs & Ls).
  rewrite sc_isnonzero_value, E, Ea, Eb by done. case_bool_decide as H.
  - rewrite H, Z.sub_diag. reflexivity.
  - destruct (Z.eqb_spec ((u - v) mod l) 0) as [H0|]; [exfalso|done]. apply H.
    assert (u mod l = v mod l) as Hm by (rewrite <- (Z.sub_add v u), Zplus_mod, H0, Z.add_0_l, Zmod_mod; done).
    rewrite !Z.mod_small in Hm by lia. done.
Qed.

(** A scalar out of range. *)
Lemma not_scalar s : is_bytes s -> length s = 32%nat -> (sc_check s =? 0) = bool_decide (le_value s < l).
Proof. intros Hb Hl. rewrite sc_check_value by done. destruct (Z.ltb_spec (le_value s) l); case_bool_decide; lia || done. Qed.

Lemma range_scalar s : is_bytes s -> length s = 32%nat -> le_value s < l -> scalar s (le_value s).
Proof. intros Hb Hl H. pose proof (le_value_range s Hb). split_and!; (done || lia). Qed.

Lemma sig_halves sig : is_bytes sig -> length sig = 64%nat ->
  is_bytes (sig_c sig) /\ length (sig_c sig) = 32%nat /\ is_bytes (sig_r sig) /\ length (sig_r sig) = 32%nat.
Proof.
  intros Hb Hl. unfold sig_c, sig_r. split_and!; [by apply Forall_take|rewrite length_take_le; lia|by apply Forall_drop|rewrite length_drop; lia].
Qed.

(** Both scalars of the signature are in range. *)
Definition in_range (sig : Signature) : Prop := le_value (sig_c sig) < l /\ le_value (sig_r sig) < l.

#[export] Instance in_range_dec sig : Decision (in_range sig).
Proof. unfold in_range. apply _. Defined.

Lemma out_of_range sig : is_bytes sig -> length sig = 64%nat ->
  (negb (sc_check (sig_c sig) =? 0) || negb (sc_check (sig_r sig) =? 0)) = negb (bool_decide (in_range sig)).
Proof.
  intros Hb Hl. destruct (sig_halves sig Hb Hl) as (B1 & L1 & B2 & L2). rewrite !not_scalar by done.
  rewrite <- negb_andb, <- bool_decide_and. f_equal.
Qed.

(** The hash of the commitments of a signature. *)
Definition challenge (prefix_hash : Hash) (P : point) (comm : point) : Z :=
  le_value (hash_to_scalar (prefix_hash ++ encode P ++ encode comm)).

Lemma hash_scalar data : scalar (hash_to_scalar data) (le_value (hash_to_scalar data)).
Proof. destruct (hash_to_scalar_ok data) as [v Hv]. pose proof Hv as (_ & _ & E & _). by rewrite E. Qed.

Lemma check_signature_spec prefix_hash P sig : curve P -> is_bytes sig -> length sig = 64%nat ->
  let c := le_value (sig_c sig) in let r := le_value (sig_r sig) in
  check_signature prefix_hash (encode P) sig = Some (bool_decide (in_range sig /\ challenge prefix_hash P (combine c r P B) = c)).
Proof.
  intros HP Hb Hl c r. destruct (sig_halves sig Hb Hl) as (B1 & L1 & B2 & L2). unfold check_signature. rewrite assertion_true by by apply check_key_ok.
  destruct (decode_ok P HP) as (h & E & Hh). rewrite bind_some, E, bind_some, out_of_range by done. clear E.
  destruct (decide (in_range sig)) as [Hr|Hr].
  - rewrite (bool_decide_eq_true_2 _ Hr). cbn [negb unless]. pose proof Hr as [R1 R2].
    pose proof (range_scalar _ B1 L1 R1) as S1. pose proof (range_scalar _ B2 L2 R2) as S2.
    destruct (double_base_enc _ _ _ _ h P S1 S2 Hh HP) as (t & Et & Ht). rewrite Et, bind_some. cbv zeta. rewrite Ht.
    rewrite (sub_is_zero _ _ _ _ (hash_scalar _) S1). f_equal. apply bool_decide_ext. unfold challenge. tauto.
  - rewrite (bool_decide_eq_false_2 _ Hr). cbn [negb unless]. rewrite bool_decide_eq_false_2; [reflexivity|]. tauto.
Qed.

(** The response [k - c x] completes the challenge for a point of the order of the scalars. *)
Lemma response Q c x k : curve Q -> zmul l Q = neutral -> combine c ((k - c * x) mod l) (zmul x Q) Q = zmul k Q.
Proof.
  intros HQ Hl. unfold combine. rewrite (zmul_mod _ l Q HQ Hl), <- zmul_mul, <- zmul_add by done. f_equal. ring.
Qed.

Lemma response_scalar sc c sx x sk k : scalar sc c -> scalar sx x -> scalar sk k -> scalar (sc_mulsub sc sx sk) ((k - c * x) mod l).
Proof.
  intros (B1 & L1 & E1 & _) (B2 & L2 & E2 & _) (B3 & L3 & E3 & _). rewrite <- E1, <- E2, <- E3. by apply scalar_mod, sc_mulsub_value.
Qed.

Lemma assert_key_pair_ok sec x : scalar sec x -> assert_key_pair (pub_of x) sec = Some tt.
Proof.
  intros Hx. unfold assert_key_pair. rewrite (assertion_scalar sec x), bind_some by exact Hx. destruct (base_ok sec x Hx) as (h & E & _ & Ep).
  rewrite E, bind_some, Ep. apply assertion_true. by apply bool_decide_eq_true_2.
Qed.

(** What a signature of two scalars reads as. *)
Lemma sig_scalars sc c sr r : scalar sc c -> scalar sr r ->
  is_bytes (sc ++ sr) /\ length (sc ++ sr) = 64%nat /\ sig_c (sc ++ sr) = sc /\ sig_r (sc ++ sr) = sr /\ in_range (sc ++ sr).
Proof.
  intros (B1 & L1 & E1 & H1) (B2 & L2 & E2 & H2). destruct (sig_parts sc sr L1) as [Ec Er]. unfold in_range. rewrite Ec, Er, E1, E2, length_app, L1, L2.
  split_and!; [by apply Forall_app|done|done|done|lia|lia].
Qed.

Lemma signature_accepts prefix_hash sc c sr k x : scalar sc c -> scalar sr ((k - c * x) mod l) -> challenge prefix_hash (zmul x B) (zmul k B) = c ->
  check_signature prefix_hash (pub_of x) (sc ++ sr) = Some true.
Proof.
  intros Hc Hr H. destruct (sig_scalars sc _ sr _ Hc Hr) as (Bs & Ls & Ec & Er & Hin). unfold pub_of.
  rewrite (check_signature_spec _ _ _ (zmul_curve x B B_curve) Bs Ls). cbv zeta. rewrite bool_decide_eq_true_2; [reflexivity|].
  split; [exact Hin|]. rewrite Ec, Er. destruct Hc as (_ & _ & Ecv & _), Hr as (_ & _ & Erv & _). rewrite Ecv, Erv, (response B _ x k B_curve B_order). exact H.
Qed.

Lemma generate_signature_ok prefix_hash sec x tmp : scalar sec x -> is_bytes tmp -> length tmp = 64%nat ->
  exists sig, generate_signature prefix_hash (pub_of x) sec tmp = Some sig /\ is_bytes sig /\ length sig = 64%nat
    /\ check_signature prefix_hash (pub_of x) sig = Some true.
Proof.
  intros Hx Hb Hl. destruct (random_scalar_ok tmp Hb Hl) as [k Hk]. destruct (base_ok _ _ Hk) as (h & E & _ & Ep).
  pose proof (hash_scalar (prefix_hash ++ pub_of x ++ pub_of k)) as Hc. pose proof (response_scalar _ _ _ _ _ _ Hc Hx Hk) as Hr.
  destruct (sig_scalars _ _ _ _ Hc Hr) as (Bs & Ls & _). eexists. split; [|split; [exact Bs|split; [exact Ls|]]].
  - unfold generate_signature. rewrite (assert_key_pair_ok sec x), bind_some by exact Hx. cbv zeta. rewrite E, bind_some, Ep. reflexivity.
  - eapply signature_accepts; [exact Hc|exact Hr|reflexivity].
Qed.

(** ** Hashed points and key images *)

Lemma mul8_wide h P z : wide_p2 h P z -> curve P -> unit z -> rep_p1p1 (ge_mul8 h) (zmul 8 P).
Proof.
  intros [HX HY HZ] HP U. assert (rep_p1p1 (ge_p2_dbl h) (padd P P)) as H1.
  { pose proof (padd_adds P P (proj1 HP) (proj1 HP)) as L. pose proof L as (_ & _ & U1 & U2).
    exists (z * z * (1 + law_e P P)), (z * z * (1 - law_e P P)).
    split; [by repeat apply unit_mul|]. split; [by repeat apply unit_mul|]. by apply ge_p2_dbl_wide; [..|apply HP|]. }
  assert (zmul 8 P = padd (padd (padd P P) (padd P P)) (padd (padd P P) (padd P P))) as ->.
  { replace P with (zmul 1 P) at 2 3 4 5 6 7 8 9 by done. by rewrite <- !zmul_add. }
  unfold ge_mul8. cbv zeta. apply p2_dbl_rep; [|auto]. apply to_p2_rep, p2_dbl_rep; [|auto]. by apply to_p2_rep.
Qed.

(** A hashed point: on the curve, and of the order of the scalars. *)
Lemma hash_to_ec_ok key : exists h Q, hash_to_ec key = Some h /\ rep_p3 h Q /\ curve Q /\ zmul l Q = neutral.
Proof.
  destruct (cn_fast_hash_pod key) as [Hl Hb]. destruct (fromfe_curve _ Hb Hl) as (g & P & z & E & HP & U & Hg).
  exists (ge_p1p1_to_p3 (ge_mul8 g)), (zmul 8 P). unfold hash_to_ec. cbv zeta. rewrite E, bind_some. split; [reflexivity|].
  split; [apply to_p3_rep; by apply (mul8_wide g P z)|]. split; [by apply zmul_curve|]. rewrite <- zmul_mul, Z.mul_comm by exact HP. by apply curve_order.
Qed.

Lemma generate_key_image_ok pub sec x h Q : scalar sec x -> hash_to_ec pub = Some h -> rep_p3 h Q -> curve Q ->
  generate_key_image pub sec = Some (encode (zmul x Q)).
Proof.
  intros Hx E Hh HQ. unfold generate_key_image. rewrite (assertion_scalar sec x), bind_some, E, bind_some by exact Hx.
  destruct (mult_ok sec x h Q Hx HQ Hh) as (r & Er & _ & Et). rewrite Er, bind_some, Et. reflexivity.
Qed.

Lemma scalarmultKey_ok P a : curve P -> is_bytes a -> length a = 32%nat -> a !!! 31%nat <= 127 ->
  scalarmultKey (encode P) a = Some (encode (zmul (le_value a) P)).
Proof.
  intros HP Hb Hl Ha. destruct (decode_ok P HP) as (h & E & Hh). destruct (scalarmult_rep P a h HP Hb Hl Ha Hh) as (r & Er & Hr).
  unfold scalarmultKey. rewrite E, bind_some, Er, bind_some. f_equal. apply ge_tobytes_ok; [exact Hr|by apply zmul_curve].
Qed.

(** ** Transaction proofs *)

Lemma add_points_ok g h P Q : rep_p3 g P -> rep_p3 h Q -> curve P -> curve Q -> ge_tobytes (add_points g h) = encode (padd P Q).
Proof.
  intros Hg Hh HP HQ. apply ge_tobytes_ok; [apply to_p2_rep, cached_add; [exact Hg|apply to_cached_rep; exact Hh|exact HP|exact HQ]|by apply padd_curve].
Qed.

Lemma generate_tx_proof_ok prefix_hash sr r P tmp k : scalar sr r -> curve P -> scalar (random_scalar tmp) k ->
  let c := hash_to_scalar (prefix_hash ++ encode (zmul r P) ++ pub_of k ++ encode (zmul k P)) in
  generate_tx_proof prefix_hash (pub_of r) (encode P) (encode (zmul r P)) sr tmp = Some (c ++ sc_mulsub c sr (random_scalar tmp)).
Proof.
  intros Hr HP Hk c. unfold generate_tx_proof. destruct (pub_decode r) as (hR & ER & _). rewrite ER, bind_some.
  destruct (decode_ok P HP) as (hA & EA & HA). rewrite EA, bind_some. destruct (decode_ok _ (zmul_curve r P HP)) as (hD & ED & _). rewrite ED, bind_some.
  rewrite (assertion_scalar sr r), bind_some by exact Hr. destruct (base_ok sr r Hr) as (g & Eg & _ & Ep). rewrite Eg, bind_some. cbv zeta. rewrite Ep.
  rewrite (assertion_true (bool_decide (pub_of r = pub_of r)) (bool_decide_eq_true_2 _ eq_refl)), bind_some.
  destruct (mult_ok sr r hA P Hr HP HA) as (t & Et & _ & Ht). rewrite Et, bind_some, Ht.
  rewrite (assertion_true (bool_decide (encode (zmul r P) = encode (zmul r P))) (bool_decide_eq_true_2 _ eq_refl)), bind_some.
  destruct (base_ok _ k Hk) as (g' & Eg' & _ & Ep'). rewrite Eg', bind_some. destruct (mult_ok _ k hA P Hk HP HA) as (t' & Et' & _ & Ht').
  rewrite Et', bind_some, Ep', Ht'. reflexivity.
Qed.

Lemma check_tx_proof_spec prefix_hash P A D sig : curve P -> curve A -> curve D -> is_bytes sig -> length sig = 64%nat ->
  let c := le_value (sig_c sig) in let r := le_value (sig_r sig) in
  check_tx_proof prefix_hash (encode P) (encode A) (encode D) sig
  = Some (bool_decide (in_range sig /\ le_value (hash_to_scalar (prefix_hash ++ encode D ++ encode (combine c r P B) ++ encode (combine c r D A))) = c)).
Proof.
  intros HP HA HD Hb Hl c r. destruct (sig_halves sig Hb Hl) as (B1 & L1 & B2 & L2). unfold check_tx_proof.
  destruct (decode_ok P HP) as (hP & E & Kp). rewrite E, attempt_some. clear E. destruct (decode_ok A HA) as (hA & E & Ka). rewrite E, attempt_some. clear E.
  destruct (decode_ok D HD) as (hD & E & Kd). rewrite E, attempt_some. clear E. rewrite out_of_range by done.
  destruct (decide (in_range sig)) as [Hr|Hr].
  - rewrite (bool_decide_eq_true_2 _ Hr). cbn [negb unless]. pose proof Hr as [R1 R2].
    pose proof (range_scalar _ B1 L1 R1) as S1. pose proof (range_scalar _ B2 L2 R2) as S2. fold c in S1. fold r in S2.
    destruct (mult_ok _ _ _ _ S1 HP Kp) as (t1 & E1 & _ & T1). rewrite E1, bind_some. destruct (base_ok _ _ S2) as (g & E2 & Hg & _). rewrite E2, bind_some.
    destruct (mult_ok _ _ _ _ S1 HD Kd) as (t3 & E3 & _ & T3). rewrite E3, bind_some. destruct (mult_ok _ _ _ _ S2 HA Ka) as (t4 & E4 & _ & T4). rewrite E4, bind_some.
    rewrite T1, T3, T4. clear E1 E2 E3 E4 T1 T3 T4.
    destruct (decode_ok _ (zmul_curve c P HP)) as (q1 & E & Q1). rewrite E, attempt_some. clear E. cbv zeta.
    destruct (decode_ok _ (zmul_curve c D HD)) as (q2 & E & Q2). rewrite E, attempt_some. clear E.
    destruct (decode_ok _ (zmul_curve r A HA)) as (q3 & E & Q3). rewrite E, attempt_some. clear E.
    rewrite (add_points_ok q1 g _ _ Q1 Hg) by (apply zmul_curve; [exact HP || apply B_curve]).
    rewrite (add_points_ok q2 q3 _ _ Q2 Q3) by (apply zmul_curve; assumption).
    rewrite (sub_is_zero _ _ _ _ (hash_scalar _) S1). f_equal. apply bool_decide_ext. unfold combine. tauto.
  - rewrite (bool_decide_eq_false_2 _ Hr). cbn [negb unless]. rewrite bool_decide_eq_false_2; [reflexivity|]. tauto.
Qed.

(** ** Correctness *)

Lemma generate_keys_ok tmp : is_bytes tmp -> length tmp = 64%nat ->
  exists sec x, generate_keys tmp = Some (pub_of x, sec) /\ scalar sec x /\ check_key (pub_of x) = true /\ secret_key_to_public_key sec = Some (Some (pub_of x)).
Proof.
  intros Hb Hl. destruct (random_scalar_ok tmp Hb Hl) as [x Hx]. exists (random_scalar tmp), x. destruct (base_ok _ _ Hx) as (h & E & _ & Ep).
  split; [unfold generate_keys; cbv zeta; rewrite E, bind_some, Ep; reflexivity|]. split; [exact Hx|].
  split; [apply check_key_ok, zmul_curve, B_curve|by apply secret_key_to_public_key_ok].
Qed.

(** C13: signatures verify.  For any random bytes, [generate_keys] returns a key pair
    that [check_key] and [secret_key_to_public_key] accept; for any hash and any random
    bytes [generate_signature] passes its assertions on that pair, and
    [check_signature] accepts the signature. *)
Theorem signature_correct prefix_hash tmp tmp' : is_bytes tmp -> length tmp = 64%nat -> is_bytes tmp' -> length tmp' = 64%nat ->
  exists pub sec sig, generate_keys tmp = Some (pub, sec) /\ check_key pub = true /\ secret_key_to_public_key sec = Some (Some pub)
  /\ generate_signature prefix_hash pub sec tmp' = Some sig /\ check_signature prefix_hash pub sig = Some true.
Proof.
  intros Hb Hl Hb' Hl'. destruct (generate_keys_ok tmp Hb Hl) as (sec & x & E & Hx & Hk & Hs).
  destruct (generate_signature_ok prefix_hash sec x tmp' Hx Hb' Hl') as (sig & Eg & _ & _ & Hc).
  exists (pub_of x), sec, sig. split; [exact E|]. split; [exact Hk|]. split; [exact Hs|]. split; [exact Eg|exact Hc].
Qed.

Lemma signature_correct_witness : exists pub sec sig, generate_keys (replicate 64 77) = Some (pub, sec) /\ check_key pub = true
  /\ secret_key_to_public_key sec = Some (Some pub)
  /\ generate_signature (replicate 32 1) pub sec (replicate 64 200) = Some sig /\ check_signature (replicate 32 1) pub sig = Some true.
Proof. apply (signature_correct (replicate 32 1) (replicate 64 77) (replicate 64 200)); (bytes_compute || reflexivity). Defined.

(** C14: what a signature proves.  For a key that encodes the point [P] and any 64
    bytes, [check_signature] does not abort, and it accepts exactly when both scalars
    [c] and [r] are less than the group order and [c] is the hash of the message, the
    key and the encoding of [c P + r B]. *)
Theorem check_signature_exact prefix_hash P sig : curve P -> is_bytes sig -> length sig = 64%nat ->
  let c := le_value (take 32 sig) in let r := le_value (drop 32 sig) in
  check_signature prefix_hash (encode P) sig = Some (bool_decide ((c < l /\ r < l)
    /\ le_value (hash_to_scalar (prefix_hash ++ encode P ++ encode (padd (zmul c P) (zmul r B)))) = c)).
Proof.
  intros HP Hb Hl c r. rewrite (check_signature_spec prefix_hash P sig HP Hb Hl). cbv zeta. f_equal.
Qed.

Lemma check_signature_exact_witness : exists accepted, check_signature [] (encode fourth) (replicate 64 3) = Some accepted.
Proof. eexists. apply (check_signature_exact [] fourth (replicate 64 3)); [apply fourth_curve|bytes_compute|reflexivity]. Defined.

(** C15: one-time keys.  For the view key [a], the spend key [b] and the transaction
    key [r], sender and receiver compute the same derivation; the sender's one-time
    public key is the public key of the receiver's one-time secret key, and the
    receiver recovers the spend key from it.  The same holds for the functions with a
    suffix of at most 32 bytes. *)
Theorem one_time_keys_correct sa a sb b sr r i suffix : scalar sa a -> scalar sb b -> scalar sr r -> is_u64 i -> (length suffix <= 32)%nat ->
  exists D, generate_key_derivation (pub_of a) sr = Some (Some D) /\ generate_key_derivation (pub_of r) sa = Some (Some D)
  /\ (exists out x, derive_public_key D i (pub_of b) = Some (Some out) /\ derive_secret_key D i sb = Some x
       /\ secret_key_to_public_key x = Some (Some out) /\ underive_public_key D i out = Some (Some (pub_of b)))
  /\ exists out x, derive_public_key_suffix D i (pub_of b) suffix = Some (Some out) /\ derive_secret_key_suffix D i sb suffix = Some x
       /\ secret_key_to_public_key x = Some (Some out) /\ underive_public_key_suffix D i out suffix = Some (Some (pub_of b)).
Proof.
  intros Ha Hb Hr Hi Hs. destruct (derivations_agree sa a sr r Ha Hr) as [E1 E2]. exists (pub_of (8 * (a * r))). split; [exact E1|]. split; [exact E2|]. split.
  - destruct (derive_keys_ok (pub_of (8 * (a * r))) i sb b Hi Hb) as (out & x & vx & F1 & F2 & Hx & <- & F4).
    exists (pub_of vx), x. split; [exact F1|]. split; [exact F2|]. split; [by apply secret_key_to_public_key_ok|exact F4].
  - destruct (derive_keys_suffix_ok (pub_of (8 * (a * r))) i suffix sb b Hi Hs Hb) as (out & x & vx & F1 & F2 & Hx & <- & F4).
    exists (pub_of vx), x. split; [exact F1|]. split; [exact F2|]. split; [by apply secret_key_to_public_key_ok|exact F4].
Qed.

(** The scalar [v], little endian. *)
Definition scalar_bytes (v : Z) : bytes := le_bytes 32 v.

Lemma scalar_bytes_ok v : 0 <= v < l -> scalar (scalar_bytes v) v.
Proof.
  intros Hv. unfold scalar_bytes. split_and!; [apply le_bytes_is_bytes|apply length_le_bytes| |lia|lia]. apply le_value_bytes.
  assert (l < 256 ^ Z.of_nat 32) by reflexivity. lia.
Qed.

Lemma one_time_keys_correct_witness :
  exists D, generate_key_derivation (pub_of 11) (scalar_bytes 13) = Some (Some D) /\ generate_key_derivation (pub_of 13) (scalar_bytes 11) = Some (Some D)
  /\ (exists out x, derive_public_key D 300 (pub_of 12) = Some (Some out) /\ derive_secret_key D 300 (scalar_bytes 12) = Some x
       /\ secret_key_to_public_key x = Some (Some out) /\ underive_public_key D 300 out = Some (Some (pub_of 12)))
  /\ exists out x, derive_public_key_suffix D 300 (pub_of 12) [7; 8] = Some (Some out) /\ derive_secret_key_suffix D 300 (scalar_bytes 12) [7; 8] = Some x
       /\ secret_key_to_public_key x = Some (Some out) /\ underive_public_key_suffix D 300 out [7; 8] = Some (Some (pub_of 12)).
Proof.
  apply (one_time_keys_correct (scalar_bytes 11) 11 (scalar_bytes 12) 12 (scalar_bytes 13) 13 300 [7; 8]);
    [apply scalar_bytes_ok; split; [discriminate|reflexivity]|apply scalar_bytes_ok; split; [discriminate|reflexivity]
    |apply scalar_bytes_ok; split; [discriminate|reflexivity]|split; [discriminate|reflexivity]|cbn; lia].
Defined.

(** Transaction proofs verify.  For the transaction key [r] and the view key
    [a], [generate_tx_proof] with [R = r B], [A = a B] and [D = r A] passes its checks
    and returns, and [check_tx_proof] accepts the proof. *)
Theorem tx_proof_correct prefix_hash sr r a tmp : scalar sr r -> is_bytes tmp -> length tmp = 64%nat ->
  let R := pub_of r in let A := pub_of a in let D := pub_of (r * a) in
  exists sig, generate_tx_proof prefix_hash R A D sr tmp = Some sig /\ check_tx_proof prefix_hash R A D sig = Some true.
Proof.
  intros Hr Hb Hl R A D. destruct (random_scalar_ok tmp Hb Hl) as [k Hk]. pose proof (zmul_curve a B B_curve) as HA.
  assert (D = encode (zmul r (zmul a B))) as -> by (unfold D, pub_of; by rewrite zmul_mul by apply B_curve). eexists.
  split; [by apply generate_tx_proof_ok|]. change R with (encode (zmul r B)). change A with (encode (zmul a B)).
  pose proof (hash_scalar (prefix_hash ++ encode (zmul r (zmul a B)) ++ pub_of k ++ encode (zmul k (zmul a B)))) as Hc.
  pose proof (response_scalar _ _ _ _ _ _ Hc Hr Hk) as Hs. destruct (sig_scalars _ _ _ _ Hc Hs) as (Bs & Ls & Ec & Er & Hin).
  rewrite (check_tx_proof_spec prefix_hash (zmul r B) (zmul a B) (zmul r (zmul a B)) _ (zmul_curve r B B_curve) HA (zmul_curve r _ HA) Bs Ls). cbv zeta.
  rewrite bool_decide_eq_true_2; [reflexivity|]. split; [exact Hin|]. rewrite Ec, Er. destruct Hs as (_ & _ & Es & _). rewrite Es.
  rewrite (response B _ r k B_curve B_order), (response (zmul a B) _ r k HA); [reflexivity|].
  rewrite <- zmul_mul, Z.mul_comm, zmul_mul, B_order by apply B_curve. apply zmul_neutral.
Qed.

Lemma tx_proof_correct_witness : let R := pub_of 5 in let A := pub_of 6 in let D := pub_of (5 * 6) in
  exists sig, generate_tx_proof [] R A D (scalar_bytes 5) (replicate 64 9) = Some sig /\ check_tx_proof [] R A D sig = Some true.
Proof.
  apply (tx_proof_correct [] (scalar_bytes 5) 5 6 (replicate 64 9)); [apply scalar_bytes_ok; split; [discriminate|reflexivity]|bytes_compute|reflexivity].
Defined.

End Crypto.
