(* ===== verification/RingSignature.v ===== *)
(** Ring signatures, src/crypto/crypto.cpp: what [check_ring_signature] accepts, and that
    it accepts what [generate_ring_signature] writes. *)

From S2P Require Import Prelude.
From S2P Require Import Varint.
From S2P Require Import Serialization.
From S2P Require Import CryptoNote.
From S2P Require Import Keccak.
From S2P Require Import CryptoOps.
From S2P Require Import Sc.
From S2P Require Import Fe.
From S2P Require Import Ge.
From S2P Require Import Edwards.
From S2P Require Import ScalarMult.
From S2P Require Import BasePoint.
From S2P Require Import PointCodec.
From S2P Require Import DoubleScalarMult.
From S2P Require Import CryptoInterface.
From S2P Require Import Blockchain.
From S2P Require Import GroupOrder.
From S2P Require Import Crypto.
Import Varint Stream CryptoOps Sc Fe Ge Edwards ScalarMult BasePoint PointCodec DoubleScalarMult Crypto.

Module RingSignature.

#[local] Open Scope list_scope.
#[local] Open Scope Z_scope.

(** Public keys of points of the curve. *)
Definition valid_key (pub : PublicKey) : Prop := exists P, curve P /\ pub = encode P.

(** The image decodes to [I], whose odd multiples are tabulated. *)
Section ring.
Context (I : point) (HI : curve I) (image_pre : list ge_cached) (Hpre : odd_table rep_cached I image_pre).

Lemma ring_commitment_ok pub h H sig : hash_to_ec pub = Some h -> rep_p3 h H -> curve H -> forall P, curve P -> pub = encode P ->
  forall c r, scalar (sig_c sig) c -> scalar (sig_r sig) r ->
  ring_commitment image_pre pub sig = Some (encode (combine c r P B) ++ encode (combine r c H I)).
Proof.
  intros Eh Hh HH P HP -> c r Hc Hr. unfold ring_commitment. destruct (decode_ok P HP) as (g & E & Hg). rewrite E, bind_some.
  destruct (double_base_enc _ _ _ _ g P Hc Hr Hg HP) as (t & Et & Ht). rewrite Et, bind_some. cbv zeta. rewrite Ht, Eh, bind_some.
  destruct (double_precomp_enc _ _ _ _ h H image_pre I Hr Hc Hh HH Hpre HI) as (t' & Et' & Ht'). rewrite Et', bind_some, Ht'. reflexivity.
Qed.

Lemma own_commitment_ok pub h H sk k : hash_to_ec pub = Some h -> rep_p3 h H -> curve H -> scalar sk k ->
  own_commitment pub sk = Some (pub_of k ++ encode (zmul k H)).
Proof.
  intros Eh Hh HH Hk. unfold own_commitment. destruct (base_ok sk k Hk) as (g & E & _ & Ep). rewrite E, bind_some. cbv zeta. rewrite Ep, Eh, bind_some.
  destruct (mult_ok sk k h H Hk HH Hh) as (t & Et & _ & Ht). rewrite Et, bind_some, Ht. reflexivity.
Qed.

(** The commitments of the signer, computed from [k] or from the response. *)
Lemma own_closes pub h H x sk k sc c sr : hash_to_ec pub = Some h -> rep_p3 h H -> curve H -> zmul l H = neutral -> pub = pub_of x -> I = zmul x H ->
  scalar sk k -> scalar sc c -> scalar sr ((k - c * x) mod l) ->
  ring_commitment image_pre pub (sc ++ sr) = own_commitment pub sk.
Proof.
  intros Eh Hh HH Hl Ep EI Hk Hc Hr. destruct (sig_scalars sc _ sr _ Hc Hr) as (_ & _ & Ec & Er & _).
  rewrite (own_commitment_ok pub h H sk k Eh Hh HH Hk).
  rewrite (ring_commitment_ok pub h H (sc ++ sr) Eh Hh HH (zmul x B) (zmul_curve x B B_curve) Ep c ((k - c * x) mod l));
    [|by rewrite Ec|by rewrite Er].
  rewrite (response B c x k B_curve B_order). f_equal. f_equal. f_equal. rewrite EI. unfold combine. rewrite padd_comm.
  exact (response H c x k HH Hl).
Qed.

End ring.

(** ** The loops *)

Lemma add_scalar s u t v : scalar s u -> scalar t v -> scalar (sc_add s t) ((u + v) mod l).
Proof. intros (B1 & L1 & E1 & _) (B2 & L2 & E2 & _). rewrite <- E1, <- E2. by apply scalar_mod, sc_add_value. Qed.

Lemma sub_scalar s u t v : scalar s u -> scalar t v -> scalar (sc_sub s t) ((u - v) mod l).
Proof. intros (B1 & L1 & E1 & _) (B2 & L2 & E2 & _). rewrite <- E1, <- E2. by apply scalar_mod, sc_sub_value. Qed.

Definition random_ok (random : list bytes) : Prop := Forall (fun tmp => is_bytes tmp /\ length tmp = 64%nat) random.

Section loops.
Context (I : point) (HI : curve I) (image_pre : list ge_cached) (Hpre : odd_table rep_cached I image_pre).

(** One step of the checking loop. *)
Lemma check_ring_step pub pubs sc c sr r ab' sigs ab sum : scalar sc c -> scalar sr r -> ring_commitment image_pre pub (sc ++ sr) = Some ab' ->
  check_ring_loop image_pre (pub :: pubs) ((sc ++ sr) :: sigs) ab sum = check_ring_loop image_pre pubs sigs (ab ++ ab') (sc_add sum sc).
Proof.
  intros Hc Hr E. destruct (sig_scalars sc c sr r Hc Hr) as (Hb & Hl & Ec & Er & Hin). cbn [check_ring_loop].
  rewrite out_of_range, (bool_decide_eq_true_2 _ Hin) by done. cbn [negb unless]. rewrite E, bind_some, Ec. reflexivity.
Qed.

Lemma ring_commitment_total pub sc c sr r : valid_key pub -> scalar sc c -> scalar sr r -> exists ab, ring_commitment image_pre pub (sc ++ sr) = Some ab.
Proof.
  intros (P & HP & Ep) Hc Hr. destruct (hash_to_ec_ok pub) as (h & H & Eh & Hh & HH & _). destruct (sig_scalars sc _ sr _ Hc Hr) as (_ & _ & Ec & Er & _).
  eexists. apply (ring_commitment_ok I HI image_pre Hpre pub h H (sc ++ sr) Eh Hh HH P HP Ep c r); [by rewrite Ec|by rewrite Er].
Qed.

(** One step of the signing loop for another's key. *)
Lemma other_step j pre o post ab0 sum v k tmp tmp' rnd pub : length pre <> j -> valid_key pub -> scalar sum v ->
  is_bytes tmp -> length tmp = 64%nat -> is_bytes tmp' -> length tmp' = 64%nat ->
  exists sc c sr r ab, scalar sc c /\ scalar sr r /\ ring_commitment image_pre pub (sc ++ sr) = Some ab
  /\ ring_step image_pre j (RingState (pre ++ o :: post) ab0 sum k (tmp :: tmp' :: rnd)) (length pre) pub
      = Some (RingState (pre ++ (sc ++ sr) :: post) (ab0 ++ ab) (sc_add sum sc) k rnd).
Proof.
  intros Hj Hp Hs B1 L1 B2 L2. destruct (random_scalar_ok tmp B1 L1) as [c Hc]. destruct (random_scalar_ok tmp' B2 L2) as [r Hr].
  destruct (ring_commitment_total pub _ _ _ _ Hp Hc Hr) as [ab E]. exists (random_scalar tmp), c, (random_scalar tmp'), r, ab.
  split; [exact Hc|]. split; [exact Hr|]. split; [exact E|]. destruct (sig_scalars _ _ _ _ Hc Hr) as (_ & _ & Ec & _ & _).
  unfold ring_step. rewrite decide_False by exact Hj. cbn [ring_random ring_sig ring_ab ring_sum ring_k]. cbv zeta. rewrite E, bind_some, Ec.
  rewrite insert_app_r_alt, Nat.sub_diag by lia. reflexivity.
Qed.

Lemma mod_add_small v d : 0 <= v < l -> ((v + 0) mod l = v) /\ forall c, (((v + c) mod l) + d) mod l = (v + (c + d)) mod l.
Proof.
  intros Hv. split; [rewrite Z.add_0_r; by apply Z.mod_small|]. intros c. rewrite Zplus_mod_idemp_l. f_equal. ring.
Qed.

(** The keys of the others: their signatures are random, the checking loop computes the same commitments. *)
Lemma others_loop j pubs pre old post ab0 sum v k rnd : length old = length pubs -> (j < length pre \/ length pre + length pubs <= j)%nat ->
  Forall valid_key pubs -> random_ok rnd -> (2 * length pubs <= length rnd)%nat -> scalar sum v ->
  exists sigs ab sum' d, length sigs = length pubs /\ scalar sum' ((v + d) mod l)
  /\ ring_loop image_pre j (RingState (pre ++ old ++ post) ab0 sum k rnd) (length pre) pubs
      = Some (RingState (pre ++ sigs ++ post) (ab0 ++ ab) sum' k (drop (2 * length pubs) rnd))
  /\ forall pubs2 sigs2 a wS w, scalar wS w -> exists wS', scalar wS' ((w + d) mod l)
      /\ check_ring_loop image_pre (pubs ++ pubs2) (sigs ++ sigs2) a wS = check_ring_loop image_pre pubs2 sigs2 (a ++ ab) wS'.
Proof.
  revert pre old ab0 sum v rnd. induction pubs as [|pub pubs IH]; intros pre [|o old] ab0 sum v rnd Ho Hj Hp Hr Hl Hs; try discriminate Ho.
  - exists [], [], sum, 0. split; [done|]. destruct (mod_add_small v 0) as [Ev _]; [apply Hs|]. rewrite Ev. split; [exact Hs|].
    rewrite app_nil_r, drop_0. split; [reflexivity|]. intros pubs2 sigs2 a wS w Hw. exists wS. destruct (mod_add_small w 0) as [Ew _]; [apply Hw|].
    rewrite Ew, app_nil_r. split; [exact Hw|reflexivity].
  - cbn [length] in Ho, Hj, Hl. destruct rnd as [|tmp [|tmp' rnd]]; cbn [length] in Hl; [lia..|].
    apply Forall_cons in Hp as [Hpub Hp]. apply Forall_cons in Hr as [[B1 L1] Hr]. apply Forall_cons in Hr as [[B2 L2] Hr].
    destruct (other_step j pre o (old ++ post) ab0 sum v k tmp tmp' rnd pub) as (sc & c & sr & r & ab & Hc & Hsr & Eab & Estep); [lia|done..|].
    destruct (IH (pre ++ [sc ++ sr]) old (ab0 ++ ab) (sc_add sum sc) ((v + c) mod l) rnd) as (sigs & abs & sum' & d & Ls & Hs' & Eloop & Hcheck);
      [lia|rewrite length_app; cbn [length]; lia|done|done|lia|by apply add_scalar|].
    exists ((sc ++ sr) :: sigs), (ab ++ abs), sum', (c + d). destruct (mod_add_small v d) as [_ Ev]; [apply Hs|]. rewrite Ev in Hs'.
    split; [by cbn [length]; rewrite Ls|]. split; [exact Hs'|]. split.
    + cbn [ring_loop app]. rewrite Estep, bind_some. rewrite length_app in Eloop. cbn [length] in Eloop.
      replace (length pre + 1)%nat with (S (length pre)) in Eloop by lia. rewrite <- !app_assoc in Eloop. cbn [app] in Eloop. rewrite Eloop.
      rewrite <- ?app_assoc. cbn [length]. replace (2 * S (length pubs))%nat with (S (S (2 * length pubs))) by lia. reflexivity.
    + intros pubs2 sigs2 a wS w Hw. destruct (Hcheck pubs2 sigs2 (a ++ ab) (sc_add wS sc) ((w + c) mod l)) as (wS' & Hw' & E); [by apply add_scalar|].
      exists wS'. destruct (mod_add_small w d) as [_ Ew]; [apply Hw|]. rewrite Ew in Hw'. split; [exact Hw'|]. cbn [app].
      rewrite (check_ring_step pub _ sc c sr r ab) by assumption. rewrite E, <- app_assoc. reflexivity.
Qed.

End loops.

Lemma ring_loop_app image_pre j s i pubs pubs' :
  ring_loop image_pre j s i (pubs ++ pubs') = ring_loop image_pre j s i pubs ≫= fun s => ring_loop image_pre j s (i + length pubs) pubs'.
Proof.
  revert s i. induction pubs as [|pub pubs IH]; intros s i; cbn [app ring_loop length]; [by rewrite Nat.add_0_r, bind_some|].
  destruct (ring_step image_pre j s i pub) as [s'|]; [|reflexivity]. rewrite !bind_some, IH. by replace (S i + length pubs)%nat with (i + S (length pubs))%nat by lia.
Qed.

Lemma random_split random n : random_ok random -> random_ok (drop n random).
Proof. apply Forall_drop. Qed.

(** The sum of the challenges is the hash. *)
Lemma closing_sum h d d' c : c = (h - (((0 + d) mod l) + d') mod l) mod l -> 0 <= h < l -> (((((0 + d) mod l) + c) mod l) + d') mod l = h.
Proof.
  intros -> Hh. rewrite !Z.add_0_l. assert (l <> 0) as H0 by (vm_compute; discriminate).
  rewrite !(Z.add_mod_idemp_l d) by exact H0. rewrite (Z.add_mod_idemp_l (d + _)) by exact H0.
  replace (d + (h - (d + d') mod l) mod l + d') with ((h - (d + d') mod l) mod l + (d + d')) by ring. rewrite Z.add_mod_idemp_l by exact H0.
  replace (h - (d + d') mod l + (d + d')) with (h + (d + d') - (d + d') mod l) by ring. rewrite Zminus_mod_idemp_r.
  replace (h + (d + d') - (d + d')) with h by ring. by apply Z.mod_small.
Qed.

Lemma check_keys_ok pubs : Forall valid_key pubs -> forallb check_key pubs = true.
Proof.
  induction 1 as [|pub pubs (P & HP & ->) _ IH]; [reflexivity|]. cbn [forallb]. by rewrite check_key_ok, IH.
Qed.

Section signing.
Context (prefix_hash : Hash) (sec : bytes) (x : Z) (Hx : scalar sec x) (h : ge_p3) (H : point) (Eh : hash_to_ec (pub_of x) = Some h)
  (Hh : rep_p3 h H) (HH : curve H) (Hl : zmul l H = neutral).

Let image : KeyImage := encode (zmul x H).

Lemma assert_ring_ok pubs j : pubs !! j = Some (pub_of x) -> Forall valid_key pubs -> assert_ring image pubs sec j = Some tt.
Proof.
  intros Hj Hp. unfold assert_ring. rewrite Hj, bind_some, (assert_key_pair_ok sec x Hx), bind_some, (generate_key_image_ok (pub_of x) sec x h H Hx Eh Hh HH), bind_some.
  rewrite (assertion_true (bool_decide _) (bool_decide_eq_true_2 _ eq_refl)), bind_some. by apply assertion_true, check_keys_ok.
Qed.

Section loop.
Context (image_pre : list ge_cached) (Hpre : odd_table rep_cached (zmul x H) image_pre).

(** The step of the signer's own key. *)
Lemma own_step s tmp random i : ring_random s = tmp :: random -> is_bytes tmp -> length tmp = 64%nat ->
  exists sk k ab, scalar sk k /\ own_commitment (pub_of x) sk = Some ab
  /\ ring_step image_pre i s i (pub_of x) = Some (RingState (ring_sig s) (ring_ab s ++ ab) (ring_sum s) (Some sk) random).
Proof.
  intros Es Hb Ht. destruct (random_scalar_ok tmp Hb Ht) as [k Hk]. pose proof (own_commitment_ok (pub_of x) h H _ k Eh Hh HH Hk) as E.
  eexists (random_scalar tmp), k, _. split; [exact Hk|]. split; [exact E|]. unfold ring_step. rewrite decide_True by reflexivity. rewrite Es. cbv zeta. rewrite E, bind_some. reflexivity.
Qed.

(** The whole loop, and what the checking loop makes of the signatures with the
    signer's own one filled in. *)
Lemma signing_loop pubs1 pubs2 old1 o old2 random : Forall valid_key pubs1 -> Forall valid_key pubs2 -> length old1 = length pubs1 ->
  length old2 = length pubs2 -> random_ok random -> (2 * (length pubs1 + S (length pubs2)) <= length random)%nat ->
  exists sigs1 sigs2 ab sum sk k d1 d2 random', length sigs1 = length pubs1 /\ scalar sk k /\ scalar sum ((((0 + d1) mod l) + d2) mod l)
  /\ ring_loop image_pre (length pubs1) (RingState (old1 ++ o :: old2) [] sc_0 None random) 0 (pubs1 ++ pub_of x :: pubs2)
      = Some (RingState (sigs1 ++ o :: sigs2) ab sum (Some sk) random')
  /\ forall sc c sr, scalar sc c -> scalar sr ((k - c * x) mod l) -> exists wS, scalar wS (((((0 + d1) mod l) + c) mod l + d2) mod l)
      /\ check_ring_loop image_pre (pubs1 ++ pub_of x :: pubs2) (sigs1 ++ (sc ++ sr) :: sigs2) [] sc_0 = Some (Some (ab, wS)).
Proof.
  intros Hp1 Hp2 L1 L2 Hr Lr. assert (curve (zmul x H)) as HI by by apply zmul_curve. assert (scalar sc_0 0) as H0 by (split_and!; [bytes_compute|reflexivity..|lia|reflexivity]).
  destruct (others_loop (zmul x H) HI image_pre Hpre (length pubs1) pubs1 [] old1 (o :: old2) [] sc_0 0 None random L1)
    as (sigs1 & ab1 & sum1 & d1 & Ls1 & Hs1 & E1 & C1); [right; reflexivity|exact Hp1|exact Hr|lia|exact H0|].
  destruct (drop (2 * length pubs1) random) as [|tmp random'] eqn:Ed; [apply (f_equal length) in Ed; rewrite length_drop in Ed; cbn [length] in Ed; lia|].
  pose proof (random_split random (2 * length pubs1) Hr) as Hr1. rewrite Ed in Hr1. apply Forall_cons in Hr1 as [[Hb Ht] Hr1].
  assert (length random' + S (2 * length pubs1) = length random)%nat as Lr1 by (apply (f_equal length) in Ed; rewrite length_drop in Ed; cbn [length] in Ed; lia).
  destruct (own_step (RingState (sigs1 ++ o :: old2) ab1 sum1 None (tmp :: random')) tmp random' (length pubs1) eq_refl Hb Ht) as (sk & k & abo & Hk & Eo & Es).
  cbn [ring_sig ring_ab ring_sum] in Es.
  destruct (others_loop (zmul x H) HI image_pre Hpre (length pubs1) pubs2 (sigs1 ++ [o]) old2 [] (ab1 ++ abo) sum1 ((0 + d1) mod l) (Some sk) random' L2)
    as (sigs2 & ab2 & sum2 & d2 & Ls2 & Hs2 & E2 & C2); [left; rewrite length_app, Ls1; cbn [length]; lia|exact Hp2|exact Hr1|lia|exact Hs1|].
  exists sigs1, sigs2, ((ab1 ++ abo) ++ ab2), sum2, sk, k, d1, d2. eexists. split; [exact Ls1|]. split; [exact Hk|]. split; [exact Hs2|]. split.
  - rewrite ring_loop_app. cbn [app length] in E1. rewrite E1, bind_some. cbn [ring_loop]. rewrite Nat.add_0_l, Es, bind_some.
    rewrite length_app, Ls1, Nat.add_1_r, !app_nil_r, <- !app_assoc in E2. cbn [app] in E2. rewrite <- app_assoc. exact E2.
  - intros sc c sr Hc Hsr. destruct (C1 (pub_of x :: pubs2) ((sc ++ sr) :: sigs2) [] sc_0 0 H0) as (w1 & Hw1 & ->).
    rewrite (check_ring_step image_pre (pub_of x) pubs2 sc c sr _ abo sigs2 _ w1 Hc Hsr)
      by (rewrite <- Eo; by apply (own_closes (zmul x H) HI image_pre Hpre (pub_of x) h H x sk k sc c sr)).
    destruct (C2 [] [] (([] ++ ab1) ++ abo) (sc_add w1 sc) (((0 + d1) mod l + c) mod l)) as (w2 & Hw2 & E); [by apply add_scalar|].
    rewrite !app_nil_r in E. exists w2. split; [exact Hw2|]. rewrite E. reflexivity.
Qed.

End loop.

Lemma ring_signature_ok pubs1 pubs2 sig random : Forall valid_key (pubs1 ++ pub_of x :: pubs2) ->
  length sig = length (pubs1 ++ pub_of x :: pubs2) -> random_ok random -> (2 * length (pubs1 ++ pub_of x :: pubs2) <= length random)%nat ->
  exists sigs, generate_ring_signature prefix_hash image (pubs1 ++ pub_of x :: pubs2) sec (length pubs1) sig random = Some sigs
    /\ check_ring_signature prefix_hash image (pubs1 ++ pub_of x :: pubs2) sigs = Some true.
Proof.
  intros Hp Ls Hr Lr. pose proof Hp as [Hp1 Hp2]%Forall_app. apply Forall_cons in Hp2 as [_ Hp2]. rewrite length_app in Ls, Lr. cbn [length] in Ls, Lr.
  destruct (decode_ok (zmul x H) (zmul_curve x H HH)) as (g & Eg & Hg). pose proof (ge_dsm_precomp_spec g (zmul x H) (zmul_curve x H HH) Hg) as Hpre.
  assert (length (take (length pubs1) sig) = length pubs1) as L1 by (rewrite length_take_le; lia).
  destruct (drop (length pubs1) sig) as [|o old2] eqn:Ed; [apply (f_equal length) in Ed; rewrite length_drop in Ed; cbn [length] in Ed; lia|].
  assert (length old2 = length pubs2) as L2 by (apply (f_equal length) in Ed; rewrite length_drop in Ed; cbn [length] in Ed; lia).
  destruct (signing_loop (ge_dsm_precomp g) Hpre pubs1 pubs2 (take (length pubs1) sig) o old2 random Hp1 Hp2 L1 L2 Hr ltac:(lia))
    as (sigs1 & sigs2 & ab & sum & sk & k & d1 & d2 & random' & Ls1 & Hk & Hs & Eloop & Hcheck). rewrite <- Ed, take_drop in Eloop.
  pose proof (hash_scalar (prefix_hash ++ ab)) as Hhash. pose proof (sub_scalar _ _ _ _ Hhash Hs) as Hc. pose proof (response_scalar _ _ _ _ _ _ Hc Hx Hk) as Hresp.
  eexists. split.
  - unfold generate_ring_signature. rewrite assert_ring_ok, bind_some by (exact Hp || (apply list_lookup_middle; reflexivity)).
    unfold image. rewrite Eg, bind_some. cbv zeta. rewrite Eloop, bind_some. cbn [ring_k ring_ab ring_sum ring_sig]. rewrite bind_some.
    rewrite <- Ls1, insert_app_r_alt, Nat.sub_diag by lia. reflexivity.
  - unfold check_ring_signature. rewrite (assertion_true _ (check_keys_ok _ Hp)), bind_some. unfold image. rewrite Eg, attempt_some. cbv zeta.
    destruct (Hcheck _ _ _ Hc Hresp) as (wS & HwS & E). cbn [list_insert insert]. rewrite E, bind_some, attempt_some.
    rewrite (sub_is_zero _ _ _ _ Hhash HwS). f_equal. apply bool_decide_eq_true_2. symmetry. apply closing_sum; [reflexivity|apply Hhash].
Qed.

End signing.

Lemma ring_loop_length image_pre j s i pubs s' : ring_loop image_pre j s i pubs = Some s' -> length (ring_sig s') = length (ring_sig s).
Proof.
  revert s i. induction pubs as [|pub pubs IH]; intros s i E; cbn [ring_loop] in E; [by apply (inj Some) in E as ->|].
  apply bind_Some in E as (s1 & E1 & E). apply IH in E as ->. unfold ring_step in E1. cbv zeta in E1. destruct (decide (i = j)).
  - destruct (ring_random s) as [|tmp random]; [discriminate|]. apply bind_Some in E1 as (ab & _ & E1%(inj Some)). by subst s1.
  - destruct (ring_random s) as [|tmp [|tmp' random]]; [discriminate..|]. apply bind_Some in E1 as (ab & _ & E1%(inj Some)). subst s1.
    cbn [ring_sig]. apply length_insert.
Qed.

Lemma generate_ring_signature_length prefix_hash image pubs sec j sig random sigs :
  generate_ring_signature prefix_hash image pubs sec j sig random = Some sigs -> length sigs = length sig.
Proof.
  unfold generate_ring_signature. cbv zeta. intros (? & _ & E)%bind_Some. apply bind_Some in E as (g & _ & E). apply bind_Some in E as (s & Es & E).
  apply bind_Some in E as (k & _ & E%(inj Some)). subst sigs. rewrite length_insert. exact (ring_loop_length _ _ _ _ _ _ Es).
Qed.

(** The signer's image, and signatures that are accepted with it. *)
Lemma ring_sign_ok prefix_hash pubs sec x sec_index sig random : scalar sec x -> pubs !! sec_index = Some (pub_of x) ->
  Forall valid_key pubs -> length sig = length pubs -> random_ok random -> (2 * length pubs <= length random)%nat ->
  exists image sigs, generate_key_image (pub_of x) sec = Some image
    /\ generate_ring_signature prefix_hash image pubs sec sec_index sig random = Some sigs
    /\ check_ring_signature prefix_hash image pubs sigs = Some true.
Proof.
  intros Hx Hj Hp Ls Hr Lr. destruct (hash_to_ec_ok (pub_of x)) as (h & H & Eh & Hh & HH & Hl).
  pose proof (take_drop_middle pubs sec_index _ Hj) as E. assert (length (take sec_index pubs) = sec_index) as Lt by (apply length_take_le; apply lookup_lt_Some in Hj; lia).
  rewrite <- E in Hp, Ls, Lr. destruct (ring_signature_ok prefix_hash sec x Hx h H Eh Hh HH Hl _ _ sig random Hp Ls Hr Lr) as (sigs & Eg & Ec).
  rewrite E in Eg, Ec. rewrite Lt in Eg. exists (encode (zmul x H)), sigs. split; [by apply (generate_key_image_ok (pub_of x) sec x h H)|]. split; [exact Eg|exact Ec].
Qed.

(** ** What is accepted *)

(** The point a key is hashed to. *)
Definition hashes_to (pub : PublicKey) (H : point) : Prop := exists h, hash_to_ec pub = Some h /\ rep_p3 h H /\ curve H.

(** The key is the encoding of the first point and is hashed to the second one. *)
Definition ring_member (pub : PublicKey) (PH : point * point) : Prop := curve PH.1 /\ pub = encode PH.1 /\ hashes_to pub PH.2.

(** The commitments [c P + r B] and [r H + c I] of all members. *)
Fixpoint commitments (I : point) (ring : list (point * point)) (sigs : list Signature) : bytes :=
  match ring, sigs with
  | PH :: ring, sig :: sigs =>
      let c := le_value (sig_c sig) in
      let r := le_value (sig_r sig) in
      encode (combine c r PH.1 B) ++ encode (combine r c PH.2 I) ++ commitments I ring sigs
  | _, _ => []
  end.

Definition challenges (sigs : list Signature) : Z := foldr (fun sig s => le_value (sig_c sig) + s) 0 sigs.

Definition signature_bytes (sigs : list Signature) : Prop := Forall (fun sig => is_bytes sig /\ length sig = 64%nat) sigs.

#[export] Instance all_in_range_dec sigs : Decision (Forall in_range sigs).
Proof. apply _. Defined.

Section checking.
Context (I : point) (HI : curve I) (image_pre : list ge_cached) (Hpre : odd_table rep_cached I image_pre).

Lemma check_ring_loop_spec pubs ring sigs ab sum w : Forall2 ring_member pubs ring -> length sigs = length pubs -> signature_bytes sigs -> scalar sum w ->
  (Forall in_range sigs -> exists sum', scalar sum' ((w + challenges sigs) mod l)
    /\ check_ring_loop image_pre pubs sigs ab sum = Some (Some (ab ++ commitments I ring sigs, sum')))
  /\ (~ Forall in_range sigs -> check_ring_loop image_pre pubs sigs ab sum = Some None).
Proof.
  intros HR. revert sigs ab sum w. induction HR as [|pub [P H] pubs ring [HP [Ep (h & Eh & Hh & HH)]] HR IH]; intros [|sig sigs] ab sum w Hl Hb Hs; try discriminate Hl.
  - split; [|intros Hn; destruct Hn; constructor]. intros _. exists sum. destruct (mod_add_small w 0) as [Ew _]; [apply Hs|]. cbn [challenges foldr commitments check_ring_loop].
    rewrite Ew, app_nil_r. split; [exact Hs|reflexivity].
  - injection Hl as Hl. apply Forall_cons in Hb as [[B0 L0] Hb]. destruct (sig_halves sig B0 L0) as (B1 & L1 & B2 & L2). cbn [check_ring_loop fst snd] in *.
    rewrite out_of_range by done. rewrite Forall_cons. destruct (decide (in_range sig)) as [Hin|Hin].
    + rewrite (bool_decide_eq_true_2 _ Hin). cbn [negb unless]. destruct Hin as [R1 R2].
      pose proof (range_scalar _ B1 L1 R1) as S1. pose proof (range_scalar _ B2 L2 R2) as S2.
      rewrite (ring_commitment_ok I HI image_pre Hpre pub h H sig Eh Hh HH P HP Ep _ _ S1 S2), bind_some.
      destruct (IH sigs (ab ++ encode (combine (le_value (sig_c sig)) (le_value (sig_r sig)) P B) ++ encode (combine (le_value (sig_r sig)) (le_value (sig_c sig)) H I))
        (sc_add sum (sig_c sig)) ((w + le_value (sig_c sig)) mod l) Hl Hb (add_scalar _ _ _ _ Hs S1)) as [IH1 IH2]. split.
      * intros [_ Hall]. destruct (IH1 Hall) as (sum' & Hs' & E). exists sum'. destruct (mod_add_small w (challenges sigs)) as [_ Ew]; [apply Hs|]. rewrite Ew in Hs'.
        split; [exact Hs'|]. rewrite E. cbn [commitments fst snd]. cbv zeta. by rewrite <- !app_assoc.
      * intros Hn. apply IH2. intros Hall. apply Hn. split; [by split|exact Hall].
    + rewrite (bool_decide_eq_false_2 _ Hin). cbn [negb unless]. split; [intros [Hc _]; destruct (Hin Hc)|intros _; reflexivity].
Qed.

End checking.

Lemma ring_keys pubs ring : Forall2 ring_member pubs ring -> Forall valid_key pubs.
Proof. induction 1 as [|pub PH pubs ring (HP & Ep & _) _ IH]; constructor; [by exists PH.1|exact IH]. Qed.

Lemma check_ring_signature_spec prefix_hash I pubs ring sigs : curve I -> Forall2 ring_member pubs ring -> length sigs = length pubs -> signature_bytes sigs ->
  check_ring_signature prefix_hash (encode I) pubs sigs
  = Some (bool_decide (Forall in_range sigs /\ le_value (hash_to_scalar (prefix_hash ++ commitments I ring sigs)) = challenges sigs mod l)).
Proof.
  intros HI HR Hl Hb. unfold check_ring_signature. rewrite (assertion_true _ (check_keys_ok _ (ring_keys _ _ HR))), bind_some.
  destruct (decode_ok I HI) as (g & Eg & Hg). rewrite Eg, attempt_some. cbv zeta. pose proof (ge_dsm_precomp_spec g I HI Hg) as Hpre.
  assert (scalar sc_0 0) as H0 by (split_and!; [bytes_compute|reflexivity..|lia|reflexivity]).
  destruct (check_ring_loop_spec I HI _ Hpre pubs ring sigs [] sc_0 0 HR Hl Hb H0) as [Hyes Hno]. destruct (decide (Forall in_range sigs)) as [Hin|Hin].
  - destruct (Hyes Hin) as (sum' & Hs & E). rewrite E, bind_some, attempt_some. cbn [app]. rewrite Z.add_0_l in Hs.
    rewrite (sub_is_zero _ _ _ _ (hash_scalar _) Hs). f_equal. apply bool_decide_ext. tauto.
  - rewrite (Hno Hin), bind_some. cbn [attempt]. rewrite bool_decide_eq_false_2; [reflexivity|]. tauto.
Qed.

(** C7: ring signatures verify.  For any ring of valid keys, the signer's key at
    any position in it, any message and any random bytes, [generate_key_image]
    returns the signer's image, [generate_ring_signature] passes its assertions and
    returns, and [check_ring_signature] accepts the signatures. *)
Theorem ring_signature_correct prefix_hash pubs sec x sec_index sig random : scalar sec x -> pubs !! sec_index = Some (pub_of x) ->
  Forall valid_key pubs -> length sig = length pubs -> random_ok random -> (2 * length pubs <= length random)%nat ->
  exists image sigs, generate_key_image (pub_of x) sec = Some image
    /\ generate_ring_signature prefix_hash image pubs sec sec_index sig random = Some sigs
    /\ check_ring_signature prefix_hash image pubs sigs = Some true.
Proof. apply ring_sign_ok. Qed.

Lemma pub_valid v : valid_key (pub_of v).
Proof. exists (zmul v B). split; [apply zmul_curve, B_curve|reflexivity]. Qed.

Lemma ring_signature_correct_witness : let pubs := [pub_of 7; pub_of 5; pub_of 9] in
  exists image sigs, generate_key_image (pub_of 5) (scalar_bytes 5) = Some image
    /\ generate_ring_signature (replicate 32 1) image pubs (scalar_bytes 5) 1 (replicate 3 (replicate 64 0)) (replicate 6 (replicate 64 77)) = Some sigs
    /\ check_ring_signature (replicate 32 1) image pubs sigs = Some true.
Proof.
  apply (ring_signature_correct (replicate 32 1) [pub_of 7; pub_of 5; pub_of 9] (scalar_bytes 5) 5 1);
    [apply scalar_bytes_ok; split; [discriminate|reflexivity]|reflexivity|repeat constructor; apply pub_valid|reflexivity
    |repeat constructor; (bytes_compute || reflexivity)|cbn; lia].
Defined.

(** C12: what a ring signature proves.  For a key image and keys that encode points
    and any signatures of 64 bytes, [check_ring_signature] does not abort, and it
    accepts exactly when all scalars are less than the group order and the sum of the
    [c] is the hash of the message and of [c P + r B] and [r H + c I] for every key
    [P], hashed to [H], and the image [I]. *)
Theorem check_ring_signature_exact prefix_hash I pubs ring sigs : curve I -> Forall2 ring_member pubs ring -> length sigs = length pubs ->
  signature_bytes sigs ->
  check_ring_signature prefix_hash (encode I) pubs sigs
  = Some (bool_decide (Forall in_range sigs /\ le_value (hash_to_scalar (prefix_hash ++ commitments I ring sigs)) = challenges sigs mod l)).
Proof. apply check_ring_signature_spec. Qed.

(** Every key that encodes a point is a member of a ring. *)
Lemma member_of P : curve P -> exists H, ring_member (encode P) (P, H).
Proof.
  intros HP. destruct (hash_to_ec_ok (encode P)) as (h & H & Eh & Hh & HH & _). exists H. split; [exact HP|]. split; [reflexivity|]. exists h. split; [exact Eh|]. by split.
Qed.

Lemma check_ring_signature_exact_witness :
  exists accepted, check_ring_signature [] (encode fourth) [encode fourth] [replicate 64 3] = Some accepted.
Proof.
  destruct (member_of fourth fourth_curve) as [H HH]. eexists.
  apply (check_ring_signature_exact [] fourth [encode fourth] [(fourth, H)] [replicate 64 3]);
    [apply fourth_curve|constructor; [exact HH|constructor]|reflexivity|repeat constructor; (bytes_compute || reflexivity)].
Defined.

(** ** The domain of key images *)

Lemma key_image_constants : is_bytes Blockchain.key_image_L /\ length Blockchain.key_image_L = 32%nat /\ Blockchain.key_image_L !!! 31%nat <= 127
  /\ le_value Blockchain.key_image_L = l /\ encode neutral = Blockchain.key_image_I.
Proof. split_and!; [bytes_compute|reflexivity|vm_compute; discriminate|reflexivity|reflexivity]. Qed.

Lemma image_multiple P : curve P -> Crypto.scalarmultKey (encode P) Blockchain.key_image_L = Some (encode (zmul l P)).
Proof.
  intros HP. destruct key_image_constants as (Kb & Kl & K31 & Kv & _). rewrite scalarmultKey_ok, Kv by assumption. reflexivity.
Qed.

Lemma image_in_domain pub sec x : scalar sec x ->
  exists image, generate_key_image pub sec = Some image /\ Crypto.scalarmultKey image Blockchain.key_image_L = Some Blockchain.key_image_I.
Proof.
  intros Hx. destruct (hash_to_ec_ok pub) as (h & H & Eh & Hh & HH & Hl).
  exists (encode (zmul x H)). split; [by apply (generate_key_image_ok pub sec x h H)|]. rewrite image_multiple by (apply zmul_curve; exact HH).
  rewrite <- zmul_mul, Z.mul_comm, zmul_mul, Hl, zmul_neutral by exact HH. reflexivity.
Qed.

(** C16: the test of the domain of key images, [scalarmultKey(I, L) == identity].
    It passes for a point exactly when the group order times the point is the
    identity, and it passes for every image [generate_key_image] returns; every point
    of the curve times the cofactor 8 passes it. *)
Theorem key_image_domain I pub sec x : curve I -> scalar sec x ->
  (Crypto.scalarmultKey (encode I) Blockchain.key_image_L = Some Blockchain.key_image_I <-> zmul l I = neutral)
  /\ (exists image, generate_key_image pub sec = Some image /\ Crypto.scalarmultKey image Blockchain.key_image_L = Some Blockchain.key_image_I)
  /\ zmul l (zmul 8 I) = neutral.
Proof.
  intros HI Hx. split; [|split; [by apply (image_in_domain pub sec x)|rewrite <- zmul_mul, Z.mul_comm by exact HI; by apply GroupOrder.curve_order]].
  rewrite image_multiple by exact HI. destruct key_image_constants as (_ & _ & _ & _ & <-).
  split; [intros E%(inj Some); exact (encode_inj _ _ neutral_curve (zmul_curve l I HI) E)|intros ->; reflexivity].
Qed.

Lemma key_image_domain_witness : zmul l (zmul 8 fourth) = neutral /\ exists image, generate_key_image (pub_of 5) (scalar_bytes 5) = Some image.
Proof.
  destruct (key_image_domain fourth (pub_of 5) (scalar_bytes 5) 5) as (_ & (image & E & _) & H);
    [apply fourth_curve|apply scalar_bytes_ok; split; [discriminate|reflexivity]|]. split; [exact H|by exists image].
Defined.

End RingSignature.
