(* ===== verification/Chacha8.v ===== *)
(** src/crypto/chacha8.c: the ChaCha8 stream cipher, on 32-bit words as the C code keeps
    them in x0..x15 and j0..j15. *)

From S2P Require Import Prelude.
From S2P Require Import IntUtil.
From S2P Require Import Varint.
From S2P Require Import Serialization.
From S2P Require Import Keccak.
Import IntUtil Varint Stream Keccak.

Module Chacha8.

Definition CHACHA8_KEY_SIZE : nat := 32.
Definition CHACHA8_IV_SIZE : nat := 8.

(** The macros. *)
Definition PLUS (v w : Z) : Z := u32 (v + w).
Definition PLUSONE (v : Z) : Z := PLUS v 1.
Definition ROTATE (v c : Z) : Z := rol32 v c.
Definition U8TO32_LITTLE (p : bytes) (offset : nat) : Z := le_value (take 4 (drop offset p)).

Definition QUARTERROUND (a b c d : nat) (x : list Z) : list Z :=
  let x := <[a := PLUS (x !!! a) (x !!! b)]> x in
  let x := <[d := ROTATE (Z.lxor (x !!! d) (x !!! a)) 16]> x in
  let x := <[c := PLUS (x !!! c) (x !!! d)]> x in
  let x := <[b := ROTATE (Z.lxor (x !!! b) (x !!! c)) 12]> x in
  let x := <[a := PLUS (x !!! a) (x !!! b)]> x in
  let x := <[d := ROTATE (Z.lxor (x !!! d) (x !!! a)) 8]> x in
  let x := <[c := PLUS (x !!! c) (x !!! d)]> x in
  <[b := ROTATE (Z.lxor (x !!! b) (x !!! c)) 7]> x.

(** "expand 32-byte k" *)
Definition sigma : bytes := [101; 120; 112; 97; 110; 100; 32; 51; 50; 45; 98; 121; 116; 101; 32; 107].

Definition words (n : nat) (p : bytes) : list Z := (fun i => U8TO32_LITTLE p (4 * i)) <$> seq 0 n.

(** j0 to j15. *)
Definition init_state (key iv : bytes) : list Z := words 4 sigma ++ words 8 key ++ [0; 0] ++ words 2 iv.

(** The body of the loop over [i]. *)
Definition double_round (x : list Z) : list Z :=
  let x := QUARTERROUND 0 4 8 12 x in
  let x := QUARTERROUND 1 5 9 13 x in
  let x := QUARTERROUND 2 6 10 14 x in
  let x := QUARTERROUND 3 7 11 15 x in
  let x := QUARTERROUND 0 5 10 15 x in
  let x := QUARTERROUND 1 6 11 12 x in
  let x := QUARTERROUND 2 7 8 13 x in
  QUARTERROUND 3 4 9 14 x.

(** x0 to x15 before the data is added. *)
Definition chacha_block (j : list Z) : list Z := zip_with PLUS (Nat.iter 4 double_round j) j.

(** The counter in j12 and j13. *)
Definition next_state (j : list Z) : list Z :=
  let j := <[12%nat := PLUSONE (j !!! 12%nat)]> j in
  if j !!! 12%nat =? 0 then <[13%nat := PLUSONE (j !!! 13%nat)]> j else j.

(** The loop over the blocks.  A last block of less than 64 bytes is copied to [tmp],
    whose other bytes, not initialised, are the argument of that name. *)
Fixpoint chacha8_loop (fuel : nat) (tmp data : bytes) (j : list Z) : bytes :=
  match fuel with
  | O => []
  | S fuel =>
      let length := length data in
      let input := if (length <? 64)%nat then data ++ drop length tmp else data in
      let x := zip_with Z.lxor (chacha_block j) (words 16 input) in
      let cipher := mjoin (le_bytes 4 <$> x) in
      if (length <=? 64)%nat then take length cipher
      else cipher ++ chacha8_loop fuel tmp (drop 64 data) (next_state j)
  end.

(** The output may be the same array as [data]: a block is read before it is written. *)
Definition chacha8 (tmp data key iv : bytes) : bytes :=
  match data with
  | [] => []
  | _ => chacha8_loop (S (length data / 64)) tmp data (init_state key iv)
  end.

(** ** The cipher as a key stream *)

Definition stream_block (j : list Z) : bytes := mjoin (le_bytes 4 <$> chacha_block j).

Fixpoint blocks (n : nat) (j : list Z) : bytes :=
  match n with O => [] | S n => stream_block j ++ blocks n (next_state j) end.

Definition keystream (key iv : bytes) (n : nat) : bytes := take n (blocks (S (n / 64)) (init_state key iv)).

Lemma lxor_mod_pow2 x y n : 0 <= n -> Z.lxor x y mod 2 ^ n = Z.lxor (x mod 2 ^ n) (y mod 2 ^ n).
Proof.
  intros Hn. apply Z.bits_inj'. intros i Hi. rewrite Z.lxor_spec, !Z.testbit_mod_pow2, Z.lxor_spec by lia.
  by destruct (i <? n).
Qed.

Lemma lxor_div_pow2 x y n : 0 <= n -> Z.lxor x y / 2 ^ n = Z.lxor (x / 2 ^ n) (y / 2 ^ n).
Proof. intros Hn. rewrite <- !Z.shiftr_div_pow2 by done. apply Z.shiftr_lxor. Qed.

Lemma le_bytes_lxor n x y : le_bytes n (Z.lxor x y) = zip_with Z.lxor (le_bytes n x) (le_bytes n y).
Proof.
  revert x y. induction n as [|n IH]; intros x y; [done|]. cbn [le_bytes zip_with].
  change 256 with (2 ^ 8). by rewrite lxor_mod_pow2, lxor_div_pow2, IH by lia.
Qed.

Lemma words_S n p : words (S n) p = le_value (take 4 p) :: words n (drop 4 p).
Proof.
  unfold words. cbn [seq fmap list_fmap]. unfold U8TO32_LITTLE at 1. rewrite drop_0. f_equal.
  rewrite <- seq_shift. change (map S (seq 0 n)) with (S <$> seq 0 n). rewrite <- list_fmap_compose.
  apply list_fmap_ext. intros i x _. unfold compose, U8TO32_LITTLE. rewrite drop_drop. by replace (4 * S x)%nat with (4 + 4 * x)%nat by lia.
Qed.

Lemma join_cons w ws : mjoin (le_bytes 4 <$> w :: ws) = le_bytes 4 w ++ mjoin (le_bytes 4 <$> ws).
Proof. reflexivity. Qed.

Lemma join_words n p : is_bytes p -> length p = (4 * n)%nat -> mjoin (le_bytes 4 <$> words n p) = p.
Proof.
  revert p. induction n as [|n IH]; intros p Hp Hl; [by apply nil_length_inv in Hl|].
  rewrite words_S, join_cons. rewrite <- (take_drop 4 p) at 3. f_equal.
  - rewrite <- (le_bytes_value (take 4 p)) at 2 by by apply Forall_take. by rewrite length_take, Hl, Nat.min_l by lia.
  - apply IH; [by apply Forall_drop|]. rewrite length_drop. lia.
Qed.

Lemma join_lxor xs ys : mjoin (le_bytes 4 <$> zip_with Z.lxor xs ys) =
  zip_with Z.lxor (mjoin (le_bytes 4 <$> take (length ys) xs)) (mjoin (le_bytes 4 <$> ys)).
Proof.
  revert ys. induction xs as [|x xs IH]; intros [|y ys]; try done.
  cbn [zip_with length take]. rewrite !join_cons, IH, le_bytes_lxor.
  by rewrite zip_with_app by by rewrite !length_le_bytes.
Qed.

Lemma length_round a b c d x : length (QUARTERROUND a b c d x) = length x.
Proof. unfold QUARTERROUND. cbv zeta. by repeat rewrite length_insert. Qed.

Lemma length_double_round x : length (double_round x) = length x.
Proof. unfold double_round. cbv zeta. rewrite 8!length_round. reflexivity. Qed.

Lemma length_block j : length j = 16%nat -> length (chacha_block j) = 16%nat.
Proof.
  intros Hj. unfold chacha_block. rewrite length_zip_with.
  assert (forall n, length (Nat.iter n double_round j) = 16%nat) as ->; [|lia].
  intros n. induction n as [|n IH]; [done|]. change (Nat.iter (S n) double_round j) with (double_round (Nat.iter n double_round j)).
  rewrite length_double_round. exact IH.
Qed.

Lemma length_next j : length (next_state j) = length j.
Proof. unfold next_state. cbv zeta. case_match; by rewrite ?length_insert. Qed.

Lemma length_init key iv : length (init_state key iv) = 16%nat.
Proof. done. Qed.

Lemma length_join (ws : list Z) : length (mjoin (le_bytes 4 <$> ws)) = (4 * length ws)%nat.
Proof.
  induction ws as [|w ws IH]; [done|]. rewrite join_cons, length_app, length_le_bytes, IH. simpl. lia.
Qed.

Lemma length_stream_block j : length j = 16%nat -> length (stream_block j) = 64%nat.
Proof. intros Hj. unfold stream_block. by rewrite length_join, length_block. Qed.

(** One block of the loop. *)
Lemma cipher_block j input : length j = 16%nat -> is_bytes input -> (64 <= length input)%nat ->
  mjoin (le_bytes 4 <$> zip_with Z.lxor (chacha_block j) (words 16 input)) = zip_with Z.lxor (stream_block j) (take 64 input).
Proof.
  intros Hj Hb Hl. rewrite join_lxor. unfold stream_block. f_equal.
  - by rewrite take_ge by (rewrite length_block; done).
  - assert (words 16 input = words 16 (take 64 input)) as ->.
    { unfold words. apply list_fmap_ext. intros i k Hk. apply lookup_seq in Hk. unfold U8TO32_LITTLE.
      rewrite skipn_firstn_comm, take_take, Nat.min_l by lia. reflexivity. }
    apply join_words; [by apply Forall_take|]. rewrite length_take. lia.
Qed.

Lemma zip_short (l k m : bytes) : (length k <= length l)%nat -> zip_with Z.lxor (l ++ m) k = zip_with Z.lxor (take (length k) l) k.
Proof.
  revert k. induction l as [|x l IH]; intros [|y k] Hl; simpl in *; try done; [by rewrite zip_with_nil_r|lia|].
  f_equal. apply IH. lia.
Qed.

Lemma zip_lxor_comm (l k : bytes) : zip_with Z.lxor l k = zip_with Z.lxor k l.
Proof. revert k. induction l as [|x l IH]; intros [|y k]; simpl; [done..|]. by rewrite Z.lxor_comm, IH. Qed.

(** The last block does not depend on the bytes of [tmp]. *)
Lemma last_block j tmp data : length j = 16%nat -> is_bytes data -> is_bytes tmp -> length tmp = 64%nat -> (length data <= 64)%nat ->
  take (length data) (mjoin (le_bytes 4 <$> zip_with Z.lxor (chacha_block j)
    (words 16 (if (length data <? 64)%nat then data ++ drop (length data) tmp else data)))) = zip_with Z.lxor (stream_block j) data.
Proof.
  intros Hj Hd Ht Hlt Hl. rewrite cipher_block; try done.
  - rewrite zip_with_take, take_take, Nat.min_l by lia.
    assert (take (length data) (if (length data <? 64)%nat then data ++ drop (length data) tmp else data) = data) as ->.
    { destruct (_ <? _)%nat; [by apply take_app_length|]. by apply take_ge. }
    rewrite <- (app_nil_r (stream_block j)) at 2. by rewrite zip_short by by rewrite length_stream_block.
  - destruct (_ <? _)%nat; [apply Forall_app; split; [done|by apply Forall_drop]|done].
  - destruct (Nat.ltb_spec (length data) 64); [rewrite length_app, length_drop|]; lia.
Qed.

Lemma length_blocks n j : length j = 16%nat -> length (blocks n j) = (64 * n)%nat.
Proof.
  revert j. induction n as [|n IH]; intros j Hj; [done|]. cbn [blocks].
  rewrite length_app, length_stream_block, IH by by rewrite ?length_next. lia.
Qed.

Lemma chacha8_loop_spec fuel tmp data j : length j = 16%nat -> is_bytes data -> is_bytes tmp -> length tmp = 64%nat ->
  (length data <= 64 * fuel)%nat -> chacha8_loop fuel tmp data j = zip_with Z.lxor (blocks fuel j) data.
Proof.
  revert data j. induction fuel as [|fuel IH]; intros data j Hj Hd Ht Hlt Hl.
  { by destruct data; [|simpl in Hl; lia]. }
  cbn [chacha8_loop blocks]. destruct (Nat.leb_spec (length data) 64) as [H64|H64].
  - rewrite last_block, <- (app_nil_r (stream_block j)), <- app_assoc by done.
    by rewrite !zip_short by by rewrite length_stream_block.
  - assert ((length data <? 64)%nat = false) as -> by (apply Nat.ltb_ge; lia).
    rewrite cipher_block by (done || lia). rewrite <- (take_drop 64 data) at 3.
    rewrite zip_with_app by (rewrite length_stream_block, length_take by done; lia). f_equal.
    apply IH; try done; [by rewrite length_next|by apply Forall_drop|rewrite length_drop; lia].
Qed.

Lemma chacha8_spec tmp data key iv : is_bytes data -> is_bytes tmp -> length tmp = 64%nat ->
  chacha8 tmp data key iv = zip_with Z.lxor data (keystream key iv (length data)).
Proof.
  intros Hd Ht Hlt. destruct data as [|b data']; [done|]. unfold chacha8. set (data := b :: data') in *.
  assert (Hm := Nat.div_mod_eq (length data) 64). assert (Hm' := Nat.mod_upper_bound (length data) 64 ltac:(lia)).
  rewrite chacha8_loop_spec; [|done..|lia]. unfold keystream.
  rewrite <- (app_nil_r (blocks _ _)), zip_short by (rewrite length_blocks by done; lia).
  by rewrite app_nil_r, zip_lxor_comm.
Qed.

Lemma lxor_byte a b : is_u8 a -> is_u8 b -> is_u8 (Z.lxor a b).
Proof.
  intros Ha Hb. assert (Z.lxor a b = u8 (Z.lxor a b)) as ->; [|apply u8_range].
  unfold u8. rewrite lxor_mod_pow2 by done. by rewrite !Z.mod_small.
Qed.

Lemma blocks_bytes n j : is_bytes (blocks n j).
Proof.
  revert j. induction n as [|n IH]; intros j; [by constructor|]. cbn [blocks]. apply Forall_app; split; [|apply IH].
  unfold stream_block. induction (chacha_block j) as [|w ws IHw]; [by constructor|].
  rewrite join_cons. apply Forall_app; split; [apply le_bytes_is_bytes|done].
Qed.

Lemma keystream_ok key iv n : length (keystream key iv n) = n /\ is_bytes (keystream key iv n).
Proof.
  unfold keystream. assert (Hm := Nat.div_mod_eq n 64). assert (Hm' := Nat.mod_upper_bound n 64 ltac:(lia)).
  split; [rewrite length_take, length_blocks by done; lia|]. apply Forall_take, blocks_bytes.
Qed.

Lemma zip_lxor_twice (l k : bytes) : length l = length k -> zip_with Z.lxor (zip_with Z.lxor l k) k = l.
Proof.
  revert k. induction l as [|x l IH]; intros [|y k] Hl; simpl in *; try done.
  rewrite Z.lxor_assoc, Z.lxor_nilpotent, Z.lxor_0_r, IH; [done|lia].
Qed.

Lemma zip_lxor_bytes (l k : bytes) : is_bytes l -> is_bytes k -> is_bytes (zip_with Z.lxor l k).
Proof.
  intros Hl. revert k. induction Hl as [|x l Hx Hl IH]; intros k Hk; [by constructor|].
  destruct Hk as [|y k Hy Hk]; [by constructor|]. constructor; [by apply lxor_byte|by apply IH].
Qed.

Lemma chacha8_bytes tmp data key iv : is_bytes data -> is_bytes tmp -> length tmp = 64%nat ->
  length (chacha8 tmp data key iv) = length data /\ is_bytes (chacha8 tmp data key iv).
Proof.
  intros Hd Ht Hlt. rewrite chacha8_spec by done. destruct (keystream_ok key iv (length data)) as [Hl Hk].
  split; [rewrite length_zip_with; lia|by apply zip_lxor_bytes].
Qed.

Lemma chacha8_twice tmp tmp' data key iv : is_bytes data -> is_bytes tmp -> length tmp = 64%nat -> is_bytes tmp' -> length tmp' = 64%nat ->
  chacha8 tmp' (chacha8 tmp data key iv) key iv = data.
Proof.
  intros Hd Ht Hlt Ht' Hlt'. destruct (chacha8_bytes tmp data key iv Hd Ht Hlt) as [Hl Hb].
  rewrite (chacha8_spec tmp' _ _ _ Hb Ht' Hlt'), Hl, chacha8_spec by done.
  apply zip_lxor_twice. by destruct (keystream_ok key iv (length data)) as [-> _].
Qed.

(** The first block of the key stream of the zero key and nonce, as published for ChaCha8. *)
Example chacha8_zero_key :
  le_value (rev (take 16 (chacha8 (replicate 64 255) (replicate 20 0) (replicate 32 0) (replicate 8 0)))) = 0x3e00ef2f895f40d67f5bb8e81f09a5a1.
Proof. vm_compute. reflexivity. Qed.

(** The block counter of j12 and j13 is a 64-bit number. *)
Definition counter (j : list Z) : Z := j !!! 12%nat + 2 ^ 32 * (j !!! 13%nat).

Lemma next_state_counter j : length j = 16%nat -> is_u32 (j !!! 12%nat) -> is_u32 (j !!! 13%nat) ->
  counter (next_state j) = u64 (counter j + 1) /\ (forall i, i <> 12%nat -> i <> 13%nat -> next_state j !!! i = j !!! i).
Proof.
  intros Hj H12 H13. unfold next_state, counter. cbv zeta. rewrite list_lookup_total_insert_eq by lia.
  unfold PLUSONE, PLUS. destruct (Z.eqb_spec (u32 (j !!! 12%nat + 1)) 0) as [E|E].
  - rewrite list_lookup_total_insert_ne, !list_lookup_total_insert_eq, list_lookup_total_insert_ne by (rewrite ?length_insert; lia).
    rewrite E. split; [word|]. intros i Hi Hi'. by rewrite !list_lookup_total_insert_ne by done.
  - rewrite list_lookup_total_insert_eq, list_lookup_total_insert_ne by lia. split; [word|].
    intros i Hi _. by rewrite list_lookup_total_insert_ne by done.
Qed.

End Chacha8.
