(* ===== verification/Random.v ===== *)
(** src/crypto/random.c: the generator of random bytes, on a state seeded from the
    operating system and moved by the Keccak permutation; and
    src/Common/ShuffleGenerator.h, which draws the numbers below a bound in random order,
    each once.  What the system and the distribution deliver are arguments. *)

From S2P Require Import Prelude.
From S2P Require Import IntUtil.
From S2P Require Import Varint.
From S2P Require Import Serialization.
From S2P Require Import Keccak.
Import Varint Stream Keccak.

Module Random.

(** What one call of [read] gives: bytes (none at the end of the file), an interrupted
    call, or another error. *)
Inductive read_result :=
| ReadBytes (data : bytes)
| ReadInterrupted
| ReadError.

(** [None] where the program exits; [reads] are the results of the calls in order. *)
Fixpoint generate_system_random_bytes (n : nat) (reads : list read_result) : option bytes :=
  match reads with
  | [] => None
  | ReadBytes data :: reads =>
      if (length data =? n)%nat then Some data
      else if (length data =? 0)%nat then None
      else rest ← generate_system_random_bytes (n - length data) reads; Some (data ++ rest)
  | ReadInterrupted :: reads => generate_system_random_bytes n reads
  | ReadError :: _ => None
  end.

Definition HASH_DATA_AREA : nat := 136.

Definition hash_permutation (state : list Z) : list Z := keccakf state 24.

(** The bytes of the state, a union with the 25 words. *)
Definition state_bytes (state : list Z) : bytes := mjoin (le_bytes 8 <$> state).

Record random_state := RandomState { state : list Z; curstate : Z }.

(** The loop; [n] is positive. *)
Fixpoint random_loop (fuel n : nat) (st : list Z) : bytes * list Z :=
  match fuel with
  | O => ([], st)
  | S fuel =>
      let st := hash_permutation st in
      if (n <=? HASH_DATA_AREA)%nat then (take n (state_bytes st), st)
      else let '(rest, st') := random_loop fuel (n - HASH_DATA_AREA) st in (take HASH_DATA_AREA (state_bytes st) ++ rest, st')
  end.

(** [None] where the assertion on [curstate] fails. *)
Definition generate_random_bytes (n : nat) (s : random_state) : option (bytes * random_state) :=
  if curstate s =? 1 then
    if (n =? 0)%nat then Some ([], s)
    else let '(result, st) := random_loop n n (state s) in Some (result, RandomState st 1)
  else None.

Definition init_random (reads : list read_result) : option random_state :=
  seed ← generate_system_random_bytes 32 reads;
  Some (RandomState ((fun i => le_value (take 8 (drop (8 * i) (seed ++ replicate 168 0)))) <$> seq 0 25) 1).

(** ** The bytes drawn *)

(** Every read gives at most what was asked for. *)
Fixpoint reads_ok (n : nat) (reads : list read_result) : Prop :=
  match reads with
  | [] => True
  | ReadBytes data :: reads => is_bytes data /\ (length data <= n)%nat /\ reads_ok (n - length data) reads
  | _ :: reads => reads_ok n reads
  end.

Lemma system_bytes_length n reads result : reads_ok n reads -> generate_system_random_bytes n reads = Some result ->
  length result = n /\ is_bytes result.
Proof.
  revert n result. induction reads as [|[data| |] reads IH]; intros n result Hok Hr; simpl in *; try done; [|by apply IH].
  destruct Hok as (Hb & Hl & Hok). destruct (Nat.eqb_spec (length data) n) as [E|E]; [by simplify_eq|].
  destruct (length data =? 0)%nat; [done|]. apply bind_Some in Hr as (rest & Hrest & [= <-]).
  destruct (IH _ _ Hok Hrest) as [Hlr Hbr]. rewrite length_app. split; [lia|by apply Forall_app].
Qed.

(** The state is a Keccak state and no call is under way. *)
Definition ready (s : random_state) : Prop := length (state s) = 25%nat /\ curstate s = 1.

Lemma state_bytes_ok st : length st = 25%nat -> length (state_bytes st) = 200%nat /\ is_bytes (state_bytes st).
Proof. intros Hl. destruct (le_words_bytes st) as [H1 H2]. by rewrite Hl in H1. Qed.

Lemma random_loop_ok fuel n st : (0 < n <= HASH_DATA_AREA * fuel)%nat -> length st = 25%nat ->
  length (random_loop fuel n st).1 = n /\ is_bytes (random_loop fuel n st).1 /\ length (random_loop fuel n st).2 = 25%nat.
Proof.
  revert n st. induction fuel as [|fuel IH]; intros n st Hn Hst; [lia|]. cbn [random_loop].
  assert (Hst' : length (hash_permutation st) = 25%nat) by by unfold hash_permutation; rewrite keccakf_length.
  destruct (state_bytes_ok _ Hst') as [Hl Hb].
  destruct (Nat.leb_spec n HASH_DATA_AREA) as [Hle|Hlt]; [|specialize (IH (n - HASH_DATA_AREA)%nat (hash_permutation st) ltac:(lia) Hst')].
  - cbn [fst snd]. unfold HASH_DATA_AREA in *. rewrite length_take. split_and!; [lia|by apply Forall_take|done].
  - destruct (random_loop fuel _ _) as [rest st']. cbn [fst snd] in *. destruct IH as (H1 & H2 & H3).
    rewrite length_app, length_take. unfold HASH_DATA_AREA in *.
    split_and!; [lia|apply Forall_app; split; [by apply Forall_take|done]|done].
Qed.

Lemma generate_random_bytes_ok n s : ready s -> exists result s',
  generate_random_bytes n s = Some (result, s') /\ length result = n /\ is_bytes result /\ ready s'.
Proof.
  intros [Hl Hc]. unfold generate_random_bytes. rewrite Hc. cbn [Z.eqb Pos.eqb].
  destruct (Nat.eqb_spec n 0) as [->|Hn]; [exists [], s; split_and!; try done; by constructor|].
  destruct (random_loop_ok n n (state s)) as (H1 & H2 & H3); [unfold HASH_DATA_AREA; lia|done|].
  destruct (random_loop n n (state s)) as [result st]. by exists result, (RandomState st 1).
Qed.

Lemma init_random_ready reads s : init_random reads = Some s -> ready s.
Proof. unfold init_random. intros (seed & _ & [= <-])%bind_Some. done. Qed.

(** From a seeded state any sequence of requests gives that many bytes each: the generator
    never fails its assertion between calls. *)
Fixpoint draw (requests : list nat) (s : random_state) : option (list bytes) :=
  match requests with
  | [] => Some []
  | n :: requests => '(result, s) ← generate_random_bytes n s; results ← draw requests s; Some (result :: results)
  end.

Lemma draw_ok requests reads s : init_random reads = Some s -> exists results,
  draw requests s = Some results /\ Forall2 (fun n result => length result = n /\ is_bytes result) requests results.
Proof.
  intros Hs%init_random_ready. revert s Hs. induction requests as [|n requests IH]; intros s Hs; [by exists []; split|].
  destruct (generate_random_bytes_ok n s Hs) as (result & s' & Hg & Hl & Hb & Hs').
  destruct (IH s' Hs') as (results & Hd & Hf). exists (result :: results). cbn [draw]. rewrite Hg. cbn.
  rewrite Hd. split; [done|by constructor].
Qed.

End Random.

Module ShuffleGenerator.

Record ShuffleGenerator := MkShuffleGenerator { N : nat; selected : gmap nat nat; count : nat }.

Definition make (n : nat) : ShuffleGenerator := MkShuffleGenerator n ∅ n.

(** [operator()]: [draw] is the distribution, asked for a number from 0 to [count];
    [None] is the exception at the end of the sequence. *)
Definition next (draw : nat -> nat) (g : ShuffleGenerator) : option (nat * ShuffleGenerator) :=
  if (count g =? 0)%nat then None
  else
    let count := (count g - 1)%nat in
    let value := draw count in
    let rval := default count (selected g !! count) in
    match selected g !! value with
    | Some v => Some (v, MkShuffleGenerator (N g) (<[value := rval]> (selected g)) count)
    | None => Some (value, MkShuffleGenerator (N g) (<[value := rval]> (selected g)) count)
    end.

Definition reset (g : ShuffleGenerator) : ShuffleGenerator := MkShuffleGenerator (N g) ∅ (N g).

(** Successive calls, with one distribution result for each. *)
Fixpoint take_values (draws : list (nat -> nat)) (g : ShuffleGenerator) : option (list nat) :=
  match draws with
  | [] => Some []
  | draw :: draws => '(value, g) ← next draw g; values ← take_values draws g; Some (value :: values)
  end.

(** The numbers not drawn yet, as the generator keeps them: position [i] holds
    [selected[i]], or [i] itself. *)
Definition at_ (g : ShuffleGenerator) (i : nat) : nat := default i (selected g !! i).
Definition remaining (g : ShuffleGenerator) : list nat := at_ g <$> seq 0 (count g).

Definition in_range (draw : nat -> nat) : Prop := forall n, (draw n <= n)%nat.

Lemma fmap_seq_update (f : nat -> nat) (v x n : nat) : (v < n)%nat ->
  ((fun i => if decide (i = v) then x else f i) <$> seq 0 n) = <[v := x]> (f <$> seq 0 n).
Proof.
  intros Hv. apply list_eq. intros i. destruct (decide (i < n)%nat) as [Hi|Hi].
  - rewrite list_lookup_fmap, lookup_seq_lt by done. simpl. destruct (decide (i = v)) as [->|Hne].
    + by rewrite list_lookup_insert_eq by by rewrite length_fmap, length_seq.
    + by rewrite list_lookup_insert_ne, list_lookup_fmap, lookup_seq_lt by done.
  - rewrite !lookup_ge_None_2; rewrite ?length_insert, ?length_fmap, ?length_seq; [done|lia..].
Qed.

Lemma insert_permutation (l : list nat) v y x : l !! v = Some y -> y :: <[v := x]> l ≡ₚ x :: l.
Proof.
  intros Hv. assert (Hl := lookup_lt_Some _ _ _ Hv). rewrite <- (take_drop_middle l v y Hv) at 2.
  rewrite insert_take_drop by done. rewrite <- !Permutation_middle. apply Permutation_swap.
Qed.

(** One call removes the value it returns from the remaining ones. *)
Lemma next_remaining draw g : in_range draw -> (0 < count g)%nat -> exists value g', next draw g = Some (value, g') /\
  count g' = (count g - 1)%nat /\ N g' = N g /\ remaining g ≡ₚ value :: remaining g'.
Proof.
  intros Hd Hc. set (n := (count g - 1)%nat). set (v := draw n). set (rval := at_ g n).
  exists (at_ g v), (MkShuffleGenerator (N g) (<[v := rval]> (selected g)) n). split_and!; try done.
  - unfold next. destruct (Nat.eqb_spec (count g) 0); [lia|]. cbv zeta. fold n v. unfold at_ at 1. by destruct (selected g !! v).
  - unfold remaining. cbn [count]. assert (Hv : (v <= n)%nat) by apply Hd.
    replace (count g) with (S n) by (unfold n; lia). rewrite seq_S, fmap_app. cbn [fmap list_fmap Nat.add]. fold rval.
    assert ((at_ (MkShuffleGenerator (N g) (<[v := rval]> (selected g)) n) <$> seq 0 n) =
      ((fun i => if decide (i = v) then rval else at_ g i) <$> seq 0 n)) as ->.
    { apply list_fmap_ext. intros _ i _. unfold at_. cbn [selected]. destruct (decide (i = v)) as [->|Hne].
      - by rewrite lookup_insert_eq.
      - by rewrite lookup_insert_ne. }
    rewrite <- Permutation_cons_append. destruct (decide (v = n)) as [Evn|Hne].
    + unfold rval. rewrite Evn. apply perm_skip. rewrite (list_fmap_ext (fun i => if decide (i = n) then at_ g n else at_ g i) (at_ g)); [done|].
      intros _ i _. by destruct (decide (i = n)) as [->|].
    + rewrite fmap_seq_update by lia. symmetry. apply insert_permutation.
      by rewrite list_lookup_fmap, lookup_seq_lt by lia.
Qed.

Lemma take_values_ok draws g : Forall in_range draws -> (length draws <= count g)%nat -> exists values rest,
  take_values draws g = Some values /\ remaining g ≡ₚ values ++ rest /\ length values = length draws.
Proof.
  intros Hd. revert g. induction Hd as [|draw draws Hdraw Hd IH]; intros g Hl; [by exists [], (remaining g)|].
  simpl in Hl. destruct (next_remaining draw g Hdraw ltac:(lia)) as (value & g' & Hn & Hc & _ & Hp).
  destruct (IH g' ltac:(lia)) as (values & rest & Ht & Hp' & Hlen). exists (value :: values), rest.
  cbn [take_values]. rewrite Hn. cbn. rewrite Ht. split_and!; [done| |simpl; lia]. by rewrite Hp, Hp'.
Qed.

(** The numbers drawn are different and below the bound, and [N] draws give all of them. *)
Lemma shuffle_correct n draws : Forall in_range draws -> (length draws <= n)%nat -> exists values,
  take_values draws (make n) = Some values /\ length values = length draws /\ NoDup values /\ Forall (fun v => v < n)%nat values /\
  (length draws = n -> values ≡ₚ seq 0 n).
Proof.
  intros Hd Hl. destruct (take_values_ok draws (make n) Hd Hl) as (values & rest & Ht & Hp & Hlen).
  assert (Hr : remaining (make n) = seq 0 n).
  { unfold remaining. cbn [count make]. rewrite <- (list_fmap_id (seq 0 n)) at 2. apply list_fmap_ext. intros _ i _. unfold at_. cbn [selected make]. by rewrite lookup_empty. }
  rewrite Hr in Hp. exists values. split_and!; try done.
  - assert (NoDup (values ++ rest)) as Hnd by (rewrite <- Hp; apply NoDup_seq). by apply NoDup_app in Hnd as [? _].
  - rewrite Forall_forall. intros v Hv. assert (v ∈ seq 0 n) as H%elem_of_seq by (rewrite Hp; by apply elem_of_app; left). lia.
  - intros E. apply Permutation_length in Hp as Hpl. rewrite length_app, length_seq in Hpl.
    assert (rest = []) as -> by (apply nil_length_inv; lia). by rewrite app_nil_r in Hp.
Qed.

End ShuffleGenerator.
