(* ===== verification/ConstructTransaction.v ===== *)
(** Accounts and the transactions they make: src/CryptoNoteCore/Account.cpp, the messages
    of src/CryptoNoteCore/TransactionExtra.cpp, the functions with keys of
    src/CryptoNoteCore/CryptoNoteFormatUtils.cpp, with [constructTransaction] among
    them, and src/CryptoNoteCore/TransactionUtils.cpp.

    As in [Crypto], [None] is a failed assertion or a read of a key that was never
    written, and random bytes are arguments.  A function that returns a [bool] and
    writes its results has them in an inner option. *)

From S2P Require Import Prelude.
From S2P Require Import Varint.
From S2P Require Import Serialization.
From S2P Require Import CryptoNote.
From S2P Require Import CryptoNoteSerialization.
From S2P Require Import Keccak.
From S2P Require Import CryptoNoteFormatUtils.
From S2P Require Import TransactionExtra.
From S2P Require Import Blockchain.
From S2P Require Import CryptoOps.
From S2P Require Import Sc.
From S2P Require Import Fe.
From S2P Require Import Ge.
From S2P Require Import Edwards.
From S2P Require Import ScalarMult.
From S2P Require Import BasePoint.
From S2P Require Import PointCodec.
From S2P Require Import GroupOrder.
From S2P Require Import Crypto.
From S2P Require Import RingSignature.
From S2P Require Import Chacha8.
Import Varint Stream BinarySerializer CryptoNoteSerialization FormatUtils TransactionExtra Keccak CryptoOps Sc Fe Ge Edwards ScalarMult BasePoint PointCodec Crypto RingSignature Chacha8.

Module ConstructTransaction.

#[local] Open Scope list_scope.
#[local] Open Scope Z_scope.

Abbreviation SecretKey := bytes.
Abbreviation KeyDerivation := bytes.

Record AccountKeys := MkAccountKeys {
  address : AccountPublicAddress;
  spendSecretKey : SecretKey;
  viewSecretKey : SecretKey
}.

Record KeyPair := MkKeyPair { publicKey : PublicKey; secretKey : SecretKey }.

Record TransactionSourceEntry := MkTransactionSourceEntry {
  src_outputs : list (Z * PublicKey);
  realOutput : nat;
  realTransactionPublicKey : PublicKey;
  realOutputIndexInTransaction : Z;
  src_amount : Z
}.

Record TransactionDestinationEntry := MkTransactionDestinationEntry {
  dst_amount : Z;
  addr : AccountPublicAddress
}.

Record tx_message_entry := MkMessageEntry {
  message : bytes;
  encrypt : bool;
  msg_addr : AccountPublicAddress
}.

(** ** Account.cpp *)

Definition generateViewFromSpend (spend : SecretKey) : option (PublicKey * SecretKey) :=
  let viewKeySeed := keccak spend 32 in
  generate_keys_from_seed viewKeySeed.

Definition generate (tmp : bytes) : option AccountKeys :=
  '(spendPublic, spendSecret) ← generate_keys tmp;
  '(viewPublic, viewSecret) ← generateViewFromSpend spendSecret;
  Some (MkAccountKeys (MkAccountPublicAddress spendPublic viewPublic) spendSecret viewSecret).

(** ** Messages *)

Definition TX_EXTRA_MESSAGE_CHECKSUM_SIZE : nat := 4.

(** The key of the cipher: [message_key_data] hashed. *)
Definition message_key (derivation : KeyDerivation) : Hash := cn_fast_hash (derivation ++ [0x80; 0]).

(** [tx_extra_message::encrypt]: the data of the message; [tmp] is the buffer of the cipher. *)
Definition encrypt_message (tmp : bytes) (index : Z) (message : bytes) (recipient : option AccountPublicAddress) (txkey : KeyPair) : option (option bytes) :=
  let buf := message ++ replicate TX_EXTRA_MESSAGE_CHECKSUM_SIZE 0 in
  match recipient with
  | Some recipient =>
      derivation ← generate_key_derivation (spendPublicKey recipient) (secretKey txkey);
      attempt None derivation (fun derivation =>
      let h := message_key derivation in
      let nonce := le_bytes 8 index in
      Some (Some (chacha8 tmp buf h nonce)))
  | None => Some (Some buf)
  end.

(** [tx_extra_message::decrypt]. *)
Definition decrypt_message (tmp : bytes) (index : Z) (data : bytes) (txkey : PublicKey) (recepient_secret_key : option SecretKey) : option (option bytes) :=
  if (length data <? TX_EXTRA_MESSAGE_CHECKSUM_SIZE)%nat then Some None
  else
    buf ← match recepient_secret_key with
          | Some key =>
              derivation ← generate_key_derivation txkey key;
              attempt None derivation (fun derivation =>
              let h := message_key derivation in
              let nonce := le_bytes 8 index in
              Some (Some (chacha8 tmp data h nonce)))
          | None => Some (Some data)
          end;
    attempt None buf (fun buf =>
    let mlen := (length data - TX_EXTRA_MESSAGE_CHECKSUM_SIZE)%nat in
    if forallb (fun b => b =? 0) (drop mlen buf) then Some (Some (take mlen buf)) else Some None).

(** ** Keys of outputs *)

Definition generate_key_image_helper (ack : AccountKeys) (tx_public_key : PublicKey) (real_output_index : Z) : option (option (KeyPair * KeyImage)) :=
  recv_derivation ← generate_key_derivation tx_public_key (viewSecretKey ack);
  _ ← assertion (bool_decide (is_Some recv_derivation));
  attempt None recv_derivation (fun recv_derivation =>
  in_ephemeral ← derive_public_key recv_derivation real_output_index (spendPublicKey (address ack));
  _ ← assertion (bool_decide (is_Some in_ephemeral));
  attempt None in_ephemeral (fun publicKey =>
  secretKey ← derive_secret_key recv_derivation real_output_index (spendSecretKey ack);
  ki ← generate_key_image publicKey secretKey;
  Some (Some (MkKeyPair publicKey secretKey, ki)))).

(** [is_out_to_acc] with a derivation, and [isOutToKey]. *)
Definition isOutToKey (spendPublicKey : PublicKey) (outKey : PublicKey) (derivation : KeyDerivation) (keyIndex : Z) : option bool :=
  pk ← derive_public_key derivation keyIndex spendPublicKey;
  pk ← pk;
  Some (bool_decide (pk = outKey)).

Definition is_out_to_acc (acc : AccountKeys) (out_key : KeyOutput) (derivation : KeyDerivation) (keyIndex : Z) : option bool :=
  isOutToKey (spendPublicKey (address acc)) (ko_key out_key) derivation keyIndex.

(** [is_out_to_acc] with the public key of the transaction. *)
Definition is_out_to_acc_key (acc : AccountKeys) (out_key : KeyOutput) (tx_pub_key : PublicKey) (keyIndex : Z) : option bool :=
  derivation ← generate_key_derivation tx_pub_key (viewSecretKey acc);
  derivation ← derivation;
  is_out_to_acc acc out_key derivation keyIndex.

(** The loop of [lookup_acc_outs]: the indexes and the money. *)
Fixpoint lookup_loop (acc : AccountKeys) (derivation : KeyDerivation) (outs : list TransactionOutput) (outputIndex : Z) (found : list Z) (money : Z) :
    option (list Z * Z) :=
  match outs with
  | [] => Some (found, money)
  | o :: outs =>
      mine ← match target o with
             | OutKey k => is_out_to_acc acc k derivation outputIndex
             | OutMultisignature _ => Some false
             end;
      if mine : bool then lookup_loop acc derivation outs (outputIndex + 1) (found ++ [outputIndex]) (u64 (money + out_amount o))
      else lookup_loop acc derivation outs (outputIndex + 1) found money
  end.

Definition lookup_acc_outs_key (acc : AccountKeys) (tx : Transaction) (tx_pub_key : PublicKey) : option (list Z * Z) :=
  derivation ← generate_key_derivation tx_pub_key (viewSecretKey acc);
  derivation ← derivation;
  lookup_loop acc derivation (outputs (prefix tx)) 0 [] 0.

(** [lookup_acc_outs] with the key of the extra; the inner [None] is [false]. *)
Definition lookup_acc_outs (acc : AccountKeys) (tx : Transaction) : option (option (list Z * Z)) :=
  let transactionPublicKey := getTransactionPublicKeyFromExtra (extra (prefix tx)) in
  if bool_decide (transactionPublicKey = NULL_KEY) then Some None
  else Some <$> lookup_acc_outs_key acc tx transactionPublicKey.

(** ** TransactionUtils.cpp *)

Fixpoint keyimages_loop (ki : gset KeyImage) (ins : list TransactionInput) : bool :=
  match ins with
  | [] => true
  | InKey i :: ins => if bool_decide (keyImage i ∈ ki) then false else keyimages_loop ({[keyImage i]} ∪ ki) ins
  | _ :: ins => keyimages_loop ki ins
  end.

Definition checkInputsKeyimagesDiff (tx : TransactionPrefix) : bool := keyimages_loop ∅ (inputs tx).

(** One output of [findOutputsToAccount]: how often its index is added, and the amount. *)
Definition find_output (acc : AccountKeys) (derivation : KeyDerivation) (outputIndex : Z) (o : TransactionOutput) : option (list Z * Z) :=
  match target o with
  | OutKey k => mine ← is_out_to_acc acc k derivation outputIndex; Some (if mine : bool then ([outputIndex], out_amount o) else ([], 0))
  | OutMultisignature t =>
      found ← mapM (fun key => mine ← isOutToKey (spendPublicKey (address acc)) key derivation outputIndex; Some (if mine : bool then [outputIndex] else [])) (mo_keys t);
      Some (mjoin found, 0)
  end.

Fixpoint find_loop (acc : AccountKeys) (derivation : KeyDerivation) (outs : list TransactionOutput) (outputIndex : Z) (out : list Z) (amount : Z) :
    option (list Z * Z) :=
  match outs with
  | [] => Some (out, amount)
  | o :: outs =>
      '(found, money) ← find_output acc derivation outputIndex o;
      find_loop acc derivation outs (u32 (outputIndex + 1)) (out ++ found) (u64 (amount + money))
  end.

(** Only the view secret key of the account is read. *)
Definition findOutputsToAccount (transaction : TransactionPrefix) (addr : AccountPublicAddress) (viewSecretKey : SecretKey) : option (list Z * Z) :=
  let keys := MkAccountKeys addr [] viewSecretKey in
  let txPubKey := getTransactionPublicKeyFromExtra (extra transaction) in
  derivation ← generate_key_derivation txPubKey viewSecretKey;
  derivation ← derivation;
  find_loop keys derivation (outputs transaction) 0 [] 0.

(** ** Construction *)

Definition generateDeterministicTransactionKeys (inputsHash : Hash) (viewSecretKey : SecretKey) : option (option KeyPair) :=
  let ba := viewSecretKey ++ inputsHash in
  let secretKey := hash_to_scalar ba in
  publicKey ← secret_key_to_public_key secretKey;
  Some (option_map (fun publicKey => MkKeyPair publicKey secretKey) publicKey).

Definition inputs_hash (ins : list TransactionInput) : Hash := (getObjectHash (array serializeTransactionInput) ins).2.

Definition generateDeterministicTransactionKeys_tx (tx : Transaction) (viewSecretKey : SecretKey) : option (option KeyPair) :=
  generateDeterministicTransactionKeys (inputs_hash (inputs (prefix tx))) viewSecretKey.

(** The loop over the sources: the inputs, their one-time keys and the money. *)
Fixpoint fill_inputs (keys : AccountKeys) (sources : list TransactionSourceEntry) (ins : list TransactionInput) (in_contexts : list KeyPair)
    (summary_inputs_money : Z) : option (option (list TransactionInput * list KeyPair * Z)) :=
  match sources with
  | [] => Some (Some (ins, in_contexts, summary_inputs_money))
  | src_entr :: sources =>
      match src_outputs src_entr !! realOutput src_entr with
      | None => Some None
      | Some real =>
          let money := u64 (summary_inputs_money + src_amount src_entr) in
          r ← generate_key_image_helper keys (realTransactionPublicKey src_entr) (realOutputIndexInTransaction src_entr);
          attempt None r (fun '(in_ephemeral, img) =>
          if negb (bool_decide (publicKey in_ephemeral = real.2)) then Some None
          else
            let input_to_key := MkKeyInput (src_amount src_entr) (absolute_output_offsets_to_relative (src_outputs src_entr).*1) img in
            fill_inputs keys sources (ins ++ [InKey input_to_key]) (in_contexts ++ [in_ephemeral]) money)
      end
  end.

(** The loop over the sorted destinations: the outputs and the money. *)
Fixpoint fill_outputs (txkey : KeyPair) (shuffled_dsts : list TransactionDestinationEntry) (output_index : Z) (outs : list TransactionOutput)
    (summary_outs_money : Z) : option (option (list TransactionOutput * Z)) :=
  match shuffled_dsts with
  | [] => Some (Some (outs, summary_outs_money))
  | dst_entr :: dsts =>
      if negb (0 <? dst_amount dst_entr) then Some None
      else
        derivation ← generate_key_derivation (viewPublicKey (addr dst_entr)) (secretKey txkey);
        attempt None derivation (fun derivation =>
        out_eph_public_key ← derive_public_key derivation output_index (spendPublicKey (addr dst_entr));
        attempt None out_eph_public_key (fun out_eph_public_key =>
        let out := MkTransactionOutput (dst_amount dst_entr) (OutKey (MkKeyOutput out_eph_public_key)) in
        fill_outputs txkey dsts (output_index + 1) (outs ++ [out]) (u64 (summary_outs_money + dst_amount dst_entr))))
  end.

Fixpoint add_messages (tmp : bytes) (txkey : KeyPair) (messages : list tx_message_entry) (i : Z) (extra : bytes) : option (option bytes) :=
  match messages with
  | [] => Some (Some extra)
  | msg :: messages =>
      tag ← encrypt_message tmp i (message msg) (if encrypt msg then Some (msg_addr msg) else None) txkey;
      attempt None tag (fun tag =>
      attempt None (append_message_to_extra extra tag) (fun extra =>
      add_messages tmp txkey messages (i + 1) extra))
  end.

(** The loop over the sources that signs; each source has random bytes of its own. *)
Fixpoint sign_inputs (tx_prefix_hash : Hash) (sources : list TransactionSourceEntry) (ins : list TransactionInput) (in_contexts : list KeyPair)
    (random : list (list bytes)) : option (list (list Signature)) :=
  match sources, ins, in_contexts, random with
  | [], _, _, _ => Some []
  | src_entr :: sources, InKey input :: ins, in_ephemeral :: in_contexts, rnd :: random =>
      let keys_ptrs := (src_outputs src_entr).*2 in
      sigs ← generate_ring_signature tx_prefix_hash (keyImage input) keys_ptrs (secretKey in_ephemeral) (realOutput src_entr)
               (replicate (length (src_outputs src_entr)) (replicate 64 0)) rnd;
      rest ← sign_inputs tx_prefix_hash sources ins in_contexts random;
      Some (sigs :: rest)
  | _, _, _, _ => None
  end.

(** [std::sort] by the amounts: its order of equal amounts is not specified. *)
Section construct.
Context (sort : list TransactionDestinationEntry -> list TransactionDestinationEntry).

(** The transaction and the secret key of the transaction. *)
Definition constructTransaction (sender_account_keys : AccountKeys) (sources : list TransactionSourceEntry) (destinations : list TransactionDestinationEntry)
    (messages : list tx_message_entry) (ttl : Z) (extra : bytes) (unlock_time : Z) (tmp : bytes) (random : list (list bytes)) :
    option (option (Transaction * SecretKey)) :=
  filled ← fill_inputs sender_account_keys sources [] [] 0;
  attempt None filled (fun '(ins, in_contexts, summary_inputs_money) =>
  txkey ← generateDeterministicTransactionKeys (inputs_hash ins) (viewSecretKey sender_account_keys);
  attempt None txkey (fun txkey =>
  let extra := addTransactionPublicKeyToExtra extra (publicKey txkey) in
  let shuffled_dsts := sort destinations in
  filled ← fill_outputs txkey shuffled_dsts 0 [] 0;
  attempt None filled (fun '(outs, summary_outs_money) =>
  if summary_inputs_money <? summary_outs_money then Some None
  else
    extra ← add_messages tmp txkey messages 0 extra;
    attempt None extra (fun extra =>
    let extra := if negb (ttl =? 0) then appendTTLToExtra extra ttl else extra in
    let prefix := MkTransactionPrefix TRANSACTION_VERSION_1 unlock_time ins outs extra in
    let tx_prefix_hash := (getObjectHash serializeTransactionPrefix prefix).2 in
    signatures ← sign_inputs tx_prefix_hash sources ins in_contexts random;
    Some (Some (MkTransaction prefix signatures, secretKey txkey)))))).

End construct.

#[local] Strategy expand [generateViewFromSpend generate encrypt_message decrypt_message generate_key_image_helper isOutToKey is_out_to_acc is_out_to_acc_key
  lookup_acc_outs_key lookup_acc_outs   generateDeterministicTransactionKeys fill_inputs fill_outputs add_messages sign_inputs constructTransaction].

(** ** Accounts *)

(** The keys of an account with the secret scalars [b] (spend) and [a] (view). *)
Record account_ok (keys : AccountKeys) (b a : Z) : Prop := {
  account_spend : scalar (spendSecretKey keys) b;
  account_view : scalar (viewSecretKey keys) a;
  account_address : address keys = MkAccountPublicAddress (pub_of b) (pub_of a)
}.

Lemma generate_keys_from_seed_ok seed : is_bytes seed -> length seed = 32%nat ->
  exists sec v, generate_keys_from_seed seed = Some (pub_of v, sec) /\ scalar sec v.
Proof.
  intros Hb Hl. pose proof (scalar_mod _ _ (sc_reduce32_value seed Hb Hl)) as Hs. exists (sc_reduce32 seed), (le_value seed mod l). split; [|exact Hs].
  unfold generate_keys_from_seed. cbv zeta. destruct (base_ok _ _ Hs) as (h & E & _ & Ep). rewrite E, bind_some, Ep. reflexivity.
Qed.

Lemma keccak_32 data : keccak data 32 = cn_fast_hash data.
Proof.
  unfold cn_fast_hash, keccak1600, keccak. change (200 =? 32)%nat with false. change (200 =? 200)%nat with true. cbv iota.
  change (200 - 2 * 32)%nat with 136%nat. destruct (absorb_blocks _ _ _ _) as [st rest]. by rewrite take_take.
Qed.

Lemma generate_account_ok tmp : is_bytes tmp -> length tmp = 64%nat -> exists keys b a, generate tmp = Some keys /\ account_ok keys b a.
Proof.
  intros Hb Hl. destruct (generate_keys_ok tmp Hb Hl) as (spend & b & E & Hs & _).
  destruct (cn_fast_hash_pod spend) as [Hl' Hb']. destruct (generate_keys_from_seed_ok _ Hb' Hl') as (view & a & E' & Hv).
  exists (MkAccountKeys (MkAccountPublicAddress (pub_of b) (pub_of a)) spend view), b, a. unfold generate, generateViewFromSpend. cbv zeta.
  rewrite E, bind_some, keccak_32, E', bind_some. split; [reflexivity|]. by split.
Qed.

(** ** Messages *)

Lemma message_key_pod derivation : length (message_key derivation) = 32%nat /\ is_bytes (message_key derivation).
Proof. apply cn_fast_hash_pod. Qed.

(** What [encrypt_message] returns is as long as the message and the checksum. *)
Lemma encrypt_message_ok tmp index message recipient txkey r : is_bytes tmp -> length tmp = 64%nat -> is_bytes message ->
  scalar (secretKey txkey) r -> (forall addr, recipient = Some addr -> valid_key (spendPublicKey addr)) ->
  exists data, encrypt_message tmp index message recipient txkey = Some (Some data) /\ is_bytes data
    /\ length data = (length message + TX_EXTRA_MESSAGE_CHECKSUM_SIZE)%nat.
Proof.
  intros Ht Hlt Hm Hr Ha. assert (Hbuf : is_bytes (message ++ replicate TX_EXTRA_MESSAGE_CHECKSUM_SIZE 0)) by (apply Forall_app; split; [exact Hm|bytes_compute]).
  unfold encrypt_message. cbv zeta. destruct recipient as [addr|].
  - destruct (Ha addr eq_refl) as (P & HP & ->). rewrite (generate_key_derivation_ok _ r P Hr HP), bind_some, attempt_some.
    destruct (chacha8_bytes tmp _ (message_key (encode (Edwards.zmul 8 (Edwards.zmul r P)))) (le_bytes 8 index) Hbuf Ht Hlt) as [H1 H2].
    eexists. split; [reflexivity|]. split; [exact H2|]. rewrite H1, length_app. reflexivity.
  - eexists. split; [reflexivity|]. split; [exact Hbuf|]. rewrite length_app. reflexivity.
Qed.

Lemma checksum_ok message : let data := message ++ replicate TX_EXTRA_MESSAGE_CHECKSUM_SIZE 0 in
  (if forallb (fun b => b =? 0) (drop (length data - TX_EXTRA_MESSAGE_CHECKSUM_SIZE) data)
   then Some (Some (take (length data - TX_EXTRA_MESSAGE_CHECKSUM_SIZE) data)) else Some None) = Some (Some message).
Proof.
  cbv zeta. rewrite length_app, length_replicate, Nat.add_sub, drop_app_length, take_app_length. reflexivity.
Qed.

(** The recipient, with the spend secret key [s], reads an encrypted message; anybody
    reads one that is not. *)
Lemma message_roundtrip_ok tmp tmp' index message r s addr rsec ssec : is_bytes tmp -> length tmp = 64%nat -> is_bytes tmp' -> length tmp' = 64%nat ->
  is_bytes message -> scalar rsec r -> scalar ssec s -> spendPublicKey addr = pub_of s ->
  (exists data, encrypt_message tmp index message (Some addr) (MkKeyPair (pub_of r) rsec) = Some (Some data)
    /\ decrypt_message tmp' index data (pub_of r) (Some ssec) = Some (Some message))
  /\ exists data, encrypt_message tmp index message None (MkKeyPair (pub_of r) rsec) = Some (Some data)
    /\ decrypt_message tmp' index data (pub_of r) None = Some (Some message).
Proof.
  intros Ht Hlt Ht' Hlt' Hm Hr Hs Ea. assert (Hbuf : is_bytes (message ++ replicate TX_EXTRA_MESSAGE_CHECKSUM_SIZE 0)) by (apply Forall_app; split; [exact Hm|bytes_compute]).
  destruct (derivations_agree ssec s rsec r Hs Hr) as [E1 E2]. unfold encrypt_message, decrypt_message. cbv zeta. cbn [secretKey]. split.
  - rewrite Ea, E1, bind_some, attempt_some. eexists. split; [reflexivity|].
    destruct (chacha8_bytes tmp _ (message_key (pub_of (8 * (s * r)))) (le_bytes 8 index) Hbuf Ht Hlt) as [H1 _].
    rewrite H1. rewrite (proj2 (Nat.ltb_ge _ _)) by (rewrite length_app, length_replicate; lia).
    rewrite E2, bind_some, attempt_some, bind_some, attempt_some, chacha8_twice by assumption. apply checksum_ok.
  - eexists. split; [reflexivity|]. rewrite (proj2 (Nat.ltb_ge _ _)) by (rewrite length_app, length_replicate; lia).
    rewrite bind_some, attempt_some. apply checksum_ok.
Qed.

(** ** The keys of outputs *)

Lemma derive_public_key_ok D i P : is_u64 i -> curve P -> exists Q, curve Q /\ derive_public_key D i (encode P) = Some (Some (encode Q)).
Proof.
  intros Hi HP. destruct (derivation_to_scalar_ok D i Hi) as (s & v & E & Hs). destruct (decode_ok P HP) as (h & Eh & Hh).
  exists (padd P (zmul v B)). split; [apply padd_curve; [exact HP|apply zmul_curve, B_curve]|].
  unfold derive_public_key. rewrite Eh, attempt_some, E, bind_some. by apply add_public_key_ok.
Qed.

Section account.
Context (keys : AccountKeys) (b a : Z) (Hkeys : account_ok keys b a).

Lemma generate_key_image_helper_ok R i : valid_key R -> is_u64 i -> exists D x sec image,
  generate_key_derivation R (viewSecretKey keys) = Some (Some D) /\ derive_public_key D i (spendPublicKey (address keys)) = Some (Some (pub_of x))
  /\ scalar sec x /\ generate_key_image (pub_of x) sec = Some image
  /\ generate_key_image_helper keys R i = Some (Some (MkKeyPair (pub_of x) sec, image)).
Proof.
  intros (P & HP & ->) Hi. pose proof (generate_key_derivation_ok _ a P (account_view _ _ _ Hkeys) HP) as ED.
  destruct (derive_keys_ok (encode (zmul 8 (zmul a P))) i _ b Hi (account_spend _ _ _ Hkeys)) as (out & sec & x & E1 & E2 & Hx & <- & _).
  destruct (hash_to_ec_ok (pub_of x)) as (h & Q & Eh & Hh & HQ & _). pose proof (generate_key_image_ok _ sec x h Q Hx Eh Hh HQ) as Ei.
  eexists _, x, sec, _. split; [exact ED|]. rewrite (account_address _ _ _ Hkeys). cbn [spendPublicKey]. split; [exact E1|]. split; [exact Hx|]. split; [exact Ei|].
  unfold generate_key_image_helper. rewrite ED, bind_some. rewrite assertion_true, bind_some, attempt_some by (apply bool_decide_eq_true_2; by eexists).
  rewrite (account_address _ _ _ Hkeys). cbn [spendPublicKey]. rewrite E1, bind_some.
  rewrite assertion_true, bind_some, attempt_some by (apply bool_decide_eq_true_2; by eexists).
  rewrite E2, bind_some, Ei, bind_some. reflexivity.
Qed.

(** A source the account can spend: its real output has the key derived for it. *)
Record source_ok (src : TransactionSourceEntry) : Prop := {
  source_key : valid_key (realTransactionPublicKey src);
  source_index : is_u64 (realOutputIndexInTransaction src);
  source_ring : Forall valid_key (src_outputs src).*2;
  source_real : exists D key, generate_key_derivation (realTransactionPublicKey src) (viewSecretKey keys) = Some (Some D)
    /\ derive_public_key D (realOutputIndexInTransaction src) (spendPublicKey (address keys)) = Some (Some key)
    /\ (src_outputs src).*2 !! realOutput src = Some key
}.

(** The input made for a source, with the one-time keys. *)
Definition spends (src : TransactionSourceEntry) (input : TransactionInput) (in_ephemeral : KeyPair) : Prop :=
  exists x image, scalar (secretKey in_ephemeral) x /\ generate_key_image (pub_of x) (secretKey in_ephemeral) = Some image
    /\ (src_outputs src).*2 !! realOutput src = Some (pub_of x) /\ Forall valid_key (src_outputs src).*2
    /\ input = InKey (MkKeyInput (src_amount src) (absolute_output_offsets_to_relative (src_outputs src).*1) image).

Lemma fill_inputs_ok sources ins ctx money : Forall source_ok sources -> exists ins' ctx',
  fill_inputs keys sources ins ctx money = Some (Some (ins ++ ins', ctx ++ ctx', foldl (fun m src => u64 (m + src_amount src)) money sources))
  /\ Forall3 spends sources ins' ctx'.
Proof.
  intros Hs. revert ins ctx money. induction Hs as [|src sources Hsrc Hs IH]; intros ins ctx money.
  { exists [], []. rewrite !app_nil_r. split; [reflexivity|constructor]. }
  destruct Hsrc as [Hk Hi Hr (D & key & E1 & E2 & E3)].
  destruct (generate_key_image_helper_ok _ _ Hk Hi) as (D' & x & sec & image & E1' & E2' & Hx & Ei & Eh).
  rewrite E1 in E1'. apply (inj Some), (inj Some) in E1' as <-. rewrite E2 in E2'. apply (inj Some), (inj Some) in E2' as ->.
  apply list_lookup_fmap_Some in E3 as ([j key] & E4 & E3). cbn [snd] in E4.
  set (input := InKey (MkKeyInput (src_amount src) (absolute_output_offsets_to_relative (src_outputs src).*1) image)).
  destruct (IH (ins ++ [input]) (ctx ++ [MkKeyPair (pub_of x) sec]) (u64 (money + src_amount src))) as (ins' & ctx' & E & HF).
  exists (input :: ins'), (MkKeyPair (pub_of x) sec :: ctx'). split.
  - cbn [fill_inputs foldl]. rewrite E3. cbv beta iota zeta. rewrite Eh, bind_some, attempt_some. cbn [publicKey snd].
    rewrite bool_decide_eq_true_2 by exact E4. cbn [negb]. fold input. rewrite E, <- !app_assoc. reflexivity.
  - constructor; [|exact HF]. exists x, image. cbn [secretKey]. split; [exact Hx|]. split; [exact Ei|].
    split; [|split; [exact Hr|reflexivity]]. rewrite list_lookup_fmap, E3. cbn [fmap option_fmap option_map snd]. by rewrite E4.
Qed.

End account.

(** A signed input is accepted for the ring of the source. *)
Definition signed (hash : Hash) (src : TransactionSourceEntry) (input : TransactionInput) (sigs : list Signature) : Prop :=
  exists image, input = InKey (MkKeyInput (src_amount src) (absolute_output_offsets_to_relative (src_outputs src).*1) image)
    /\ Crypto.check_ring_signature hash image (src_outputs src).*2 sigs = Some true
    /\ Crypto.scalarmultKey image Blockchain.key_image_L = Some Blockchain.key_image_I
    /\ length sigs = length (src_outputs src).

Definition random_for (sources : list TransactionSourceEntry) (random : list (list bytes)) : Prop :=
  Forall2 (fun src rnd => random_ok rnd /\ (2 * length (src_outputs src) <= length rnd)%nat) sources random.

Lemma sign_inputs_ok hash sources ins ctx random : Forall3 spends sources ins ctx -> random_for sources random ->
  exists sigs, sign_inputs hash sources ins ctx random = Some sigs /\ Forall3 (signed hash) sources ins sigs.
Proof.
  intros HF. revert random. induction HF as [|src input kp sources ins ctx Hsp HF IH]; intros random Hr.
  { exists []. destruct random; split; (reflexivity || constructor). }
  apply Forall2_cons_inv_l in Hr as (rnd & random' & [Hrnd Hlen] & Hr & ->). destruct (IH random' Hr) as (sigs & Es & Hsigs).
  destruct Hsp as (x & image & Hx & Ei & Ej & Hv & ->).
  destruct (ring_sign_ok hash _ _ x (realOutput src) (replicate (length (src_outputs src)) (replicate 64 0)) rnd Hx Ej Hv)
    as (image' & sig & Ei' & Eg & Ec); [by rewrite length_replicate, length_fmap|exact Hrnd|by rewrite length_fmap|].
  rewrite Ei in Ei'. apply (inj Some) in Ei' as <-. exists (sig :: sigs). split.
  - cbn [sign_inputs]. cbv zeta. cbn [keyImage]. rewrite Eg, bind_some, Es, bind_some. reflexivity.
  - constructor; [|exact Hsigs]. exists image. split; [reflexivity|]. split; [exact Ec|].
    destruct (image_in_domain (pub_of x) _ x Hx) as (image' & Ei' & Hd). rewrite Ei in Ei'. apply (inj Some) in Ei' as <-. split; [exact Hd|].
    rewrite (generate_ring_signature_length _ _ _ _ _ _ _ _ Eg). apply length_replicate.
Qed.

(** ** Outputs *)

Record destination_ok (dst : TransactionDestinationEntry) : Prop := {
  destination_amount : 0 < dst_amount dst;
  destination_spend : valid_key (spendPublicKey (addr dst));
  destination_view : valid_key (viewPublicKey (addr dst))
}.

(** Output [j] pays the destination: the account with that address finds it. *)
Definition pays (R : PublicKey) (j : Z) (dst : TransactionDestinationEntry) (out : TransactionOutput) : Prop :=
  exists key, out = MkTransactionOutput (dst_amount dst) (OutKey (MkKeyOutput key)) /\ valid_key key
    /\ forall acc b a, account_ok acc b a -> address acc = addr dst -> is_out_to_acc_key acc (MkKeyOutput key) R j = Some true.

Definition money (dsts : list TransactionDestinationEntry) : Z := sumZ (dst_amount <$> dsts).

Section outputs.
Context (r : Z) (sec : SecretKey) (Hsec : scalar sec r).

Let txkey : KeyPair := MkKeyPair (pub_of r) sec.

Lemma output_found b a acc j D key : account_ok acc b a -> generate_key_derivation (pub_of a) sec = Some (Some D) ->
  derive_public_key D j (pub_of b) = Some (Some key) -> is_out_to_acc_key acc (MkKeyOutput key) (pub_of r) j = Some true.
Proof.
  intros Hacc E1 E2. destruct (derivations_agree _ a sec r (account_view _ _ _ Hacc) Hsec) as [E1' E3]. rewrite E1 in E1'. apply (inj Some), (inj Some) in E1' as ->.
  unfold is_out_to_acc_key, is_out_to_acc, isOutToKey. rewrite E3, !bind_some, (account_address _ _ _ Hacc). cbn [spendPublicKey ko_key].
  rewrite E2, !bind_some. f_equal. by apply bool_decide_eq_true_2.
Qed.

Lemma fill_outputs_ok dsts i outs total : Forall destination_ok dsts -> is_u64 (i + Z.of_nat (length dsts)) -> 0 <= i -> 0 <= total ->
  is_u64 (total + money dsts) -> exists outs', fill_outputs txkey dsts i outs total = Some (Some (outs ++ outs', total + money dsts))
    /\ length outs' = length dsts /\ forall k dst out, dsts !! k = Some dst -> outs' !! k = Some out -> pays (pub_of r) (i + Z.of_nat k) dst out.
Proof.
  intros Hd. revert i outs total. induction Hd as [|dst dsts [Ham (S & HS & ES) (V & HV & EV)] Hd IH]; intros i outs total Hi Hi0 Ht0 Ht.
  { exists []. unfold money. cbn [fmap list_fmap sumZ foldr]. rewrite app_nil_r, Z.add_0_r. split; [reflexivity|]. split; [reflexivity|]. intros k ? ?. rewrite lookup_nil. discriminate. }
  pose proof (generate_key_derivation_ok sec r V Hsec HV) as ED.
  assert (is_u64 i) as Hi1 by (cbn [length] in Hi; unfold is_u64 in *; lia).
  destruct (derive_public_key_ok (encode (zmul 8 (zmul r V))) i S Hi1 HS) as (Q & HQ & EQ).
  assert (0 <= money dsts) as Hm by (apply sumZ_nonneg, Forall_fmap; eapply Forall_impl; [exact Hd|]; intros d []; cbn; lia).
  change (money (dst :: dsts)) with (dst_amount dst + money dsts) in *.
  assert (u64 (total + dst_amount dst) = total + dst_amount dst) as Eu by (apply u64_id; unfold is_u64 in *; lia).
  set (out := MkTransactionOutput (dst_amount dst) (OutKey (MkKeyOutput (encode Q)))).
  destruct (IH (i + 1) (outs ++ [out]) (total + dst_amount dst)) as (outs' & E & Hl & Hp); [cbn [length] in Hi; unfold is_u64 in *; lia|lia|lia|by rewrite <- Z.add_assoc|].
  exists (out :: outs'). split; [|split; [cbn [length]; by rewrite Hl|]].
  - cbn [fill_outputs]. rewrite (proj2 (Z.ltb_lt _ _) Ham). cbn [negb]. unfold txkey in E |- *. cbn [secretKey]. rewrite EV, ED, bind_some, attempt_some, ES, EQ, bind_some, attempt_some.
    cbv zeta. fold out. rewrite Eu, E, <- app_assoc, Z.add_assoc. reflexivity.
  - intros [|k] dst' out'; cbn [lookup list_lookup]; [|intros Ek Eo; replace (i + Z.of_nat (Datatypes.S k)) with (i + 1 + Z.of_nat k) by lia; by apply Hp].
    intros [= <-] [= <-]. exists (encode Q). split; [reflexivity|]. split; [by exists Q|]. intros acc b a Hacc Ea. rewrite Z.add_0_r.
    rewrite (account_address _ _ _ Hacc) in Ea. destruct dst as [am ad]. cbn [addr] in *. subst ad. cbn [spendPublicKey viewPublicKey] in *.
    rewrite <- EV in ED. rewrite <- ES in EQ. exact (output_found b a acc i _ _ Hacc ED EQ).
Qed.

End outputs.

(** ** Messages in the extra *)

Definition message_ok (msg : tx_message_entry) : Prop :=
  is_bytes (message msg) /\ Z.of_nat (length (message msg)) + 4 <= max_size /\ (encrypt msg = true -> valid_key (spendPublicKey (msg_addr msg))).

Lemma add_messages_ok tmp r sec messages i ex : scalar sec r -> is_bytes tmp -> length tmp = 64%nat -> Forall message_ok messages ->
  exists datas ex', add_messages tmp (MkKeyPair (pub_of r) sec) messages i ex = Some (Some ex')
    /\ writeTransactionExtra ex (tx_extra_message <$> datas) = Some ex' /\ Forall (fun data => is_bytes data /\ small data) datas.
Proof.
  intros Hr Ht Hlt Hm. revert i ex. induction Hm as [|msg messages (Hb & Hl & Ha) Hm IH]; intros i ex.
  { exists [], ex. split; [reflexivity|]. split; [reflexivity|constructor]. }
  destruct (encrypt_message_ok tmp i (message msg) (if encrypt msg then Some (msg_addr msg) else None) (MkKeyPair (pub_of r) sec) r Ht Hlt Hb Hr)
    as (data & E & Hdb & Hdl); [intros ad; destruct (encrypt msg); [intros [= <-]; by apply Ha|discriminate]|].
  assert (small data) as Hs by (unfold small; rewrite Hdl; unfold TX_EXTRA_MESSAGE_CHECKSUM_SIZE; lia).
  destruct (codec_total (c := str) data (conj Hdb Hs)) as (bs & Hput & _).
  assert (append_message_to_extra ex data = Some (ex ++ TX_EXTRA_MESSAGE_TAG :: bs)) as Eapp by (unfold append_message_to_extra, toBinaryArray; by rewrite Hput).
  destruct (IH (i + 1) (ex ++ TX_EXTRA_MESSAGE_TAG :: bs)) as (datas & ex' & E' & Hw & HF). exists (data :: datas), ex'. split; [|split].
  - cbn [add_messages]. rewrite E, bind_some, attempt_some, Eapp, attempt_some. exact E'.
  - cbn [fmap list_fmap writeTransactionExtra write_field]. rewrite Eapp, bind_some. exact Hw.
  - by constructor.
Qed.

(** The fields [constructTransaction] adds to the extra. *)
Definition extra_fields (R : PublicKey) (datas : list bytes) (ttl : Z) : list TransactionExtraField :=
  TransactionExtraPublicKey R :: (tx_extra_message <$> datas) ++ (if negb (ttl =? 0) then [TransactionExtraTTL ttl] else []).

Lemma write_extra_app ex fs gs : writeTransactionExtra ex (fs ++ gs) = (ex ← writeTransactionExtra ex fs; writeTransactionExtra ex gs).
Proof.
  revert ex. induction fs as [|f fs IH]; intros ex; [reflexivity|]. cbn [app writeTransactionExtra].
  destruct (write_field ex f) as [ex'|]; [|reflexivity]. rewrite !bind_some. apply IH.
Qed.

Lemma encode_pod P : curve P -> wf_pod 32 (encode P).
Proof. intros _. split; [apply length_le_bytes|apply le_bytes_is_bytes]. Qed.

(** An extra that [constructTransaction] can add to: it parses, its fields are not padding,
    which would take in what follows, and none of them is a transaction key. *)
Definition open_extra (extra : bytes) : bool :=
  let '(parsed, fields) := parseTransactionExtra extra in
  parsed && forallb (fun f => match f with TransactionExtraPadding _ | TransactionExtraPublicKey _ => false | _ => true end) fields.

Lemma extra_key extra r datas ttl ex : open_extra extra = true -> Forall (fun data => is_bytes data /\ small data) datas -> is_u64 ttl ->
  writeTransactionExtra extra (extra_fields (pub_of r) datas ttl) = Some ex ->
  getTransactionPublicKeyFromExtra ex = pub_of r /\ parseTransactionExtra ex = (true, (parseTransactionExtra extra).2 ++ extra_fields (pub_of r) datas ttl).
Proof.
  intros Ho Hd Ht Hw. unfold open_extra in Ho. destruct (parseTransactionExtra extra) as [[|] fs] eqn:Ep; [|done]. cbn [andb snd] in *. rewrite forallb_forall in Ho.
  assert (parseTransactionExtra ex = (true, fs ++ extra_fields (pub_of r) datas ttl)) as E.
  { apply (write_parse_behind extra); [exact Ep| | | |exact Hw].
    - apply Forall_forall. intros f Hf. apply list_elem_of_In, Ho in Hf. by destruct f.
    - constructor; [apply encode_pod, zmul_curve, B_curve|]. apply Forall_app; split; [by apply Forall_fmap|]. destruct (negb _); [constructor; [exact Ht|constructor]|constructor].
    - unfold extra_fields. split; [discriminate|]. clear Hw. induction Hd as [|data datas _ Hd IH]; cbn [fmap list_fmap app].
      + destruct (negb _); [|exact Logic.I]. split; [discriminate|exact Logic.I].
      + split; [discriminate|exact IH]. }
  split; [|exact E]. unfold getTransactionPublicKeyFromExtra. rewrite E. cbn [snd]. clear Ep E Hw.
  induction fs as [|f fs IH]; [reflexivity|]. cbn [app find_map]. assert (as_public_key f = None) as -> by (specialize (Ho f (or_introl eq_refl)); by destruct f).
  apply IH. intros f' Hf. apply Ho. by right.
Qed.

(** ** The transaction *)

Lemma source_money m sources : 0 <= m -> Forall (fun src => 0 <= src_amount src) sources -> is_u64 (m + sumZ (src_amount <$> sources)) ->
  foldl (fun m src => u64 (m + src_amount src)) m sources = m + sumZ (src_amount <$> sources).
Proof.
  intros Hm Hs. revert m Hm. induction Hs as [|src sources Hsrc Hs IH]; intros m Hm Hu; cbn [foldl fmap list_fmap sumZ foldr] in *; [lia|].
  fold (sumZ (src_amount <$> sources)) in *. assert (0 <= sumZ (src_amount <$> sources)) by (apply sumZ_nonneg, Forall_fmap; exact Hs).
  rewrite u64_id by (unfold is_u64 in *; lia). rewrite IH; unfold is_u64 in *; lia.
Qed.

Section construction.
Context (sort : list TransactionDestinationEntry -> list TransactionDestinationEntry)
  (keys : AccountKeys) (b a : Z) (Hkeys : account_ok keys b a)
  (sources : list TransactionSourceEntry) (destinations : list TransactionDestinationEntry) (messages : list tx_message_entry)
  (ttl : Z) (unlock_time : Z) (tmp : bytes) (random : list (list bytes)).

(** What the caller passes. *)
Record construction_ok : Prop := {
  ok_sort : sort destinations ≡ₚ destinations;
  ok_sources : Forall (source_ok keys) sources;
  ok_amounts : Forall (fun src => 0 <= src_amount src) sources;
  ok_destinations : Forall destination_ok destinations;
  ok_number : Z.of_nat (length destinations) < 2 ^ 64;
  ok_money : money destinations <= sumZ (src_amount <$> sources) < 2 ^ 64;
  ok_messages : Forall message_ok messages;
  ok_tmp : is_bytes tmp /\ length tmp = 64%nat;
  ok_random : random_for sources random
}.

Lemma money_permutation dsts dsts' : dsts ≡ₚ dsts' -> money dsts = money dsts'.
Proof. unfold money. induction 1; cbn [fmap list_fmap sumZ foldr] in *; unfold sumZ in *; lia. Qed.

(** The transaction, the secret [r] of its key, and the parts of it. *)
Lemma constructTransaction_ok extra : construction_ok -> exists tx sec r datas ex,
  constructTransaction sort keys sources destinations messages ttl extra unlock_time tmp random = Some (Some (tx, sec))
  /\ scalar sec r /\ generateDeterministicTransactionKeys_tx tx (viewSecretKey keys) = Some (Some (MkKeyPair (pub_of r) sec))
  /\ Forall3 (signed (getObjectHash serializeTransactionPrefix (prefix tx)).2) sources (inputs (prefix tx)) (signatures tx)
  /\ length (outputs (prefix tx)) = length destinations
  /\ (forall k dst out, sort destinations !! k = Some dst -> outputs (prefix tx) !! k = Some out -> pays (pub_of r) (Z.of_nat k) dst out)
  /\ Forall (fun data => is_bytes data /\ small data) datas
  /\ TransactionExtra.writeTransactionExtra extra (extra_fields (pub_of r) datas ttl) = Some ex /\ CryptoNote.extra (prefix tx) = ex.
Proof.
  intros [Hsort Hsrc Ham Hdst Hn Hmoney Hmsg [Ht Hlt] Hrnd].
  destruct (fill_inputs_ok keys b a Hkeys sources [] [] 0 Hsrc) as (ins & ctx & Ein & Hsp). cbn [app] in Ein.
  rewrite source_money in Ein; [|lia|exact Ham|pose proof (sumZ_nonneg (src_amount <$> sources)) as H0; rewrite Forall_fmap in H0; specialize (H0 Ham); unfold is_u64; lia].
  destruct (hash_to_scalar_ok (viewSecretKey keys ++ inputs_hash ins)) as [r Hr].
  set (sec := hash_to_scalar (viewSecretKey keys ++ inputs_hash ins)) in Hr.
  assert (generateDeterministicTransactionKeys (inputs_hash ins) (viewSecretKey keys) = Some (Some (MkKeyPair (pub_of r) sec))) as Ekeys
    by (unfold generateDeterministicTransactionKeys; cbv zeta; fold sec; rewrite (secret_key_to_public_key_ok sec r Hr), bind_some; reflexivity).
  assert (0 <= money destinations) as Hm0 by (apply sumZ_nonneg, Forall_fmap; eapply Forall_impl; [exact Hdst|]; intros d []; cbn; lia).
  destruct (fill_outputs_ok r sec Hr (sort destinations) 0 [] 0) as (outs & Eout & Hlen & Hpays);
    [by rewrite Hsort|rewrite Hsort; unfold is_u64; lia|lia|lia|rewrite (money_permutation _ _ Hsort); unfold is_u64; lia|].
  rewrite (money_permutation _ _ Hsort), Z.add_0_l in Eout. cbn [app] in Eout.
  destruct (add_messages_ok tmp r sec messages 0 (addTransactionPublicKeyToExtra extra (pub_of r)) Hr Ht Hlt Hmsg) as (datas & ex & Emsg & Hw & Hdatas).
  set (ex' := if negb (ttl =? 0) then appendTTLToExtra ex ttl else ex).
  set (pre := MkTransactionPrefix TRANSACTION_VERSION_1 unlock_time ins outs ex').
  destruct (sign_inputs_ok (getObjectHash serializeTransactionPrefix pre).2 sources ins ctx random Hsp Hrnd) as (sigs & Esig & Hsig).
  exists (MkTransaction pre sigs), sec, r, datas, ex'. split; [|split; [exact Hr|split; [exact Ekeys|split; [exact Hsig|split; [|split; [|split; [exact Hdatas|split; [|reflexivity]]]]]]]].
  - unfold constructTransaction. rewrite Ein, bind_some, attempt_some, Ekeys, bind_some, attempt_some. cbv zeta. cbn [publicKey].
    rewrite Eout, bind_some, attempt_some, (proj2 (Z.ltb_ge _ _)), Emsg, bind_some, attempt_some by lia. fold ex'. fold pre. rewrite Esig, bind_some. reflexivity.
  - cbn [prefix outputs pre]. rewrite Hlen. apply Permutation_length, Hsort.
  - cbn [prefix outputs pre]. intros k dst out Hk Ho. specialize (Hpays k dst out Hk Ho). by rewrite Z.add_0_l in Hpays.
  - unfold extra_fields. cbn [TransactionExtra.writeTransactionExtra write_field]. rewrite bind_some, write_extra_app, Hw, bind_some. unfold ex'. by destruct (negb _).
Qed.

End construction.

(** ** What the recipient finds *)

(** The outputs of the account among [outs], numbered from [i]. *)
Definition is_mine (acc : AccountKeys) (D : KeyDerivation) (jo : Z * TransactionOutput) : bool :=
  match target jo.2 with
  | OutKey k => bool_decide (is_out_to_acc acc k D jo.1 = Some true)
  | OutMultisignature _ => false
  end.

Definition numbered (i : Z) (outs : list TransactionOutput) : list (Z * TransactionOutput) := imap (fun k o => (i + Z.of_nat k, o)) outs.

Lemma numbered_cons i o outs : numbered i (o :: outs) = (i, o) :: numbered (i + 1) outs.
Proof.
  unfold numbered. cbn [imap]. rewrite Z.add_0_r. f_equal. apply imap_ext. intros k x _. cbn. f_equal. lia.
Qed.

Lemma is_out_total acc b a k D i : account_ok acc b a -> is_u64 i -> exists mine, is_out_to_acc acc k D i = Some mine.
Proof.
  intros Hacc Hi. destruct (derive_public_key_ok D i (zmul b B) Hi (zmul_curve b B B_curve)) as (Q & _ & E).
  unfold is_out_to_acc, isOutToKey. rewrite (account_address _ _ _ Hacc). cbn [spendPublicKey]. unfold pub_of. rewrite E, !bind_some. by eexists.
Qed.

Lemma lookup_loop_spec acc b a D outs i found total : account_ok acc b a -> 0 <= i -> is_u64 (i + Z.of_nat (length outs)) ->
  lookup_loop acc D outs i found total = Some (found ++ (filter (fun jo => is_mine acc D jo = true) (numbered i outs)).*1,
    foldl (fun m o => u64 (m + out_amount o)) total (filter (fun jo => is_mine acc D jo = true) (numbered i outs)).*2).
Proof.
  intros Hacc. revert i found total. induction outs as [|o outs IH]; intros i found total Hi Hu; [by rewrite app_nil_r|].
  cbn [length] in Hu. rewrite numbered_cons, filter_cons. cbn [lookup_loop].
  assert (exists mine : bool, (match target o with OutKey k => is_out_to_acc acc k D i | OutMultisignature _ => Some false end) = Some mine
    /\ is_mine acc D (i, o) = mine) as (mine & E & Em).
  { unfold is_mine. cbn [fst snd]. destruct (target o) as [k|]; [|by exists false].
    destruct (is_out_total acc b a k D i Hacc) as [mine E]; [unfold is_u64 in *; lia|]. exists mine. rewrite E. split; [reflexivity|]. by destruct mine. }
  rewrite E, bind_some, Em. destruct mine.
  - rewrite decide_True by reflexivity. rewrite IH by (unfold is_u64 in *; lia). cbn [fmap list_fmap foldl fst snd]. by rewrite <- app_assoc.
  - rewrite decide_False by discriminate. apply IH; unfold is_u64 in *; lia.
Qed.

(** The zero bytes that mean no key encode a point of order 4, so no multiple of the
    base point, which has odd order. *)
Definition null_point : point := Eval vm_compute in (if Z.even (value fe_sqrtm1 mod p) then value fe_sqrtm1 mod p else p - value fe_sqrtm1 mod p, 0).

Lemma null_point_curve : curve null_point.
Proof. split; [vm_compute; reflexivity|]. split; split; vm_compute; (reflexivity || discriminate). Qed.

Lemma null_point_order : zmul 4 null_point = neutral.
Proof.
  assert (denotes null_point null_point) as H1 by (split; [split; reflexivity|exact null_point_curve]).
  assert (denotes (0, p - 1) (padd null_point null_point)) as H2 by (eapply adds_ok_spec; [exact H1|exact H1|vm_compute; reflexivity]).
  assert (denotes (0, 1) (padd (padd null_point null_point) (padd null_point null_point))) as H4 by (eapply adds_ok_spec; [exact H2|exact H2|vm_compute; reflexivity]).
  change (zmul 4 null_point) with (padd (padd null_point null_point) (padd null_point null_point)).
  generalize dependent (padd (padd null_point null_point) (padd null_point null_point)). intros Q4 [E4 [_ R4]].
  symmetry. apply reduced_eq; [split; split; vm_compute; (reflexivity || discriminate)|assumption..].
Qed.

Lemma pub_not_null r : pub_of r <> NULL_KEY.
Proof.
  intros E. change NULL_KEY with (encode null_point) in E. apply encode_inj in E as E'; [|exact null_point_curve|apply zmul_curve, B_curve].
  assert (null_point = neutral) as En; [|discriminate En].
  apply (GroupOrder.coprime_orders l 4); [exact null_point_curve|apply GroupOrder.l_coprime; split; reflexivity| |exact null_point_order].
  rewrite <- E', <- zmul_mul, Z.mul_comm, zmul_mul, B_order, zmul_neutral by apply B_curve. reflexivity.
Qed.

Lemma numbered_lookup i outs k o : outs !! k = Some o -> (i + Z.of_nat k, o) ∈ numbered i outs.
Proof.
  intros Hk. apply list_elem_of_lookup. exists k. unfold numbered. by rewrite list_lookup_imap, Hk.
Qed.

Lemma found_mine acc R D j am key : generate_key_derivation R (viewSecretKey acc) = Some (Some D) ->
  is_out_to_acc_key acc (MkKeyOutput key) R j = Some true -> is_mine acc D (j, MkTransactionOutput am (OutKey (MkKeyOutput key))) = true.
Proof.
  intros ED E. unfold is_out_to_acc_key in E. rewrite ED, !bind_some in E. unfold is_mine. cbn [target fst snd]. rewrite E. reflexivity.
Qed.

Lemma lookup_acc_outs_spec acc b a tx R D : account_ok acc b a -> getTransactionPublicKeyFromExtra (extra (prefix tx)) = R -> R <> NULL_KEY ->
  generate_key_derivation R (viewSecretKey acc) = Some (Some D) -> is_u64 (Z.of_nat (length (outputs (prefix tx)))) ->
  let found := filter (fun jo => is_mine acc D jo = true) (numbered 0 (outputs (prefix tx))) in
  lookup_acc_outs acc tx = Some (Some (found.*1, foldl (fun m o => u64 (m + out_amount o)) 0 found.*2)).
Proof.
  intros Hacc ER HR ED Hu. cbv zeta. unfold lookup_acc_outs. cbv zeta. rewrite ER, bool_decide_eq_false_2 by exact HR.
  unfold lookup_acc_outs_key. rewrite ED, !bind_some. rewrite (lookup_loop_spec acc b a D) by (lia || assumption). reflexivity.
Qed.

(** ** Properties *)

(** C11: the encryption of messages.  What [tx_extra_message::encrypt] makes for a
    recipient, [tx_extra_message::decrypt] turns back into the message with the
    recipient's secret key and the public key of the transaction, whatever was in the
    cipher's buffer; without a recipient it needs no key. *)
Theorem message_roundtrip tmp tmp' index message r s addr rsec ssec : is_bytes tmp -> length tmp = 64%nat -> is_bytes tmp' -> length tmp' = 64%nat ->
  is_bytes message -> scalar rsec r -> scalar ssec s -> spendPublicKey addr = pub_of s ->
  (exists data, encrypt_message tmp index message (Some addr) (MkKeyPair (pub_of r) rsec) = Some (Some data)
    /\ decrypt_message tmp' index data (pub_of r) (Some ssec) = Some (Some message))
  /\ exists data, encrypt_message tmp index message None (MkKeyPair (pub_of r) rsec) = Some (Some data)
    /\ decrypt_message tmp' index data (pub_of r) None = Some (Some message).
Proof. apply message_roundtrip_ok. Qed.

Lemma small_scalar v : 0 <= v < 2 ^ 64 -> scalar (scalar_bytes v) v.
Proof. intros Hv. apply scalar_bytes_ok. split; [apply Hv|]. eapply Z.lt_trans; [apply Hv|reflexivity]. Qed.

Lemma message_roundtrip_witness : let addr := MkAccountPublicAddress (pub_of 7) (pub_of 9) in
  exists data, encrypt_message (replicate 64 170) 3 [104; 105] (Some addr) (MkKeyPair (pub_of 5) (scalar_bytes 5)) = Some (Some data)
    /\ decrypt_message (replicate 64 85) 3 data (pub_of 5) (Some (scalar_bytes 7)) = Some (Some [104; 105]).
Proof.
  refine (proj1 (message_roundtrip (replicate 64 170) (replicate 64 85) 3 [104; 105] 5 7 _ (scalar_bytes 5) (scalar_bytes 7) _ _ _ _ _ _ _ _));
    [bytes_compute|reflexivity|bytes_compute|reflexivity|bytes_compute|apply small_scalar; lia|apply small_scalar; lia|reflexivity].
Defined.

(** C6: construction of transactions.  For an account, sources it owns and rings of
    valid keys, destinations with valid addresses and positive amounts that the sources
    cover, messages and any random bytes, and whichever way [std::sort] orders equal
    amounts, [constructTransaction] fails no assertion and returns a transaction: every
    input spends its source, its key image passes the test of the domain and its ring
    signature is accepted for the hash of the prefix; the outputs pay the destinations
    in sorted order, and every recipient finds theirs with the view key; the key of the
    transaction can be computed again from its inputs. *)
Theorem constructTransaction_correct sort keys b a sources destinations messages ttl extra unlock_time tmp random : account_ok keys b a ->
  construction_ok sort keys sources destinations messages tmp random -> exists tx sec r,
  constructTransaction sort keys sources destinations messages ttl extra unlock_time tmp random = Some (Some (tx, sec))
  /\ scalar sec r /\ generateDeterministicTransactionKeys_tx tx (viewSecretKey keys) = Some (Some (MkKeyPair (pub_of r) sec))
  /\ Forall3 (signed (getObjectHash serializeTransactionPrefix (prefix tx)).2) sources (inputs (prefix tx)) (signatures tx)
  /\ length (outputs (prefix tx)) = length destinations
  /\ forall k dst out, sort destinations !! k = Some dst -> outputs (prefix tx) !! k = Some out -> pays (pub_of r) (Z.of_nat k) dst out.
Proof.
  intros Hkeys Hok. destruct (constructTransaction_ok sort keys b a Hkeys sources destinations messages ttl unlock_time tmp random extra Hok)
    as (tx & sec & r & datas & ex & H1 & H2 & H3 & H4 & H5 & H6 & _). exists tx, sec, r. split_and!; assumption.
Qed.

(** An account, a source it owns with a ring of two keys, and a payment. *)
Definition test_keys : AccountKeys := MkAccountKeys (MkAccountPublicAddress (pub_of 7) (pub_of 9)) (scalar_bytes 7) (scalar_bytes 9).
Definition test_payee : AccountKeys := MkAccountKeys (MkAccountPublicAddress (pub_of 3) (pub_of 4)) (scalar_bytes 3) (scalar_bytes 4).
Definition test_source (key : PublicKey) : TransactionSourceEntry := MkTransactionSourceEntry [(3, pub_of 11); (8, key)] 1 (pub_of 5) 0 100.
Definition test_destinations : list TransactionDestinationEntry :=
  [MkTransactionDestinationEntry 60 (address test_payee); MkTransactionDestinationEntry 30 (address test_keys)].
Definition test_messages : list tx_message_entry := [MkMessageEntry [104; 105] true (address test_payee)].
Definition cheaper (d d' : TransactionDestinationEntry) : Prop := dst_amount d <= dst_amount d'.
#[local] Instance cheaper_dec d d' : Decision (cheaper d d') := Z_le_dec (dst_amount d) (dst_amount d').
Definition test_sort : list TransactionDestinationEntry -> list TransactionDestinationEntry := merge_sort cheaper.

Lemma test_account : account_ok test_keys 7 9.
Proof. split; [apply small_scalar; lia|apply small_scalar; lia|reflexivity]. Qed.

Lemma test_payee_account : account_ok test_payee 3 4.
Proof. split; [apply small_scalar; lia|apply small_scalar; lia|reflexivity]. Qed.

Lemma test_source_owned : exists key, source_ok test_keys (test_source key).
Proof.
  destruct (generate_key_image_helper_ok test_keys 7 9 test_account (pub_of 5) 0 (pub_valid 5)) as (D & x & _ & _ & E1 & E2 & _); [unfold is_u64; lia|].
  exists (pub_of x). split; [apply pub_valid|unfold test_source, is_u64; cbn [realOutputIndexInTransaction]; lia|repeat constructor; apply pub_valid|].
  exists D, (pub_of x). split; [exact E1|]. split; [exact E2|reflexivity].
Qed.

Lemma test_construction key : source_ok test_keys (test_source key) ->
  construction_ok test_sort test_keys [test_source key] test_destinations test_messages (replicate 64 0) [replicate 4 (replicate 64 77)].
Proof.
  intros Hsrc. split; [apply merge_sort_Permutation|constructor; [exact Hsrc|constructor]|constructor; [unfold test_source; cbn [src_amount]; lia|constructor]|..].
  - constructor; [|constructor; [|constructor]]; (split; [reflexivity|apply pub_valid..]).
  - reflexivity.
  - unfold money, test_destinations, test_source. cbn. lia.
  - constructor; [|constructor]. split; [bytes_compute|]. split; [unfold max_size; cbn; lia|]. intros _. apply pub_valid.
  - split; [bytes_compute|reflexivity].
  - constructor; [|constructor]. split; [repeat constructor; (bytes_compute || reflexivity)|cbn; lia].
Qed.

Lemma constructTransaction_correct_witness : exists key tx sec, source_ok test_keys (test_source key)
  /\ constructTransaction test_sort test_keys [test_source key] test_destinations test_messages 0 [] 0 (replicate 64 0) [replicate 4 (replicate 64 77)] = Some (Some (tx, sec)).
Proof.
  destruct test_source_owned as [key Hkey].
  destruct (constructTransaction_correct test_sort test_keys 7 9 [test_source key] test_destinations test_messages 0 [] 0 (replicate 64 0) [replicate 4 (replicate 64 77)]
    test_account (test_construction key Hkey)) as (tx & sec & _ & E & _). exists key, tx, sec. split; [exact Hkey|exact E].
Defined.

(** C10: payments are found.  The account a constructed transaction pays finds it from
    the extra field alone: [lookup_acc_outs] reads the key of the transaction back from
    the extra, and returns the indexes of exactly the outputs that [is_out_to_acc]
    recognises, with the sum of their amounts; the outputs made for its address are
    among them.  The extra the transaction is made with, as with a payment identifier, is
    any that parses and holds neither padding nor another transaction key. *)
Theorem payment_found sort keys b a sources destinations messages ttl extra unlock_time tmp random acc b' a' : account_ok keys b a ->
  construction_ok sort keys sources destinations messages tmp random -> is_u64 ttl -> open_extra extra = true ->
  account_ok acc b' a' -> exists tx sec D found,
  constructTransaction sort keys sources destinations messages ttl extra unlock_time tmp random = Some (Some (tx, sec))
  /\ lookup_acc_outs acc tx = Some (Some (found.*1, foldl (fun m o => u64 (m + out_amount o)) 0 found.*2))
  /\ found = filter (fun jo => is_mine acc D jo = true) (numbered 0 (outputs (prefix tx)))
  /\ forall k dst out, sort destinations !! k = Some dst -> addr dst = address acc -> outputs (prefix tx) !! k = Some out ->
      (Z.of_nat k, out) ∈ found /\ out_amount out = dst_amount dst.
Proof.
  intros Hkeys Hok Httl Hopen Hacc. destruct (constructTransaction_ok sort keys b a Hkeys sources destinations messages ttl unlock_time tmp random extra Hok)
    as (tx & sec & r & datas & ex & Hc & Hr & _ & _ & Hlen & Hpays & Hd & Hw & Hex).
  destruct (derivations_agree _ a' sec r (account_view _ _ _ Hacc) Hr) as [_ ED]. generalize dependent (pub_of (8 * (a' * r))). intros D ED.
  destruct (extra_key extra r datas ttl ex Hopen Hd Httl Hw) as [Ekey _]. rewrite <- Hex in Ekey. pose proof (pub_not_null r) as HR.
  generalize dependent (pub_of r). intros R Hpays Hw ED Ekey HR. eexists tx, sec, D, _. split; [exact Hc|]. split; [|split; [reflexivity|]].
  - apply (lookup_acc_outs_spec acc b' a' tx R D Hacc Ekey HR ED). rewrite Hlen. pose proof (ok_number _ _ _ _ _ _ _ Hok). unfold is_u64. lia.
  - intros k dst out Hk Ha Ho. destruct (Hpays k dst out Hk Ho) as (key & -> & _ & Hfind). split; [|reflexivity].
    apply list_elem_of_filter. split; [|exact (numbered_lookup 0 (outputs (prefix tx)) k _ Ho)].
    exact (found_mine acc R D _ _ key ED (Hfind acc b' a' Hacc (eq_sym Ha))).
Qed.

(** A payment identifier. *)
Definition test_extra : bytes := TX_EXTRA_NONCE :: 33 :: TX_EXTRA_NONCE_PAYMENT_ID :: replicate 32 5.

Lemma payment_found_witness : exists key tx sec found, source_ok test_keys (test_source key)
  /\ constructTransaction test_sort test_keys [test_source key] test_destinations test_messages 20 test_extra 0 (replicate 64 0) [replicate 4 (replicate 64 77)] = Some (Some (tx, sec))
  /\ lookup_acc_outs test_payee tx = Some (Some found).
Proof.
  destruct test_source_owned as [key Hkey].
  destruct (payment_found test_sort test_keys 7 9 [test_source key] test_destinations test_messages 20 test_extra 0 (replicate 64 0) [replicate 4 (replicate 64 77)] test_payee 3 4
    test_account (test_construction key Hkey) ltac:(unfold is_u64; lia) eq_refl test_payee_account) as (tx & sec & D & found & E & El & _).
  exists key, tx, sec. eexists. split; [exact Hkey|]. split; [exact E|exact El].
Defined.

End ConstructTransaction.
