(* ===== verification/Acceptance.v ===== *)
(** The parts together: transactions made by [constructTransaction] pass the checks of
    the blockchain, with the cryptography of [Crypto] behind the interface
    [CryptoInterface.CryptoOps]. *)

From S2P Require Import Prelude.
From S2P Require Import Varint.
From S2P Require Import Serialization.
From S2P Require Import CryptoNote.
From S2P Require Import CryptoNoteSerialization.
From S2P Require Import CryptoNoteFormatUtils.
From S2P Require Import Currency.
From S2P Require Import Checkpoints.
From S2P Require Import BlockchainState.
From S2P Require Import CryptoInterface.
From S2P Require Import Blockchain.
From S2P Require Import PointCodec.
From S2P Require Import Crypto.
From S2P Require Import RingSignature.
From S2P Require Import ConstructTransaction.
Import CryptoNoteSerialization FormatUtils BlockchainState PointCodec CryptoInterface Config Blockchain ConstructTransaction.

Module Acceptance.

(** The functions of crypto.cpp as the operations the rules call; a call that aborts is
    not a success.  The proof-of-work hashes stay parameters. *)
Definition concealCrypto (slow_v0 fast_slow_v1 conceal_slow_v0 gpu_v0 : bytes -> Hash) : CryptoOps := {|
  CryptoInterface.check_key := Crypto.check_key;
  CryptoInterface.check_signature := fun prefix_hash pub sig => default false (Crypto.check_signature prefix_hash pub sig);
  CryptoInterface.check_ring_signature := fun prefix_hash image pubs sigs => default false (Crypto.check_ring_signature prefix_hash image pubs sigs);
  CryptoInterface.scalarmultKey := fun P a => default [] (Crypto.scalarmultKey P a);
  CryptoInterface.cn_slow_hash_v0 := slow_v0;
  CryptoInterface.cn_fast_slow_hash_v1 := fast_slow_v1;
  CryptoInterface.cn_conceal_slow_hash_v0 := conceal_slow_v0;
  CryptoInterface.cn_gpu_hash_v0 := gpu_v0
|}.

Section chain.
Context (c : Currency) (m_checkpoints : gmap Z Hash) (slow_v0 fast_slow_v1 conceal_slow_v0 gpu_v0 : bytes -> Hash).
Context (now : Z) (blocks : list BlockEntry) (s : ChainState).

#[local] Instance crypto : CryptoOps := concealCrypto slow_v0 fast_slow_v1 conceal_slow_v0 gpu_v0.

(** An entry of a ring is an unlocked output of the chain with that key. *)
Definition ring_output (vec : list (TransactionIndex * Z)) (entry : Z * PublicKey) : Prop :=
  exists ti k te out, vec !! Z.to_nat entry.1 = Some (ti, k) /\ transactionByIndex blocks ti = Some te
    /\ outputs (prefix (te_tx te)) !! Z.to_nat k = Some out /\ target out = OutKey (MkKeyOutput entry.2)
    /\ is_tx_spendtime_unlocked c now blocks (unlockTime (prefix (te_tx te))) = true.

Record on_chain (src : TransactionSourceEntry) : Prop := {
  chain_outputs : exists vec, m_outputs s !! src_amount src = Some vec /\ Forall (ring_output vec) (src_outputs src);
  chain_sorted : Sorted Z.le (src_outputs src).*1;
  chain_indexes : Forall is_u32 (src_outputs src).*1;
  chain_ring : src_outputs src <> [];
  chain_ring_size : UPGRADE_HEIGHT_V4 < getCurrentBlockchainHeight blocks < UPGRADE_HEIGHT_V5 -> (3 <= length (src_outputs src))%nat
}.

Lemma scan_loop_ok vec ring : Forall (ring_output vec) ring -> exists last, scan_loop c now blocks vec ring.*1 = Some (Some (ring.*2, last))
  /\ (0 < Z.of_nat (length blocks) -> last < Z.of_nat (length blocks)).
Proof.
  induction 1 as [|[i key] ring (ti & k & te & out & E1 & E2 & E3 & E4 & E5) _ (last & IH & Hlast)]; [by exists 0|].
  cbn [fmap list_fmap fst snd] in *. cbn [scan_loop]. rewrite E1, E2, bind_some, E3. unfold handle_output. rewrite E5, E4. cbn [negb ko_key].
  rewrite IH, bind_some. eexists. split; [reflexivity|]. intros Hb. destruct ring; [|by apply Hlast]. cbn [fmap list_fmap].
  unfold transactionByIndex in E2. apply bind_Some in E2 as (e & E2 & _). apply lookup_lt_Some in E2. lia.
Qed.

Lemma absolute_length off : length (relative_output_offsets_to_absolute off) = length off.
Proof.
  unfold relative_output_offsets_to_absolute. destruct off as [|x off]; [reflexivity|]. apply to_absolute_loop. cbn [length]. lia.
Qed.

(** The offsets of a sorted ring. *)
Lemma sorted_offsets off : Forall is_u32 off -> Sorted Z.le off ->
  relative_output_offsets_to_absolute (absolute_output_offsets_to_relative off) = off
  /\ length (absolute_output_offsets_to_relative off) = length off.
Proof.
  intros Hu Hs. pose proof (offsets_roundtrip off Hu) as E.
  assert (merge_sort Z.le off = off) as Em by (apply (Sorted_unique Z.le); [apply Sorted_merge_sort, _|exact Hs|apply merge_sort_Permutation]).
  rewrite Em in E. split; [exact E|]. apply (f_equal length) in E. by rewrite absolute_length in E.
Qed.

Lemma relative_nonempty src : on_chain src -> absolute_output_offsets_to_relative (src_outputs src).*1 <> [].
Proof.
  intros [_ Hsort Hu Hne _] E. destruct (sorted_offsets _ Hu Hsort) as [_ El]. rewrite E, length_fmap in El.
  destruct (src_outputs src); [by apply Hne|discriminate].
Qed.

Lemma check_tx_input_ok hash src input sigs m : on_chain src -> signed hash src (InKey input) sigs ->
  exists m', check_tx_input c m_checkpoints now blocks s input hash sigs m = Some (true, m') /\ (0 <= m < Z.of_nat (length blocks) -> 0 <= m' < Z.of_nat (length blocks)).
Proof.
  intros Hsrc (image & Ei & Ering & Edomain & Hlen). injection Ei as ->. pose proof (relative_nonempty src Hsrc) as Hne'.
  destruct Hsrc as [(vec & Ev & Hring) Hsort Hu Hne Hsize].
  destruct (sorted_offsets _ Hu Hsort) as [Eoff Eoffl]. destruct (scan_loop_ok vec _ Hring) as (last & Es & Hlast).
  unfold check_tx_input, scanOutputKeysForIndexes. cbn [ki_amount outputIndexes keyImage]. rewrite Ev, Eoff.
  rewrite (bool_decide_eq_false_2 _ Hne'), Es, !bind_some. exists (Z.max m last). split; [|lia]. f_equal. f_equal.
  rewrite Eoffl, !length_fmap, Hlen, Z.eqb_refl. cbn [negb].
  assert ((UPGRADE_HEIGHT_V4 <? getCurrentBlockchainHeight blocks) && (getCurrentBlockchainHeight blocks <? UPGRADE_HEIGHT_V5)
    && (Z.of_nat (length (src_outputs src)) <? 3) = false) as ->.
  { destruct (Z.ltb_spec UPGRADE_HEIGHT_V4 (getCurrentBlockchainHeight blocks)), (Z.ltb_spec (getCurrentBlockchainHeight blocks) UPGRADE_HEIGHT_V5); try reflexivity.
    cbn [andb]. apply Z.ltb_ge. specialize (Hsize ltac:(lia)). lia. }
  destruct (isInCheckpointZone _ _); [reflexivity|]. cbn [CryptoInterface.scalarmultKey CryptoInterface.check_ring_signature crypto concealCrypto].
  rewrite Edomain, Ering. cbn [default id]. by rewrite bool_decide_eq_true_2 by reflexivity.
Qed.

Lemma inputs_loop_accepts hash sources ins sigs m : Forall on_chain sources -> Forall3 (signed hash) sources ins sigs ->
  (forall input, InKey input ∈ ins -> have_tx_keyimg_as_spent s (keyImage input) = false) ->
  exists m', check_inputs_loop c m_checkpoints now blocks s hash ins sigs m = Some (true, m') /\ (0 <= m < Z.of_nat (length blocks) -> 0 <= m' < Z.of_nat (length blocks)).
Proof.
  intros Hc HF. revert m Hc. induction HF as [|src input sig sources ins sigs Hsig HF IH]; intros m Hc Hfresh; [by eexists|].
  apply Forall_cons in Hc as [Hsrc Hc]. pose proof Hsig as (image & -> & _). set (input := MkKeyInput _ _ image) in *.
  destruct (check_tx_input_ok hash src input sig m Hsrc Hsig) as (m1 & E & H1).
  destruct (IH m1 Hc) as (m2 & E2 & H2); [intros k Hk; apply Hfresh; by right|]. exists m2. cbn [check_inputs_loop head tail].
  rewrite bool_decide_eq_false_2, (Hfresh input), bind_some, E, bind_some by (try (by left); by apply relative_nonempty). auto.
Qed.

Lemma check_outs_ok error ver R outs dsts : length outs = length dsts -> Forall destination_ok dsts ->
  (forall k dst out, dsts !! k = Some dst -> outs !! k = Some out -> pays R (Z.of_nat k) dst out) -> check_outs_loop error ver outs = Some true.
Proof.
  intros Hl Hd Hp. assert (Forall (fun out => check_out_valid error ver out = Some true) outs) as HF.
  { apply Forall_lookup. intros k out Ho. destruct (lookup_lt_is_Some_2 dsts k) as [dst Hk]; [rewrite <- Hl; by eapply lookup_lt_Some|].
    destruct (Hp k dst out Hk Ho) as (key & -> & (P & HP & ->) & _). rewrite Forall_lookup in Hd. destruct (Hd k dst Hk) as [Ham _ _].
    unfold check_out_valid. cbn [target out_amount ko_key]. cbn [CryptoInterface.check_key crypto concealCrypto]. rewrite Crypto.check_key_ok by exact HP.
    destruct (Z.eqb_spec (dst_amount dst) 0); [lia|reflexivity]. }
  clear Hp Hl. induction HF as [|out outs E HF IH]; [reflexivity|]. cbn [check_outs_loop]. rewrite E, bind_some. exact IH.
Qed.

End chain.

(** C17: the chain accepts what [constructTransaction] makes.  For sources whose rings are
    unlocked outputs of the chain, in ascending order and large enough for the height, the
    constructed transaction passes [check_outs_valid], and [checkTransactionInputs] accepts
    it, whatever the proof-of-work hashes are, as long as its key images are not spent. *)
Theorem constructed_transaction_accepted slow_v0 fast_slow_v1 conceal_slow_v0 gpu_v0 c checkpoints now blocks s
    sort keys b a sources destinations messages ttl extra unlock_time tmp random : account_ok keys b a ->
  construction_ok sort keys sources destinations messages tmp random -> Forall (on_chain c now blocks s) sources -> exists tx sec,
  let crypto := concealCrypto slow_v0 fast_slow_v1 conceal_slow_v0 gpu_v0 in
  constructTransaction sort keys sources destinations messages ttl extra unlock_time tmp random = Some (Some (tx, sec))
  /\ check_outs_valid true (prefix tx) = Some true
  /\ ((forall input, InKey input ∈ inputs (prefix tx) -> have_tx_keyimg_as_spent s (keyImage input) = false) ->
      exists max_used_block_height, checkTransactionInputs c checkpoints now blocks s tx = Some (true, max_used_block_height)).
Proof.
  intros Hkeys Hok Hchain. destruct (constructTransaction_ok sort keys b a Hkeys sources destinations messages ttl unlock_time tmp random extra Hok)
    as (tx & sec & r & datas & ex & H1 & H2 & _ & H4 & H5 & H6 & _). exists tx, sec. cbv zeta. split; [exact H1|]. split.
  - apply (check_outs_ok slow_v0 fast_slow_v1 conceal_slow_v0 gpu_v0 true _ (Crypto.pub_of r) _ (sort destinations)); [|rewrite (ok_sort _ _ _ _ _ _ _ Hok); apply Hok|exact H6].
    by rewrite (ok_sort _ _ _ _ _ _ _ Hok).
  - intros Hfresh. destruct (inputs_loop_accepts c checkpoints slow_v0 fast_slow_v1 conceal_slow_v0 gpu_v0 now blocks s _ sources _ _ 0 Hchain H4 Hfresh) as (m & E & _). by exists m.
Qed.

(** A chain of one block, whose transaction has the two keys of the ring. *)
Definition test_block (key : PublicKey) : BlockEntry :=
  MkBlockEntry (MkBlock (MkBlockHeader 1 0 0 0 NULL_HASH) (MkTransaction (MkTransactionPrefix 1 0 [] [] []) []) []) 0 0 1 0
    [MkTransactionEntry (MkTransaction (MkTransactionPrefix 1 0 []
       [MkTransactionOutput 100 (OutKey (MkKeyOutput (Crypto.pub_of 11))); MkTransactionOutput 100 (OutKey (MkKeyOutput key))] []) []) []].

Definition test_state : ChainState :=
  MkChainState ∅ ∅ {[ 100 := replicate 8 (MkTransactionIndex 0 0, 0) ++ [(MkTransactionIndex 0 0, 1)] ]} ∅ [].

Lemma test_on_chain key : on_chain (CurrencyImpl.CurrencyBuilder false) 0 [test_block key] test_state (test_source key).
Proof.
  split.
  - eexists. split; [apply lookup_singleton_eq|]. repeat constructor; (eexists _, _, _, _; split_and!; reflexivity).
  - repeat constructor. cbn. lia.
  - repeat constructor; cbn; lia.
  - discriminate.
  - intros [H _]. change (getCurrentBlockchainHeight [test_block key]) with 1 in H. discriminate H.
Qed.

Lemma constructed_transaction_accepted_witness : exists key tx sec, let crypto := concealCrypto id id id id in
  constructTransaction test_sort test_keys [test_source key] test_destinations test_messages 0 [] 0 (replicate 64 0) [replicate 4 (replicate 64 77)] = Some (Some (tx, sec))
  /\ exists m, checkTransactionInputs (CurrencyImpl.CurrencyBuilder false) ∅ 0 [test_block key] test_state tx = Some (true, m).
Proof.
  destruct test_source_owned as [key Hkey].
  destruct (constructed_transaction_accepted id id id id (CurrencyImpl.CurrencyBuilder false) ∅ 0 [test_block key] test_state test_sort test_keys 7 9 [test_source key] test_destinations
    test_messages 0 [] 0 (replicate 64 0) [replicate 4 (replicate 64 77)] test_account (test_construction key Hkey)) as (tx & sec & E & _ & H);
    [constructor; [apply test_on_chain|constructor]|].
  exists key, tx, sec. split; [exact E|]. apply H. intros input _. reflexivity.
Defined.
End Acceptance.
