(* ===== verification/TransactionPool.v ===== *)
(** src/CryptoNoteCore/TransactionPool.cpp and TransactionPool.h: the transactions that
    wait for a block.  The container has two indexes, by hash and by priority: it is the
    list in the order of priority; where the code walks it in the order of the hash
    table, that order is an argument.  The checks of the blockchain are the interface
    [TransactionValidator] of ITransactionValidator.h, the clocks are arguments, and
    [None] is a failed assertion. *)

From S2P Require Import Prelude.
From S2P Require Import IntUtil.
From S2P Require Import Varint.
From S2P Require Import Serialization.
From S2P Require Import CryptoNote.
From S2P Require Import CryptoNoteSerialization.
From S2P Require Import CryptoNoteFormatUtils.
From S2P Require Import Float.
From S2P Require Import Currency.
From S2P Require Import TransactionExtra.
From S2P Require Import BlockchainIndices.
Import IntUtil BinarySerializer CryptoNoteSerialization FormatUtils TransactionExtra.

Record BlockInfo := MkBlockInfo { bi_height : Z; bi_id : Hash }.

Definition null_block : BlockInfo := MkBlockInfo 0 NULL_HASH.
Definition block_empty (b : BlockInfo) : bool := bool_decide (bi_id b = NULL_HASH).

(** [checkTransactionInputs] with one and with two blocks, which it updates. *)
Class TransactionValidator := {
  check_inputs : Transaction -> BlockInfo -> bool * BlockInfo;
  recheck_inputs : Transaction -> BlockInfo -> BlockInfo -> bool * BlockInfo * BlockInfo;
  haveSpentKeyImages : Transaction -> bool;
  checkTransactionSize : Z -> bool
}.

Module TimestampTransactionsIndex.
Abbreviation index := (list (Z * Hash)).

Definition add (timestamp : Z) (hash : Hash) (idx : index) : index := ordered_insert timestamp hash idx.

Definition remove (timestamp : Z) (hash : Hash) (idx : index) : bool * index :=
  match erase_first timestamp hash idx with
  | Some idx => (true, idx)
  | None => (false, idx)
  end.

(** The hashes and their number within the timestamps; [None] is [false] at once.  For
    an end of 0 and no match the first element is taken. *)
Definition find (timestampBegin timestampEnd hashesNumberLimit : Z) (idx : index) : option (bool * list Hash * Z) :=
  if timestampEnd <? timestampBegin then None
  else
    let b := partition_point (fun p => p.1 <? timestampBegin) idx in
    let e := partition_point (fun p => p.1 <=? timestampEnd) idx in
    let e := if (timestampEnd =? 0) && (e =? b)%nat && (b =? 0)%nat && (0 <? length idx)%nat then S e else e in
    let range := take (e - b) (drop b idx) in
    let hashes := take (Z.to_nat hashesNumberLimit) range.*2 in
    Some (negb (bool_decide (hashes = [])), hashes, u32 (Z.of_nat (length range))).
End TimestampTransactionsIndex.

Module TransactionPool.

Record TransactionDetails := MkTransactionDetails {
  maxUsedBlock : BlockInfo;
  lastFailedBlock : BlockInfo;
  td_id : Hash;
  td_tx : Transaction;
  blobSize : Z;
  td_fee : Z;
  keptByBlock : bool;
  receiveTime : Z
}.

Record tx_verification_context := MkTvc {
  m_should_be_relayed : bool;
  m_verification_failed : bool;
  m_verification_impossible : bool;
  m_added_to_pool : bool;
  m_tx_fee_too_small : bool
}.

(** [TransactionPriorityComparator]: whether [lhs] comes before [rhs]. *)
Definition priority (lhs rhs : TransactionDetails) : bool :=
  let '(lhs_hi, lhs_lo) := mul128 (td_fee lhs) (blobSize rhs) in
  let '(rhs_hi, rhs_lo) := mul128 (td_fee rhs) (blobSize lhs) in
  (rhs_hi <? lhs_hi)
  || ((lhs_hi =? rhs_hi) && (rhs_lo <? lhs_lo))
  || ((lhs_hi =? rhs_hi) && (lhs_lo =? rhs_lo) && (blobSize lhs <? blobSize rhs))
  || ((lhs_hi =? rhs_hi) && (lhs_lo =? rhs_lo) && (blobSize lhs =? blobSize rhs) && (receiveTime lhs <? receiveTime rhs)).

(** The spent key images, each with the transactions that spend it, and the spent
    multisignature outputs. *)
Abbreviation spent := (gmap KeyImage (gset Hash) * gset (Z * Z))%type.

Record tx_memory_pool := MkPool {
  m_transactions : list TransactionDetails;
  m_spent : spent;
  m_recentlyDeletedTransactions : gmap Hash Z;
  m_paymentIdIndex : PaymentIdIndex.index;
  m_timestampIndex : TimestampTransactionsIndex.index;
  m_ttlIndex : gmap Hash Z;
  m_lastWorkedTime : Z
}.

Definition empty_pool : tx_memory_pool := MkPool [] (∅, ∅) ∅ [] [] ∅ 0.

(** ** The inputs *)

(** One input of [addTransactionInputs]: whether to go on, and the sets. *)
Definition add_input (id : Hash) (kept : bool) (s : spent) (i : TransactionInput) : option (bool * spent) :=
  let '(images, outs) := s in
  match i with
  | InKey txin =>
      let kei_image_set := default ∅ (images !! keyImage txin) in
      if negb (kept || (size kei_image_set =? 0)%nat) then Some (false, (<[keyImage txin := kei_image_set]> images, outs))
      else if bool_decide (id ∈ kei_image_set) then Some (false, (<[keyImage txin := kei_image_set]> images, outs))
      else Some (true, (<[keyImage txin := {[id]} ∪ kei_image_set]> images, outs))
  | InMultisignature msig =>
      if kept then Some (true, s)
      else if bool_decide ((mi_amount msig, outputIndex msig) ∈ outs) then None
      else Some (true, (images, {[(mi_amount msig, outputIndex msig)]} ∪ outs))
  | InBase _ => Some (true, s)
  end.

Fixpoint addTransactionInputs (id : Hash) (ins : list TransactionInput) (kept : bool) (s : spent) : option (bool * spent) :=
  match ins with
  | [] => Some (true, s)
  | i :: ins =>
      '(go, s) ← add_input id kept s i;
      if go : bool then addTransactionInputs id ins kept s else Some (false, s)
  end.

Fixpoint haveSpentInputs (ins : list TransactionInput) (s : spent) : bool :=
  match ins with
  | [] => false
  | InKey tokey_in :: ins => if bool_decide (is_Some (s.1 !! keyImage tokey_in)) then true else haveSpentInputs ins s
  | InMultisignature msig :: ins => if bool_decide ((mi_amount msig, outputIndex msig) ∈ s.2) then true else haveSpentInputs ins s
  | InBase _ :: ins => haveSpentInputs ins s
  end.

Definition remove_input (id : Hash) (kept : bool) (s : spent) (i : TransactionInput) : option (bool * spent) :=
  let '(images, outs) := s in
  match i with
  | InKey txin =>
      match images !! keyImage txin with
      | None => Some (false, s)
      | Some key_image_set =>
          if (size key_image_set =? 0)%nat then Some (false, s)
          else if negb (bool_decide (id ∈ key_image_set)) then Some (false, s)
          else
            let key_image_set := key_image_set ∖ {[id]} in
            if (size key_image_set =? 0)%nat then Some (true, (delete (keyImage txin) images, outs))
            else Some (true, (<[keyImage txin := key_image_set]> images, outs))
      end
  | InMultisignature msig =>
      if kept then Some (true, s)
      else if bool_decide ((mi_amount msig, outputIndex msig) ∈ outs) then Some (true, (images, outs ∖ {[(mi_amount msig, outputIndex msig)]}))
      else None
  | InBase _ => Some (true, s)
  end.

Fixpoint removeTransactionInputs (id : Hash) (ins : list TransactionInput) (kept : bool) (s : spent) : option (bool * spent) :=
  match ins with
  | [] => Some (true, s)
  | i :: ins =>
      '(go, s) ← remove_input id kept s i;
      if go : bool then removeTransactionInputs id ins kept s else Some (false, s)
  end.

(** ** Transactions *)

Definition find_transaction (id : Hash) (txs : list TransactionDetails) : option TransactionDetails :=
  List.find (fun td => bool_decide (td_id td = id)) txs.

(** [m_transactions.insert]: nothing when the id is there, else the place is after the
    elements that the new one does not come before. *)
Definition insert_transaction (td : TransactionDetails) (txs : list TransactionDetails) : option (list TransactionDetails) :=
  match find_transaction (td_id td) txs with
  | Some _ => None
  | None =>
      let n := partition_point (fun e => negb (priority td e)) txs in
      Some (take n txs ++ td :: drop n txs)
  end.

Definition erase_transaction (id : Hash) (txs : list TransactionDetails) : list TransactionDetails :=
  filter (fun td => td_id td <> id) txs.

Definition as_ttl (f : TransactionExtraField) : option Z :=
  match f with TransactionExtraTTL ttl => Some ttl | _ => None end.

(** The time to live in the extra of a transaction, 0 when there is none. *)
Definition transaction_ttl (tx : Transaction) : Z := default 0 (find_map as_ttl (parseTransactionExtra (extra (prefix tx))).2).

(** What is left of a transaction after it was moved from. *)
Definition moved_from (tx : Transaction) : Transaction :=
  MkTransaction (MkTransactionPrefix (version (prefix tx)) (unlockTime (prefix tx)) [] [] []) [].

Section pool.
Context (c : Currency) (pow : Float.fl -> Float.fl -> Float.fl) `{TransactionValidator}.

Definition is_withdrawal (tx : Transaction) : bool :=
  existsb (fun i => match i with InMultisignature _ => true | _ => false end) (inputs (prefix tx)).

(** The checks on the time to live of a transaction that does not come from a block; [clock] is [time(nullptr)]. *)
Definition ttl_ok (clock : Z) (kept : bool) (ttl fee : Z) : bool :=
  if negb (ttl =? 0) && negb kept then
    if ttl <=? clock then false
    else if u64 (m_mempoolTxLiveTime c + m_blockFutureTimeLimit c) <? ttl - clock then false
    else (fee =? 0)
  else true.

(** The result, the verdict and the pool. *)
Definition add_tx (clock now : Z) (tx : Transaction) (id : Hash) (size : Z) (tvc : tx_verification_context) (kept : bool) (height : Z) (p : tx_memory_pool) :
    option (bool * tx_verification_context * tx_memory_pool) :=
  let failed := MkTvc (m_should_be_relayed tvc) true (m_verification_impossible tvc) (m_added_to_pool tvc) (m_tx_fee_too_small tvc) in
  if negb (check_inputs_types_supported (prefix tx)) then Some (false, failed, p)
  else
    let inputs_amount := CurrencyImpl.getTransactionAllInputsAmount c pow tx height in
    let outputs_amount := get_outs_money_amount tx in
    if inputs_amount <? outputs_amount then Some (false, failed, p)
    else
      let ttl := transaction_ttl tx in
      let fee := CurrencyImpl.getTransactionFee c pow tx height in
      let isFusionTransaction := (fee =? 0) && CurrencyImpl.isFusionAmounts c (getInputsAmounts tx) (out_amount <$> outputs (prefix tx)) size in
      if negb (ttl_ok clock kept ttl fee) then Some (false, failed, p)
      else if negb kept && haveSpentInputs (inputs (prefix tx)) (m_spent p) then Some (false, failed, p)
      else
        let '(inputsValid, used) := check_inputs tx null_block in
        if negb inputsValid && negb kept then Some (false, failed, p)
        else
          let used := if inputsValid then used else null_block in
          let impossible := if inputsValid then m_verification_impossible tvc else true in
          if negb kept && negb (checkTransactionSize size) then
            Some (false, MkTvc (m_should_be_relayed tvc) true impossible (m_added_to_pool tvc) (m_tx_fee_too_small tvc), p)
          else if negb kept && bool_decide (is_Some (m_recentlyDeletedTransactions p !! id)) then
            Some (true, MkTvc false false impossible false (m_tx_fee_too_small tvc), p)
          else
            match insert_transaction (MkTransactionDetails used null_block id tx size fee kept now) (m_transactions p) with
            | None => Some (false, MkTvc (m_should_be_relayed tvc) (m_verification_failed tvc) impossible (m_added_to_pool tvc) (m_tx_fee_too_small tvc), p)
            | Some txs =>
                let payments := (PaymentIdIndex.add (moved_from tx) (m_paymentIdIndex p)).2 in
                let timestamps := TimestampTransactionsIndex.add now id (m_timestampIndex p) in
                let ttls := if negb (ttl =? 0) then (if bool_decide (is_Some (m_ttlIndex p !! id)) then m_ttlIndex p else <[id := ttl]> (m_ttlIndex p)) else m_ttlIndex p in
                let relayed :=
                  if CurrencyImpl.upgradeHeight c BLOCK_MAJOR_VERSION_8 <=? height
                  then inputsValid && ((fee =? 1000) || isFusionTransaction || is_withdrawal tx || negb (ttl =? 0))
                  else inputsValid && ((0 <? fee) || isFusionTransaction || negb (ttl =? 0)) in
                '(ok, s) ← addTransactionInputs id (inputs (prefix tx)) kept (m_spent p);
                Some (ok, MkTvc relayed (negb ok) impossible true (m_tx_fee_too_small tvc),
                      MkPool txs s (m_recentlyDeletedTransactions p) payments timestamps ttls (m_lastWorkedTime p))
            end.

(** [add_tx] without the id: the hash and the size of the transaction. *)
Definition add_tx_object (clock now : Z) (tx : Transaction) (tvc : tx_verification_context) (kept : bool) (height : Z) (p : tx_memory_pool) :
    option (bool * tx_verification_context * tx_memory_pool) :=
  let h := (getObjectHash serializeTransaction tx).2 in
  let size := match toBinaryArray serializeTransaction tx with Some ba => Z.of_nat (length ba) | None => UINT64_MAX end in
  add_tx clock now tx h size tvc kept height p.

Definition removeTransaction (td : TransactionDetails) (p : tx_memory_pool) : option tx_memory_pool :=
  '(_, s) ← removeTransactionInputs (td_id td) (inputs (prefix (td_tx td))) (keptByBlock td) (m_spent p);
  Some (MkPool (erase_transaction (td_id td) (m_transactions p)) s (m_recentlyDeletedTransactions p)
    (PaymentIdIndex.remove (td_tx td) (m_paymentIdIndex p)).2
    (TimestampTransactionsIndex.remove (receiveTime td) (td_id td) (m_timestampIndex p)).2
    (delete (td_id td) (m_ttlIndex p)) (m_lastWorkedTime p)).

(** The transaction, its size and its fee; the inner [None] is [false]. *)
Definition take_tx (id : Hash) (p : tx_memory_pool) : option (option (Transaction * Z * Z) * tx_memory_pool) :=
  match find_transaction id (m_transactions p) with
  | None => Some (None, p)
  | Some td => p ← removeTransaction td p; Some (Some (td_tx td, blobSize td, td_fee td), p)
  end.

Definition getTransaction (id : Hash) (p : tx_memory_pool) : option Transaction := td_tx <$> find_transaction id (m_transactions p).
Definition have_tx (id : Hash) (p : tx_memory_pool) : bool := bool_decide (is_Some (find_transaction id (m_transactions p))).
Definition get_transactions_count (p : tx_memory_pool) : Z := Z.of_nat (length (m_transactions p)).

(** The second member of the result is the check information the call updates. *)
Definition is_transaction_ready_to_go (tx : Transaction) (used failed : BlockInfo) : bool :=
  let '(ok, _, _) := recheck_inputs tx used failed in
  if negb ok then false else negb (haveSpentKeyImages tx).

Definition ready (td : TransactionDetails) : bool := is_transaction_ready_to_go (td_tx td) (maxUsedBlock td) (lastFailedBlock td).

(** The new and the deleted ids, as sets. *)
Definition get_difference (known_tx_ids : list Hash) (p : tx_memory_pool) : gset Hash * gset Hash :=
  let ready_tx_ids : gset Hash := list_to_set (td_id <$> filter (fun td => ready td = true) (m_transactions p)) in
  let known_set : gset Hash := list_to_set known_tx_ids in
  (ready_tx_ids ∖ known_set, known_set ∖ ready_tx_ids).

(** ** Expiry *)

Definition expired (now : Z) (p : tx_memory_pool) (td : TransactionDetails) : bool :=
  let txAge := u64 (now - receiveTime td) in
  let remove := (if keptByBlock td then m_mempoolTxFromAltBlockLiveTime c else m_mempoolTxLiveTime c) <? txAge in
  let ttlExpired := match m_ttlIndex p !! td_id td with Some ttl => ttl <=? now | None => false end in
  remove || ttlExpired.

Definition remember_deleted (now : Z) (id : Hash) (p : tx_memory_pool) : tx_memory_pool :=
  MkPool (m_transactions p) (m_spent p)
    (if bool_decide (is_Some (m_recentlyDeletedTransactions p !! id)) then m_recentlyDeletedTransactions p else <[id := now]> (m_recentlyDeletedTransactions p))
    (m_paymentIdIndex p) (m_timestampIndex p) (m_ttlIndex p) (m_lastWorkedTime p).

(** The second loop, over the ids in the order of the hash table. *)
Fixpoint expire_loop (now : Z) (order : list Hash) (p : tx_memory_pool) : option tx_memory_pool :=
  match order with
  | [] => Some p
  | id :: order =>
      match find_transaction id (m_transactions p) with
      | Some td =>
          if expired now p td then p ← removeTransaction td (remember_deleted now id p); expire_loop now order p
          else expire_loop now order p
      | None => expire_loop now order p
      end
  end.

Definition forget_deleted (now : Z) (p : tx_memory_pool) : tx_memory_pool :=
  MkPool (m_transactions p) (m_spent p)
    (filter (fun kv => ~ (u64 (m_numberOfPeriodsToForgetTxDeletedFromPool c * m_mempoolTxLiveTime c) < u64 (now - kv.2))) (m_recentlyDeletedTransactions p))
    (m_paymentIdIndex p) (m_timestampIndex p) (m_ttlIndex p) (m_lastWorkedTime p).

Definition removeExpiredTransactions (now : Z) (order : list Hash) (p : tx_memory_pool) : option tx_memory_pool :=
  expire_loop now order (forget_deleted now p).

Definition set_lastWorkedTime (now : Z) (p : tx_memory_pool) : tx_memory_pool :=
  MkPool (m_transactions p) (m_spent p) (m_recentlyDeletedTransactions p) (m_paymentIdIndex p) (m_timestampIndex p) (m_ttlIndex p) now.

(** At most once in 60 seconds; the clock is read before, in and after the work. *)
Definition on_idle (now now1 now2 : Z) (order : list Hash) (p : tx_memory_pool) : option tx_memory_pool :=
  if 60 <? now - m_lastWorkedTime p then p ← removeExpiredTransactions now1 order p; Some (set_lastWorkedTime now2 p)
  else Some p.

(** ** Starting and stopping *)

Definition index_transaction (p : tx_memory_pool) (td : TransactionDetails) : tx_memory_pool :=
  let ttl := transaction_ttl (td_tx td) in
  MkPool (m_transactions p) (m_spent p) (m_recentlyDeletedTransactions p)
    (PaymentIdIndex.add (td_tx td) (m_paymentIdIndex p)).2
    (TimestampTransactionsIndex.add (receiveTime td) (td_id td) (m_timestampIndex p))
    (if negb (ttl =? 0) then (if bool_decide (is_Some (m_ttlIndex p !! td_id td)) then m_ttlIndex p else <[td_id td := ttl]> (m_ttlIndex p)) else m_ttlIndex p)
    (m_lastWorkedTime p).

Definition buildIndices (order : list Hash) (p : tx_memory_pool) : tx_memory_pool :=
  foldl index_transaction p (omap (fun id => find_transaction id (m_transactions p)) order).

(** What the file holds, if it exists and can be read. *)
Definition init (now : Z) (order : list Hash) (file : option (option (list TransactionDetails * spent * gmap Hash Z))) (p : tx_memory_pool) : option tx_memory_pool :=
  match file with
  | None => Some p
  | Some None => removeExpiredTransactions now order (MkPool [] (∅, ∅) (m_recentlyDeletedTransactions p) [] [] ∅ (m_lastWorkedTime p))
  | Some (Some (txs, s, deleted)) =>
      removeExpiredTransactions now order
        (buildIndices order (MkPool txs s deleted (m_paymentIdIndex p) (m_timestampIndex p) (m_ttlIndex p) (m_lastWorkedTime p)))
  end.

(** [deinit] after the file was written: the transactions, the sets and the deleted ids it holds. *)
Definition deinit (p : tx_memory_pool) : (list TransactionDetails * spent * gmap Hash Z) * tx_memory_pool :=
  ((m_transactions p, m_spent p, m_recentlyDeletedTransactions p),
   MkPool (m_transactions p) (m_spent p) (m_recentlyDeletedTransactions p) [] [] ∅ (m_lastWorkedTime p)).

(** ** Block templates *)

Record BlockTemplate := MkBlockTemplate { m_keyImages : gset KeyImage; m_usedOutputs : gset (Z * Z); m_txHashes : list Hash }.

Definition can_add_input (t : BlockTemplate) (i : TransactionInput) : bool :=
  match i with
  | InKey k => negb (bool_decide (keyImage k ∈ m_keyImages t))
  | InMultisignature msig => negb (bool_decide ((mi_amount msig, outputIndex msig) ∈ m_usedOutputs t))
  | InBase _ => true
  end.

Definition canAdd (tx : Transaction) (t : BlockTemplate) : bool := forallb (can_add_input t) (inputs (prefix tx)).

(** The loop that marks the inputs as used; [None] where an [insert] finds the element. *)
Fixpoint mark_used (ins : list TransactionInput) (t : BlockTemplate) : option BlockTemplate :=
  match ins with
  | [] => Some t
  | i :: ins =>
      if can_add_input t i then
        mark_used ins
          match i with
          | InKey k => MkBlockTemplate ({[keyImage k]} ∪ m_keyImages t) (m_usedOutputs t) (m_txHashes t)
          | InMultisignature msig => MkBlockTemplate (m_keyImages t) ({[(mi_amount msig, outputIndex msig)]} ∪ m_usedOutputs t) (m_txHashes t)
          | InBase _ => t
          end
      else None
  end.

Definition addTransaction (txid : Hash) (tx : Transaction) (t : BlockTemplate) : option (bool * BlockTemplate) :=
  if negb (canAdd tx t) then Some (false, t)
  else
    t ← mark_used (inputs (prefix tx)) t;
    Some (true, MkBlockTemplate (m_keyImages t) (m_usedOutputs t) (m_txHashes t ++ [txid])).

(** Whether the loop passes over a transaction before it looks at its inputs. *)
Definition skipped (p : tx_memory_pool) (height median_size max_total_size total_size : Z) (td : TransactionDetails) : bool :=
  bool_decide (is_Some (m_ttlIndex p !! td_id td))
  || (CurrencyImpl.getTransactionAllInputsAmount c pow (td_tx td) height <? get_outs_money_amount (td_tx td))
  || ((if td_fee td =? 0 then median_size else max_total_size) <? u64 (total_size + blobSize td)).

Fixpoint template_loop (p : tx_memory_pool) (height median_size max_total_size : Z) (txs : list TransactionDetails) (t : BlockTemplate) (total_size fee : Z) :
    option (BlockTemplate * Z * Z) :=
  match txs with
  | [] => Some (t, total_size, fee)
  | td :: txs =>
      if skipped p height median_size max_total_size total_size td then template_loop p height median_size max_total_size txs t total_size fee
      else if ready td then
        '(added, t) ← addTransaction (td_id td) (td_tx td) t;
        if added : bool then template_loop p height median_size max_total_size txs t (u64 (total_size + blobSize td)) (u64 (fee + td_fee td))
        else template_loop p height median_size max_total_size txs t total_size fee
      else template_loop p height median_size max_total_size txs t total_size fee
  end.

Definition template_limit (median_size maxCumulativeSize : Z) : Z :=
  Z.min (u64 (u64 (125 * median_size) / 100 - m_minerTxBlobReservedSize c)) maxCumulativeSize.

(** The hashes for the block, the total size and the fees. *)
Definition fill_block_template (median_size maxCumulativeSize height : Z) (p : tx_memory_pool) : option (list Hash * Z * Z) :=
  '(t, total_size, fee) ← template_loop p height median_size (template_limit median_size maxCumulativeSize) (m_transactions p) (MkBlockTemplate ∅ ∅ []) 0 0;
  Some (m_txHashes t, total_size, fee).

End pool.
End TransactionPool.
