(* ===== verification/TransactionPoolInvariant.v ===== *)
(** What the transaction pool keeps to: its sets and indexes are those of the
    transactions in it, whatever is added, taken and expired, and block templates are
    free of conflicts. *)

From S2P Require Import Prelude.
From S2P Require Import IntUtil.
From S2P Require Import CryptoNote.
From S2P Require Import CryptoNoteFormatUtils.
From S2P Require Import Float.
From S2P Require Import Currency.
From S2P Require Import TransactionExtra.
From S2P Require Import BlockchainIndices.
From S2P Require Import TransactionPool.
Import IntUtil FormatUtils TransactionExtra TransactionPool.

Module TransactionPoolInvariant.

(** ** Filters *)

Lemma list_filter_iff' {A} (P Q : A -> Prop) `{forall x, Decision (P x)} `{forall x, Decision (Q x)} (l : list A) : (forall x, x ∈ l -> P x <-> Q x) -> filter P l = filter Q l.
Proof.
  induction l as [|x l IH]; intros Hiff; [reflexivity|]. rewrite !filter_cons, IH by (intros y Hy; apply Hiff; by right).
  pose proof (Hiff x ltac:(by left)). destruct (decide (P x)), (decide (Q x)); tauto.
Qed.

Lemma list_filter_all {A} (P : A -> Prop) `{forall x, Decision (P x)} (l : list A) : (forall x, x ∈ l -> P x) -> filter P l = l.
Proof.
  induction l as [|x l IH]; intros HP; [reflexivity|]. rewrite filter_cons_True by (apply HP; by left). f_equal. apply IH. intros y Hy. apply HP. by right.
Qed.

(** ** The order of priority *)

Record details_ok (td : TransactionDetails) : Prop := {
  details_fee : is_u64 (td_fee td);
  details_size : 0 < blobSize td < 2 ^ 64
}.

(** The price per byte first, then the smaller, then the older. *)
Definition before (a b : TransactionDetails) : Prop :=
  td_fee b * blobSize a < td_fee a * blobSize b
  \/ td_fee a * blobSize b = td_fee b * blobSize a /\ (blobSize a < blobSize b \/ blobSize a = blobSize b /\ receiveTime a < receiveTime b).

Lemma priority_spec a b : details_ok a -> details_ok b -> priority a b = true <-> before a b.
Proof.
  intros [Fa Sa] [Fb Sb]. unfold priority, before.
  assert (is_u64 (blobSize a) /\ is_u64 (blobSize b)) as [Ua Ub] by (unfold is_u64; lia).
  rewrite (mul128_spec (td_fee a) (blobSize b) Fa Ub), (mul128_spec (td_fee b) (blobSize a) Fb Ua).
  generalize (td_fee a * blobSize b) (td_fee b * blobSize a). intros x y.
  pose proof (Z.div_mod x (2 ^ 64) ltac:(lia)). pose proof (Z.div_mod y (2 ^ 64) ltac:(lia)).
  pose proof (Z.mod_pos_bound x (2 ^ 64) ltac:(lia)). pose proof (Z.mod_pos_bound y (2 ^ 64) ltac:(lia)).
  rewrite !orb_true_iff, !andb_true_iff, !Z.ltb_lt, !Z.eqb_eq. lia.
Qed.

Lemma before_irreflexive a : ~ before a a.
Proof. unfold before. lia. Qed.

Lemma before_transitive a b c : details_ok a -> details_ok b -> details_ok c -> before a b -> before b c -> before a c.
Proof.
  intros [Fa Sa] [Fb Sb] [Fc Sc]. unfold before, is_u64 in *.
  generalize dependent (td_fee a). generalize dependent (td_fee b). generalize dependent (td_fee c).
  generalize dependent (blobSize a). generalize dependent (blobSize b). generalize dependent (blobSize c). intros sc Hsc sb Hsb sa Hsa fc Hfc fb Hfb fa Hfa.
  assert (forall x y, x * sb < y * sb -> x < y) as Hlt by (intros x y; apply Z.mul_lt_mono_pos_r; lia).
  assert (forall x y, x * sb = y * sb -> x = y) as Heq by (intros x y; apply Z.mul_reg_r; lia).
  intros [H1|[H1 H1']] [H2|[H2 H2']].
  - left. apply Hlt. nia.
  - left. apply Hlt. nia.
  - left. apply Hlt. nia.
  - right. split; [apply Heq; nia|lia].
Qed.

(** Not [before] is transitive too: the order of the index is a strict weak order. *)
Lemma incomparable_transitive a b c : details_ok a -> details_ok b -> details_ok c -> ~ before a b -> ~ before b a -> ~ before b c -> ~ before c b ->
  ~ before a c /\ ~ before c a.
Proof.
  intros [Fa Sa] [Fb Sb] [Fc Sc]. unfold before, is_u64 in *. intros H1 H2 H3 H4.
  assert (td_fee a * blobSize b = td_fee b * blobSize a /\ blobSize a = blobSize b /\ receiveTime a = receiveTime b) as (E1 & E2 & E3) by lia.
  assert (td_fee b * blobSize c = td_fee c * blobSize b /\ blobSize b = blobSize c /\ receiveTime b = receiveTime c) as (E4 & E5 & E6) by lia.
  rewrite <- E5, E3, E6, E2 in *. assert (td_fee a = td_fee b) by nia. assert (td_fee b = td_fee c) by nia. lia.
Qed.

(** ** The sets of spent inputs *)

Definition key_images (ins : list TransactionInput) : list KeyImage := omap (fun i => match i with InKey k => Some (keyImage k) | _ => None end) ins.
Definition multisignature_outputs (ins : list TransactionInput) : list (Z * Z) :=
  omap (fun i => match i with InMultisignature m => Some (mi_amount m, outputIndex m) | _ => None end) ins.

(** No input twice: what [check_tx_semantic] tests before the pool is asked. *)
Definition distinct_inputs (ins : list TransactionInput) : Prop := NoDup (key_images ins) /\ NoDup (multisignature_outputs ins).

Lemma distinct_tail i ins : distinct_inputs (i :: ins) -> distinct_inputs ins.
Proof. intros [H1 H2]. destruct i; cbn in *; split; try done; by eapply NoDup_cons_1_2. Qed.

Lemma addTransactionInputs_ok id ins kept s : distinct_inputs ins ->
  (forall k, k ∈ key_images ins -> if kept : bool then id ∉ default ∅ (s.1 !! k) else default ∅ (s.1 !! k) = (∅ : gset Hash)) ->
  (kept = false -> forall o, o ∈ multisignature_outputs ins -> o ∉ s.2) ->
  exists s', addTransactionInputs id ins kept s = Some (true, s')
    /\ (forall k, s'.1 !! k = if decide (k ∈ key_images ins) then Some ({[id]} ∪ default ∅ (s.1 !! k)) else s.1 !! k)
    /\ s'.2 = if kept then s.2 else list_to_set (multisignature_outputs ins) ∪ s.2.
Proof.
  revert s. induction ins as [|i ins IH]; intros [images outs] Hd Hk Ho.
  { exists (images, outs). split; [reflexivity|]. split; [|by destruct kept; [|cbn; set_solver]]. intros k. by rewrite decide_False by apply not_elem_of_nil. }
  pose proof (distinct_tail i ins Hd) as Hd'. destruct i as [base|txin|msig]; cbn [addTransactionInputs add_input].
  - apply (IH (images, outs) Hd' Hk Ho).
  - destruct Hd as [Hd _]. cbn in Hd. apply NoDup_cons in Hd as [Hn _]. set (k0 := keyImage txin) in *. set (set0 := default ∅ (images !! k0)) in *.
    assert (Hk0 := Hk k0 ltac:(by left)). cbn [fst] in Hk0. fold set0 in Hk0.
    assert (negb (kept || (size set0 =? 0)%nat) = false) as -> by (destruct kept; [reflexivity|by rewrite Hk0]).
    rewrite bool_decide_eq_false_2 by (destruct kept; [exact Hk0|rewrite Hk0; apply not_elem_of_empty]). cbn [mbind option_bind].
    destruct (IH (<[k0 := {[id]} ∪ set0]> images, outs) Hd') as (s' & E & H1 & H2).
    + intros k Hin. cbn [fst]. rewrite lookup_insert_ne by (intros ->; done). apply (Hk k). by right.
    + exact Ho.
    + exists s'. split; [exact E|]. split; [|exact H2]. intros k. rewrite H1. cbn [fst]. destruct (decide (k = k0)) as [->|Hne].
      * rewrite decide_False by exact Hn. rewrite lookup_insert_eq. by rewrite decide_True by by left.
      * rewrite lookup_insert_ne by done. destruct (decide (k ∈ key_images ins)); [by rewrite decide_True by by right|].
        by rewrite decide_False by (intros [|]%elem_of_cons; done).
  - destruct kept; [apply (IH (images, outs) Hd' Hk); discriminate|]. destruct Hd as [_ Hd]. cbn in Hd. apply NoDup_cons in Hd as [Hn _]. set (o0 := (mi_amount msig, outputIndex msig)) in *.
    rewrite bool_decide_eq_false_2 by (apply (Ho eq_refl); by left). cbn [mbind option_bind].
    destruct (IH (images, {[o0]} ∪ outs) Hd') as (s' & E & H1 & H2).
    + exact Hk.
    + intros _ o Hin. cbn [snd]. rewrite not_elem_of_union, not_elem_of_singleton. split; [intros ->; done|]. apply (Ho eq_refl). by right.
    + exists s'. split; [exact E|]. split; [exact H1|]. rewrite H2. clear. cbn. set_solver.
Qed.

(** What is left of a set after an element is removed. *)
Definition remaining (set : gset Hash) : option (gset Hash) := if decide (set = ∅) then None else Some set.

Lemma removeTransactionInputs_ok id ins kept s : distinct_inputs ins ->
  (forall k, k ∈ key_images ins -> id ∈ (default ∅ (s.1 !! k) : gset Hash)) -> (kept = false -> forall o, o ∈ multisignature_outputs ins -> o ∈ s.2) ->
  exists s', removeTransactionInputs id ins kept s = Some (true, s')
    /\ (forall k, s'.1 !! k = if decide (k ∈ key_images ins) then remaining (default ∅ (s.1 !! k) ∖ {[id]}) else s.1 !! k)
    /\ s'.2 = if kept then s.2 else s.2 ∖ list_to_set (multisignature_outputs ins).
Proof.
  revert s. induction ins as [|i ins IH]; intros [images outs] Hd Hk Ho.
  { exists (images, outs). split; [reflexivity|]. split; [|by destruct kept; [|cbn; set_solver]]. intros k. by rewrite decide_False by apply not_elem_of_nil. }
  pose proof (distinct_tail i ins Hd) as Hd'. destruct i as [base|txin|msig]; cbn [removeTransactionInputs remove_input].
  - apply (IH (images, outs) Hd' Hk Ho).
  - destruct Hd as [Hd _]. cbn in Hd. apply NoDup_cons in Hd as [Hn _]. set (k0 := keyImage txin) in *.
    assert (Hk0 := Hk k0 ltac:(by left)). cbn [fst] in Hk0. destruct (images !! k0) as [set0|] eqn:E0; [|by apply not_elem_of_empty in Hk0]. change (default ∅ (Some set0)) with set0 in Hk0.
    assert ((size set0 =? 0)%nat = false) as -> by (apply Nat.eqb_neq; intros Hs%size_empty_inv; set_solver).
    rewrite bool_decide_eq_true_2 by exact Hk0. cbn [negb].
    set (images' := if (size (set0 ∖ {[id]}) =? 0)%nat then delete k0 images else <[k0 := set0 ∖ {[id]}]> images).
    assert ((if (size (set0 ∖ {[id]}) =? 0)%nat then Some (true, (delete k0 images, outs)) else Some (true, (<[k0 := set0 ∖ {[id]}]> images, outs)))
      = Some (true, (images', outs))) as -> by (unfold images'; by destruct (_ =? _)%nat). cbn [mbind option_bind].
    assert (images' !! k0 = remaining (set0 ∖ {[id]})) as E1.
    { unfold images', remaining. destruct (Nat.eqb_spec (size (set0 ∖ {[id]})) 0) as [Hs|Hs].
      - rewrite lookup_delete_eq. apply size_empty_inv in Hs. rewrite decide_True; [done|set_solver].
      - rewrite lookup_insert_eq, decide_False; [done|]. intros E. apply Hs. by rewrite E, size_empty. }
    assert (forall k, k <> k0 -> images' !! k = images !! k) as E2.
    { intros k Hne. unfold images'. destruct (_ =? _)%nat; [by rewrite lookup_delete_ne|by rewrite lookup_insert_ne]. }
    destruct (IH (images', outs) Hd') as (s' & E & H1 & H2).
    + intros k Hin. cbn [fst]. rewrite E2 by (intros ->; done). apply (Hk k). by right.
    + exact Ho.
    + exists s'. split; [exact E|]. split; [|exact H2]. intros k. rewrite H1. cbn [fst]. destruct (decide (k = k0)) as [->|Hne].
      * rewrite decide_False by exact Hn. rewrite E1. rewrite decide_True by by left. by rewrite E0.
      * rewrite E2 by done. destruct (decide (k ∈ key_images ins)); [by rewrite decide_True by by right|].
        by rewrite decide_False by (intros [|]%elem_of_cons; done).
  - destruct kept; [apply (IH (images, outs) Hd' Hk); discriminate|]. destruct Hd as [_ Hd]. cbn in Hd. apply NoDup_cons in Hd as [Hn _]. set (o0 := (mi_amount msig, outputIndex msig)) in *.
    rewrite bool_decide_eq_true_2 by (apply (Ho eq_refl); by left). cbn [mbind option_bind].
    destruct (IH (images, outs ∖ {[o0]}) Hd') as (s' & E & H1 & H2).
    + exact Hk.
    + intros _ o Hin. cbn [snd]. apply elem_of_difference. split; [apply (Ho eq_refl); by right|]. rewrite not_elem_of_singleton. intros ->. done.
    + exists s'. split; [exact E|]. split; [exact H1|]. rewrite H2. clear. cbn. set_solver.
Qed.

Lemma haveSpentInputs_false ins s : haveSpentInputs ins s = false ->
  (forall k, k ∈ key_images ins -> s.1 !! k = None) /\ (forall o, o ∈ multisignature_outputs ins -> o ∉ s.2).
Proof.
  induction ins as [|[base|txin|msig] ins IH]; cbn [haveSpentInputs key_images multisignature_outputs omap list_omap]; intros Hs; [split; intros ? []%elem_of_nil|by apply IH|..].
  - destruct (bool_decide_reflect (is_Some (s.1 !! keyImage txin))) as [|Hn]; [done|]. destruct (IH Hs) as [H1 H2]. split; [|exact H2].
    intros k [->|Hk]%elem_of_cons; [by apply eq_None_not_Some|by apply H1].
  - destruct (bool_decide_reflect ((mi_amount msig, outputIndex msig) ∈ s.2)) as [|Hn]; [done|]. destruct (IH Hs) as [H1 H2]. split; [exact H1|].
    intros o [->|Ho]%elem_of_cons; [exact Hn|by apply H2].
Qed.

(** ** The invariant *)

Definition td_inputs (td : TransactionDetails) : list TransactionInput := inputs (prefix (td_tx td)).

(** The transactions that spend a key image. *)
Definition spenders (txs : list TransactionDetails) (k : KeyImage) : gset Hash :=
  list_to_set (td_id <$> filter (fun td => k ∈ key_images (td_inputs td)) txs).

(** The outputs spent by transactions that do not come from a block. *)
Definition used_outputs (txs : list TransactionDetails) : gset (Z * Z) :=
  list_to_set (filter (fun td => keptByBlock td = false) txs ≫= fun td => multisignature_outputs (td_inputs td)).

Definition ttl_of (td : TransactionDetails) : option Z :=
  let ttl := transaction_ttl (td_tx td) in if ttl =? 0 then None else Some ttl.

Definition free_of_conflict (td td' : TransactionDetails) : Prop :=
  (forall k, k ∈ key_images (td_inputs td) -> k ∉ key_images (td_inputs td'))
  /\ (forall o, o ∈ multisignature_outputs (td_inputs td) -> o ∉ multisignature_outputs (td_inputs td')).

Record pool_ok (p : tx_memory_pool) : Prop := {
  pool_details : Forall details_ok (m_transactions p);
  pool_distinct : Forall (fun td => distinct_inputs (td_inputs td)) (m_transactions p);
  pool_ids : NoDup (td_id <$> m_transactions p);
  pool_sorted : StronglySorted (fun a b => ~ before b a) (m_transactions p);
  pool_images : forall k, (m_spent p).1 !! k = remaining (spenders (m_transactions p) k);
  pool_outputs : (m_spent p).2 = used_outputs (m_transactions p);
  pool_exclusive : forall td td', td ∈ m_transactions p -> td' ∈ m_transactions p -> keptByBlock td = false -> keptByBlock td' = false ->
    td_id td <> td_id td' -> free_of_conflict td td';
  pool_ttls : forall id, m_ttlIndex p !! id = (find_transaction id (m_transactions p) ≫= ttl_of);
  pool_timestamps : m_timestampIndex p ≡ₚ (fun td => (receiveTime td, td_id td)) <$> m_transactions p
}.

Lemma elem_of_spenders txs k id : id ∈ spenders txs k <-> exists td, td ∈ txs /\ td_id td = id /\ k ∈ key_images (td_inputs td).
Proof.
  unfold spenders. rewrite elem_of_list_to_set, list_elem_of_fmap. split.
  - intros (td & -> & [Hk Hin]%list_elem_of_filter). by exists td.
  - intros (td & Hin & <- & Hk). exists td. split; [done|]. by apply list_elem_of_filter.
Qed.

Lemma elem_of_used txs o : o ∈ used_outputs txs <-> exists td, td ∈ txs /\ keptByBlock td = false /\ o ∈ multisignature_outputs (td_inputs td).
Proof.
  unfold used_outputs. rewrite elem_of_list_to_set, list_elem_of_bind. split.
  - intros (td & Ho & [Hk Hin]%list_elem_of_filter). by exists td.
  - intros (td & Hin & Hk & Ho). exists td. split; [done|]. by apply list_elem_of_filter.
Qed.

Lemma find_transaction_Some id txs td : find_transaction id txs = Some td -> td ∈ txs /\ td_id td = id.
Proof. intros [Hin Hb]%find_some. split; [by apply list_elem_of_In|by apply bool_decide_eq_true in Hb]. Qed.

Lemma find_transaction_None id txs : find_transaction id txs = None -> forall td, td ∈ txs -> td_id td <> id.
Proof. intros Hf td Hin%list_elem_of_In. by apply (find_none _ _ Hf), bool_decide_eq_false in Hin. Qed.

Lemma find_transaction_iff txs td : NoDup (td_id <$> txs) -> td ∈ txs -> find_transaction (td_id td) txs = Some td.
Proof.
  intros Hn Hin. destruct (find_transaction (td_id td) txs) as [td'|] eqn:E; [|by destruct (find_transaction_None _ _ E td Hin)].
  apply find_transaction_Some in E as [Hin' E]. f_equal. apply list_elem_of_lookup in Hin as [i Hi], Hin' as [j Hj].
  assert (i = j) as <- by (eapply NoDup_lookup; [exact Hn|by rewrite list_lookup_fmap, Hi|by rewrite list_lookup_fmap, Hj; cbn; rewrite E]). congruence.
Qed.

Lemma find_transaction_perm id txs txs' : txs ≡ₚ txs' -> NoDup (td_id <$> txs) -> find_transaction id txs = find_transaction id txs'.
Proof.
  intros Hp Hn. assert (Hn' : NoDup (td_id <$> txs')) by by rewrite <- Hp.
  destruct (find_transaction id txs) as [td|] eqn:E.
  - apply find_transaction_Some in E as [Hin <-]. symmetry. apply find_transaction_iff; [exact Hn'|by rewrite <- Hp].
  - destruct (find_transaction id txs') as [td|] eqn:E'; [|reflexivity]. apply find_transaction_Some in E' as [Hin <-]. rewrite <- Hp in Hin.
    by destruct (find_transaction_None _ _ E td Hin).
Qed.

Lemma same_transaction txs td td' : NoDup (td_id <$> txs) -> td ∈ txs -> td' ∈ txs -> td_id td = td_id td' -> td = td'.
Proof. intros Hn Hin Hin' E. pose proof (find_transaction_iff _ _ Hn Hin) as F. rewrite E, (find_transaction_iff _ _ Hn Hin') in F. congruence. Qed.

(** Equal sets give equal entries. *)
Lemma remaining_spenders txs k set : (forall id, id ∈ set <-> exists td, td ∈ txs /\ td_id td = id /\ k ∈ key_images (td_inputs td)) ->
  remaining (spenders txs k) = remaining set.
Proof. intros Hs. f_equal. apply set_eq. intros id. by rewrite elem_of_spenders, Hs. Qed.

(** ** Adding *)

Lemma sorted_insert td txs : details_ok td -> Forall details_ok txs -> StronglySorted (fun a b => ~ before b a) txs ->
  let n := partition_point (fun e => negb (priority td e)) txs in StronglySorted (fun a b => ~ before b a) (take n txs ++ td :: drop n txs).
Proof.
  intros Htd Hok Hs. cbv zeta. induction Hs as [|e txs Hs IH He]; [repeat constructor|]. apply Forall_cons in Hok as [Heok Hok]. cbn [partition_point].
  destruct (priority td e) eqn:Ep; cbn [negb take drop app].
  - apply priority_spec in Ep; [|done..]. constructor; [by constructor|]. constructor.
    + intros Hb. apply (before_irreflexive e). by apply (before_transitive e td e).
    + rewrite Forall_forall in *. intros e' Hin Hb. apply (He e' Hin). apply (before_transitive e' td e); auto.
  - constructor; [by apply IH|]. apply Forall_app. split; [by apply Forall_take|]. constructor; [|by apply Forall_drop].
    intros Hb. apply priority_spec in Hb; [congruence|done..].
Qed.

Lemma insert_transaction_ok td txs txs' : insert_transaction td txs = Some txs' ->
  find_transaction (td_id td) txs = None /\ txs' ≡ₚ td :: txs
  /\ (details_ok td -> Forall details_ok txs -> StronglySorted (fun a b => ~ before b a) txs -> StronglySorted (fun a b => ~ before b a) txs').
Proof.
  unfold insert_transaction. destruct (find_transaction (td_id td) txs) eqn:E; [done|]. intros H. apply (inj Some) in H as <-. split; [done|].
  split; [rewrite <- Permutation_middle, take_drop; done|]. intros. by apply sorted_insert.
Qed.

Lemma spenders_insert td txs txs' k : txs' ≡ₚ td :: txs ->
  remaining (spenders txs' k) = remaining (if decide (k ∈ key_images (td_inputs td)) then {[td_id td]} ∪ spenders txs k else spenders txs k).
Proof.
  intros Hp. apply remaining_spenders. intros id. setoid_rewrite Hp. setoid_rewrite elem_of_cons. destruct (decide _) as [Hk|Hk].
  - rewrite elem_of_union, elem_of_singleton, elem_of_spenders. naive_solver.
  - rewrite elem_of_spenders. naive_solver.
Qed.

Lemma used_insert td txs txs' : txs' ≡ₚ td :: txs ->
  used_outputs txs' = if keptByBlock td then used_outputs txs else list_to_set (multisignature_outputs (td_inputs td)) ∪ used_outputs txs.
Proof.
  intros Hp. apply set_eq. intros o. rewrite elem_of_used. setoid_rewrite Hp. setoid_rewrite elem_of_cons. destruct (keptByBlock td) eqn:Hk.
  - rewrite elem_of_used. split; [intros (td' & [->|Hin] & H1 & H2); [congruence|by exists td']|intros (td' & Hin & H1 & H2); exists td'; auto].
  - rewrite elem_of_union, elem_of_used, elem_of_list_to_set. naive_solver.
Qed.

Lemma spent_default p k : pool_ok p -> default ∅ ((m_spent p).1 !! k) = spenders (m_transactions p) k.
Proof. intros Hp. rewrite (pool_images p Hp). unfold remaining. by destruct (decide _) as [->|]. Qed.

(** [addTransactionInputs] on a pool that holds no transaction with the id. *)
Lemma pool_inputs td p : pool_ok p -> distinct_inputs (td_inputs td) -> find_transaction (td_id td) (m_transactions p) = None ->
  (keptByBlock td = false -> haveSpentInputs (td_inputs td) (m_spent p) = false) ->
  exists s', addTransactionInputs (td_id td) (td_inputs td) (keptByBlock td) (m_spent p) = Some (true, s')
    /\ (forall txs', txs' ≡ₚ td :: m_transactions p -> (forall k, s'.1 !! k = remaining (spenders txs' k)) /\ s'.2 = used_outputs txs').
Proof.
  intros Hp Hd Hf Hs. destruct (addTransactionInputs_ok (td_id td) (td_inputs td) (keptByBlock td) (m_spent p) Hd) as (s' & E & H1 & H2).
  - intros k Hk. rewrite spent_default by done. destruct (keptByBlock td).
    + rewrite elem_of_spenders. intros (td' & Hin & E & _). by apply (find_transaction_None _ _ Hf td').
    + apply (haveSpentInputs_false _ _ (Hs eq_refl)) in Hk. rewrite <- spent_default, Hk by done. reflexivity.
  - intros Hk o. rewrite Hk in Hs. by apply (haveSpentInputs_false _ _ (Hs eq_refl)).
  - exists s'. split; [exact E|]. intros txs' Hperm. split.
    + intros k. rewrite H1, (spenders_insert _ _ _ _ Hperm), spent_default by done. destruct (decide (k ∈ _)).
      * unfold remaining. rewrite decide_False; [done|]. set_solver.
      * apply (pool_images p Hp).
    + by rewrite H2, (used_insert _ _ _ Hperm), (pool_outputs p Hp).
Qed.

Lemma find_transaction_cons id td txs : find_transaction id (td :: txs) = if decide (td_id td = id) then Some td else find_transaction id txs.
Proof. cbn. by destruct (decide (td_id td = id)); [rewrite bool_decide_eq_true_2|rewrite bool_decide_eq_false_2]. Qed.

Lemma conflict_sym td td' : free_of_conflict td td' -> free_of_conflict td' td.
Proof. unfold free_of_conflict. naive_solver. Qed.

Lemma spent_free td td' p : pool_ok p -> td' ∈ m_transactions p -> keptByBlock td' = false -> haveSpentInputs (td_inputs td) (m_spent p) = false ->
  free_of_conflict td td'.
Proof.
  intros Hp Hin Hk [H1 H2]%haveSpentInputs_false. split.
  - intros k Hi Hi'. apply H1 in Hi. rewrite (pool_images p Hp) in Hi. unfold remaining in Hi. destruct (decide _) as [Hs|]; [|done].
    assert (td_id td' ∈ spenders (m_transactions p) k) by (apply elem_of_spenders; eauto). set_solver.
  - intros o Ho Ho'. apply (H2 o Ho). rewrite (pool_outputs p Hp). apply elem_of_used. eauto.
Qed.

(** The pool with one more transaction, as [add_tx] leaves it. *)
Lemma pool_insert td p txs' deleted payments last : pool_ok p -> details_ok td -> distinct_inputs (td_inputs td) ->
  insert_transaction td (m_transactions p) = Some txs' -> (keptByBlock td = false -> haveSpentInputs (td_inputs td) (m_spent p) = false) ->
  exists s', addTransactionInputs (td_id td) (td_inputs td) (keptByBlock td) (m_spent p) = Some (true, s')
    /\ pool_ok (MkPool txs' s' deleted payments (TimestampTransactionsIndex.add (receiveTime td) (td_id td) (m_timestampIndex p))
         (if negb (transaction_ttl (td_tx td) =? 0)
          then (if bool_decide (is_Some (m_ttlIndex p !! td_id td)) then m_ttlIndex p else <[td_id td := transaction_ttl (td_tx td)]> (m_ttlIndex p)) else m_ttlIndex p)
         last).
Proof.
  intros Hp Htd Hd Hi Hs. apply insert_transaction_ok in Hi as (Hf & Hperm & Hsort). destruct (pool_inputs td p Hp Hd Hf Hs) as (s' & E & Hs').
  destruct (Hs' _ Hperm) as [H1 H2]. exists s'. split; [exact E|]. assert (Hids : NoDup (td_id <$> txs')).
  { rewrite Hperm. cbn. apply NoDup_cons. split; [|apply (pool_ids p Hp)]. intros (td' & E' & Hin)%list_elem_of_fmap. by apply (find_transaction_None _ _ Hf td'). }
  constructor; cbn [m_transactions m_spent m_ttlIndex m_timestampIndex].
  - rewrite Hperm. constructor; [exact Htd|apply (pool_details p Hp)].
  - rewrite Hperm. constructor; [exact Hd|apply (pool_distinct p Hp)].
  - exact Hids.
  - apply Hsort; [exact Htd|apply (pool_details p Hp)|apply (pool_sorted p Hp)].
  - exact H1.
  - exact H2.
  - intros a b. rewrite Hperm, !elem_of_cons. intros [->|Ha] [->|Hb] Ka Kb Hne; [done|by apply (spent_free td b p); auto| |by apply (pool_exclusive p Hp)].
    apply conflict_sym, (spent_free td a p); auto.
  - intros id. rewrite (find_transaction_perm id _ _ Hperm Hids), find_transaction_cons. pose proof (pool_ttls p Hp (td_id td)) as Hnone. rewrite Hf in Hnone. cbn in Hnone.
    rewrite bool_decide_eq_false_2 by (rewrite Hnone; by intros [? ?]). destruct (decide (td_id td = id)) as [<-|Hne]; cbn [mbind option_bind]; unfold ttl_of.
    + destruct (Z.eqb_spec (transaction_ttl (td_tx td)) 0); cbn [negb]; [exact Hnone|apply lookup_insert_eq].
    + transitivity (m_ttlIndex p !! id); [destruct (negb _); [by apply lookup_insert_ne|reflexivity]|apply (pool_ttls p Hp id)].
  - unfold TimestampTransactionsIndex.add. by rewrite ordered_insert_Permutation, Hperm, (pool_timestamps p Hp).
Qed.

(** ** Removing *)

Lemma erase_Permutation td txs : NoDup (td_id <$> txs) -> td ∈ txs -> txs ≡ₚ td :: erase_transaction (td_id td) txs.
Proof.
  intros Hn Hin. apply list_elem_of_split in Hin as (l & r & ->). rewrite fmap_app, fmap_cons in Hn. apply NoDup_app in Hn as (_ & Hd & Hn).
  apply NoDup_cons in Hn as [Hr _]. unfold erase_transaction. rewrite filter_app, filter_cons_False by (intros Hne; by apply Hne).
  rewrite !list_filter_all; [by rewrite Permutation_middle| |].
  - intros x Hx E. apply Hr. rewrite <- E. by apply list_elem_of_fmap_2.
  - intros x Hx E. apply (Hd (td_id x)); [by apply list_elem_of_fmap_2|]. rewrite E. by left.
Qed.

(** [removeTransactionInputs] on a transaction of the pool. *)
Lemma pool_remove_inputs td p : pool_ok p -> td ∈ m_transactions p ->
  exists s', removeTransactionInputs (td_id td) (td_inputs td) (keptByBlock td) (m_spent p) = Some (true, s')
    /\ (forall k, s'.1 !! k = remaining (spenders (erase_transaction (td_id td) (m_transactions p)) k))
    /\ s'.2 = used_outputs (erase_transaction (td_id td) (m_transactions p)).
Proof.
  intros Hp Hin. pose proof (erase_Permutation td _ (pool_ids p Hp) Hin) as Hperm. pose proof (pool_distinct p Hp) as Hd. rewrite Forall_forall in Hd.
  pose proof (pool_ids p Hp) as Hids. rewrite Hperm in Hids. apply NoDup_cons in Hids as [Hnew _].
  destruct (removeTransactionInputs_ok (td_id td) (td_inputs td) (keptByBlock td) (m_spent p) (Hd td Hin)) as (s' & E & H1 & H2).
  - intros k Hk. rewrite spent_default by done. apply elem_of_spenders. eauto.
  - intros Hk o Ho. rewrite (pool_outputs p Hp). apply elem_of_used. eauto.
  - exists s'. split; [exact E|]. set (txs' := erase_transaction (td_id td) (m_transactions p)) in *.
    assert (forall k, td_id td ∉ spenders txs' k) as Hno.
    { intros k (td' & Hin' & E' & _)%elem_of_spenders. apply Hnew. rewrite <- E'. by apply list_elem_of_fmap_2. }
    split.
    + intros k. rewrite H1, spent_default, (pool_images p Hp) by done. rewrite (spenders_insert td txs' _ k Hperm).
      destruct (decide _); [|reflexivity]. specialize (Hno k). f_equal.
      assert (spenders (m_transactions p) k = {[td_id td]} ∪ spenders txs' k) as ->; [|set_solver].
      apply set_eq. intros id. rewrite elem_of_union, elem_of_singleton, !elem_of_spenders. setoid_rewrite Hperm. setoid_rewrite elem_of_cons. naive_solver.
    + rewrite H2, (pool_outputs p Hp), (used_insert td txs' _ Hperm). destruct (keptByBlock td) eqn:Hk; [reflexivity|].
      assert (forall o, o ∈ used_outputs txs' -> o ∉ multisignature_outputs (td_inputs td)) as Hdis; [|set_solver].
      intros o (td' & Hin' & Hk' & Ho')%elem_of_used Ho. assert (td' ∈ m_transactions p) as Hin'' by (rewrite Hperm; by right).
      refine (proj2 (pool_exclusive p Hp td td' Hin Hin'' Hk Hk' _) o Ho Ho'). intros E'. apply Hnew. rewrite E'. by apply list_elem_of_fmap_2.
Qed.

Lemma sorted_filter {A} (R : A -> A -> Prop) (P : A -> Prop) `{forall x, Decision (P x)} l : StronglySorted R l -> StronglySorted R (filter P l).
Proof.
  induction 1 as [|x l Hs IH Hx]; [constructor|]. rewrite filter_cons. destruct (decide (P x)); [|exact IH]. constructor; [exact IH|].
  rewrite Forall_forall in *. intros y [_ Hy]%list_elem_of_filter. auto.
Qed.

Lemma pool_remove td p : pool_ok p -> td ∈ m_transactions p ->
  exists p', removeTransaction td p = Some p' /\ pool_ok p' /\ m_transactions p' = erase_transaction (td_id td) (m_transactions p)
    /\ m_recentlyDeletedTransactions p' = m_recentlyDeletedTransactions p.
Proof.
  intros Hp Hin. destruct (pool_remove_inputs td p Hp Hin) as (s' & E & H1 & H2). unfold removeTransaction. fold (td_inputs td). rewrite E. cbn [mbind option_bind].
  eexists. split; [reflexivity|]. split; [|done]. pose proof (erase_Permutation td _ (pool_ids p Hp) Hin) as Hperm.
  pose proof (pool_ids p Hp) as Hids. set (txs' := erase_transaction _ _) in *. assert (forall x, x ∈ txs' -> x ∈ m_transactions p) as Hsub by (intros x; rewrite Hperm; by right).
  constructor; cbn [m_transactions m_spent m_ttlIndex m_timestampIndex]; try done.
  - pose proof (pool_details p Hp) as H. rewrite Hperm in H. by apply Forall_cons in H as [_ H].
  - pose proof (pool_distinct p Hp) as H. rewrite Hperm in H. by apply Forall_cons in H as [_ H].
  - rewrite Hperm in Hids. by apply NoDup_cons in Hids as [_ Hids].
  - apply sorted_filter, (pool_sorted p Hp).
  - intros a b Ha Hb. apply (pool_exclusive p Hp); auto.
  - intros id. pose proof (find_transaction_perm id _ _ Hperm Hids) as Ef. rewrite find_transaction_cons in Ef. destruct (decide (td_id td = id)) as [<-|Hne].
    + rewrite lookup_delete_eq. destruct (find_transaction (td_id td) txs') as [td'|] eqn:E'; [|reflexivity]. apply find_transaction_Some in E' as [Hin' Heq].
      apply list_elem_of_filter in Hin' as [Hne _]. done.
    + rewrite lookup_delete_ne by done. by rewrite <- Ef, (pool_ttls p Hp).
  - unfold TimestampTransactionsIndex.remove. pose proof (pool_timestamps p Hp) as Ht. rewrite Hperm in Ht. cbn [fmap list_fmap] in Ht.
    destruct (erase_first _ _ _) as [idx|] eqn:Ee; cbn [snd].
    + apply erase_first_Permutation in Ee. rewrite Ee in Ht. by apply Permutation_cons_inv in Ht.
    + apply erase_first_None in Ee as []. rewrite Ht. by left.
Qed.

(** ** The operations *)

Lemma pool_ok_same p p' : pool_ok p -> m_transactions p' = m_transactions p -> m_spent p' = m_spent p -> m_ttlIndex p' = m_ttlIndex p ->
  m_timestampIndex p' = m_timestampIndex p -> pool_ok p'.
Proof. intros [] E1 E2 E3 E4. constructor; rewrite ?E1, ?E2, ?E3, ?E4; assumption. Qed.

Lemma pool_ok_empty : pool_ok empty_pool.
Proof.
  constructor; [constructor|constructor|apply NoDup_nil_2|constructor|done|done| |done|done]. intros td td' Hin. by apply not_elem_of_nil in Hin.
Qed.

Section operations.
Context (c : Currency) (pow : Float.fl -> Float.fl -> Float.fl) `{TransactionValidator}.

Lemma sum_u64 {A} (f : A -> Z) l : is_u64 (foldl (fun a x => u64 (a + f x)) 0 l).
Proof. induction l as [|x l _] using rev_ind; [unfold is_u64; cbn; lia|]. rewrite foldl_app. apply u64_range. Qed.

Lemma getTransactionFee_u64 tx height : is_u64 (CurrencyImpl.getTransactionFee c pow tx height).
Proof.
  unfold CurrencyImpl.getTransactionFee, CurrencyImpl.getTransactionFee_opt. destruct (is_coinbase tx); [unfold is_u64; cbn; lia|].
  pose proof (sum_u64 (fun i => CurrencyImpl.getTransactionInputAmount c pow i height) (inputs (prefix tx))) as Hi.
  pose proof (sum_u64 out_amount (outputs (prefix tx))) as Ho. cbv zeta. revert Hi Ho. unfold is_u64.
  generalize (foldl (fun a i => u64 (a + CurrencyImpl.getTransactionInputAmount c pow i height)) 0 (inputs (prefix tx))).
  generalize (foldl (fun a o => u64 (a + out_amount o)) 0 (outputs (prefix tx))). intros y x Hx Hy.
  destruct (Z.ltb_spec x y); [destruct (existsb _ _); by split|cbn; lia].
Qed.

(** A transaction is refused and the pool stays, or it is new and the pool holds it. *)
Definition added (tx : Transaction) (id : Hash) (size : Z) (kept : bool) (p p' : tx_memory_pool) : Prop :=
  find_transaction id (m_transactions p) = None
  /\ exists td, m_transactions p' ≡ₚ td :: m_transactions p /\ td_id td = id /\ td_tx td = tx /\ blobSize td = size /\ keptByBlock td = kept
      /\ (kept = false -> (check_inputs tx null_block).1 = true /\ checkTransactionSize size = true /\ m_recentlyDeletedTransactions p !! id = None).

Lemma add_tx_ok clock now tx id size tvc kept height p : pool_ok p -> distinct_inputs (inputs (prefix tx)) -> 0 < size < 2 ^ 64 ->
  exists r tvc' p', add_tx c pow clock now tx id size tvc kept height p = Some (r, tvc', p') /\ pool_ok p'
    /\ (p' = p \/ (r = true /\ m_added_to_pool tvc' = true /\ m_verification_failed tvc' = false /\ added tx id size kept p p')).
Proof.
  intros Hp Hd Hsize. unfold add_tx. cbv zeta.
  destruct (negb (check_inputs_types_supported _)); [eauto 8|]. destruct (_ <? get_outs_money_amount tx); [eauto 8|]. destruct (negb (ttl_ok _ _ _ _ _)); [eauto 8|].
  destruct (negb kept && haveSpentInputs _ _) eqn:Es; [eauto 8|]. destruct (check_inputs tx null_block) as [valid used] eqn:Ec.
  destruct (negb valid && negb kept) eqn:Ev; [eauto 8|]. destruct (negb kept && negb _) eqn:Ez; [eauto 8|].
  destruct (negb kept && bool_decide _) eqn:Er; [eauto 8|]. set (td := MkTransactionDetails _ _ _ _ _ _ _ _).
  destruct (insert_transaction td (m_transactions p)) as [txs'|] eqn:Ei; [|eauto 8].
  destruct (pool_insert td p txs' (m_recentlyDeletedTransactions p) (PaymentIdIndex.add (moved_from tx) (m_paymentIdIndex p)).2 (m_lastWorkedTime p)) as (s' & E & Hok);
    [exact Hp|split; [apply getTransactionFee_u64|exact Hsize]|exact Hd|exact Ei|intros Hk; cbn in Hk; by rewrite Hk in Es|].
  cbn [td_id td_tx keptByBlock receiveTime td] in E, Hok. change (inputs (prefix tx)) with (td_inputs td). rewrite E. cbn [mbind option_bind].
  eexists _, _, _. split; [reflexivity|]. split; [exact Hok|]. right. split; [done|]. split; [done|]. split; [done|]. apply insert_transaction_ok in Ei as (Hf & Hperm & _).
  split; [exact Hf|]. exists td. split; [exact Hperm|]. do 4 (split; [reflexivity|]). intros ->. cbn in Ev, Ez, Er.
  rewrite andb_true_r in Ev. apply negb_false_iff in Ev, Ez. rewrite Ec. split; [exact Ev|]. split; [exact Ez|]. apply bool_decide_eq_false in Er. by apply eq_None_not_Some.
Qed.

(** What is enough for a transaction to enter the pool and to be relayed. *)
Lemma add_tx_accepts clock now tx id size tvc height p : pool_ok p -> distinct_inputs (inputs (prefix tx)) -> 0 < size < 2 ^ 64 ->
  check_inputs_types_supported (prefix tx) = true -> get_outs_money_amount tx <= CurrencyImpl.getTransactionAllInputsAmount c pow tx height ->
  transaction_ttl tx = 0 -> haveSpentInputs (inputs (prefix tx)) (m_spent p) = false -> (check_inputs tx null_block).1 = true -> checkTransactionSize size = true ->
  m_recentlyDeletedTransactions p !! id = None -> find_transaction id (m_transactions p) = None ->
  exists tvc' p', add_tx c pow clock now tx id size tvc false height p = Some (true, tvc', p') /\ pool_ok p' /\ getTransaction id p' = Some tx
    /\ m_added_to_pool tvc' = true /\ m_verification_failed tvc' = false
    /\ (CurrencyImpl.getTransactionFee c pow tx height = 1000
         \/ height < CurrencyImpl.upgradeHeight c BLOCK_MAJOR_VERSION_8 /\ 0 < CurrencyImpl.getTransactionFee c pow tx height -> m_should_be_relayed tvc' = true).
Proof.
  intros Hp Hd Hsize H1 H2 H3 H4 H5 H6 H7 H8. destruct (add_tx_ok clock now tx id size tvc false height p Hp Hd Hsize) as (r & tvc' & p' & E & Hok & _).
  exists tvc', p'. pose proof E as E'. revert E. unfold add_tx at 1. cbv zeta. rewrite H1, (proj2 (Z.ltb_ge _ _) H2), H3, H4. cbn [negb ttl_ok andb].
  destruct (check_inputs tx null_block) as [valid used]. cbn [fst] in H5. subst valid. rewrite H6, bool_decide_eq_false_2 by (rewrite H7; by intros [? ?]). cbn [negb andb].
  unfold ttl_ok. cbn [Z.eqb negb andb]. set (td := MkTransactionDetails _ _ _ _ _ _ _ _). destruct (insert_transaction td (m_transactions p)) as [txs'|] eqn:Ei.
  2: { unfold insert_transaction in Ei. change (td_id td) with id in Ei. by rewrite H8 in Ei. }
  destruct (addTransactionInputs _ _ _ _) as [[ok s']|] eqn:Ea; [|discriminate]. cbn [mbind option_bind]. intros E. apply (inj Some), (inj2 pair) in E as [[E1 E2]%(inj2 pair) E3].
  assert (ok = true) as ->.
  { destruct (pool_insert td p txs' ∅ [] 0 Hp) as (s'' & Ea' & _); [split; [apply getTransactionFee_u64|exact Hsize]|exact Hd|exact Ei|done|].
    change (addTransactionInputs (td_id td) (td_inputs td) (keptByBlock td) (m_spent p)) with (addTransactionInputs id (inputs (prefix tx)) false (m_spent p)) in Ea'. congruence. }
  subst r tvc' p'. apply insert_transaction_ok in Ei as (_ & Hperm & _). split; [exact E'|]. split; [exact Hok|].
  split; [|split; [reflexivity|split; [reflexivity|]]].
  - unfold getTransaction. cbn [m_transactions]. rewrite (find_transaction_perm id txs' _ Hperm) by apply (pool_ids _ Hok).
    rewrite find_transaction_cons, decide_True by reflexivity. reflexivity.
  - cbn [m_should_be_relayed]. intros [Hf|[Hh Hf]].
    + rewrite Hf. cbn. by destruct (_ <=? _).
    + destruct (Z.leb_spec (CurrencyImpl.upgradeHeight c BLOCK_MAJOR_VERSION_8) height); [lia|]. cbn [andb]. apply Z.ltb_lt in Hf. by rewrite Hf.
Qed.

(** ** Expiry *)

Lemma expired_ttl now p td : pool_ok p -> td ∈ m_transactions p ->
  expired c now p td = ((if keptByBlock td then m_mempoolTxFromAltBlockLiveTime c else m_mempoolTxLiveTime c) <? u64 (now - receiveTime td))
    || match ttl_of td with Some ttl => ttl <=? now | None => false end.
Proof. intros Hp Hin. unfold expired. rewrite (pool_ttls p Hp), (find_transaction_iff _ _ (pool_ids p Hp) Hin). reflexivity. Qed.

(** The second loop removes the expired transactions among those it visits, and no other. *)
Lemma expire_loop_ok now order p : pool_ok p ->
  exists p', expire_loop c now order p = Some p' /\ pool_ok p'
    /\ m_transactions p' = filter (fun td => ~ (td_id td ∈ order /\ expired c now p td = true)) (m_transactions p).
Proof.
  revert p. induction order as [|id order IH]; intros p Hp; cbn [expire_loop].
  { exists p. split; [done|]. split; [done|]. rewrite list_filter_all; [done|]. intros td _ [Hn _]. by apply not_elem_of_nil in Hn. }
  assert (forall td, td ∈ m_transactions p -> ~ (td_id td ∈ id :: order /\ expired c now p td = true)
    <-> ~ (td_id td = id /\ expired c now p td = true) /\ ~ (td_id td ∈ order /\ expired c now p td = true)) as Hsplit.
  { intros td _. rewrite elem_of_cons. tauto. }
  assert (forall q, pool_ok q -> m_transactions q = filter (fun td => ~ (td_id td = id /\ expired c now p td = true)) (m_transactions p) ->
    exists p', expire_loop c now order q = Some p' /\ pool_ok p'
      /\ m_transactions p' = filter (fun td => ~ (td_id td ∈ id :: order /\ expired c now p td = true)) (m_transactions p)) as Hstep.
  { intros q Hq Eq. destruct (IH q Hq) as (p' & E & Hok & Et). exists p'. split; [exact E|]. split; [exact Hok|]. rewrite Et, Eq, list_filter_filter.
    apply list_filter_iff'. intros td Hin. rewrite Hsplit by done. assert (td ∈ m_transactions q \/ (td_id td = id /\ expired c now p td = true)) as [Hq'|Hno].
    { rewrite Eq, list_elem_of_filter. destruct (decide (td_id td = id /\ expired c now p td = true)); tauto. }
    - rewrite (expired_ttl now q td Hq Hq'), <- (expired_ttl now p td Hp Hin). tauto.
    - tauto. }
  destruct (find_transaction id (m_transactions p)) as [td|] eqn:Ef.
  - apply find_transaction_Some in Ef as [Hin Hid]. destruct (expired c now p td) eqn:Ee.
    + destruct (pool_remove td (remember_deleted now id p)) as (q & E & Hq & Eq & _); [by apply (pool_ok_same p)|exact Hin|]. rewrite E. cbn [mbind option_bind].
      apply Hstep; [exact Hq|]. rewrite Eq. unfold erase_transaction. cbn [remember_deleted m_transactions]. apply list_filter_iff'. intros td' Hin'.
      rewrite Hid. split; [tauto|]. intros Hn E'. apply Hn. split; [done|].
      by rewrite (same_transaction _ td' td (pool_ids p Hp) Hin' Hin) by congruence.
    + apply Hstep; [exact Hp|]. symmetry. apply list_filter_all. intros td' Hin' [E' He].
      rewrite (same_transaction _ td' td (pool_ids p Hp) Hin' Hin) in He by congruence. congruence.
  - apply Hstep; [exact Hp|]. symmetry. apply list_filter_all. intros td' Hin' [E' _]. by apply (find_transaction_None _ _ Ef td').
Qed.

(** ** Starting *)

Lemma index_transaction_ttl p td id : m_ttlIndex (index_transaction p td) !! id =
  if decide (m_ttlIndex p !! id = None /\ td_id td = id) then ttl_of td else m_ttlIndex p !! id.
Proof.
  unfold index_transaction, ttl_of. cbn [m_ttlIndex]. destruct (Z.eqb_spec (transaction_ttl (td_tx td)) 0) as [E|E]; cbn [negb].
  - destruct (decide _) as [[Hn _]|]; done.
  - case_bool_decide as Hs; destruct (decide _) as [[Hn Hid]|Hno].
    + subst id. rewrite Hn in Hs. by destruct Hs.
    + done.
    + subst id. apply lookup_insert_eq.
    + apply lookup_insert_ne. intros <-. apply Hno. split; [by apply eq_None_not_Some|done].
Qed.

Lemma index_loop_ok l p : NoDup (td_id <$> l) -> let p' := foldl index_transaction p l in
  m_transactions p' = m_transactions p /\ m_spent p' = m_spent p /\ m_lastWorkedTime p' = m_lastWorkedTime p
  /\ m_timestampIndex p' ≡ₚ ((fun td => (receiveTime td, td_id td)) <$> l) ++ m_timestampIndex p
  /\ (forall id, m_ttlIndex p' !! id = match m_ttlIndex p !! id with Some ttl => Some ttl | None => find_transaction id l ≫= ttl_of end).
Proof.
  revert p. induction l as [|td l IH]; intros p Hn; cbv zeta; cbn [foldl].
  { repeat (split; [done|]). intros id. cbn. by destruct (m_ttlIndex p !! id). }
  rewrite fmap_cons in Hn. apply NoDup_cons in Hn as [Hnew Hn]. destruct (IH (index_transaction p td) Hn) as (E1 & E2 & E3 & E4 & E5). rewrite E1, E2, E3.
  do 3 (split; [done|]). split.
  - rewrite E4. cbn [index_transaction m_timestampIndex]. unfold TimestampTransactionsIndex.add. rewrite ordered_insert_Permutation. cbn. by rewrite Permutation_middle.
  - intros id. rewrite E5, index_transaction_ttl, find_transaction_cons. destruct (decide (_ /\ _)) as [[Hnone Hid]|Hno].
    + rewrite Hnone, decide_True by done. cbn [mbind option_bind]. destruct (ttl_of td); [done|]. subst id.
      destruct (find_transaction (td_id td) l) as [td'|] eqn:E; [|done]. apply find_transaction_Some in E as [Hin E]. destruct Hnew. rewrite <- E. by apply list_elem_of_fmap_2.
    + destruct (m_ttlIndex p !! id) eqn:En; [done|]. rewrite decide_False; [done|]. tauto.
Qed.

Lemma visit_Permutation order txs : NoDup (td_id <$> txs) -> order ≡ₚ td_id <$> txs -> omap (fun id => find_transaction id txs) order ≡ₚ txs.
Proof.
  intros Hn ->. assert (forall l : list TransactionDetails, (forall td, td ∈ l -> td ∈ txs) -> omap (fun id => find_transaction id txs) (td_id <$> l) = l) as Hid; [|by rewrite Hid].
  induction l as [|td l IH]; intros Hl; [done|]. cbn. rewrite find_transaction_iff by (try apply Hl; try done; by left). f_equal. apply IH. intros x Hx. apply Hl. by right.
Qed.

(** The node writes the pool when it stops and reads it when it starts. *)
Lemma init_ok now order p : pool_ok p -> order ≡ₚ td_id <$> m_transactions p ->
  exists p', init c now order (Some (Some (deinit p).1)) empty_pool = Some p' /\ pool_ok p'
    /\ m_transactions p' = filter (fun td => expired c now p td = false) (m_transactions p).
Proof.
  intros Hp Hord. unfold init, removeExpiredTransactions, buildIndices, deinit. cbn [fst empty_pool m_paymentIdIndex m_timestampIndex m_ttlIndex m_lastWorkedTime m_transactions].
  pose proof (visit_Permutation order _ (pool_ids p Hp) Hord) as Hvisit.
  destruct (index_loop_ok (omap (fun id => find_transaction id (m_transactions p)) order)
    (MkPool (m_transactions p) (m_spent p) (m_recentlyDeletedTransactions p) [] [] ∅ 0)) as (E1 & E2 & _ & E4 & E5); [rewrite Hvisit; apply (pool_ids p Hp)|].
  set (q := foldl index_transaction _ _) in *. assert (Hq : pool_ok q).
  { constructor; rewrite ?E1, ?E2; try apply Hp.
    - intros id. rewrite E5. cbn [m_ttlIndex m_transactions]. rewrite lookup_empty. f_equal. symmetry. apply find_transaction_perm; [by symmetry|apply (pool_ids p Hp)].
    - rewrite E4. cbn [m_timestampIndex m_transactions]. by rewrite app_nil_r, Hvisit. }
  destruct (expire_loop_ok now order (forget_deleted c now q)) as (p' & E & Hp' & Et); [by apply (pool_ok_same q)|]. exists p'. split; [exact E|]. split; [exact Hp'|].
  rewrite Et. cbn [forget_deleted m_transactions]. rewrite E1. cbn [m_transactions]. apply list_filter_iff'. intros td Hin.
  change (expired c now (forget_deleted c now q) td) with (expired c now q td).
  rewrite (expired_ttl now q), <- (expired_ttl now p) by (rewrite ?E1; done). rewrite Hord. pose proof (list_elem_of_fmap_2 td_id _ _ Hin). destruct (expired c now p td); naive_solver.
Qed.

(** ** Block templates *)

Definition total_size_of (l : list TransactionDetails) : Z := foldr (fun td a => blobSize td + a) 0 l.
Definition total_fee_of (l : list TransactionDetails) : Z := foldr (fun td a => td_fee td + a) 0 l.
Definition all_images (l : list TransactionDetails) : list KeyImage := l ≫= fun td => key_images (td_inputs td).
Definition all_outputs (l : list TransactionDetails) : list (Z * Z) := l ≫= fun td => multisignature_outputs (td_inputs td).

Lemma total_size_app l l' : total_size_of (l ++ l') = total_size_of l + total_size_of l'.
Proof. induction l as [|td l IH]; cbn; [done|]. unfold total_size_of in *. lia. Qed.

Lemma total_fee_app l l' : total_fee_of (l ++ l') = total_fee_of l + total_fee_of l'.
Proof. induction l as [|td l IH]; cbn; [done|]. unfold total_fee_of in *. lia. Qed.

Lemma total_size_nonneg l : Forall details_ok l -> 0 <= total_size_of l.
Proof. induction 1 as [|td l [_ Hs] _ IH]; cbn; [done|]. unfold total_size_of in *. lia. Qed.

(** The template holds these transactions. *)
Record template_ok (l : list TransactionDetails) (t : BlockTemplate) : Prop := {
  template_images : m_keyImages t = list_to_set (all_images l);
  template_outputs : m_usedOutputs t = list_to_set (all_outputs l);
  template_hashes : m_txHashes t = td_id <$> l;
  template_distinct_images : NoDup (all_images l);
  template_distinct_outputs : NoDup (all_outputs l)
}.

Lemma canAdd_spec ins t : forallb (can_add_input t) ins = true <->
  (forall k, k ∈ key_images ins -> k ∉ m_keyImages t) /\ (forall o, o ∈ multisignature_outputs ins -> o ∉ m_usedOutputs t).
Proof.
  induction ins as [|[base|txin|msig] ins IH]; cbn [forallb can_add_input key_images multisignature_outputs omap list_omap].
  - split; [|done]. intros _. split; intros ? Hn; by apply not_elem_of_nil in Hn.
  - exact IH.
  - rewrite andb_true_iff, IH, negb_true_iff, bool_decide_eq_false. setoid_rewrite elem_of_cons. fold (key_images ins). naive_solver.
  - rewrite andb_true_iff, IH, negb_true_iff, bool_decide_eq_false. setoid_rewrite elem_of_cons. fold (multisignature_outputs ins). naive_solver.
Qed.

Lemma mark_used_ok ins t : distinct_inputs ins -> forallb (can_add_input t) ins = true ->
  mark_used ins t = Some (MkBlockTemplate (list_to_set (key_images ins) ∪ m_keyImages t) (list_to_set (multisignature_outputs ins) ∪ m_usedOutputs t) (m_txHashes t)).
Proof.
  revert t. induction ins as [|i ins IH]; intros t Hd Hc; cbn [mark_used].
  { destruct t as [a b h]. cbn. by rewrite !(left_id_L ∅ (∪)). }
  cbn [forallb] in Hc. apply andb_true_iff in Hc as [Hi Hc]. rewrite Hi. pose proof (distinct_tail i ins Hd) as Hd'. apply canAdd_spec in Hc as [H1 H2].
  destruct Hd as [D1 D2]. destruct i as [base|txin|msig]; cbn in D1, D2.
  - apply IH; [exact Hd'|]. by apply canAdd_spec.
  - apply NoDup_cons in D1 as [N1 _]. rewrite IH; [|exact Hd'|].
    + cbn. do 2 f_equal. rewrite !(assoc_L (∪)). f_equal. apply (comm_L (∪)).
    + apply canAdd_spec. split; [|exact H2]. intros k Hk. cbn. rewrite not_elem_of_union, not_elem_of_singleton. split; [intros ->; done|auto].
  - apply NoDup_cons in D2 as [N1 _]. rewrite IH; [|exact Hd'|].
    + cbn. do 2 f_equal. rewrite !(assoc_L (∪)). f_equal. apply (comm_L (∪)).
    + apply canAdd_spec. split; [exact H1|]. intros o Ho. cbn. rewrite not_elem_of_union, not_elem_of_singleton. split; [intros ->; done|auto].
Qed.

(** [addTransaction] takes the transactions that are free of conflict with those it holds. *)
Lemma addTransaction_ok l t td : template_ok l t -> distinct_inputs (td_inputs td) ->
  exists r t', addTransaction (td_id td) (td_tx td) t = Some (r, t')
    /\ if r : bool then template_ok (l ++ [td]) t' else t' = t /\ exists td', td' ∈ l /\ ~ free_of_conflict td td'.
Proof.
  intros [E1 E2 E3 N1 N2] Hd. unfold addTransaction, canAdd. fold (td_inputs td). destruct (forallb (can_add_input t) (td_inputs td)) eqn:Hc; cbn [negb].
  - rewrite (mark_used_ok _ t Hd Hc). cbn [mbind option_bind]. eexists true, _. split; [reflexivity|]. apply canAdd_spec in Hc as [H1 H2]. rewrite E1 in H1. rewrite E2 in H2.
    unfold all_images, all_outputs in *. constructor; cbn [m_keyImages m_usedOutputs m_txHashes]; unfold all_images, all_outputs; rewrite ?bind_app; cbn [mbind list_bind]; rewrite ?app_nil_r.
    + by rewrite list_to_set_app_L, E1, (comm_L (∪)).
    + by rewrite list_to_set_app_L, E2, (comm_L (∪)).
    + by rewrite fmap_app, E3.
    + apply NoDup_app. split; [exact N1|]. split; [|apply Hd]. intros k Hk Hk'. apply (H1 k Hk'). by apply elem_of_list_to_set.
    + apply NoDup_app. split; [exact N2|]. split; [|apply Hd]. intros k Hk Hk'. apply (H2 k Hk'). by apply elem_of_list_to_set.
  - eexists false, _. split; [reflexivity|]. split; [done|]. destruct (decide (Exists (fun td' => ~ (Forall (fun k => k ∉ key_images (td_inputs td')) (key_images (td_inputs td))
      /\ Forall (fun o => o ∉ multisignature_outputs (td_inputs td')) (multisignature_outputs (td_inputs td)))) l)) as [Hx|Hx].
    + apply Exists_exists in Hx as (td' & Hin & Hn). exists td'. split; [done|]. intros [F1 F2]. apply Hn. by rewrite !Forall_forall.
    + exfalso. apply not_true_iff_false in Hc. apply Hc, canAdd_spec. rewrite E1, E2. split; intros x Hx'; rewrite elem_of_list_to_set; unfold all_images, all_outputs;
        rewrite list_elem_of_bind; intros (td' & Hx'' & Hin); apply Hx, Exists_exists; exists td'; (split; [exact Hin|]); rewrite !Forall_forall; naive_solver.
Qed.

(** What every transaction of a template satisfies. *)
Definition fit_for_block (height : Z) (td : TransactionDetails) : Prop :=
  ttl_of td = None /\ ready td = true /\ get_outs_money_amount (td_tx td) <= CurrencyImpl.getTransactionAllInputsAmount c pow (td_tx td) height.

Definition size_limit (median_size max_total_size : Z) (td : TransactionDetails) : Z := if td_fee td =? 0 then median_size else max_total_size.

(** The loop from the transactions [l] on: what it adds, and why it leaves out the others. *)
Definition template_result (height median_size max_total_size : Z) (l txs chosen : list TransactionDetails) : Prop :=
  sublist chosen txs /\ Forall (fit_for_block height) chosen
  /\ (total_size_of l <= Z.max median_size max_total_size -> total_size_of (l ++ chosen) <= Z.max median_size max_total_size)
  /\ (forall td, td ∈ txs -> td ∉ chosen -> ~ fit_for_block height td \/ (exists td', td' ∈ l ++ chosen /\ ~ free_of_conflict td td')
       \/ size_limit median_size max_total_size td < total_size_of (l ++ chosen) + blobSize td).

Lemma skipped_spec p height median_size max_total_size total td : pool_ok p -> td ∈ m_transactions p -> is_u64 (total + blobSize td) ->
  skipped c pow p height median_size max_total_size total td = false <->
  (ttl_of td = None /\ get_outs_money_amount (td_tx td) <= CurrencyImpl.getTransactionAllInputsAmount c pow (td_tx td) height)
  /\ total + blobSize td <= size_limit median_size max_total_size td.
Proof.
  intros Hp Hin Hu. unfold skipped, size_limit. rewrite u64_id by exact Hu. rewrite (pool_ttls p Hp), (find_transaction_iff _ _ (pool_ids p Hp) Hin). cbn [mbind option_bind].
  rewrite !orb_false_iff, bool_decide_eq_false, <- eq_None_not_Some, !Z.ltb_ge. tauto.
Qed.

(** A transaction that is left out, and one that is taken. *)
Lemma template_skip height median_size max_total_size l td txs chosen : details_ok td -> Forall details_ok chosen ->
  (~ fit_for_block height td \/ (exists td', td' ∈ l /\ ~ free_of_conflict td td') \/ size_limit median_size max_total_size td < total_size_of l + blobSize td) ->
  template_result height median_size max_total_size l txs chosen -> template_result height median_size max_total_size l (td :: txs) chosen.
Proof.
  intros Htd Hch Hwhy (H1 & H2 & H3 & H4). split; [by apply sublist_cons|]. split; [done|]. split; [done|].
  intros td' [->|Hin]%elem_of_cons Hout; [|by apply H4]. destruct Hwhy as [?|[(x & Hx & ?)|?]]; [by left| |].
  - right. left. exists x. split; [apply elem_of_app; by left|done].
  - right. right. rewrite total_size_app. pose proof (total_size_nonneg chosen Hch). lia.
Qed.

Lemma template_take height median_size max_total_size l td txs chosen : fit_for_block height td -> total_size_of l + blobSize td <= size_limit median_size max_total_size td ->
  template_result height median_size max_total_size (l ++ [td]) txs chosen -> template_result height median_size max_total_size l (td :: txs) (td :: chosen).
Proof.
  intros Hfit Hsize (H1 & H2 & H3 & H4). rewrite <- !(assoc_L (++)) in H3, H4. cbn [app] in H3, H4. split; [by apply sublist_skip|]. split; [by constructor|]. split.
  - intros Hl. apply H3. rewrite total_size_app. cbn. unfold size_limit in Hsize. destruct (td_fee td =? 0); lia.
  - intros td' [->|Hin]%elem_of_cons Hout; [destruct Hout; by left|]. apply H4; [done|]. intros Hc. apply Hout. by right.
Qed.

Lemma template_loop_ok p height median_size max_total_size txs l t : pool_ok p -> (forall td, td ∈ txs -> td ∈ m_transactions p) -> template_ok l t ->
  Forall details_ok l -> total_size_of l + total_size_of txs < 2 ^ 64 ->
  exists t' chosen, template_loop c pow p height median_size max_total_size txs t (total_size_of l) (u64 (total_fee_of l))
      = Some (t', total_size_of (l ++ chosen), u64 (total_fee_of (l ++ chosen)))
    /\ template_ok (l ++ chosen) t' /\ template_result height median_size max_total_size l txs chosen.
Proof.
  intros Hp. revert l t. induction txs as [|td txs IH]; intros l t Hsub Ht Hl Hsum.
  { exists t, []. rewrite app_nil_r. split; [done|]. split; [done|]. split; [constructor|]. split; [constructor|]. split; [by rewrite app_nil_r|]. intros td Hn. by apply not_elem_of_nil in Hn. }
  assert (Hin : td ∈ m_transactions p) by (apply Hsub; by left). assert (Hsub' : forall x, x ∈ txs -> x ∈ m_transactions p) by (intros x Hx; apply Hsub; by right).
  pose proof (pool_details p Hp) as Hdet. rewrite Forall_forall in Hdet. pose proof (Hdet td Hin) as Htd.
  assert (Hall : Forall details_ok txs) by (apply Forall_forall; auto). pose proof (total_size_nonneg l Hl). pose proof (total_size_nonneg txs Hall).
  change (total_size_of (td :: txs)) with (blobSize td + total_size_of txs) in Hsum.
  assert (Hu : is_u64 (total_size_of l + blobSize td)) by (destruct Htd; unfold is_u64; lia).
  pose proof (skipped_spec p height median_size max_total_size (total_size_of l) td Hp Hin Hu) as Hskip.
  assert (Hleave : (~ fit_for_block height td \/ (exists td', td' ∈ l /\ ~ free_of_conflict td td') \/ size_limit median_size max_total_size td < total_size_of l + blobSize td) ->
    exists t' chosen, template_loop c pow p height median_size max_total_size txs t (total_size_of l) (u64 (total_fee_of l))
      = Some (t', total_size_of (l ++ chosen), u64 (total_fee_of (l ++ chosen)))
    /\ template_ok (l ++ chosen) t' /\ template_result height median_size max_total_size l (td :: txs) chosen).
  { intros Hwhy. destruct (IH l t Hsub' Ht Hl) as (t' & chosen & E & Hok & Hr); [destruct Htd; lia|]. exists t', chosen. split; [exact E|]. split; [exact Hok|].
    apply template_skip; [exact Htd| |exact Hwhy|exact Hr]. destruct Hr as [Hs%sublist_submseteq _]. rewrite Forall_forall in *. intros x Hx. apply Hall. by eapply elem_of_submseteq. }
  cbn [template_loop]. destruct (skipped _ _ _ _ _ _ _ _) eqn:Es.
  { apply Hleave. destruct (decide (total_size_of l + blobSize td <= size_limit median_size max_total_size td)) as [Hle|Hle]; [|right; right; lia].
    left. intros (F1 & F2 & F3). destruct Hskip as [_ Hskip]. by specialize (Hskip (conj (conj F1 F3) Hle)). }
  destruct Hskip as [Hskip _]. destruct (Hskip eq_refl) as [[F1 F3] Hfits]. destruct (ready td) eqn:F2; [|apply Hleave; left; intros (_ & F & _); congruence].
  pose proof (pool_distinct p Hp) as Hdist. rewrite Forall_forall in Hdist.
  destruct (addTransaction_ok l t td Ht (Hdist td Hin)) as ([|] & t1 & E & Hr); rewrite E; cbn [mbind option_bind]; [|destruct Hr as [-> Hc]; apply Hleave; by right; left].
  destruct (IH (l ++ [td]) t1 Hsub' Hr) as (t' & chosen & E' & Hok & Hres); [apply Forall_app; by split; [|constructor; [|constructor]]|rewrite total_size_app; cbn; lia|].
  exists t', (td :: chosen). rewrite <- (assoc_L (++)) in E', Hok. cbn [app] in E', Hok. split; [|split; [exact Hok|by apply template_take]]. rewrite <- E'.
  f_equal; [rewrite u64_id, total_size_app by exact Hu; cbn; lia|]. rewrite total_fee_app. cbn. rewrite Z.add_0_r. word.
Qed.

End operations.

(** ** Histories of a pool *)

Section histories.
Context (c : Currency) (pow : Float.fl -> Float.fl -> Float.fl).

(** The calls of the node, each at a state of the blockchain of its own; [None] is a
    failed assertion. *)
Inductive pool_step (p : tx_memory_pool) : option tx_memory_pool -> Prop :=
| step_add (validator : TransactionValidator) clock now tx id size tvc kept height : distinct_inputs (inputs (prefix tx)) -> 0 < size < 2 ^ 64 ->
    pool_step p (snd <$> add_tx c pow clock now tx id size tvc kept height p)
| step_take id : pool_step p (snd <$> take_tx id p)
| step_idle now now1 now2 order : pool_step p (on_idle c now now1 now2 order p)
| step_restart now order : order ≡ₚ td_id <$> m_transactions p -> pool_step p (init c now order (Some (Some (deinit p).1)) empty_pool).

Inductive reachable_pool : tx_memory_pool -> Prop :=
| reachable_empty : reachable_pool empty_pool
| reachable_step p p' : reachable_pool p -> pool_step p (Some p') -> reachable_pool p'.

Lemma pool_step_ok p r : pool_ok p -> pool_step p r -> exists p', r = Some p' /\ pool_ok p'.
Proof.
  intros Hp [validator clock now tx id size tvc kept height Hd Hsize|id|now now1 now2 order|now order Hord].
  - destruct (add_tx_ok c pow clock now tx id size tvc kept height p Hp Hd Hsize) as (b & tvc' & p' & E & Hok & _). exists p'. by rewrite E.
  - unfold take_tx. destruct (find_transaction id (m_transactions p)) as [td|] eqn:E; [|by exists p]. apply find_transaction_Some in E as [Hin _].
    destruct (pool_remove td p Hp Hin) as (p' & E & Hok & _). exists p'. by rewrite E.
  - unfold on_idle, removeExpiredTransactions. destruct (60 <? _); [|by exists p].
    destruct (expire_loop_ok c now1 order (forget_deleted c now1 p)) as (p' & E & Hok & _); [by apply (pool_ok_same p)|]. rewrite E. eexists. split; [reflexivity|]. by apply (pool_ok_same p').
  - destruct (init_ok c now order p Hp Hord) as (p' & E & Hok & _). eauto.
Qed.

Lemma reachable_ok p : reachable_pool p -> pool_ok p.
Proof.
  induction 1 as [|p p' _ IH Hstep]; [apply pool_ok_empty|]. destruct (pool_step_ok p _ IH Hstep) as (q & E & Hq). congruence.
Qed.

(** C3: In every pool reached from the empty one by additions of transactions without
    repeated inputs, removals, idle work and restarts, the transactions have distinct
    ids and are in the order of priority, the sets of spent key images and outputs and
    the indexes by time to live and by time hold what the transactions say, and two
    transactions that do not come from blocks spend different inputs.  No further call
    fails an assertion. *)
Theorem pool_consistent p : reachable_pool p -> pool_ok p /\ forall r, pool_step p r -> is_Some r.
Proof.
  intros Hr. pose proof (reachable_ok p Hr) as Hp. split; [exact Hp|]. intros r Hstep. destruct (pool_step_ok p r Hp Hstep) as (p' & -> & _). by eexists.
Qed.

(** C9: [fill_block_template] fails no assertion.  It chooses transactions of the pool in
    the order of priority, without a time to live, ready for the chain, which do not pay
    out more than they take in; no two of them spend the same key image or output; the
    size is the sum of their sizes and within the limit, the fee the sum of the fees.
    Any other transaction is unfit, conflicts with a chosen one or is too large. *)
Theorem block_template_valid `{TransactionValidator} p median_size maxCumulativeSize height : reachable_pool p -> 0 <= median_size -> total_size_of (m_transactions p) < 2 ^ 64 ->
  let limit := template_limit c median_size maxCumulativeSize in
  exists chosen, fill_block_template c pow median_size maxCumulativeSize height p = Some (td_id <$> chosen, total_size_of chosen, u64 (total_fee_of chosen))
    /\ sublist chosen (m_transactions p) /\ Forall (fit_for_block c pow height) chosen /\ NoDup (all_images chosen) /\ NoDup (all_outputs chosen)
    /\ total_size_of chosen <= Z.max median_size limit
    /\ (forall td, td ∈ m_transactions p -> td ∉ chosen -> ~ fit_for_block c pow height td \/ (exists td', td' ∈ chosen /\ ~ free_of_conflict td td')
         \/ size_limit median_size limit td < total_size_of chosen + blobSize td).
Proof.
  intros Hr Hmed Hsum limit. pose proof (reachable_ok p Hr) as Hp. unfold fill_block_template. fold limit.
  destruct (template_loop_ok c pow p height median_size limit (m_transactions p) [] (MkBlockTemplate ∅ ∅ []) Hp) as (t' & chosen & E & Ht & H1 & H2 & H3 & H4);
    [done|by constructor; try apply NoDup_nil_2|constructor|exact Hsum|].
  cbn [app] in *. change (total_size_of []) with 0 in E, H3. change (u64 (total_fee_of [])) with 0 in E. rewrite E. cbn [mbind option_bind]. exists chosen.
  rewrite (template_hashes _ _ Ht). split; [done|]. split; [done|]. split; [done|]. split; [apply Ht|]. split; [apply Ht|]. split; [apply H3; lia|exact H4].
Qed.

(** [add_tx] adds nothing to the index of payment ids: it passes the transaction that
    was moved into the pool a line before, which has no extra left. *)
Lemma add_tx_payment_ids `{TransactionValidator} clock now tx id size tvc kept height p r tvc' p' :
  add_tx c pow clock now tx id size tvc kept height p = Some (r, tvc', p') -> m_paymentIdIndex p' = m_paymentIdIndex p.
Proof.
  unfold add_tx. cbv zeta. assert (forall r0 v0, Some (r0, v0, p) = Some (r, tvc', p') -> m_paymentIdIndex p' = m_paymentIdIndex p) as Hsame by (intros ? ? E; congruence).
  destruct (negb (check_inputs_types_supported _)); [apply Hsame|]. destruct (_ <? get_outs_money_amount tx); [apply Hsame|]. destruct (negb (ttl_ok _ _ _ _ _)); [apply Hsame|].
  destruct (negb kept && haveSpentInputs _ _); [apply Hsame|]. destruct (check_inputs tx null_block) as [valid used].
  destruct (negb valid && negb kept); [apply Hsame|]. destruct (negb kept && negb _); [apply Hsame|]. destruct (negb kept && bool_decide _); [apply Hsame|].
  destruct (insert_transaction _ _) as [txs'|]; [|apply Hsame]. destruct (addTransactionInputs _ _ _ _) as [[ok s]|]; [|discriminate].
  intros E. apply (inj Some), (inj2 pair) in E as [_ <-]. reflexivity.
Qed.

End histories.

(** ** Example: two transactions *)

Module PoolExample.
#[local] Instance validator : TransactionValidator := {|
  check_inputs := fun _ _ => (true, MkBlockInfo 1 (replicate 32 5));
  recheck_inputs := fun _ used failed => (true, used, failed);
  haveSpentKeyImages := fun _ => false;
  checkTransactionSize := fun _ => true
|}.
Definition c : Currency := CurrencyImpl.CurrencyBuilder false.
Definition pow (x y : Float.fl) : Float.fl := x.
Definition tx (k fee : Z) : Transaction :=
  MkTransaction (MkTransactionPrefix 1 0 [InKey (MkKeyInput (100 + fee) [0] (replicate 32 k))] [MkTransactionOutput 100 (OutKey (MkKeyOutput (replicate 32 1)))] []) [].
Definition add (k fee : Z) (p : tx_memory_pool) : option tx_memory_pool :=
  snd <$> add_tx c pow 1000 1000 (tx k fee) (replicate 32 k) 200 (MkTvc false false false false false) false 10 p.
Definition pool1 : tx_memory_pool := default empty_pool (add 7 10 empty_pool).
Definition pool2 : tx_memory_pool := default empty_pool (add 8 20 pool1).

Lemma add_step k fee p p' : add k fee p = Some p' -> pool_step c pow p (Some p').
Proof. intros <-. apply step_add; [split; cbn; [apply NoDup_singleton|apply NoDup_nil_2]|lia]. Qed.

Lemma pool2_reachable : reachable_pool c pow pool2.
Proof.
  apply (reachable_step _ _ pool1); [apply (reachable_step _ _ empty_pool); [apply reachable_empty|]|]; [apply (add_step 7 10)|apply (add_step 8 20)]; vm_compute; reflexivity.
Qed.

(** The transaction with the higher fee comes first. *)
Lemma pool2_order : td_id <$> m_transactions pool2 = [replicate 32 8; replicate 32 7].
Proof. vm_compute. reflexivity. Qed.
End PoolExample.

Lemma pool_consistent_witness : pool_ok PoolExample.pool2 /\ forall r, pool_step PoolExample.c PoolExample.pow PoolExample.pool2 r -> is_Some r.
Proof. apply pool_consistent, PoolExample.pool2_reachable. Defined.

Lemma block_template_valid_witness : exists chosen,
  @fill_block_template PoolExample.c PoolExample.pow PoolExample.validator 100000 100000 10 PoolExample.pool2
    = Some (td_id <$> chosen, total_size_of chosen, u64 (total_fee_of chosen)) /\ NoDup (all_images chosen).
Proof.
  destruct (@block_template_valid PoolExample.c PoolExample.pow PoolExample.validator PoolExample.pool2 100000 100000 10) as (chosen & E & _ & _ & H & _);
    [apply PoolExample.pool2_reachable|lia|vm_compute; reflexivity|]. exists chosen. exact (conj E H).
Defined.
End TransactionPoolInvariant.
