(* ===== verification/ChainValidator.v ===== *)
(** The blockchain as the validator of the transaction pool: the functions of
    src/CryptoNoteCore/Blockchain.cpp behind ITransactionValidator.h.  With them a
    transaction made by [constructTransaction] passes from the wallet to the pool. *)

From S2P Require Import Prelude.
From S2P Require Import Varint.
From S2P Require Import Serialization.
From S2P Require Import CryptoNote.
From S2P Require Import CryptoNoteSerialization.
From S2P Require Import CryptoNoteFormatUtils.
From S2P Require Import Float.
From S2P Require Import Currency.
From S2P Require Import ChainIndex.
From S2P Require Import TransactionExtra.
From S2P Require Import BlockchainState.
From S2P Require Import CryptoInterface.
From S2P Require Import Blockchain.
From S2P Require Import BlockchainInvariant.
From S2P Require Import PointCodec.
From S2P Require Import Crypto.
From S2P Require Import ConstructTransaction.
From S2P Require Import Acceptance.
From S2P Require Import TransactionPool.
From S2P Require Import TransactionPoolInvariant.
Import BinarySerializer CryptoNoteSerialization FormatUtils TransactionExtra BlockchainState PointCodec CryptoInterface Config Blockchain ConstructTransaction Acceptance TransactionPool TransactionPoolInvariant.

Module ChainValidator.

Section validator.
Context `{CryptoOps} (c : Currency) (m_checkpoints : gmap Z Hash) (now : Z) (bc : Blockchain).

(** [getTailId] with the height of the last block. *)
Definition tail_block : option BlockInfo :=
  if bool_decide (m_blocks bc = []) then None
  else Some (MkBlockInfo (u32 (getCurrentBlockchainHeight (m_blocks bc) - 1)) (getTailId bc)).

(** [assert] keeps the height in range. *)
Definition getBlockIdByHeight (height : Z) : option Hash := BlockIndex.getBlockId height (m_blockIndex bc).

(** The overload with the block as a height and an id; the id changes on success only. *)
Definition check_inputs_block (tx : Transaction) (used : BlockInfo) : option (bool * BlockInfo) :=
  r ← checkTransactionInputs c m_checkpoints now (m_blocks bc) (chainState bc) tx;
  let '(res, height) := r : bool * Z in
  if negb res then Some (false, MkBlockInfo height (bi_id used))
  else match m_blocks bc !! Z.to_nat height with
       | None => Some (false, MkBlockInfo height (bi_id used))
       | Some e => Some (true, MkBlockInfo height (get_block_hash (bl e)).2)
       end.

Definition check_inputs_one (tx : Transaction) (maxUsedBlock : BlockInfo) : option (bool * BlockInfo) :=
  r ← check_inputs_block tx maxUsedBlock;
  let '(ok, maxUsedBlock) := r : bool * BlockInfo in
  Some (ok && check_tx_outputs c tx (bi_height maxUsedBlock), maxUsedBlock).

(** The check of the inputs, with the tail as the last failed block when it fails. *)
Definition check_inputs_tail (tx : Transaction) (maxUsedBlock lastFailed : BlockInfo) : option (bool * BlockInfo * BlockInfo) :=
  tail ← tail_block;
  r ← check_inputs_block tx maxUsedBlock;
  let '(ok, maxUsedBlock) := r : bool * BlockInfo in
  Some (ok, maxUsedBlock, if ok then lastFailed else tail).

Definition check_inputs_two (tx : Transaction) (maxUsedBlock lastFailed : BlockInfo) : option (bool * BlockInfo * BlockInfo) :=
  let height := getCurrentBlockchainHeight (m_blocks bc) in
  if block_empty maxUsedBlock then
    failed ← (if negb (block_empty lastFailed) && (bi_height lastFailed <? height)
              then id ← getBlockIdByHeight (bi_height lastFailed); Some (bool_decide (id = bi_id lastFailed))
              else Some false);
    if failed : bool then Some (false, maxUsedBlock, lastFailed) else check_inputs_tail tx maxUsedBlock lastFailed
  else if height <=? bi_height maxUsedBlock then Some (false, maxUsedBlock, lastFailed)
  else
    id ← getBlockIdByHeight (bi_height maxUsedBlock);
    if bool_decide (id <> bi_id maxUsedBlock) then
      id ← getBlockIdByHeight (bi_height lastFailed);
      if bool_decide (bi_id lastFailed = id) then Some (false, maxUsedBlock, lastFailed) else check_inputs_tail tx maxUsedBlock lastFailed
    else Some (true, maxUsedBlock, lastFailed).

Definition haveTransactionKeyImagesAsSpent (tx : Transaction) : bool :=
  existsb (fun i => match i with InKey k => have_tx_keyimg_as_spent (chainState bc) (keyImage k) | _ => false end) (inputs (prefix tx)).

Definition check_size (blobSize : Z) : bool := negb (u64 (m_current_block_cumul_sz_limit bc - m_minerTxBlobReservedSize c) <=? blobSize).

(** The validator; a call that aborts is not a success. *)
Definition chain_validator : TransactionValidator := {|
  check_inputs := fun tx used => default (false, used) (check_inputs_one tx used);
  recheck_inputs := fun tx used failed => default (false, used, failed) (check_inputs_two tx used failed);
  haveSpentKeyImages := haveTransactionKeyImagesAsSpent;
  checkTransactionSize := check_size
|}.

End validator.

(** ** From the wallet to the pool *)

Section constructed.
Context (c : Currency) (pow : Float.fl -> Float.fl -> Float.fl).

Lemma signed_inputs hash sources ins sigs version height : Forall3 (signed hash) sources ins sigs ->
  forallb (fun i => match i with InMultisignature _ => negb (version <? TRANSACTION_VERSION_2) | InKey _ => true | InBase _ => false end) ins = true
  /\ (fun i => CurrencyImpl.getTransactionInputAmount c pow i height) <$> ins = src_amount <$> sources
  /\ multisignature_outputs ins = [] /\ ~ (exists b, InBase b ∈ ins).
Proof.
  induction 1 as [|src i sig sources ins sigs (image & -> & _) _ (IH1 & IH2 & IH3 & IH4)].
  - split; [done|]. split; [done|]. split; [done|]. intros (b & Hb). by apply not_elem_of_nil in Hb.
  - split; [exact IH1|]. split; [by rewrite !fmap_cons, IH2|]. split; [exact IH3|]. intros (b & [Hb|Hb]%elem_of_cons); [discriminate|]. apply IH4. by exists b.
Qed.

Lemma paid_amounts R outs dsts : length outs = length dsts ->
  (forall k dst out, dsts !! k = Some dst -> outs !! k = Some out -> pays R (Z.of_nat k) dst out) -> out_amount <$> outs = dst_amount <$> dsts.
Proof.
  intros Hl Hp. apply list_eq_same_length with (n := length outs); [by rewrite length_fmap|by rewrite length_fmap|].
  intros k x y _ [out [-> Ho]]%list_lookup_fmap_Some [dst [-> Hk]]%list_lookup_fmap_Some. by destruct (Hp k dst out Hk Ho) as (key & -> & _).
Qed.

Lemma not_coinbase tx : ~ (exists b, InBase b ∈ inputs (prefix tx)) -> is_coinbase tx = false.
Proof.
  intros Hn. unfold is_coinbase. destruct (inputs (prefix tx)) as [|[b| |] [|]]; try done. destruct Hn. exists b. by left.
Qed.

(** The fee is what the outputs leave. *)
Lemma constructed_fee tx hash sources R dsts height : Forall3 (signed hash) sources (inputs (prefix tx)) (signatures tx) ->
  length (outputs (prefix tx)) = length dsts ->
  (forall k dst out, dsts !! k = Some dst -> outputs (prefix tx) !! k = Some out -> pays R (Z.of_nat k) dst out) ->
  Forall (fun src => 0 <= src_amount src) sources -> Forall destination_ok dsts -> money dsts <= sumZ (src_amount <$> sources) < 2 ^ 64 ->
  get_outs_money_amount tx = money dsts /\ CurrencyImpl.getTransactionAllInputsAmount c pow tx height = sumZ (src_amount <$> sources)
  /\ CurrencyImpl.getTransactionFee c pow tx height = sumZ (src_amount <$> sources) - money dsts.
Proof.
  intros Hsig Hlen Hpays Ham Hdst Hmoney. destruct (signed_inputs _ _ _ _ 0 height Hsig) as (_ & Hin & _ & Hbase). pose proof (paid_amounts R _ _ Hlen Hpays) as Hout.
  assert (Ho : foldl (fun a o => u64 (a + out_amount o)) 0 (outputs (prefix tx)) = money dsts).
  { rewrite CurrencyImpl.foldl_u64_exact; [by rewrite Hout| |rewrite Hout; fold (money dsts); lia]. assert (HF : Forall (fun x => 0 <= x) (out_amount <$> outputs (prefix tx))); [|rewrite Forall_fmap in HF; exact HF].
    rewrite Hout. apply Forall_fmap. eapply Forall_impl; [exact Hdst|]. intros d []. cbn. lia. }
  assert (Hi : foldl (fun a i => u64 (a + CurrencyImpl.getTransactionInputAmount c pow i height)) 0 (inputs (prefix tx)) = sumZ (src_amount <$> sources)).
  { rewrite CurrencyImpl.foldl_u64_exact; [by rewrite Hin| |rewrite Hin; lia]. assert (HF : Forall (fun x => 0 <= x) ((fun i => CurrencyImpl.getTransactionInputAmount c pow i height) <$> inputs (prefix tx))); [|rewrite Forall_fmap in HF; exact HF].
    rewrite Hin. by apply Forall_fmap. }
  split; [exact Ho|]. split; [exact Hi|]. unfold CurrencyImpl.getTransactionFee, CurrencyImpl.getTransactionFee_opt. rewrite not_coinbase by exact Hbase. cbv zeta.
  rewrite Hi, Ho, (proj2 (Z.ltb_ge _ _)) by lia. reflexivity.
Qed.

Lemma no_ttl extra r datas ex tx : open_extra extra = true -> find_map as_ttl (parseTransactionExtra extra).2 = None ->
  Forall (fun data => is_bytes data /\ small data) datas -> writeTransactionExtra extra (extra_fields (Crypto.pub_of r) datas 0) = Some ex ->
  CryptoNote.extra (prefix tx) = ex -> transaction_ttl tx = 0.
Proof.
  intros Ho Hn Hd Hw Hex. destruct (extra_key extra r datas 0 ex Ho Hd ltac:(unfold is_u64; lia) Hw) as [_ Ep]. unfold transaction_ttl. rewrite Hex, Ep. cbn [snd].
  revert Hn. generalize (parseTransactionExtra extra).2. intros fs. unfold extra_fields. generalize (Crypto.pub_of r). intros R. clear.
  induction fs as [|f fs IH]; cbn [app find_map].
  - intros _. cbn [Z.eqb negb as_ttl]. rewrite app_nil_r. induction datas as [|data datas IH]; [reflexivity|]. exact IH.
  - destruct (as_ttl f) as [ttl|]; [done|exact IH].
Qed.

End constructed.

(** The pool and the chain have seen neither the transaction nor its key images, and its
    size is within the limit. *)
Record fresh_transaction (c : Currency) (bc : Blockchain) (p : tx_memory_pool) (tx : Transaction) (id : Hash) (size : Z) : Prop := {
  fresh_images : NoDup (key_images (inputs (prefix tx)));
  fresh_chain : forall input, InKey input ∈ inputs (prefix tx) -> have_tx_keyimg_as_spent (chainState bc) (keyImage input) = false;
  fresh_pool : haveSpentInputs (inputs (prefix tx)) (m_spent p) = false;
  fresh_id : find_transaction id (m_transactions p) = None;
  fresh_deleted : m_recentlyDeletedTransactions p !! id = None;
  fresh_size : 0 < size < 2 ^ 64 /\ check_size c bc size = true
}.

Lemma check_inputs_one_ok slow_v0 fast_slow_v1 conceal_slow_v0 gpu_v0 c checkpoints now bc tx hash sources R dsts used :
  hash = (getObjectHash serializeTransactionPrefix (prefix tx)).2 -> m_blocks bc <> [] ->
  Forall (on_chain c now (m_blocks bc) (chainState bc)) sources -> Forall3 (signed hash) sources (inputs (prefix tx)) (signatures tx) ->
  length (outputs (prefix tx)) = length dsts -> Forall destination_ok dsts ->
  (forall k dst out, dsts !! k = Some dst -> outputs (prefix tx) !! k = Some out -> pays R (Z.of_nat k) dst out) ->
  (forall input, InKey input ∈ inputs (prefix tx) -> have_tx_keyimg_as_spent (chainState bc) (keyImage input) = false) ->
  exists used', @check_inputs_one (concealCrypto slow_v0 fast_slow_v1 conceal_slow_v0 gpu_v0) c checkpoints now bc tx used = Some (true, used').
Proof.
  intros -> Hne Hchain Hsig Hlen Hdst Hpays Hfresh. set (crypto := concealCrypto _ _ _ _).
  destruct (inputs_loop_accepts c checkpoints slow_v0 fast_slow_v1 conceal_slow_v0 gpu_v0 now (m_blocks bc) (chainState bc) _ sources _ _ 0 Hchain Hsig Hfresh) as (m & E & Hm).
  assert (0 <= m < Z.of_nat (length (m_blocks bc))) as Hm' by (apply Hm; destruct (m_blocks bc); [done|cbn; lia]).
  destruct (lookup_lt_is_Some_2 (m_blocks bc) (Z.to_nat m)) as [e Ee]; [lia|].
  assert (checkTransactionInputs c checkpoints now (m_blocks bc) (chainState bc) tx = Some (true, m)) as Ec by exact E.
  unfold check_inputs_one, check_inputs_block. rewrite Ec, bind_some. cbn [negb]. rewrite Ee, bind_some. cbn [andb bi_height]. eexists. f_equal. f_equal.
  apply forallb_forall. intros out Hin. apply list_elem_of_In, list_elem_of_lookup in Hin as [k Hk].
  destruct (lookup_lt_is_Some_2 dsts k) as [dst Hd]; [rewrite <- Hlen; by eapply lookup_lt_Some|].
  destruct (Hpays k dst out Hd Hk) as (key & -> & (P & HP & ->) & _). rewrite Forall_lookup in Hdst. destruct (Hdst k dst Hd) as [Ham _ _].
  unfold check_tx_output. cbn [target out_amount ko_key]. change (@CryptoInterface.check_key crypto) with Crypto.check_key. rewrite Crypto.check_key_ok by exact HP.
  destruct (Z.eqb_spec (dst_amount dst) 0); [lia|reflexivity].
Qed.

(** C5: from the wallet to the pool.  A transaction that [constructTransaction] makes without
    a time to live enters the pool: [add_tx], with the blockchain as the validator, returns
    [true] without a failed verification and the pool holds the transaction.  It is relayed
    when it pays the fee of 1000, or any fee before the last upgrade.
    - The rings are unlocked outputs of the chain, which is not empty, given in ascending
      order, and have at least three members between the upgrades to versions 4 and 5.
    - The extra it is made with parses, without padding, transaction key or time to live.
    - Its key images are distinct, and spent neither in the chain nor in the pool.
    - The identifier it is added under is neither in the pool nor among those recently
      deleted, and its size passes the limit of the pool.
    - The pool is one that the calls of the pool lead to. *)
Theorem constructed_transaction_pooled slow_v0 fast_slow_v1 conceal_slow_v0 gpu_v0 c pow checkpoints clock now bc p
    sort keys b a sources destinations messages extra unlock_time tmp random height tvc : account_ok keys b a ->
  construction_ok sort keys sources destinations messages tmp random ->
  open_extra extra = true -> find_map as_ttl (parseTransactionExtra extra).2 = None -> m_blocks bc <> [] ->
  Forall (on_chain c clock (m_blocks bc) (chainState bc)) sources -> reachable_pool c pow p -> exists tx sec,
  let validator := @chain_validator (concealCrypto slow_v0 fast_slow_v1 conceal_slow_v0 gpu_v0) c checkpoints clock bc in
  constructTransaction sort keys sources destinations messages 0 extra unlock_time tmp random = Some (Some (tx, sec))
  /\ length (inputs (prefix tx)) = length sources
  /\ forall id size, fresh_transaction c bc p tx id size ->
      exists tvc' p', add_tx c pow clock now tx id size tvc false height p = Some (true, tvc', p') /\ pool_ok p' /\ getTransaction id p' = Some tx
        /\ m_added_to_pool tvc' = true /\ m_verification_failed tvc' = false
        /\ let fee := sumZ (src_amount <$> sources) - money destinations in
           (fee = 1000 \/ height < CurrencyImpl.upgradeHeight c BLOCK_MAJOR_VERSION_8 /\ 0 < fee -> m_should_be_relayed tvc' = true).
Proof.
  intros Hkeys Hok Hopen Hnottl Hne Hchain Hp. destruct (constructTransaction_ok sort keys b a Hkeys sources destinations messages 0 unlock_time tmp random extra Hok)
    as (tx & sec & r & datas & ex & H1 & _ & _ & H4 & H5 & H6 & H7 & H8 & H9). exists tx, sec. cbv zeta. split; [exact H1|].
  split; [by destruct (Forall3_length_lm _ _ _ _ H4)|]. intros id size [F1 F2 F3 F4 F5 [F6 F7]].
  pose proof (ok_sort _ _ _ _ _ _ _ Hok) as Hsort. rewrite <- Hsort in H5. assert (Hdst : Forall destination_ok (sort destinations)) by (rewrite Hsort; apply Hok).
  pose proof (ok_money _ _ _ _ _ _ _ Hok) as Hmoney. rewrite <- (money_permutation _ _ Hsort) in Hmoney |- *.
  destruct (constructed_fee c pow tx _ sources (Crypto.pub_of r) (sort destinations) height H4 H5 H6 (ok_amounts _ _ _ _ _ _ _ Hok) Hdst Hmoney) as (Eo & Ei & Ef).
  destruct (signed_inputs c pow _ _ _ _ (version (prefix tx)) height H4) as (Hty & _ & Hms & _). rewrite <- Ef.
  destruct (check_inputs_one_ok slow_v0 fast_slow_v1 conceal_slow_v0 gpu_v0 c checkpoints clock bc tx _ sources _ _ null_block eq_refl Hne Hchain H4 H5 Hdst H6 F2) as [used Hc].
  apply add_tx_accepts; [by apply (reachable_ok c pow)|split; [exact F1|rewrite Hms; apply NoDup_nil_2]|exact F6|exact Hty|rewrite Eo, Ei; lia|exact (no_ttl extra r datas ex tx Hopen Hnottl H7 H8 H9)|exact F3| |exact F7|exact F5|exact F4].
  cbn [check_inputs chain_validator]. by rewrite Hc.
Qed.

(** ** Example: a chain of one block and an empty pool *)

Definition test_chain (key : PublicKey) : Blockchain :=
  let bc := BlockchainInvariant.empty_blockchain 0 in
  MkBlockchain [test_block key] test_state (m_blockIndex bc) (m_depositIndex bc) (Blockchain.m_timestampIndex bc) (m_generatedTransactionsIndex bc)
    (m_upgradeDetectorV2 bc) (m_upgradeDetectorV3 bc) (m_upgradeDetectorV4 bc) (m_upgradeDetectorV7 bc) (m_upgradeDetectorV8 bc) 100000.

Lemma test_fresh key tx id : length (inputs (prefix tx)) = 1%nat -> fresh_transaction (CurrencyImpl.CurrencyBuilder false) (test_chain key) empty_pool tx id 2000.
Proof.
  intros Hl. destruct (inputs (prefix tx)) as [|i [|]] eqn:E; try discriminate. constructor; rewrite ?E; try done.
  - destruct i; cbn; [apply NoDup_nil_2|apply NoDup_singleton|apply NoDup_nil_2].
  - by destruct i.
Qed.

Lemma constructed_transaction_pooled_witness : exists key tx sec, let validator := @chain_validator (concealCrypto id id id id) (CurrencyImpl.CurrencyBuilder false) ∅ 0 (test_chain key) in
  constructTransaction test_sort test_keys [test_source key] test_destinations test_messages 0 test_extra 0 (replicate 64 0) [replicate 4 (replicate 64 77)] = Some (Some (tx, sec))
  /\ forall id, exists tvc' p', add_tx (CurrencyImpl.CurrencyBuilder false) (fun x _ => x) 0 0 tx id 2000 (MkTvc false false false false false) false 10 empty_pool = Some (true, tvc', p')
      /\ getTransaction id p' = Some tx.
Proof.
  destruct test_source_owned as [key Hkey].
  destruct (constructed_transaction_pooled id id id id (CurrencyImpl.CurrencyBuilder false) (fun x _ => x) ∅ 0 0 (test_chain key) empty_pool test_sort test_keys 7 9 [test_source key]
    test_destinations test_messages test_extra 0 (replicate 64 0) [replicate 4 (replicate 64 77)] 10 (MkTvc false false false false false) test_account (test_construction key Hkey) eq_refl eq_refl)
    as (tx & sec & E & El & H); [discriminate|constructor; [apply test_on_chain|constructor]|apply reachable_empty|].
  exists key, tx, sec. split; [exact E|]. intros id. destruct (H id 2000 (test_fresh key tx id El)) as (tvc' & p' & Ea & _ & Eg & _). exists tvc', p'. exact (conj Ea Eg).
Defined.
End ChainValidator.
