(* ===== verification/AlternativeChains.v ===== *)
(** The node around the main chain, src/CryptoNoteCore/Blockchain.cpp: [addNewBlock], the
    exchange of transactions between the chain and the pool, the blocks kept as
    alternatives and the switch to a heavier chain.  A computation changes the node and
    returns, throws an exception, fails an assertion of the pool, runs into undefined
    behaviour, or does not finish; [catch] is the [try] around every function. *)

From S2P Require Import Prelude.
From S2P Require Import Varint.
From S2P Require Import Serialization.
From S2P Require Import CryptoNote.
From S2P Require Import CryptoNoteSerialization.
From S2P Require Import CryptoNoteFormatUtils.
From S2P Require Import Float.
From S2P Require Import Currency.
From S2P Require Import Difficulty.
From S2P Require Import ChainIndex.
From S2P Require Import Checkpoints.
From S2P Require Import TransactionExtra.
From S2P Require Import BlockchainIndices.
From S2P Require Import BlockchainState.
From S2P Require Import CryptoInterface.
From S2P Require Import Blockchain.
From S2P Require Import TransactionPool.
From S2P Require Import TransactionPoolInvariant.
From S2P Require Import ChainValidator.
Import CryptoNoteSerialization FormatUtils TransactionExtra BlockchainState CryptoInterface Config Blockchain TransactionPool ChainValidator.

Module AlternativeChains.

(** ** The state and the effects *)

Record Node := MkNode {
  chain : Blockchain;
  pool : tx_memory_pool;
  m_alternative_chains : gmap Hash BlockEntry;
  m_orthanBlocksIndex : OrphanBlocksIndex.index;
  m_checkpoints : gmap Z Hash
}.

Definition set_chain (bc : Blockchain) (n : Node) : Node := MkNode bc (pool n) (m_alternative_chains n) (m_orthanBlocksIndex n) (m_checkpoints n).
Definition set_pool (p : tx_memory_pool) (n : Node) : Node := MkNode (chain n) p (m_alternative_chains n) (m_orthanBlocksIndex n) (m_checkpoints n).
Definition set_alternatives (alts : gmap Hash BlockEntry) (idx : OrphanBlocksIndex.index) (n : Node) : Node := MkNode (chain n) (pool n) alts idx (m_checkpoints n).
Definition set_checkpoints (points : gmap Z Hash) (n : Node) : Node := MkNode (chain n) (pool n) (m_alternative_chains n) (m_orthanBlocksIndex n) points.

Inductive stop := Throw | Abort | Undefined | Unfinished.

Definition step (A : Type) : Type := Node -> (A + stop) * Node.

Definition ret {A} (a : A) : step A := fun n => (inl a, n).
Definition halt {A} (s : stop) : step A := fun n => (inr s, n).
Definition bind {A B} (m : step A) (k : A -> step B) : step B := fun n =>
  match m n with
  | (inl a, n) => k a n
  | (inr s, n) => (inr s, n)
  end.
Definition catch {A} (a : A) (m : step A) : step A := fun n =>
  match m n with
  | (inr Throw, n) => (inl a, n)
  | r => r
  end.
Definition get : step Node := fun n => (inl n, n).
Definition modify (f : Node -> Node) : step unit := fun n => (inl tt, f n).

#[local] Notation "x <- m ;; k" := (bind m (fun x => k)) (at level 100, m at next level, right associativity).
#[local] Notation "m ;;; k" := (bind m (fun _ => k)) (at level 100, right associativity).

Record block_verification_context := MkBvc {
  m_added_to_main_chain : bool;
  m_verification_failed : bool;
  m_marked_as_orphaned : bool;
  m_already_exists : bool;
  m_switched_to_alt_chain : bool
}.

Definition null_bvc : block_verification_context := MkBvc false false false false false.
Definition failed (v : block_verification_context) : block_verification_context :=
  MkBvc (m_added_to_main_chain v) true (m_marked_as_orphaned v) (m_already_exists v) (m_switched_to_alt_chain v).
Definition added (v : block_verification_context) : block_verification_context :=
  MkBvc true (m_verification_failed v) (m_marked_as_orphaned v) (m_already_exists v) (m_switched_to_alt_chain v).
Definition switched (v : block_verification_context) : block_verification_context :=
  MkBvc true (m_verification_failed v) (m_marked_as_orphaned v) (m_already_exists v) true.

Definition block_hash (b : Block) : Hash := (get_block_hash b).2.

Section node.
Context `{CryptoOps} (c : Currency) (pow : Float.fl -> Float.fl -> Float.fl).
(** [time(nullptr)], the clock of the pool and the answer of the DNS, during one call. *)
Context (clock now : Z) (records : list bytes).

Definition validator (n : Node) : TransactionValidator := chain_validator c (m_checkpoints n) clock (chain n).

(** ** Transactions between the chain and the pool *)

Definition pool_add (tx : Transaction) (height : Z) : step bool := fun n =>
  match @add_tx_object c pow (validator n) clock now tx (MkTvc false false false false false) true height (pool n) with
  | None => (inr Abort, n)
  | Some (r, _, p) => (inl r, set_pool p n)
  end.

(** From the last to the first. *)
Fixpoint add_all (transactions : list Transaction) (height : Z) : step unit :=
  match transactions with
  | [] => ret tt
  | tx :: transactions => r <- pool_add tx height;; if r : bool then add_all transactions height else halt Throw
  end.

Definition saveTransactions (transactions : list Transaction) (height : Z) : step unit := add_all (rev transactions) height.

Definition pool_take (id : Hash) : step (option Transaction) := fun n =>
  match take_tx id (pool n) with
  | None => (inr Abort, n)
  | Some (r, p) => (inl ((fun t => t.1.1) <$> r), set_pool p n)
  end.

(** [transactions] are those already taken; [None] is [false]. *)
Fixpoint load_loop (hashes : list Hash) (transactions : list Transaction) (height : Z) : step (option (list Transaction)) :=
  match hashes with
  | [] => ret (Some transactions)
  | h :: hashes =>
      r <- pool_take h;;
      match r with
      | Some tx => load_loop hashes (transactions ++ [tx]) height
      | None => add_all (rev transactions) height;;; ret None
      end
  end.

Definition loadTransactions (block : Block) (height : Z) : step (option (list Transaction)) := load_loop (transactionHashes block) [] height.

(** ** Pushing and popping blocks *)

(** [pushBlock] of a block whose transactions were taken from the pool. *)
Definition push_loaded (b : Block) (transactions : list Transaction) (id : Hash) (bvc : block_verification_context) (height : Z) :
    step (bool * block_verification_context) := fun n =>
  match Blockchain.pushBlock c pow (m_checkpoints n) clock (chain n) b transactions id with
  | (Added, bc) => (inl (true, added bvc), set_chain bc n)
  | (Rejected f, bc) => (saveTransactions transactions height;;; ret (false, if f then failed bvc else bvc)) (set_chain bc n)
  | (Thrown, bc) => (inr Throw, set_chain bc n)
  end.

Definition pushBlock (b : Block) (id : Hash) (bvc : block_verification_context) (height : Z) : step (bool * block_verification_context) :=
  catch (false, failed bvc)
    (transactions <- loadTransactions b height;;
     match transactions with
     | None => ret (false, failed bvc)
     | Some transactions => push_loaded b transactions id bvc height
     end).

Definition pop_chain (blockHash : Hash) : step unit := fun n =>
  match Blockchain.popBlock blockHash (chain n) with
  | (Some _, bc) => (inl tt, set_chain bc n)
  | (None, bc) => (inr Throw, set_chain bc n)
  end.

Definition popBlock (blockHash : Hash) : step unit :=
  n <- get;;
  match last (m_blocks (chain n)) with
  | None => ret tt
  | Some back =>
      saveTransactions (te_tx <$> tail (be_transactions back)) (u32 (Z.of_nat (length (m_blocks (chain n)))));;; pop_chain blockHash
  end.

(** Pops the last block [k] times; the blocks in the order of the chain. *)
Fixpoint pop_blocks (k : nat) (popped : list Block) : step (list Block) :=
  match k with
  | O => ret popped
  | S k =>
      n <- get;;
      match last (m_blocks (chain n)) with
      | None => halt Undefined
      | Some back => popBlock (block_hash (bl back));;; pop_blocks k (bl back :: popped)
      end
  end.

(** ** Switching *)

(** The loop of [rollback_blockchain_switching] that pushes the original blocks. *)
Fixpoint push_again (original_chain : list Block) (height : Z) : step bool :=
  match original_chain with
  | [] => ret true
  | b :: original_chain =>
      r <- pushBlock b (block_hash b) null_bvc (u32 (height + 1));;
      if (r.1 && m_added_to_main_chain r.2)%bool then push_again original_chain (u32 (height + 1)) else ret false
  end.

Definition rollback_blockchain_switching (original_chain : list Block) (rollback_height : Z) : step bool :=
  catch false
    (n <- get;;
     pop_blocks (Z.to_nat (Z.of_nat (length (m_blocks (chain n))) - rollback_height)) [];;;
     push_again original_chain (u32 (rollback_height - 1))).

(** An alternative block; the callers name blocks that are there. *)
Definition null_entry : BlockEntry :=
  MkBlockEntry (MkBlock (MkBlockHeader 0 0 0 0 NULL_HASH) (MkTransaction (MkTransactionPrefix 0 0 [] [] []) []) []) 0 0 0 0 [].
Definition alternative (n : Node) (h : Hash) : BlockEntry := default null_entry (m_alternative_chains n !! h).

(** Connects the blocks; what is left from the first that fails on. *)
Fixpoint connect (alt_chain : list Hash) (height : Z) : step (list Hash) :=
  match alt_chain with
  | [] => ret []
  | h :: rest =>
      n <- get;;
      let b := bl (alternative n h) in
      r <- pushBlock b (block_hash b) null_bvc (u32 (height + 1));;
      if (r.1 && m_added_to_main_chain r.2)%bool then connect rest (u32 (height + 1)) else ret alt_chain
  end.

(** Removes alternative blocks and their entries in the index of orphans. *)
Fixpoint forget (hashes : list Hash) : step unit :=
  match hashes with
  | [] => ret tt
  | h :: hashes =>
      n <- get;;
      match OrphanBlocksIndex.remove (bl (alternative n h)) (m_orthanBlocksIndex n) with
      | None => halt Undefined
      | Some (_, idx) => modify (set_alternatives (delete h (m_alternative_chains n)) idx);;; forget hashes
      end
  end.

(** Whether the alternative blocks have every transaction of the blocks they replace. *)
Definition keeps_transactions (n : Node) (split_height : Z) (alt_chain : list Hash) : bool :=
  let mainChainTxHashes := drop (Z.to_nat split_height) (m_blocks (chain n)) ≫= fun e => transactionHashes (bl e) in
  let altChainTxHashes := alt_chain ≫= fun h => transactionHashes (bl (alternative n h)) in
  forallb (fun tx_hash => bool_decide (tx_hash ∈ altChainTxHashes)) mainChainTxHashes.

(** Offers the replaced blocks as alternatives. *)
Fixpoint keep_old (handle : Block -> Hash -> block_verification_context -> step (bool * block_verification_context)) (blocks : list Block) : step bool :=
  match blocks with
  | [] => ret true
  | b :: blocks =>
      r <- handle b (block_hash b) null_bvc;;
      if (r.1 : bool) then keep_old handle blocks else ret false
  end.

Definition switch_to_alternative_blockchain (handle : Block -> Hash -> block_verification_context -> step (bool * block_verification_context))
    (alt_chain : list Hash) (discard_disconnected_chain : bool) : step bool :=
  catch false
    (n <- get;;
     match alt_chain with
     | [] => ret false
     | front :: _ =>
         let split_height := be_height (alternative n front) in
         let size := Z.of_nat (length (m_blocks (chain n))) in
         if size <=? split_height then ret false
         else if negb (keeps_transactions n split_height alt_chain) then ret false
         else if negb (forallb (fun h => checkBlockVersion c (chain n) (bl (alternative n h))) alt_chain) then ret false
         else
           disconnected_chain <- pop_blocks (Z.to_nat (size - split_height)) [];;
           rest <- connect alt_chain (u32 (split_height - 1));;
           match rest with
           | _ :: _ => rollback_blockchain_switching disconnected_chain split_height;;; forget rest;;; ret false
           | [] =>
               r <- (if discard_disconnected_chain then ret true else keep_old handle disconnected_chain);;
               if negb r then rollback_blockchain_switching disconnected_chain split_height;;; ret false
               else forget alt_chain;;; ret true
           end
     end).

(** ** Alternative blocks *)

(** The blocks from the main chain to [h] and their timestamps, the last block first;
    [None] after [fuel] blocks. *)
Fixpoint alternative_path (fuel : nat) (n : Node) (h : Hash) : option (list Hash * list Z) :=
  match m_alternative_chains n !! h with
  | None => Some ([], [])
  | Some e =>
      match fuel with
      | O => None
      | S fuel =>
          '(path, timestamps) ← alternative_path fuel n (previousBlockHash (header (bl e)));
          Some (path ++ [h], timestamp (header (bl e)) :: timestamps)
      end
  end.

Definition complete_timestamps_vector (blocks : list BlockEntry) (start_top_height : Z) (timestamps : list Z) : list Z :=
  let size := Z.of_nat (length timestamps) in
  if m_timestampCheckWindow c <=? size then timestamps
  else
    let need_elements := m_timestampCheckWindow c - size in
    if Z.of_nat (length blocks) <=? start_top_height then timestamps
    else
      let stop_offset := if need_elements <? start_top_height then start_top_height - need_elements else 0 in
      let first := if start_top_height =? 0 then 0 else stop_offset + 1 in
      timestamps ++ rev ((fun e => timestamp (header (bl e))) <$> take (Z.to_nat (start_top_height + 1 - first)) (drop (Z.to_nat first) blocks)).

(** [None] is an exception. *)
Definition get_next_difficulty_for_alternative_chain (n : Node) (alt_chain : list Hash) (height : Z) : option Z :=
  let blocks := m_blocks (chain n) in
  let size := Z.of_nat (length blocks) in
  let BlockMajorVersion := get_block_major_version_for_height c (chain n) (u32 size) in
  let count := CurrencyImpl.difficultyBlocksCountByBlockVersion c BlockMajorVersion in
  let alts := alternative n <$> alt_chain in
  let length_alt := Z.of_nat (length alt_chain) in
  let main_chain_stop_offset := match alts with e :: _ => be_height e | [] => height end in
  let main_chain_count := Z.min (count - Z.min count length_alt) main_chain_stop_offset in
  let start := main_chain_stop_offset - main_chain_count in
  let start := if start =? 0 then 1 else start in
  let main := if length_alt <? count then take (Z.to_nat (main_chain_stop_offset - start)) (drop (Z.to_nat start) blocks) else [] in
  if (length_alt <? count) && (start <? main_chain_stop_offset) && (size <? main_chain_stop_offset) then None
  else if (length_alt <? count) && (count <? length_alt + Z.of_nat (length main)) then Some 0
  else
    let window := main ++ (if length_alt <? count then alts else drop (Z.to_nat (length_alt - count)) alts) in
    let timestamps := (fun e => timestamp (header (bl e))) <$> window in
    let commulative_difficulties := cumulative_difficulty <$> window in
    let block_index := size in
    let block_major_version := get_block_major_version_for_height c (chain n) (block_index + 1) in
    if 8 <=? block_major_version then Difficulty.nextDifficultyLWMA1 c timestamps commulative_difficulties block_index
    else if 4 <=? block_major_version then Difficulty.nextDifficultyLWMA3 timestamps commulative_difficulties
    else Difficulty.nextDifficulty c block_major_version block_index timestamps commulative_difficulties.

(** The size of the miner transaction and of the transactions that are known, in the chain or
    in the pool; [None] where the chain is read out of range. *)
Definition getBlockCumulativeSize (n : Node) (b : Block) : option Z :=
  foldl (fun size h =>
    size ← size;
    match m_transactionMap (chainState (chain n)) !! h with
    | Some ti => te ← transactionByIndex (m_blocks (chain n)) ti; Some (u64 (size + CurrencyImpl.getObjectBinarySize (te_tx te)))
    | None => Some match getTransaction h (pool n) with Some tx => u64 (size + CurrencyImpl.getObjectBinarySize tx) | None => size end
    end) (Some (CurrencyImpl.getObjectBinarySize (baseTransaction b))) (transactionHashes b).

(** The part of [handle_alternative_block] that finds the place of the block: the path, the
    timestamps and the height of the block; [None] is [return false]. *)
Definition place_block (n : Node) (b : Block) (mainPrev : option Z) : option (list Hash * list Z * Z) + stop :=
  match alternative_path (S (size (m_alternative_chains n))) n (previousBlockHash (header b)) with
  | None => inr Unfinished
  | Some (alt_chain, timestamps) =>
      let blocks := m_blocks (chain n) in
      match alt_chain, mainPrev with
      | front :: _, _ =>
          let bei := alternative n front in
          if Z.of_nat (length blocks) <=? be_height bei then inl None
          else
            match blocks !! Z.to_nat (u32 (be_height bei - 1)) with
            | None => inr Throw
            | Some e =>
                if negb (bool_decide (block_hash (bl e) = previousBlockHash (header (bl bei)))) then inl None
                else inl (Some (alt_chain, complete_timestamps_vector blocks (u32 (be_height bei - 1)) timestamps,
                                u32 (be_height (alternative n (previousBlockHash (header b))) + 1)))
            end
      | [], Some mainPrevHeight => inl (Some ([], complete_timestamps_vector blocks mainPrevHeight timestamps, u32 (mainPrevHeight + 1)))
      | [], None => inl None
      end
  end.

(** The cumulative difficulty of the block before it. *)
Definition previous_difficulty (n : Node) (b : Block) (alt_chain : list Hash) (mainPrev : option Z) : option Z :=
  match alt_chain with
  | _ :: _ => Some (cumulative_difficulty (alternative n (previousBlockHash (header b))))
  | [] => mainPrevHeight ← mainPrev; cumulative_difficulty <$> m_blocks (chain n) !! Z.to_nat mainPrevHeight
  end.

(** The result of a switch in the verification context. *)
Definition switch_result (r : bool) (bvc : block_verification_context) : bool * block_verification_context := (r, if r then switched bvc else failed bvc).

(** From the check of the timestamp on. *)
Definition accept_alternative (handle : Block -> Hash -> block_verification_context -> step (bool * block_verification_context))
    (b : Block) (id : Hash) (bvc : block_verification_context) (mainPrev : option Z) (alt_chain : list Hash) (timestamps : list Z) (height : Z) :
    step (bool * block_verification_context) :=
  n <- get;;
  if negb (check_block_timestamp c timestamps b) then ret (false, failed bvc)
  else
    let '(valid, is_a_checkpoint) := Checkpoints.check_block height id (m_checkpoints n) in
    if negb valid then ret (false, failed bvc)
    else if bool_decide (is_Some (getMergeMiningTagFromExtra (extra (prefix (baseTransaction b))))) && (UPGRADE_HEIGHT_V6 <=? height) then ret (false, bvc)
    else
      match get_next_difficulty_for_alternative_chain n alt_chain height with
      | None => halt Throw
      | Some current_diff =>
          if current_diff =? 0 then ret (false, bvc)
          else if negb (checkProofOfWork b current_diff) then ret (false, failed bvc)
          else
            match prevalidate_miner_transaction c b height, previous_difficulty n b alt_chain mainPrev with
            | None, _ => halt Undefined
            | Some false, _ => ret (false, failed bvc)
            | Some true, None => halt Throw
            | Some true, Some previous =>
                let bei := MkBlockEntry b height 0 (u64 (previous + current_diff)) 0 [] in
                if bool_decide (is_Some (m_alternative_chains n !! id)) then ret (false, bvc)
                else
                  match OrphanBlocksIndex.add b (m_orthanBlocksIndex n), last (m_blocks (chain n)) with
                  | Some idx, Some back =>
                      modify (set_alternatives (<[id := bei]> (m_alternative_chains n)) idx);;;
                      if is_a_checkpoint then r <- switch_to_alternative_blockchain handle (alt_chain ++ [id]) true;; ret (switch_result r bvc)
                      else if cumulative_difficulty back <? cumulative_difficulty bei
                      then r <- switch_to_alternative_blockchain handle (alt_chain ++ [id]) false;; ret (switch_result r bvc)
                      else ret (true, bvc)
                  | _, _ => halt Undefined
                  end
            end
      end.

(** Each switch may offer the blocks it replaced to [handle_alternative_block] again. *)
Fixpoint handle_alternative_block (fuel : nat) (b : Block) (id : Hash) (bvc : block_verification_context) : step (bool * block_verification_context) :=
  match fuel with
  | O => halt Unfinished
  | S fuel =>
      catch (false, failed bvc)
        (let block_height := get_block_height b in
         if block_height =? 0 then ret (false, failed bvc)
         else
           n <- get;;
           modify (set_checkpoints (Checkpoints.load_checkpoints_from_dns records (m_checkpoints n)));;;
           n <- get;;
           if negb (Checkpoints.is_alternative_block_allowed (getCurrentBlockchainHeight (m_blocks (chain n))) block_height (m_checkpoints n)) then ret (false, failed bvc)
           else if negb (checkBlockVersion c (chain n) b) then ret (false, failed bvc)
           else
             match getBlockCumulativeSize n b with
             | None => halt Undefined
             | Some cumulativeSize =>
                 if negb (checkCumulativeBlockSize c cumulativeSize block_height) then ret (false, failed bvc)
                 else
                   let mainPrev := BlockIndex.getBlockHeight (previousBlockHash (header b)) (m_blockIndex (chain n)) in
                   if bool_decide (is_Some (m_alternative_chains n !! previousBlockHash (header b))) || bool_decide (is_Some mainPrev) then
                     match place_block n b mainPrev with
                     | inr s => halt s
                     | inl None => ret (false, bvc)
                     | inl (Some (alt_chain, timestamps, height)) =>
                         accept_alternative (handle_alternative_block fuel) b id bvc mainPrev alt_chain timestamps height
                     end
                   else ret (true, MkBvc (m_added_to_main_chain bvc) (m_verification_failed bvc) true (m_already_exists bvc) (m_switched_to_alt_chain bvc))
             end)
  end.

(** ** New blocks *)

Definition haveBlock (n : Node) (id : Hash) : bool :=
  BlockIndex.hasBlock id (m_blockIndex (chain n)) || bool_decide (is_Some (m_alternative_chains n !! id)).

Definition addNewBlock (fuel : nat) (b : Block) (bvc : block_verification_context) : step (bool * block_verification_context) :=
  catch (false, failed bvc)
    (let '(hashed, id) := get_block_hash b in
     if negb hashed then ret (false, failed bvc)
     else
       n <- get;;
       if haveBlock n id then ret (false, MkBvc (m_added_to_main_chain bvc) (m_verification_failed bvc) (m_marked_as_orphaned bvc) true (m_switched_to_alt_chain bvc))
       else if negb (bool_decide (previousBlockHash (header b) = getTailId (chain n)))
       then handle_alternative_block fuel b id (MkBvc false (m_verification_failed bvc) (m_marked_as_orphaned bvc) (m_already_exists bvc) (m_switched_to_alt_chain bvc))
       else pushBlock b id bvc (u32 (u32 (Z.of_nat (length (m_blocks (chain n)))) + 1))).

End node.

End AlternativeChains.
