(* ===== verification/NodeInvariant.v ===== *)
(** What the node of [AlternativeChains] keeps to: the pool stays consistent through
    every block that is offered, and a reorganisation loses no confirmed transaction. *)

From S2P Require Import Prelude.
From S2P Require Import Varint.
From S2P Require Import Serialization.
From S2P Require Import CryptoNote.
From S2P Require Import CryptoNoteSerialization.
From S2P Require Import CryptoNoteFormatUtils.
From S2P Require Import Float.
From S2P Require Import Currency.
From S2P Require Import DepositIndex.
From S2P Require Import BlockchainIndices.
From S2P Require Import Checkpoints.
From S2P Require Import BlockchainState.
From S2P Require Import CryptoInterface.
From S2P Require Import Blockchain.
From S2P Require Import BlockchainInvariant.
From S2P Require Import TransactionPool.
From S2P Require Import TransactionPoolInvariant.
From S2P Require Import ChainValidator.
From S2P Require Import AlternativeChains.
Import BinarySerializer CryptoNoteSerialization FormatUtils BlockchainState CryptoInterface Blockchain TransactionPool TransactionPoolInvariant ChainValidator AlternativeChains.

Module NodeInvariant.

(** ** The blocks of the main chain *)

Section chain.
Context `{CryptoOps} (c : Currency) (pow : Float.fl -> Float.fl -> Float.fl) (points : gmap Z Hash).

Lemma push_loop_transactions time blocks bd height txs hashes a a' : push_loop c pow points time blocks bd height txs hashes a = LoopDone a' ->
  te_tx <$> acc_transactions a' = (te_tx <$> acc_transactions a) ++ txs.
Proof.
  revert hashes a. induction txs as [|tx txs IH]; intros [|h hashes] a; cbn [push_loop]; intros E.
  - injection E as <-. by rewrite app_nil_r.
  - injection E as <-. by rewrite app_nil_r.
  - discriminate.
  - destruct (checkTransactionInputs _ _ _ _ _ _) as [[ok m]|]; [|discriminate]. destruct (negb _); [discriminate|].
    unfold push_one in E. destruct (pushTransaction _ _ _ _ _) as [[[r idx]|] s]; [|discriminate]. apply IH in E. rewrite E. cbn [acc_transactions].
    rewrite fmap_app. cbn. by rewrite <- (assoc_L (++)).
Qed.

(** [pushBlock] appends the block with its transactions or leaves the blocks. *)
Lemma pushBlock_blocks time bc bd txs id r bc' : Blockchain.pushBlock c pow points time bc bd txs id = (r, bc') ->
  (r <> Added /\ m_blocks bc' = m_blocks bc)
  \/ exists e, m_blocks bc' = m_blocks bc ++ [e] /\ bl e = bd /\ te_tx <$> tail (be_transactions e) = txs.
Proof.
  unfold Blockchain.pushBlock. intros E. destruct (check_block _ _ _ _ _ _) as [r0|d] eqn:Ec.
  { injection E as <- <-. left. split; [|done]. revert Ec. unfold check_block. repeat case_match; congruence. }
  destruct (push_one _ _ _ _ _) as [[coinbase|] s] eqn:E1; [|injection E as <- <-; by left].
  destruct (push_loop _ _ _ _ _ _ _ _ _ _) as [a|a|a] eqn:E2.
  2: { destruct (popTransactions _ _ _ _) as [[u|] s']; injection E as <- <-; by left. }
  2: { injection E as <- <-. by left. }
  destruct (negb _); [injection E as <- <-; by left|]. destruct (validate_miner_transaction _ _ _ _ _ _ _) as [[rw em]|].
  2: { destruct (popTransactions _ _ _ _) as [[u|] s']; injection E as <- <-; by left. }
  apply push_loop_transactions in E2. cbn [acc_transactions] in E2. unfold pushBlockEntry in E.
  destruct (GeneratedTransactionsIndex.add _ _) as [g|]; [|injection E as <- <-; by left]. cbn [mbind option_bind] in E.
  match goal with E : context [m_blocks ?b ++ [?entry]] |- _ => set (e := entry) in E end.
  right. exists e. assert (m_blocks bc' = m_blocks bc ++ [e]) as Eb by (destruct (pushToDepositIndex _ _ _); by injection E as _ <-).
  split; [exact Eb|]. split; [done|]. subst e. cbn [be_transactions]. destruct (acc_transactions a) as [|te tes]; [discriminate|]. injection E2 as _ E2. exact E2.
Qed.

Lemma popBlock_blocks h bc r bc' : Blockchain.popBlock h bc = (r, bc') ->
  (m_blocks bc' = m_blocks bc /\ (r = None \/ m_blocks bc = [])) \/ m_blocks bc' = take (length (m_blocks bc) - 1) (m_blocks bc).
Proof.
  unfold Blockchain.popBlock. destruct (last (m_blocks bc)) as [e|] eqn:El; [|intros [= <- <-]; left; split; [done|right; by apply last_None]].
  destruct (popTransactions _ _ _ _) as [[u|] s]; [|intros [= <- <-]; left; by split; [|left]].
  destruct (GeneratedTransactionsIndex.remove _ _) as [[? g]|]; [|intros [= <- <-]; left; by split; [|left]].
  destruct (DepositIndex.popBlock _) as [d|]; intros [= <- <-]; [by right|left; by split; [|left]].
Qed.

End chain.

(** ** Safe computations *)

(** The transaction has no repeated input, and a size. *)
Definition sound (tx : Transaction) : Prop :=
  distinct_inputs (inputs (prefix tx))
  /\ 0 < match toBinaryArray serializeTransaction tx with Some ba => Z.of_nat (length ba) | None => UINT64_MAX end < 2 ^ 64.

(** The first transaction of a block, the miner transaction, is left out: a block that is
    popped gives the others back to the pool, and never this one. *)
Record node_ok (n : Node) : Prop := {
  node_pool : pool_ok (pool n);
  node_transactions : Forall (fun td => sound (td_tx td)) (m_transactions (pool n));
  node_blocks : Forall (fun e => Forall sound (te_tx <$> tail (be_transactions e))) (m_blocks (chain n))
}.

(** The computation keeps the invariant, whatever stops it, fails no assertion of the
    pool, and its result satisfies [Q]. *)
Definition safe {A} (m : step A) (Q : A -> Prop) : Prop := forall n, node_ok n ->
  node_ok (m n).2 /\ match (m n).1 with inl a => Q a | inr s => s <> Abort end.

Lemma safe_ret {A} (a : A) (Q : A -> Prop) : Q a -> safe (ret a) Q.
Proof. intros Ha n Hn. by split. Qed.

Lemma safe_halt {A} s (Q : A -> Prop) : s <> Abort -> safe (halt s) Q.
Proof. intros Hs n Hn. by split. Qed.

Lemma safe_bind {A B} (m : step A) (k : A -> step B) P Q : safe m P -> (forall a, P a -> safe (k a) Q) -> safe (bind m k) Q.
Proof.
  intros Hm Hk n Hn. unfold bind. specialize (Hm n Hn). destruct (m n) as [[a|s] n']; cbn [fst snd] in *; destruct Hm as [Hn' Ha]; [by apply Hk|by split].
Qed.

Lemma safe_catch {A} (a : A) m (Q : A -> Prop) : Q a -> safe m Q -> safe (catch a m) Q.
Proof. intros Ha Hm n Hn. unfold catch. specialize (Hm n Hn). destruct (m n) as [[a'|[]] n']; cbn [fst snd] in *; try done. by destruct Hm. Qed.

Lemma safe_get : safe get node_ok.
Proof. intros n Hn. by split. Qed.

(** Changes that leave the pool and the blocks alone. *)
Lemma safe_modify f : (forall n, pool (f n) = pool n /\ chain (f n) = chain n) -> safe (modify f) (fun _ => True).
Proof. intros Hf n [H1 H2 H3]. split; [|done]. cbn. destruct (Hf n) as [E1 E2]. by constructor; rewrite ?E1, ?E2. Qed.

Lemma safe_weaken {A} (m : step A) (P Q : A -> Prop) : safe m P -> (forall a, P a -> Q a) -> safe m Q.
Proof. intros Hm HPQ n Hn. destruct (Hm n Hn) as [Hn' Hr]. split; [done|]. destruct (m n).1; auto. Qed.

Create HintDb node.
#[export] Hint Resolve safe_ret safe_halt safe_get : node.
#[export] Hint Extern 1 (_ <> Abort) => discriminate : node.

Section node.
Context `{CryptoOps} (c : Currency) (pow : Float.fl -> Float.fl -> Float.fl) (clock now : Z) (records : list bytes).

Abbreviation any := (fun _ => True).

Lemma pool_add_safe tx height : sound tx -> safe (pool_add c pow clock now tx height) any.
Proof.
  intros [Hd Hs] n [H1 H2 H3]. unfold pool_add, add_tx_object. set (size := match toBinaryArray _ _ with Some _ => _ | None => _ end) in *.
  destruct (@add_tx_ok c pow (validator c clock n) clock now tx (getObjectHash serializeTransaction tx).2 size (MkTvc false false false false false) true height (pool n) H1 Hd Hs)
    as (r & tvc' & p' & E & Hok & Hp'). rewrite E. cbn [fst snd]. split; [|done]. constructor; [exact Hok| |exact H3].
  cbn [pool set_pool]. destruct Hp' as [->|(_ & _ & _ & _ & td & Hperm & _ & Etx & _)]; [exact H2|]. rewrite Hperm. constructor; [|exact H2]. by rewrite Etx.
Qed.

Lemma add_all_safe txs height : Forall sound txs -> safe (add_all c pow clock now txs height) any.
Proof.
  induction 1 as [|tx txs Htx _ IH]; cbn [add_all]; [auto with node|]. eapply safe_bind; [by apply pool_add_safe|]. intros [|] _; [exact IH|auto with node].
Qed.

Lemma saveTransactions_safe txs height : Forall sound txs -> safe (saveTransactions c pow clock now txs height) any.
Proof. intros Hs. apply add_all_safe. by apply Forall_rev. Qed.

Lemma pool_take_safe id : safe (pool_take id) (fun r => forall tx, r = Some tx -> sound tx).
Proof.
  intros n [H1 H2 H3]. unfold pool_take, take_tx. destruct (find_transaction id (m_transactions (pool n))) as [td|] eqn:Ef; [|by split].
  apply find_transaction_Some in Ef as [Hin _]. destruct (pool_remove td (pool n) H1 Hin) as (p' & E & Hok & Et & _). rewrite E. cbn. split.
  - constructor; [exact Hok| |exact H3]. cbn. rewrite Et. rewrite Forall_forall in *. intros x Hx. apply H2. by apply list_elem_of_filter in Hx as [_ Hx].
  - intros tx [= <-]. rewrite Forall_forall in H2. by apply H2.
Qed.

Lemma load_loop_safe hashes txs height : Forall sound txs -> safe (load_loop c pow clock now hashes txs height) (fun r => forall l, r = Some l -> Forall sound l).
Proof.
  revert txs. induction hashes as [|h hashes IH]; intros txs Hs; cbn [load_loop]; [apply safe_ret; congruence|].
  eapply safe_bind; [apply pool_take_safe|]. intros [tx|] Htx.
  - apply IH. apply Forall_app. split; [done|]. constructor; [by apply Htx|constructor].
  - eapply safe_bind; [by apply add_all_safe, Forall_rev|]. intros _ _. apply safe_ret. discriminate.
Qed.

Lemma push_loaded_safe b txs id bvc height : Forall sound txs -> safe (push_loaded c pow clock now b txs id bvc height) any.
Proof.
  intros Hs n Hn. unfold push_loaded. destruct (Blockchain.pushBlock c pow (m_checkpoints n) clock (chain n) b txs id) as [r bc'] eqn:E.
  assert (Hn' : node_ok (set_chain bc' n)).
  { destruct Hn as [H1 H2 H3]. constructor; [exact H1|exact H2|]. cbn [chain set_chain].
    destruct (pushBlock_blocks c pow _ _ _ _ _ _ _ _ E) as [[_ ->]|(e & -> & _ & Ee)]; [exact H3|]. apply Forall_app. split; [exact H3|]. constructor; [by rewrite Ee|constructor]. }
  destruct r as [|f|]; cbn [fst snd]; [by split| |by split].
  apply (safe_bind (saveTransactions c pow clock now txs height) _ any any); [by apply saveTransactions_safe|auto with node|exact Hn'].
Qed.

Lemma pushBlock_safe b id bvc height : safe (pushBlock c pow clock now b id bvc height) any.
Proof.
  apply safe_catch; [done|]. eapply safe_bind; [apply load_loop_safe; constructor|]. intros [txs|] Hs; [|auto with node]. by apply push_loaded_safe, Hs.
Qed.

Lemma popBlock_safe h : safe (popBlock c pow clock now h) any.
Proof.
  eapply safe_bind; [apply safe_get|]. intros n Hn. destruct (last (m_blocks (chain n))) as [back|] eqn:El; [|auto with node].
  eapply safe_bind; [apply saveTransactions_safe|].
  - pose proof (node_blocks n Hn) as Hb. rewrite Forall_forall in Hb. apply Hb. by apply last_Some_elem_of.
  - intros _ _ n' [H1 H2 H3]. unfold pop_chain. destruct (Blockchain.popBlock h (chain n')) as [r bc'] eqn:E.
    assert (node_ok (set_chain bc' n')); [|by destruct r]. constructor; [exact H1|exact H2|]. cbn [chain set_chain].
    destruct (popBlock_blocks _ _ _ _ E) as [[-> _]| ->]; [exact H3|by apply Forall_take].
Qed.

Lemma pop_blocks_safe k popped : safe (pop_blocks c pow clock now k popped) any.
Proof.
  revert popped. induction k as [|k IH]; intros popped; cbn [pop_blocks]; [auto with node|]. eapply safe_bind; [apply safe_get|]. intros n _.
  destruct (last (m_blocks (chain n))); [|auto with node]. eapply safe_bind; [apply popBlock_safe|]. intros _ _. apply IH.
Qed.

Lemma push_again_safe blocks height : safe (push_again c pow clock now blocks height) any.
Proof.
  revert height. induction blocks as [|b blocks IH]; intros height; cbn [push_again]; [auto with node|]. eapply safe_bind; [apply pushBlock_safe|].
  intros r _. destruct (_ && _)%bool; [apply IH|auto with node].
Qed.

Lemma rollback_safe blocks height : safe (rollback_blockchain_switching c pow clock now blocks height) any.
Proof.
  apply safe_catch; [done|]. eapply safe_bind; [apply safe_get|]. intros n _. eapply safe_bind; [apply pop_blocks_safe|]. intros _ _. apply push_again_safe.
Qed.

Lemma connect_safe alts height : safe (connect c pow clock now alts height) any.
Proof.
  revert height. induction alts as [|h alts IH]; intros height; cbn [connect]; [auto with node|]. eapply safe_bind; [apply safe_get|]. intros n _.
  eapply safe_bind; [apply pushBlock_safe|]. intros r _. destruct (_ && _)%bool; [apply IH|auto with node].
Qed.

Lemma forget_safe hashes : safe (forget hashes) any.
Proof.
  induction hashes as [|h hashes IH]; cbn [forget]; [auto with node|]. eapply safe_bind; [apply safe_get|]. intros n _.
  destruct (OrphanBlocksIndex.remove _ _) as [[? idx]|]; [|auto with node]. eapply safe_bind; [by apply safe_modify|]. intros _ _. exact IH.
Qed.

Section handle.
Context (handle : Block -> Hash -> block_verification_context -> step (bool * block_verification_context)) (Hhandle : forall b id bvc, safe (handle b id bvc) any).

Lemma keep_old_safe blocks : safe (keep_old handle blocks) any.
Proof.
  induction blocks as [|b blocks IH]; cbn [keep_old]; [auto with node|]. eapply safe_bind; [apply Hhandle|]. intros r _. destruct r.1; [exact IH|auto with node].
Qed.

Lemma switch_safe alts discard : safe (switch_to_alternative_blockchain c pow clock now handle alts discard) any.
Proof.
  apply safe_catch; [done|]. eapply safe_bind; [apply safe_get|]. intros n _. destruct alts as [|front alts]; [auto with node|]. cbv zeta.
  destruct (_ <=? _); [auto with node|]. destruct (negb _); [auto with node|]. destruct (negb _); [auto with node|].
  eapply safe_bind; [apply pop_blocks_safe|]. intros old _. eapply safe_bind; [apply connect_safe|]. intros [|h rest] _.
  - eapply (safe_bind _ _ any); [destruct discard; [auto with node|apply keep_old_safe]|]. intros [|] _; cbn [negb].
    + eapply safe_bind; [apply forget_safe|auto with node].
    + eapply safe_bind; [apply rollback_safe|auto with node].
  - eapply safe_bind; [apply rollback_safe|]. intros _ _. eapply safe_bind; [apply forget_safe|auto with node].
Qed.

Lemma accept_safe b id bvc mainPrev alts timestamps height : safe (accept_alternative c pow clock now handle b id bvc mainPrev alts timestamps height) any.
Proof.
  eapply safe_bind; [apply safe_get|]. intros n _. destruct (negb _); [auto with node|]. destruct (Checkpoints.Checkpoints.check_block _ _ _) as [valid cp].
  destruct (negb valid); [auto with node|]. destruct (_ && _); [auto with node|]. destruct (get_next_difficulty_for_alternative_chain _ _ _ _) as [d|]; [|auto with node].
  destruct (d =? 0); [auto with node|]. destruct (negb _); [auto with node|]. destruct (prevalidate_miner_transaction _ _ _) as [[|]|]; [|auto with node..].
  destruct (previous_difficulty _ _ _ _) as [prev|]; [|auto with node]. destruct (bool_decide _); [auto with node|].
  destruct (OrphanBlocksIndex.add _ _) as [idx|]; [|auto with node]. destruct (last _) as [back|]; [|auto with node].
  eapply safe_bind; [by apply safe_modify|]. intros _ _. destruct cp; [|destruct (_ <? _)]; [eapply safe_bind; [apply switch_safe|auto with node]..|auto with node].
Qed.

End handle.

Lemma handle_safe fuel b id bvc : safe (handle_alternative_block c pow clock now records fuel b id bvc) any.
Proof.
  revert b id bvc. induction fuel as [|fuel IH]; intros b id bvc; cbn [handle_alternative_block]; [auto with node|]. apply safe_catch; [done|].
  destruct (_ =? 0); [auto with node|]. eapply safe_bind; [apply safe_get|]. intros n _. eapply safe_bind; [by apply safe_modify|]. intros _ _.
  eapply safe_bind; [apply safe_get|]. intros n' _. destruct (negb _); [auto with node|]. destruct (negb _); [auto with node|].
  destruct (getBlockCumulativeSize _ _) as [size|]; [|auto with node]. destruct (negb _); [auto with node|]. destruct (_ || _); [|auto with node].
  destruct (place_block _ _ _ _) as [[[[alts ts] height]|]|s] eqn:Ep; [by apply accept_safe|auto with node|]. apply safe_halt. revert Ep. unfold place_block. repeat case_match; congruence.
Qed.

Lemma addNewBlock_safe fuel b bvc : safe (addNewBlock c pow clock now records fuel b bvc) any.
Proof.
  apply safe_catch; [done|]. destruct (get_block_hash b) as [hashed id]. destruct (negb hashed); [auto with node|]. eapply safe_bind; [apply safe_get|]. intros n _.
  destruct (haveBlock n id); [auto with node|]. destruct (negb _); [apply handle_safe|apply pushBlock_safe].
Qed.

(** ** What a computation that returns did to the blocks *)

Lemma bind_inl {A B} (m : step A) (k : A -> step B) n b n' : bind m k n = (inl b, n') -> exists a n1, m n = (inl a, n1) /\ k a n1 = (inl b, n').
Proof. unfold bind. destruct (m n) as [[a|s] n1]; [|discriminate]. eauto. Qed.

Lemma catch_inl {A} (a b : A) (m : step A) n n' : catch a m n = (inl b, n') -> m n = (inl b, n') \/ b = a.
Proof. unfold catch. destruct (m n) as [[x|[]] n1]; intros E; try discriminate; [by left|right; congruence]. Qed.

Lemma get_inl n a n1 : get n = (inl a, n1) -> a = n /\ n1 = n.
Proof. unfold get. intros E. injection E as <- <-. done. Qed.

Lemma ret_inl {A} (a b : A) n n1 : ret a n = (inl b, n1) -> b = a /\ n1 = n.
Proof. unfold ret. intros E. injection E as <- <-. done. Qed.

(** The blocks and the alternatives stay. *)
Definition same_blocks (n n' : Node) : Prop := m_blocks (chain n') = m_blocks (chain n) /\ m_alternative_chains n' = m_alternative_chains n.

Lemma same_refl n : same_blocks n n.
Proof. done. Qed.

Lemma same_trans n1 n2 n3 : same_blocks n1 n2 -> same_blocks n2 n3 -> same_blocks n1 n3.
Proof. intros [E1 E2] [E3 E4]. split; congruence. Qed.

Lemma add_all_same txs height n : same_blocks n (add_all c pow clock now txs height n).2.
Proof.
  revert n. induction txs as [|tx txs IH]; intros n; cbn [add_all]; [done|]. unfold bind, pool_add at 1. destruct (add_tx_object _ _ _ _ _ _ _ _ _) as [[[[|] ?] p]|]; [|done..].
  eapply same_trans; [|apply IH]. done.
Qed.

Lemma load_loop_same hashes txs height n : same_blocks n (load_loop c pow clock now hashes txs height n).2.
Proof.
  revert txs n. induction hashes as [|h hashes IH]; intros txs n; cbn [load_loop]; [done|]. unfold bind at 1, pool_take. destruct (take_tx h (pool n)) as [[[[[tx ?] ?]|] p]|]; [| |done]; cbn [fmap option_fmap option_map fst].
  - eapply same_trans; [|apply IH]. done.
  - unfold bind. pose proof (add_all_same (rev txs) height (set_pool p n)) as Hs. destruct (add_all _ _ _ _ _ _ _) as [[|] n1]; exact Hs.
Qed.

Lemma pushBlock_true b id bvc height n bvc' n' : pushBlock c pow clock now b id bvc height n = (inl (true, bvc'), n') ->
  bl <$> m_blocks (chain n') = (bl <$> m_blocks (chain n)) ++ [b] /\ m_alternative_chains n' = m_alternative_chains n.
Proof.
  intros [E|[=]]%catch_inl. apply bind_inl in E as (txs & n1 & E1 & E2).
  pose proof (load_loop_same (transactionHashes b) [] height n) as [Eb Ea]. unfold loadTransactions in E1. rewrite E1 in Eb, Ea. cbn [snd] in Eb, Ea.
  destruct txs as [txs|]; [|discriminate]. unfold push_loaded in E2. destruct (Blockchain.pushBlock _ _ _ _ _ _ _ _) as [r bc'] eqn:Ep. destruct r as [|f|]; [|by apply bind_inl in E2 as (? & ? & _ & E2)|discriminate].
  injection E2 as <- <-. destruct (pushBlock_blocks c pow _ _ _ _ _ _ _ _ Ep) as [[[] _]|(e & Ee & Ebl & _)]; [done|].
  cbn [chain set_chain m_alternative_chains]. split; [|exact Ea]. rewrite Ee, fmap_app, Eb. cbn. by rewrite Ebl.
Qed.

Lemma popBlock_inl h back n n' : last (m_blocks (chain n)) = Some back -> popBlock c pow clock now h n = (inl tt, n') ->
  m_blocks (chain n) = m_blocks (chain n') ++ [back] /\ m_alternative_chains n' = m_alternative_chains n.
Proof.
  intros Hl E. apply bind_inl in E as (? & ? & [-> ->]%get_inl & E). rewrite Hl in E. apply bind_inl in E as (? & n1 & E1 & E2).
  match type of E1 with saveTransactions _ _ _ _ ?t ?h' _ = _ => pose proof (add_all_same (rev t) h' n) as [Eb Ea] end. unfold saveTransactions in E1. rewrite E1 in Eb, Ea. cbn [snd] in Eb, Ea.
  unfold pop_chain in E2. destruct (Blockchain.popBlock h (chain n1)) as [[u|] bc'] eqn:Ep; [|discriminate]. injection E2 as <-. cbn [chain set_chain m_alternative_chains].
  apply last_Some in Hl as [l Hl]. rewrite Hl in Eb |- *. destruct (popBlock_blocks _ _ _ _ Ep) as [[_ [|]]|E2]; [done|by destruct l; rewrite Eb in *|].
  split; [|exact Ea]. rewrite E2, Eb, length_app, Nat.add_sub. by rewrite take_app_length.
Qed.

Lemma pop_blocks_inl k popped n l n' : pop_blocks c pow clock now k popped n = (inl l, n') ->
  exists out, l = (bl <$> out) ++ popped /\ length out = k /\ m_blocks (chain n) = m_blocks (chain n') ++ out /\ m_alternative_chains n' = m_alternative_chains n.
Proof.
  revert popped n. induction k as [|k IH]; intros popped n E; cbn [pop_blocks] in E.
  { apply ret_inl in E as [-> ->]. exists []. by rewrite app_nil_r. }
  apply bind_inl in E as (? & ? & [-> ->]%get_inl & E). destruct (last (m_blocks (chain n))) as [back|] eqn:Hl; [|discriminate].
  apply bind_inl in E as ([] & n1 & E1 & E2). destruct (popBlock_inl _ back n n1 Hl E1) as [Eb Ea]. apply IH in E2 as (out & -> & Hk & Eb' & Ea').
  exists (out ++ [back]). rewrite fmap_app, length_app, Hk, Eb, Eb', <- !(assoc_L (++)). cbn. split; [done|]. split; [lia|]. split; [done|congruence].
Qed.

Lemma connect_all alts height n n' : connect c pow clock now alts height n = (inl [], n') ->
  bl <$> m_blocks (chain n') = (bl <$> m_blocks (chain n)) ++ ((fun h => bl (alternative n h)) <$> alts) /\ m_alternative_chains n' = m_alternative_chains n.
Proof.
  revert height n. induction alts as [|h alts IH]; intros height n E; cbn [connect] in E.
  { apply ret_inl in E as [_ ->]. by rewrite app_nil_r. }
  apply bind_inl in E as (? & ? & [-> ->]%get_inl & E). apply bind_inl in E as ([r bvc] & n1 & E1 & E2). cbn [fst snd] in E2.
  destruct r; [|by apply ret_inl in E2 as [[=] _]]. apply pushBlock_true in E1 as [Eb Ea].
  destruct (m_added_to_main_chain bvc); [|by apply ret_inl in E2 as [[=] _]]. cbn [andb] in E2. apply IH in E2 as [Eb' Ea']. unfold alternative in *. rewrite Ea in Eb'.
  rewrite Eb', Eb, <- (assoc_L (++)). split; [reflexivity|congruence].
Qed.

Lemma forget_inl hashes n n' : forget hashes n = (inl tt, n') -> chain n' = chain n.
Proof.
  revert n. induction hashes as [|h hashes IH]; intros n E; cbn [forget] in E; [by apply ret_inl in E as [_ ->]|].
  apply bind_inl in E as (? & ? & [-> ->]%get_inl & E). destruct (OrphanBlocksIndex.remove _ _) as [[? idx]|]; [|discriminate].
  apply bind_inl in E as (? & n1 & E1 & E2). injection E1 as _ <-. apply IH in E2. exact E2.
Qed.

(** ** Confirmed transactions *)

(** The transactions that the blocks of the main chain list.  Their miner transactions are
    not among them: the miner transaction of a block that is replaced goes with it. *)
Definition confirmed (n : Node) : list Hash := (bl <$> m_blocks (chain n)) ≫= transactionHashes.

Definition keeps (m : step (bool * block_verification_context)) : Prop :=
  forall n bvc n', m n = (inl (true, bvc), n') -> confirmed n ⊆ confirmed n'.

Lemma keep_old_keeps handle blocks n n' : (forall b id bvc, keeps (handle b id bvc)) -> keep_old handle blocks n = (inl true, n') -> confirmed n ⊆ confirmed n'.
Proof.
  intros Hh. revert n. induction blocks as [|b blocks IH]; intros n E; cbn [keep_old] in E; [by apply ret_inl in E as [_ ->]|].
  apply bind_inl in E as ([r bvc] & n1 & E1 & E2). cbn [fst] in E2. destruct r; [|by apply ret_inl in E2 as [[=] _]]. apply IH in E2. apply Hh in E1. by etransitivity.
Qed.

(** The blocks that replace others have their transactions. *)
Lemma keeps_transactions_spec n split alts : keeps_transactions n split alts = true ->
  (bl <$> drop (Z.to_nat split) (m_blocks (chain n))) ≫= transactionHashes ⊆ ((fun h => bl (alternative n h)) <$> alts) ≫= transactionHashes.
Proof.
  unfold keeps_transactions. rewrite forallb_forall. intros Hk h. rewrite !list_elem_of_bind. intros (b & Hh & (e & -> & He)%list_elem_of_fmap).
  specialize (Hk h). rewrite bool_decide_eq_true in Hk. rewrite <- list_elem_of_In, !list_elem_of_bind in Hk.
  destruct Hk as (a & Ha & Hin); [by exists e|]. exists (bl (alternative n a)). split; [done|]. by apply (list_elem_of_fmap_2 (fun h => bl (alternative n h))).
Qed.

Lemma switch_keeps handle alts discard n n' : (forall b id bvc, keeps (handle b id bvc)) ->
  switch_to_alternative_blockchain c pow clock now handle alts discard n = (inl true, n') -> confirmed n ⊆ confirmed n'.
Proof.
  intros Hh [E|[=]]%catch_inl. apply bind_inl in E as (? & ? & [-> ->]%get_inl & E). destruct alts as [|front alts]; [by apply ret_inl in E as [[=] _]|].
  cbv zeta in E. set (split := be_height (alternative n front)) in E. destruct (Z.leb_spec (Z.of_nat (length (m_blocks (chain n)))) split) as [|Hsplit]; [by apply ret_inl in E as [[=] _]|].
  destruct (keeps_transactions n split (front :: alts)) eqn:Hk; [|by apply ret_inl in E as [[=] _]]. apply keeps_transactions_spec in Hk.
  cbn [negb] in E. destruct (negb _); [by apply ret_inl in E as [[=] _]|]. apply bind_inl in E as (old & n1 & E1 & E). apply bind_inl in E as (rest & n2 & E2 & E).
  destruct rest as [|x rest].
  2: { apply bind_inl in E as (? & ? & _ & E). apply bind_inl in E as (? & ? & _ & E). by apply ret_inl in E as [[=] _]. }
  apply bind_inl in E as (r & n3 & E3 & E). destruct r; cbn [negb] in E.
  2: { apply bind_inl in E as (? & ? & _ & E). by apply ret_inl in E as [[=] _]. }
  apply bind_inl in E as ([] & n4 & E4%forget_inl & E5). apply ret_inl in E5 as [_ ->].
  apply pop_blocks_inl in E1 as (out & _ & Hlen & Eb & Ea). apply connect_all in E2 as [Eb2 _]. unfold alternative in Eb2. rewrite Ea in Eb2. fold (alternative n) in Eb2.
  assert (confirmed n ⊆ confirmed n2) as H12.
  { unfold confirmed. rewrite Eb2, Eb, fmap_app, !bind_app. assert (out = drop (Z.to_nat split) (m_blocks (chain n))) as ->; [|set_solver].
    rewrite Eb, drop_app_length'; [done|]. rewrite Eb, length_app in Hlen. rewrite Eb, length_app in Hsplit. destruct (decide (0 <= split)); lia. }
  assert (confirmed n2 ⊆ confirmed n3) as H23 by (destruct discard; [by apply ret_inl in E3 as [_ ->]|by apply (keep_old_keeps handle old)]).
  etransitivity; [exact H12|]. etransitivity; [exact H23|]. unfold confirmed. by rewrite E4.
Qed.

Lemma accept_keeps handle b id bvc mainPrev alts timestamps height : (forall b id bvc, keeps (handle b id bvc)) ->
  keeps (accept_alternative c pow clock now handle b id bvc mainPrev alts timestamps height).
Proof.
  intros Hh n bvc' n' E. assert (forall v, ret (false, v) n = (inl (true, bvc'), n') -> confirmed n ⊆ confirmed n') as Hfalse by (intros v [[=] _]%ret_inl).
  apply bind_inl in E as (? & ? & [-> ->]%get_inl & E). destruct (negb _); [by apply Hfalse in E|]. destruct (Checkpoints.check_block _ _ _) as [valid cp].
  destruct (negb valid); [by apply Hfalse in E|]. destruct (_ && _); [by apply Hfalse in E|]. destruct (get_next_difficulty_for_alternative_chain _ _ _ _) as [d|]; [|discriminate].
  destruct (d =? 0); [by apply Hfalse in E|]. destruct (negb _); [by apply Hfalse in E|]. destruct (prevalidate_miner_transaction _ _ _) as [[|]|]; [|by apply Hfalse in E|discriminate].
  destruct (previous_difficulty _ _ _ _) as [prev|]; [|discriminate]. cbv zeta in E. destruct (bool_decide _); [by apply Hfalse in E|].
  destruct (OrphanBlocksIndex.add _ _) as [idx|]; [|discriminate]. destruct (last _) as [back|]; [|discriminate].
  apply bind_inl in E as (? & n1 & E1 & E). injection E1 as _ <-. destruct cp; [|destruct (_ <? _)]; [| |by apply ret_inl in E as [_ ->]].
  all: apply bind_inl in E as (r & n2 & E2 & E); apply ret_inl in E as [E ->]; injection E as <- _; exact (switch_keeps handle _ _ _ _ Hh E2).
Qed.

Lemma handle_keeps fuel b id bvc : keeps (handle_alternative_block c pow clock now records fuel b id bvc).
Proof.
  revert b id bvc. induction fuel as [|fuel IH]; intros b id bvc n bvc' n' E; cbn [handle_alternative_block] in E; [discriminate|]. apply catch_inl in E as [E|[=]].
  destruct (_ =? 0); [by apply ret_inl in E as [[=] _]|]. apply bind_inl in E as (? & ? & [-> ->]%get_inl & E). apply bind_inl in E as (? & n1 & E1 & E). injection E1 as _ <-.
  apply bind_inl in E as (? & ? & [-> ->]%get_inl & E). cbn [chain set_checkpoints] in E. destruct (negb _); [by apply ret_inl in E as [[=] _]|]. destruct (negb _); [by apply ret_inl in E as [[=] _]|].
  destruct (getBlockCumulativeSize _ _) as [size|]; [|discriminate]. destruct (negb _); [by apply ret_inl in E as [[=] _]|]. cbv zeta in E. destruct (_ || _); [|by apply ret_inl in E as [_ ->]].
  destruct (place_block _ _ _ _) as [[[[alts ts] height]|]|s]; [|by apply ret_inl in E as [[=] _]|discriminate]. exact (accept_keeps _ _ _ _ _ _ _ _ IH _ _ _ E).
Qed.

Lemma addNewBlock_keeps fuel b bvc : keeps (addNewBlock c pow clock now records fuel b bvc).
Proof.
  intros n bvc' n' [E|[=]]%catch_inl. destruct (get_block_hash b) as [hashed id]. destruct (negb hashed); [by apply ret_inl in E as [[=] _]|].
  apply bind_inl in E as (? & ? & [-> ->]%get_inl & E). destruct (haveBlock n id); [by apply ret_inl in E as [[=] _]|]. destruct (negb _); [by eapply handle_keeps|].
  apply pushBlock_true in E as [E _]. unfold confirmed. rewrite E, bind_app. set_solver.
Qed.

(** A roll-back that succeeds puts the original blocks back on the common ones. *)
Lemma rollback_restores original height n n' : 0 <= height <= Z.of_nat (length (m_blocks (chain n))) ->
  rollback_blockchain_switching c pow clock now original height n = (inl true, n') ->
  bl <$> m_blocks (chain n') = (bl <$> take (Z.to_nat height) (m_blocks (chain n))) ++ original.
Proof.
  intros Hh [E|[=]]%catch_inl. apply bind_inl in E as (? & ? & [-> ->]%get_inl & E). apply bind_inl in E as (l & n1 & E1 & E).
  apply pop_blocks_inl in E1 as (out & _ & Hlen & Eb & _). assert (take (Z.to_nat height) (m_blocks (chain n)) = m_blocks (chain n1)) as ->.
  { rewrite Eb, take_app_length'; [done|]. rewrite Eb, length_app in Hlen, Hh. lia. }
  clear - E. revert n1 E. generalize (u32 (height - 1)). induction original as [|b original IH]; intros h n1 E; cbn [push_again] in E.
  { apply ret_inl in E as [_ ->]. by rewrite app_nil_r. }
  apply bind_inl in E as ([r bvc] & n2 & E1 & E2). cbn [fst snd] in E2. destruct r; [|by apply ret_inl in E2 as [[=] _]]. apply pushBlock_true in E1 as [Eb _].
  destruct (m_added_to_main_chain bvc); [|by apply ret_inl in E2 as [[=] _]]. apply IH in E2. by rewrite E2, Eb, <- (assoc_L (++)).
Qed.

End node.

(** ** Histories of a node *)

Definition empty_node (limit : Z) (points : gmap Z Hash) : Node := MkNode (BlockchainInvariant.empty_blockchain limit) empty_pool ∅ [] points.

Section histories.
Context `{CryptoOps} (c : Currency) (pow : Float.fl -> Float.fl -> Float.fl).

(** Blocks from the network, and the calls of the pool. *)
Inductive node_step (n : Node) : Node -> Prop :=
| step_block clock now records fuel b bvc : node_step n (addNewBlock c pow clock now records fuel b bvc n).2
| step_transaction clock now tx id size tvc kept height r tvc' p' : sound tx -> 0 < size < 2 ^ 64 ->
    @add_tx c pow (validator c clock n) clock now tx id size tvc kept height (pool n) = Some (r, tvc', p') -> node_step n (set_pool p' n)
| step_idle now now1 now2 order p' : on_idle c now now1 now2 order (pool n) = Some p' -> node_step n (set_pool p' n).

Inductive reachable_node : Node -> Prop :=
| reachable_start limit points : reachable_node (empty_node limit points)
| reachable_next n n' : reachable_node n -> node_step n n' -> reachable_node n'.

Lemma node_step_ok n n' : node_ok n -> node_step n n' -> node_ok n'.
Proof.
  intros Hn [clock now records fuel b bvc|clock now tx id size tvc kept height r tvc' p' [Hd Ht] Hsize E|now now1 now2 order p' E].
  - apply addNewBlock_safe, Hn.
  - destruct Hn as [H1 H2 H3]. destruct (@add_tx_ok c pow (validator c clock n) clock now tx id size tvc kept height (pool n) H1 Hd Hsize) as (r1 & tvc1 & p1 & E1 & Hok & Hp).
    rewrite E in E1. injection E1 as <- <- <-. constructor; [exact Hok| |exact H3]. cbn [pool set_pool].
    destruct Hp as [->|(_ & _ & _ & _ & td & Hperm & _ & Etx & _)]; [exact H2|]. rewrite Hperm. constructor; [|exact H2]. by rewrite Etx.
  - destruct Hn as [H1 H2 H3]. unfold on_idle, removeExpiredTransactions in E. destruct (60 <? _); [|injection E as <-; by constructor].
    destruct (expire_loop_ok c now1 order (forget_deleted c now1 (pool n))) as (p1 & E1 & Hok & Et); [by apply (pool_ok_same (pool n))|]. rewrite E1 in E. injection E as <-.
    constructor; [by apply (pool_ok_same p1)| |exact H3]. cbn [pool set_pool set_lastWorkedTime m_transactions]. rewrite Et. rewrite Forall_forall in *. intros td Hin.
    apply H2. by apply list_elem_of_filter in Hin as [_ Hin].
Qed.

Lemma reachable_node_ok n : reachable_node n -> node_ok n.
Proof.
  induction 1 as [limit points|n n' _ IH Hstep]; [|by eapply node_step_ok]. constructor; [apply pool_ok_empty|constructor|constructor].
Qed.

(** The node as a whole.  Whatever blocks and transactions are offered, on the main
    chain or beside it, rejected, thrown out by an exception or taken after a
    reorganisation, the pool stays consistent, and adding a block, which moves
    transactions between the chain and the pool, fails no assertion of the pool. *)
Theorem node_consistent n : reachable_node n -> pool_ok (pool n)
  /\ forall clock now records fuel b bvc, (addNewBlock c pow clock now records fuel b bvc n).1 <> inr Abort.
Proof.
  intros Hr%reachable_node_ok. split; [apply Hr|]. intros clock now records fuel b bvc. pose proof (addNewBlock_safe c pow clock now records fuel b bvc n Hr) as [_ Hs].
  intros E. by rewrite E in Hs.
Qed.


End histories.

(** ** Example: a block with a transaction of the pool *)

Module NodeExample.
#[local] Instance crypto : CryptoOps :=
  Build_CryptoOps (fun _ => true) (fun _ _ _ => true) (fun _ _ _ _ => true) (fun _ _ => key_image_I)
    (fun _ => replicate 32 0) (fun _ => replicate 32 0) (fun _ => replicate 32 0) (fun _ => replicate 32 0).
Definition c : Currency := CurrencyImpl.CurrencyBuilder false.
Definition pow (x y : Float.fl) : Float.fl := x.
Definition tx : Transaction := MkTransaction (MkTransactionPrefix 1 0 [] [] []) [].
Definition tx_id : Hash := Eval vm_compute in (getObjectHash serializeTransaction tx).2.
Definition block (version height reward time : Z) (prev : Hash) (hashes : list Hash) : Block :=
  MkBlock (MkBlockHeader version 0 0 time prev)
    (MkTransaction (MkTransactionPrefix 1 (height + 10) [InBase (MkBaseInput height)] [MkTransactionOutput reward (OutKey (MkKeyOutput (replicate 32 1)))] []) []) hashes.
Definition offer (b : Block) (n : Node) : ((bool * block_verification_context) + stop) * Node := addNewBlock c pow 5000 5000 [] 2 b null_bvc n.
Definition genesis : Block := block 1 0 5000000 1000 NULL_HASH [].
Definition genesis_id : Hash := Eval vm_compute in block_hash genesis.
Definition first : Block := block 1 1 12000000000000 1100 genesis_id [tx_id].
Definition receive (n : Node) : Node :=
  match @add_tx_object c pow (validator c 5000 n) 5000 5000 tx (MkTvc false false false false false) false 1 (pool n) with
  | Some (_, _, p) => set_pool p n
  | None => n
  end.
Definition node1 : Node := Eval vm_compute in receive (offer genesis (empty_node 0 {[ 100 := NULL_HASH ]})).2.
Definition node2 : Node := Eval vm_compute in (offer first node1).2.

(** A second branch on the genesis block, with the same transaction, that gets longer. *)
Definition alt1 : Block := block 1 1 12000000000000 1101 genesis_id [tx_id].
Definition alt1_id : Hash := Eval vm_compute in block_hash alt1.
Definition alt2 : Block := block 2 2 5000000 1102 alt1_id [].
Definition node3 : Node := Eval vm_compute in (offer alt1 node2).2.
Definition node4 : Node := Eval vm_compute in (offer alt2 node3).2.

Lemma switched_ok : addNewBlock c pow 5000 5000 [] 2 alt2 null_bvc node3 = (inl (true, MkBvc true false false false true), node4).
Proof. vm_compute. reflexivity. Qed.
End NodeExample.


Lemma node_consistent_witness : let n := (NodeExample.offer NodeExample.genesis (empty_node 0 ∅)).2 in
  pool_ok (pool n) /\ (NodeExample.offer NodeExample.first n).1 <> inr Abort.
Proof.
  cbv zeta. unfold NodeExample.offer. set (n := snd _).
  destruct (@node_consistent NodeExample.crypto NodeExample.c NodeExample.pow n) as [Hp Ha]; [|exact (conj Hp (Ha _ _ _ _ _ _))].
  apply (reachable_next _ _ (empty_node 0 ∅)); [apply reachable_start|]. apply (@step_block NodeExample.crypto).
Defined.

End NodeInvariant.
