(* ===== verification/AlternativePaths.v ===== *)
(** The walk of [handle_alternative_block] (src/CryptoNoteCore/Blockchain.cpp) from a block
    through the alternatives to the main chain: for every node that blocks from the network
    can lead to, it ends, and collects the blocks in order with their timestamps.  The
    heights of the alternatives go up by one from block to block, because an alternative is
    kept only at the height its miner transaction names. *)

From S2P Require Import Prelude.
From S2P Require Import Varint.
From S2P Require Import Serialization.
From S2P Require Import CryptoNote.
From S2P Require Import CryptoNoteSerialization.
From S2P Require Import CryptoNoteFormatUtils.
From S2P Require Import Float.
From S2P Require Import Currency.
From S2P Require Import DepositIndex.
From S2P Require Import ChainIndex.
From S2P Require Import Checkpoints.
From S2P Require Import BlockchainIndices.
From S2P Require Import BlockchainState.
From S2P Require Import CryptoInterface.
From S2P Require Import Blockchain.
From S2P Require Import BlockchainInvariant.
From S2P Require Import TransactionPool.
From S2P Require Import TransactionPoolInvariant.
From S2P Require Import ChainValidator.
From S2P Require Import AlternativeChains.
From S2P Require Import NodeInvariant.
Import BinarySerializer CryptoNoteSerialization FormatUtils BlockchainState CryptoInterface Blockchain TransactionPool ChainValidator AlternativeChains NodeInvariant.

Module AlternativePaths.

Abbreviation coinbase_height := GeneratedTransactionsIndex.coinbase_height.
Abbreviation previous e := (previousBlockHash (header (bl e))).

(** ** What the main chain does to its blocks *)

Section chain.
Context `{CryptoOps} (c : Currency) (pow : Float.fl -> Float.fl -> Float.fl) (points : gmap Z Hash).

Lemma prevalidate_height b height : prevalidate_miner_transaction c b height = Some true -> coinbase_height b = Some height.
Proof.
  unfold prevalidate_miner_transaction, GeneratedTransactionsIndex.coinbase_height. destruct (inputs _) as [|i [|]]; [done| |done]. destruct (1 <? _); [done|].
  destruct i as [k|k|k]; [|done|done]. cbn [head]. destruct (Z.eqb_spec (CryptoNote.blockIndex k) height) as [->|]; done.
Qed.

(** A block that is appended has the height of the chain, and its hash is new. *)
Lemma pushBlock_index time bc bd txs r bc' : Blockchain.pushBlock c pow points time bc bd txs (block_hash bd) = (r, bc') ->
  (m_blocks bc' = m_blocks bc /\ m_blockIndex bc' = m_blockIndex bc)
  \/ exists e, m_blocks bc' = m_blocks bc ++ [e] /\ bl e = bd /\ m_blockIndex bc' = m_blockIndex bc ++ [block_hash bd]
       /\ coinbase_height bd = Some (u32 (Z.of_nat (length (m_blocks bc)))).
Proof.
  unfold Blockchain.pushBlock. intros E. destruct (check_block _ _ _ _ _ _) as [r0|d] eqn:Ec; [injection E as _ <-; by left|].
  destruct (push_one _ _ _ _ _) as [[coinbase|] s]; [|injection E as _ <-; by left].
  destruct (push_loop _ _ _ _ _ _ _ _ _ _) as [a|a|a].
  2: { destruct (popTransactions _ _ _ _) as [[u|] s']; injection E as _ <-; by left. }
  2: { injection E as _ <-. by left. }
  destruct (negb _); [injection E as _ <-; by left|]. destruct (validate_miner_transaction _ _ _ _ _ _ _) as [[rw em]|].
  2: { destruct (popTransactions _ _ _ _) as [[u|] s']; injection E as _ <-; by left. }
  apply BlockchainInvariant.check_block_inr in Ec as [Hid Hin]. unfold pushBlockEntry in E.
  destruct (GeneratedTransactionsIndex.add _ _) as [g|]; [|injection E as _ <-; by left]. cbn [mbind option_bind bl] in E.
  unfold BlockIndex.push, BlockIndex.hasBlock in E. cbn [m_blockIndex set_chainState] in E. change ((get_block_hash bd).2) with (block_hash bd) in E.
  rewrite bool_decide_eq_false_2 in E by exact Hid. right. eexists. split; [|split; [|split]].
  - destruct (pushToDepositIndex _ _ _); injection E as _ <-; reflexivity.
  - done.
  - destruct (pushToDepositIndex _ _ _); injection E as _ <-; reflexivity.
  - unfold GeneratedTransactionsIndex.coinbase_height. by rewrite Hin.
Qed.

Lemma popBlock_index h bc r bc' : Blockchain.popBlock h bc = (r, bc') ->
  (m_blocks bc' = m_blocks bc /\ m_blockIndex bc' = m_blockIndex bc)
  \/ (m_blocks bc' = take (length (m_blocks bc) - 1) (m_blocks bc) /\ m_blockIndex bc' = take (length (m_blockIndex bc) - 1) (m_blockIndex bc)).
Proof.
  unfold Blockchain.popBlock. destruct (last (m_blocks bc)) as [e|]; [|intros [= <- <-]; by left].
  destruct (popTransactions _ _ _ _) as [[u|] s]; [|intros [= <- <-]; by left].
  destruct (GeneratedTransactionsIndex.remove _ _) as [[? g]|]; [|intros [= <- <-]; by left].
  destruct (DepositIndex.popBlock _) as [d|]; intros [= <- <-]; [by right|by left].
Qed.

End chain.

(** ** The invariant *)

Section invariant.
(** The blocks that were ever offered to the node. *)
Context (offered : list Block).

(** [h] is the hash of a block that names the height [k]. *)
Definition known (h : Hash) (k : Z) : Prop := exists b, b ∈ offered /\ block_hash b = h /\ coinbase_height b = Some k.

Record paths_ok (n : Node) : Prop := {
  paths_index : m_blockIndex (chain n) = (fun e => block_hash (bl e)) <$> m_blocks (chain n);
  paths_main i e : m_blocks (chain n) !! i = Some e -> known (block_hash (bl e)) (u32 (Z.of_nat i)) /\ bl e ∈ offered;
  paths_alternatives h e : m_alternative_chains n !! h = Some e ->
    h = block_hash (bl e) /\ bl e ∈ offered /\ coinbase_height (bl e) = Some (be_height e)
    /\ exists k, known (previous e) k /\ be_height e = u32 (k + 1)
}.

(** A block that was offered, or that cannot be added. *)
Definition fit (b : Block) : Prop := b ∈ offered \/ coinbase_height b = None.

(** From [n], the computation keeps the invariant, whatever stops it, and its result
    satisfies [Q]. *)
Definition stays {A} (m : step A) (n : Node) (Q : A -> Prop) : Prop :=
  paths_ok (m n).2 /\ match (m n).1 with inl a => Q a | inr _ => True end.

Definition preserves {A} (m : step A) (Q : A -> Prop) : Prop := forall n, paths_ok n -> stays m n Q.

Abbreviation any := (fun _ => True).

Lemma stays_bind {A B} (m : step A) (k : A -> step B) n P Q : stays m n P ->
  (forall a n', m n = (inl a, n') -> paths_ok n' -> P a -> stays (k a) n' Q) -> stays (bind m k) n Q.
Proof.
  unfold stays, bind. destruct (m n) as [[a|s] n'] eqn:E; cbn [fst snd]; intros [Hn Ha] Hk; [|by split]. by apply (Hk a n').
Qed.

Lemma preserves_bind {A B} (m : step A) (k : A -> step B) P Q : preserves m P -> (forall a, P a -> preserves (k a) Q) -> preserves (bind m k) Q.
Proof. intros Hm Hk n Hn. eapply stays_bind; [by apply Hm|]. intros a n' _ Hn' Ha. by apply Hk. Qed.

Lemma preserves_ret {A} (a : A) (Q : A -> Prop) : Q a -> preserves (ret a) Q.
Proof. intros Ha n Hn. by split. Qed.

Lemma preserves_halt {A} s (Q : A -> Prop) : preserves (halt s) Q.
Proof. intros n Hn. by split. Qed.

Lemma preserves_catch {A} (a : A) m (Q : A -> Prop) : Q a -> preserves m Q -> preserves (catch a m) Q.
Proof. intros Ha Hm n Hn. specialize (Hm n Hn). unfold stays, catch in *. destruct (m n) as [[a'|[]] n']; cbn [fst snd] in *; try done. by destruct Hm. Qed.

Lemma preserves_get : preserves get paths_ok.
Proof. intros n Hn. by split. Qed.

(** The invariant looks at the chain and the alternatives only. *)
Lemma paths_same n n' : m_blocks (chain n') = m_blocks (chain n) -> m_blockIndex (chain n') = m_blockIndex (chain n) ->
  m_alternative_chains n' = m_alternative_chains n -> paths_ok n -> paths_ok n'.
Proof. intros E1 E2 E3 [P1 P2 P3]. constructor; rewrite ?E1, ?E2, ?E3; done. Qed.

Create HintDb paths.
#[local] Hint Resolve preserves_ret preserves_halt preserves_get : paths.

Lemma alternative_fit n h : paths_ok n -> fit (bl (alternative n h)).
Proof.
  intros Hn. unfold alternative. destruct (m_alternative_chains n !! h) as [e|] eqn:E; [left; by apply (paths_alternatives n Hn h e)|by right].
Qed.

Lemma paths_take n bc' k : paths_ok n -> m_blocks bc' = take k (m_blocks (chain n)) -> m_blockIndex bc' = take k (m_blockIndex (chain n)) -> paths_ok (set_chain bc' n).
Proof.
  intros [P1 P2 P3] E1 E2. constructor; cbn [chain set_chain m_alternative_chains]; [by rewrite E1, E2, P1, fmap_take| |done].
  intros i e. rewrite E1. intros [Hi _]%lookup_take_Some. by apply P2.
Qed.

Section node.
Context `{CryptoOps} (c : Currency) (pow : Float.fl -> Float.fl -> Float.fl) (clock now : Z) (records : list bytes).

Lemma pool_add_paths tx height : preserves (pool_add c pow clock now tx height) any.
Proof. intros n Hn. unfold stays, pool_add. destruct (add_tx_object _ _ _ _ _ _ _ _ _) as [[[r ?] p]|]; (split; [|done]); [by apply (paths_same n)|done]. Qed.

Lemma add_all_paths txs height : preserves (add_all c pow clock now txs height) any.
Proof.
  induction txs as [|tx txs IH]; cbn [add_all]; [auto with paths|]. eapply preserves_bind; [apply pool_add_paths|]. intros [|] _; [exact IH|auto with paths].
Qed.

Lemma load_loop_paths hashes txs height : preserves (load_loop c pow clock now hashes txs height) any.
Proof.
  revert txs. induction hashes as [|h hashes IH]; intros txs; cbn [load_loop]; [auto with paths|]. eapply (preserves_bind _ _ any).
  - intros n Hn. unfold stays, pool_take. destruct (take_tx h (pool n)) as [[r p]|]; (split; [|done]); [by apply (paths_same n)|done].
  - intros [tx|] _; [apply IH|]. eapply preserves_bind; [apply add_all_paths|auto with paths].
Qed.

Lemma push_loaded_paths b txs bvc height : fit b -> preserves (push_loaded c pow clock now b txs (block_hash b) bvc height) any.
Proof.
  intros Hb n Hn. unfold stays, push_loaded. destruct (Blockchain.pushBlock c pow (m_checkpoints n) clock (chain n) b txs (block_hash b)) as [r bc'] eqn:E.
  assert (Hn' : paths_ok (set_chain bc' n)).
  { destruct (pushBlock_index c pow _ _ _ _ _ _ _ E) as [[E1 E2]|(e & E1 & Ebl & E2 & Ec)]; [by eapply (paths_same n)|]. pose proof Hn as [P1 P2 P3].
    assert (b ∈ offered) as Hb' by (destruct Hb as [|Hb]; [done|congruence]).
    constructor; cbn [chain set_chain m_alternative_chains]; [rewrite E1, E2, P1, fmap_app; cbn; by rewrite Ebl| |done].
    intros i e' Hi. rewrite E1 in Hi. apply lookup_app_Some in Hi as [Hi|[Hi Hi']]; [by apply P2|].
    destruct (i - length (m_blocks (chain n)))%nat eqn:Ei; [|done]. injection Hi' as <-. rewrite Ebl. split; [|done].
    replace i with (length (m_blocks (chain n))) by lia. by exists b. }
  destruct r as [|f|]; cbn [fst snd]; [by split| |by split].
  apply (preserves_bind (saveTransactions c pow clock now txs height) _ any any); [apply add_all_paths|auto with paths|exact Hn'].
Qed.

Lemma pushBlock_paths b bvc height : fit b -> preserves (pushBlock c pow clock now b (block_hash b) bvc height) any.
Proof.
  intros Hb. apply preserves_catch; [done|]. eapply preserves_bind; [apply load_loop_paths|]. intros [txs|] _; [by apply push_loaded_paths|auto with paths].
Qed.

Lemma popBlock_paths h : preserves (popBlock c pow clock now h) any.
Proof.
  eapply preserves_bind; [apply preserves_get|]. intros n _. destruct (last (m_blocks (chain n))) as [back|]; [|auto with paths].
  eapply preserves_bind; [apply add_all_paths|]. intros _ _ n' Hn'. unfold stays, pop_chain. destruct (Blockchain.popBlock h (chain n')) as [r bc'] eqn:E.
  assert (paths_ok (set_chain bc' n')); [|by destruct r]. destruct (popBlock_index _ _ _ _ E) as [[E1 E2]|[E1 E2]]; [by eapply (paths_same n')|].
  apply (paths_take n' bc' (length (m_blocks (chain n')) - 1)); [done..|]. rewrite E2, (paths_index n' Hn'), length_fmap. done.
Qed.

Lemma pop_blocks_paths k popped : Forall fit popped -> preserves (pop_blocks c pow clock now k popped) (Forall fit).
Proof.
  revert popped. induction k as [|k IH]; intros popped Hp; cbn [pop_blocks]; [auto with paths|]. eapply preserves_bind; [apply preserves_get|]. intros n Hn.
  destruct (last (m_blocks (chain n))) as [back|] eqn:El; [|auto with paths]. eapply preserves_bind; [apply popBlock_paths|]. intros _ _. apply IH. constructor; [|done].
  left. rewrite last_lookup in El. by apply (paths_main n Hn) in El as [_ Hin].
Qed.

Lemma push_again_paths blocks height : Forall fit blocks -> preserves (push_again c pow clock now blocks height) any.
Proof.
  intros Hb. revert height. induction Hb as [|b blocks Hf _ IH]; intros height; cbn [push_again]; [auto with paths|]. eapply preserves_bind; [by apply pushBlock_paths|].
  intros r _. destruct (_ && _)%bool; [apply IH|auto with paths].
Qed.

Lemma rollback_paths blocks height : Forall fit blocks -> preserves (rollback_blockchain_switching c pow clock now blocks height) any.
Proof.
  intros Hb. apply preserves_catch; [done|]. eapply preserves_bind; [apply preserves_get|]. intros n _. eapply preserves_bind; [apply pop_blocks_paths; constructor|].
  intros _ _. by apply push_again_paths.
Qed.

Lemma connect_paths alts height : preserves (connect c pow clock now alts height) any.
Proof.
  revert height. induction alts as [|h alts IH]; intros height; cbn [connect]; [auto with paths|]. eapply preserves_bind; [apply preserves_get|]. intros n Hn.
  eapply preserves_bind; [by apply pushBlock_paths, alternative_fit|]. intros r _. destruct (_ && _)%bool; [apply IH|auto with paths].
Qed.

Lemma forget_paths hashes : preserves (forget hashes) any.
Proof.
  induction hashes as [|h hashes IH]; cbn [forget]; [auto with paths|]. intros n Hn. eapply stays_bind; [by apply preserves_get|]. intros ? ? [= <- <-] _ _.
  destruct (OrphanBlocksIndex.remove _ _) as [[? idx]|]; [|by apply preserves_halt]. eapply (stays_bind _ _ _ any); [|intros _ n' _ Hn' _; by apply IH].
  split; [|done]. destruct Hn as [P1 P2 P3]. constructor; [exact P1|exact P2|]. cbn. intros h' e [_ Hl]%lookup_delete_Some. by apply P3.
Qed.

Section handle.
Context (handle : Block -> Hash -> block_verification_context -> step (bool * block_verification_context))
  (Hhandle : forall b bvc, fit b -> preserves (handle b (block_hash b) bvc) any).

Lemma keep_old_paths blocks : Forall fit blocks -> preserves (keep_old handle blocks) any.
Proof.
  induction 1 as [|b blocks Hb _ IH]; cbn [keep_old]; [auto with paths|]. eapply preserves_bind; [by apply Hhandle|]. intros r _. destruct r.1; [exact IH|auto with paths].
Qed.

Lemma switch_paths alts discard : preserves (switch_to_alternative_blockchain c pow clock now handle alts discard) any.
Proof.
  apply preserves_catch; [done|]. eapply preserves_bind; [apply preserves_get|]. intros n _. destruct alts as [|front alts]; [auto with paths|]. cbv zeta.
  destruct (_ <=? _); [auto with paths|]. destruct (negb _); [auto with paths|]. destruct (negb _); [auto with paths|].
  eapply preserves_bind; [apply pop_blocks_paths; constructor|]. intros old Hold. eapply preserves_bind; [apply connect_paths|]. intros [|h rest] _.
  - eapply (preserves_bind _ _ any); [destruct discard; [auto with paths|by apply keep_old_paths]|]. intros [|] _; cbn [negb].
    + eapply preserves_bind; [apply forget_paths|auto with paths].
    + eapply preserves_bind; [by apply rollback_paths|auto with paths].
  - eapply preserves_bind; [by apply rollback_paths|]. intros _ _. eapply preserves_bind; [apply forget_paths|auto with paths].
Qed.

(** An alternative is kept at the height its miner transaction names, one above a known block. *)
Lemma accept_paths b bvc mainPrev alts timestamps height n k : fit b -> paths_ok n -> known (previousBlockHash (header b)) k -> height = u32 (k + 1) ->
  stays (accept_alternative c pow clock now handle b (block_hash b) bvc mainPrev alts timestamps height) n any.
Proof.
  intros Hb Hn Hk Hh. unfold accept_alternative. eapply stays_bind; [by apply preserves_get|]. intros ? ? [= <- <-] _ _.
  destruct (negb _); [by apply preserves_ret|]. destruct (Checkpoints.check_block _ _ _) as [valid cp].
  destruct (negb valid); [by apply preserves_ret|]. destruct (_ && _); [by apply preserves_ret|]. destruct (get_next_difficulty_for_alternative_chain _ _ _ _) as [d|]; [|by apply preserves_halt].
  destruct (d =? 0); [by apply preserves_ret|]. destruct (negb _); [by apply preserves_ret|]. destruct (prevalidate_miner_transaction _ _ _) as [[|]|] eqn:Ep; [|by apply preserves_ret|by apply preserves_halt].
  destruct (previous_difficulty _ _ _ _) as [prev|]; [|by apply preserves_halt]. cbv zeta. destruct (bool_decide _); [by apply preserves_ret|].
  destruct (OrphanBlocksIndex.add _ _) as [idx|]; [|by apply preserves_halt]. destruct (last _) as [back|]; [|by apply preserves_halt].
  apply prevalidate_height in Ep. eapply (stays_bind _ _ _ any).
  - split; [|done]. destruct Hn as [P1 P2 P3]. constructor; [exact P1|exact P2|]. cbn. intros h e [[<- <-]|[_ Hl]]%lookup_insert_Some; [|by apply P3].
    cbn [bl be_height]. split; [done|]. split; [by destruct Hb; [|congruence]|]. split; [exact Ep|]. by exists k.
  - intros _ n' _ Hn' _. revert n' Hn'. destruct cp; [|destruct (_ <? _)]; [eapply preserves_bind; [apply switch_paths|auto with paths]..|by apply preserves_ret].
Qed.

End handle.

(** The last block of a path is the one it was asked for. *)
Lemma alternative_path_last fuel n h path timestamps : alternative_path fuel n h = Some (path, timestamps) -> path <> [] -> is_Some (m_alternative_chains n !! h).
Proof. destruct fuel; cbn; destruct (m_alternative_chains n !! h); try done; [intros [= <- _]; done|intros [= <- _]; done]. Qed.

Lemma place_block_known n b mainPrev alts ts height : paths_ok n -> mainPrev = BlockIndex.getBlockHeight (previousBlockHash (header b)) (m_blockIndex (chain n)) ->
  place_block c n b mainPrev = inl (Some (alts, ts, height)) -> exists k, known (previousBlockHash (header b)) k /\ height = u32 (k + 1).
Proof.
  intros Hn Hm. unfold place_block. destruct (alternative_path _ _ _) as [[path timestamps]|] eqn:Ep; [|done]. destruct path as [|front path].
  - destruct mainPrev as [k|]; [|done]. intros [= _ _ <-]. exists k. split; [|done]. unfold BlockIndex.getBlockHeight in Hm.
    destruct (list_find _ _) as [[i x]|] eqn:Ef; [|done]. injection Hm as ->. apply list_find_Some in Ef as (Hi & -> & _).
    rewrite (paths_index n Hn), list_lookup_fmap in Hi. destruct (m_blocks (chain n) !! i) as [e|] eqn:Ei; [|done]. injection Hi as <-. by apply (paths_main n Hn).
  - apply alternative_path_last in Ep as [e He]; [|done]. cbv zeta. destruct (_ <=? _); [done|]. destruct (m_blocks (chain n) !! _) as [e0|]; [|done]. destruct (negb _); [done|]. intros [= _ _ <-].
    exists (be_height e). unfold alternative. rewrite He. split; [|done]. destruct (paths_alternatives n Hn _ e He) as (Hh & Hin & Hc & _). exists (bl e). by rewrite <- Hh.
Qed.

Lemma handle_paths fuel b bvc : fit b -> preserves (handle_alternative_block c pow clock now records fuel b (block_hash b) bvc) any.
Proof.
  revert b bvc. induction fuel as [|fuel IH]; intros b bvc Hb; cbn [handle_alternative_block]; [auto with paths|]. apply preserves_catch; [done|].
  destruct (_ =? 0); [auto with paths|]. eapply preserves_bind; [apply preserves_get|]. intros n _. eapply (preserves_bind _ _ any); [intros n0 [P1 P2 P3]; by split|]. intros _ _.
  intros n' Hn'. eapply stays_bind; [by apply preserves_get|]. intros ? ? [= <- <-] _ _. destruct (negb _); [by apply preserves_ret|]. destruct (negb _); [by apply preserves_ret|].
  destruct (getBlockCumulativeSize _ _) as [size|]; [|by apply preserves_halt]. destruct (negb _); [by apply preserves_ret|]. destruct (_ || _); [|by apply preserves_ret].
  destruct (place_block _ _ _ _) as [[[[alts ts] height]|]|s] eqn:Ep; [|by apply preserves_ret|by apply preserves_halt].
  destruct (place_block_known n' b _ alts ts height Hn' eq_refl Ep) as (k & Hk & Hh). by apply (accept_paths _ IH b bvc _ alts ts height n' k).
Qed.

Lemma addNewBlock_paths fuel b bvc : b ∈ offered -> preserves (addNewBlock c pow clock now records fuel b bvc) any.
Proof.
  intros Hb. apply preserves_catch; [done|]. destruct (get_block_hash b) as [hashed id] eqn:Eh. assert (id = block_hash b) as -> by (unfold block_hash; by rewrite Eh).
  destruct (negb hashed); [auto with paths|]. eapply preserves_bind; [apply preserves_get|]. intros n _.
  destruct (haveBlock n _); [auto with paths|]. destruct (negb _); [by apply handle_paths; left|by apply pushBlock_paths; left].
Qed.

End node.
End invariant.

(** ** The walk to the main chain *)

(** The alternatives no higher than [h]. *)
Definition below (rank : Hash -> nat) (n : Node) (h : Hash) : gmap Hash BlockEntry := filter (fun kv => (rank kv.1 <= rank h)%nat) (m_alternative_chains n).

Lemma alternative_path_enough rank n : (forall h e, m_alternative_chains n !! h = Some e -> (rank (previousBlockHash (header (bl e))) < rank h)%nat) ->
  forall fuel h, (size (below rank n h) <= fuel)%nat -> exists path timestamps, alternative_path fuel n h = Some (path, timestamps) /\ (length path <= fuel)%nat.
Proof.
  intros Hrank. induction fuel as [|fuel IH]; intros h Hsize; cbn [alternative_path]; destruct (m_alternative_chains n !! h) as [e|] eqn:E; [|by exists [], []| |exists [], []; cbn; split; [done|lia]].
  - exfalso. assert (below rank n h !! h = Some e) as Hb by (apply map_lookup_filter_Some; cbn; split; [done|lia]).
    apply Nat.le_0_r, map_size_empty_inv in Hsize. rewrite Hsize in Hb. by rewrite lookup_empty in Hb.
  - specialize (Hrank h e E). set (h' := previousBlockHash (header (bl e))) in *. destruct (IH h') as (path & ts & -> & Hl).
    + assert (below rank n h' ⊆ delete h (below rank n h)) as Hsub.
      { apply map_subseteq_spec. intros k x [Hk Hr]%map_lookup_filter_Some. cbn in Hr. rewrite lookup_delete_ne by (intros ->; lia). apply map_lookup_filter_Some. cbn. split; [done|lia]. }
      apply map_subseteq_size in Hsub. rewrite map_size_delete_Some in Hsub; [lia|]. exists e. apply map_lookup_filter_Some. cbn. split; [done|lia].
    + cbn. exists (path ++ [h]). eexists. split; [reflexivity|]. rewrite length_app. cbn. lia.
Qed.

Lemma alternative_path_more fuel n h r : alternative_path fuel n h = Some r -> alternative_path (S fuel) n h = Some r.
Proof.
  revert h r. induction fuel as [|fuel IH]; intros h r.
  - cbn. destruct (m_alternative_chains n !! h); [discriminate|done].
  - cbn [alternative_path]. destruct (m_alternative_chains n !! h) as [e|]; [|done]. destruct (alternative_path fuel n _) as [[p t]|] eqn:E; [|discriminate].
    apply IH in E. cbn [alternative_path] in E. by rewrite E.
Qed.

(** [path] leads from the main chain to [h]: alternatives, each the parent of the next and
    one below it, the last of them [h] and the first on a block that is not an alternative. *)
Record joins (n : Node) (h : Hash) (path : list Hash) : Prop := {
  joins_alternatives a : a ∈ path -> is_Some (m_alternative_chains n !! a);
  joins_linked i a a' : path !! i = Some a -> path !! S i = Some a' ->
    previous (alternative n a') = a /\ be_height (alternative n a') = be_height (alternative n a) + 1;
  joins_start a : head path = Some a -> m_alternative_chains n !! previous (alternative n a) = None;
  joins_end : match last path with Some a => a = h | None => m_alternative_chains n !! h = None end
}.

Section walk.
Context (n : Node)
  (climbs : forall h e e', m_alternative_chains n !! h = Some e -> m_alternative_chains n !! previous e = Some e' -> be_height e = be_height e' + 1).

Lemma joins_snoc h e path : m_alternative_chains n !! h = Some e -> joins n (previous e) path -> joins n h (path ++ [h]).
Proof.
  intros E [J1 J2 J3 J4]. assert (alternative n h = e) as Ea by (unfold alternative; by rewrite E). constructor.
  - intros a [Ha|Ha%list_elem_of_singleton]%elem_of_app; [by apply J1|]. rewrite Ha. by exists e.
  - intros i a a' Hi Hi'. apply lookup_snoc_Some in Hi' as [[Hlt Hi']|[Hlen <-]].
    + rewrite lookup_app_l in Hi by lia. by apply (J2 i).
    + rewrite lookup_app_l in Hi by lia. rewrite last_lookup, <- Hlen in J4. cbn in J4. rewrite Hi in J4. subst a. rewrite Ea. split; [done|].
      destruct (J1 (previous e)) as [e' He']; [by eapply list_elem_of_lookup_2|]. rewrite (climbs h e e' E He'). unfold alternative. by rewrite He'.
  - intros a. destruct path as [|p path]; cbn; [|apply J3]. intros [= <-]. by rewrite Ea.
  - by rewrite last_snoc.
Qed.

Lemma alternative_path_joins fuel h path timestamps : alternative_path fuel n h = Some (path, timestamps) ->
  joins n h path /\ timestamps = rev ((fun a => timestamp (header (bl (alternative n a)))) <$> path).
Proof.
  revert h path timestamps. induction fuel as [|fuel IH]; intros h path timestamps; cbn [alternative_path]; destruct (m_alternative_chains n !! h) as [e|] eqn:E; [done| | |].
  1, 3: intros [= <- <-]; split; [constructor; cbn; [by intros a Ha%elem_of_nil|by intros i a a'; rewrite lookup_nil|done|done]|done].
  destruct (alternative_path fuel n _) as [[p t]|] eqn:Ep; [|done]. intros [= <- <-]. apply IH in Ep as [Hj ->]. split; [by apply (joins_snoc h e)|].
  rewrite fmap_app, rev_app_distr. cbn. unfold alternative at 2. by rewrite E.
Qed.

End walk.

(** Heights go up along a path, so it visits no block twice. *)
Lemma joins_height n h path i a a' : joins n h path -> path !! O = Some a -> path !! i = Some a' -> be_height (alternative n a') = be_height (alternative n a) + Z.of_nat i.
Proof.
  intros J H0. revert a'. induction i as [|i IH]; intros a' Hi; [simplify_eq; lia|].
  destruct (lookup_lt_is_Some_2 path i) as [b Hb]; [apply lookup_lt_Some in Hi; lia|]. rewrite (proj2 (joins_linked _ _ _ J i b a' Hb Hi)), (IH b Hb). lia.
Qed.

Lemma joins_NoDup n h path : joins n h path -> NoDup path.
Proof.
  intros J. apply NoDup_alt. intros i j a Hi Hj. destruct path as [|a0 path]; [by rewrite lookup_nil in Hi|].
  pose proof (joins_height _ _ _ i a0 a J eq_refl Hi). pose proof (joins_height _ _ _ j a0 a J eq_refl Hj). lia.
Qed.

(** ** The theorem *)

Section histories.
Context `{CryptoOps} (c : Currency) (pow : Float.fl -> Float.fl -> Float.fl).

(** The nodes that the blocks of the list lead to, offered from its end, with any changes of
    the pool between them. *)
Inductive reaches : list Block -> Node -> Prop :=
| reaches_start limit points : reaches [] (empty_node limit points)
| reaches_block bs n clock now records fuel b bvc : reaches bs n -> reaches (b :: bs) (addNewBlock c pow clock now records fuel b bvc n).2
| reaches_pool bs n p : reaches bs n -> reaches bs (set_pool p n).

Lemma reachable_reaches n : reachable_node c pow n -> exists bs, reaches bs n.
Proof.
  induction 1 as [limit points|n n' _ [bs IH] Hstep]; [exists []; apply reaches_start|].
  destruct Hstep as [clock now records fuel b bvc|clock now tx id size tvc kept height r tvc' p' _ _ _|now now1 now2 order p' _];
    [exists (b :: bs); by apply reaches_block|exists bs; by apply reaches_pool..].
Qed.

Lemma paths_more bs b n : paths_ok bs n -> paths_ok (b :: bs) n.
Proof.
  assert (forall h k, known bs h k -> known (b :: bs) h k) as Hk by (intros h k (b' & Hin & Hb); exists b'; by split; [right|]).
  intros [P1 P2 P3]. constructor; [done| |].
  - intros i e [Hi Hin]%P2. split; [by apply Hk|by right].
  - intros h e (Hh & Hin & Hc & k & Hp & E)%P3. split; [done|]. split; [by right|]. split; [done|]. exists k. split; [by apply Hk|done].
Qed.

Lemma reaches_paths bs n : reaches bs n -> paths_ok bs n.
Proof.
  induction 1 as [limit points|bs n clock now records fuel b bvc _ IH|bs n p _ IH].
  - constructor; [done|done|]. intros h e. cbn. by rewrite lookup_empty.
  - apply addNewBlock_paths; [left|by apply paths_more].
  - by apply (paths_same bs n).
Qed.

(** The heights of the blocks fit 32 bits with one to spare, and equal hashes are of blocks
    of the same height. *)
Definition heights_fit (bs : list Block) : Prop := forall b k, b ∈ bs -> coinbase_height b = Some k -> 0 <= k < 2 ^ 32 - 1.
Definition hashes_apart (bs : list Block) : Prop := forall b b', b ∈ bs -> b' ∈ bs -> block_hash b = block_hash b' -> coinbase_height b = coinbase_height b'.

Lemma paths_climb bs n h e e' : paths_ok bs n -> heights_fit bs -> hashes_apart bs ->
  m_alternative_chains n !! h = Some e -> m_alternative_chains n !! previous e = Some e' -> be_height e = be_height e' + 1.
Proof.
  intros Hn Hfit Hapart (_ & _ & _ & k & (b & Hb & Hhash & Hk) & E)%(paths_alternatives bs n Hn) (Hp & Hin & Hc & _)%(paths_alternatives bs n Hn).
  rewrite Hp in Hhash. pose proof (Hapart b (bl e') Hb Hin Hhash) as Heq. rewrite Hk, Hc in Heq. injection Heq as ->. pose proof (Hfit _ _ Hin Hc). rewrite E. unfold u32. apply Z.mod_small. lia.
Qed.

(** The walk ends: the height goes down with every block. *)
Lemma paths_walk bs n h : paths_ok bs n -> heights_fit bs -> hashes_apart bs ->
  exists path timestamps, alternative_path (S (size (m_alternative_chains n))) n h = Some (path, timestamps) /\ (length path <= size (m_alternative_chains n))%nat.
Proof.
  intros Hn Hfit Hapart. set (rank := fun h => match m_alternative_chains n !! h with Some e => S (Z.to_nat (be_height e)) | None => O end).
  destruct (alternative_path_enough rank n) with (fuel := size (m_alternative_chains n)) (h := h) as (path & ts & E & Hl).
  - intros h' e E. unfold rank. rewrite E. destruct (m_alternative_chains n !! previous e) as [e'|] eqn:E'; [|lia].
    pose proof (paths_climb bs n h' e e' Hn Hfit Hapart E E'). destruct (paths_alternatives bs n Hn _ _ E') as (_ & Hin & Hc & _). pose proof (Hfit _ _ Hin Hc). lia.
  - apply map_subseteq_size, map_filter_subseteq.
  - exists path, ts. split; [by apply alternative_path_more|done].
Qed.

(** C36: the walk of [handle_alternative_block] from a block through the alternatives to the
    main chain ends, in every node that blocks from the network lead to, whatever was added,
    refused, or left by a switch.  One step more than there are alternatives is enough, so
    the model never stops for lack of fuel; the path visits no block twice, every block of
    it is the parent of the next and one below it, it starts on a block that is not an
    alternative and ends with the block asked for, and the timestamps are those of its
    blocks, the last first.  The blocks name heights below [2 ^ 32 - 1], and two of them
    with the same hash name the same height. *)
Theorem alternative_path_terminates bs n h : reaches bs n -> heights_fit bs -> hashes_apart bs ->
  (exists path, alternative_path (S (size (m_alternative_chains n))) n h
                  = Some (path, rev ((fun a => timestamp (header (bl (alternative n a)))) <$> path))
     /\ joins n h path /\ NoDup path /\ (length path <= size (m_alternative_chains n))%nat)
  /\ forall b mainPrev, place_block c n b mainPrev <> inr Unfinished.
Proof.
  intros Hn%reaches_paths Hfit Hapart. pose proof (fun h e e' => paths_climb bs n h e e' Hn Hfit Hapart) as Hclimb.
  assert (forall h, exists path, alternative_path (S (size (m_alternative_chains n))) n h
            = Some (path, rev ((fun a => timestamp (header (bl (alternative n a)))) <$> path))
          /\ joins n h path /\ (length path <= size (m_alternative_chains n))%nat) as Hwalk.
  { intros h'. destruct (paths_walk bs n h' Hn Hfit Hapart) as (path & ts & E & Hl). destruct (alternative_path_joins n Hclimb _ _ _ _ E) as [Hj ->]. by exists path. }
  split.
  - destruct (Hwalk h) as (path & E & Hj & Hl). exists path. split; [done|]. split; [done|]. split; [by eapply joins_NoDup|done].
  - intros b mainPrev. unfold place_block. destruct (Hwalk (previousBlockHash (header b))) as (path & -> & _ & _). destruct path as [|front path]; [by destruct mainPrev|].
    cbv zeta. destruct (_ <=? _); [done|]. destruct (m_blocks (chain n) !! _) as [e|]; [|done]. by destruct (negb _).
Qed.

End histories.

(** ** Example: a second block on the genesis block *)

Module PathExample.
Import NodeExample.
Definition blocks : list Block := [alt1; first; genesis].
Definition first_id : Hash := Eval vm_compute in block_hash first.
Definition node : Node := (offer alt1 (offer first (offer genesis (empty_node 0 ∅)).2).2).2.

Lemma blocks_reach : @reaches crypto c pow blocks node.
Proof. do 3 apply (@reaches_block crypto). apply (@reaches_start crypto). Qed.

Lemma blocks_apart : hashes_apart blocks.
Proof.
  assert (block_hash genesis = genesis_id) as Hg by (vm_compute; reflexivity). assert (block_hash first = first_id) as Hf by (vm_compute; reflexivity).
  assert (block_hash alt1 = alt1_id) as Ha by (vm_compute; reflexivity).
  intros b b' Hb Hb'. unfold blocks in Hb, Hb'. rewrite !elem_of_cons, elem_of_nil in Hb, Hb'. destruct Hb as [->|[->|[->|[]]]], Hb' as [->|[->|[->|[]]]]; rewrite ?Hg, ?Hf, ?Ha; done.
Qed.
End PathExample.

Lemma alternative_path_terminates_witness : let n := PathExample.node in
  (exists path, alternative_path (S (size (m_alternative_chains n))) n NodeExample.alt1_id
                  = Some (path, rev ((fun a => timestamp (header (bl (alternative n a)))) <$> path))
     /\ joins n NodeExample.alt1_id path /\ NoDup path /\ (length path <= size (m_alternative_chains n))%nat)
  /\ forall b mainPrev, place_block NodeExample.c n b mainPrev <> inr Unfinished.
Proof.
  apply (@alternative_path_terminates NodeExample.crypto NodeExample.c NodeExample.pow PathExample.blocks); [exact PathExample.blocks_reach| |exact PathExample.blocks_apart].
  intros b k Hb. unfold PathExample.blocks in Hb. rewrite !elem_of_cons, elem_of_nil in Hb. destruct Hb as [->|[->|[->|[]]]]; cbn; intros [= <-]; lia.
Defined.

End AlternativePaths.
