(* ===== verification/Core.v ===== *)
(** src/CryptoNoteCore/Core.cpp: the node as the network sees it.  Transactions and blocks
    arrive as byte strings; [check_tx_semantic] filters the transactions before the pool,
    [addNewBlock] takes the blocks.  The miner, the relay to other nodes and the queries
    are left out. *)

From S2P Require Import Prelude.
From S2P Require Import Varint.
From S2P Require Import Serialization.
From S2P Require Import CryptoNote.
From S2P Require Import CryptoNoteSerialization.
From S2P Require Import CryptoNoteFormatUtils.
From S2P Require Import Float.
From S2P Require Import Currency.
From S2P Require Import ChainIndex.
From S2P Require Import BlockchainState.
From S2P Require Import CryptoInterface.
From S2P Require Import Blockchain.
From S2P Require Import BlockchainInvariant.
From S2P Require Import TransactionPool.
From S2P Require Import TransactionPoolInvariant.
From S2P Require Import ChainValidator.
From S2P Require Import AlternativeChains.
From S2P Require Import NodeInvariant.
Import BinarySerializer CryptoNoteSerialization FormatUtils BlockchainState CryptoInterface Config Blockchain TransactionPool TransactionPoolInvariant ChainValidator AlternativeChains NodeInvariant.

Module Core.

#[local] Notation "x <- m ;; k" := (bind m (fun x => k)) (at level 100, m at next level, right associativity).

Section core.
Context `{CryptoOps} (c : Currency) (pow : Float.fl -> Float.fl -> Float.fl) (clock now : Z) (records : list bytes).

(** ** Transactions *)

Fixpoint keyimages_loop (ki : gset KeyImage) (ins : list TransactionInput) : bool :=
  match ins with
  | [] => true
  | InKey k :: ins => if bool_decide (keyImage k ∈ ki) then false else keyimages_loop ({[keyImage k]} ∪ ki) ins
  | _ :: ins => keyimages_loop ki ins
  end.

Definition check_tx_inputs_keyimages_diff (tx : Transaction) : bool := keyimages_loop ∅ (inputs (prefix tx)).

(** The height that is tried when the amounts do not match. *)
Definition test_height (height : Z) : Z := if END_MULTIPLIER_BLOCK <? height then 0 else UINT32_MAX.

(** The result and the height, which the call may change. *)
Definition check_tx_semantic (tx : Transaction) (height : Z) : bool * Z :=
  if bool_decide (inputs (prefix tx) = []) then (false, height)
  else if negb (check_inputs_types_supported (prefix tx)) then (false, height)
  else if negb (check_tx_outputs c tx height) then (false, height)
  else if negb (check_money_overflow (prefix tx)) then (false, height)
  else
    let amount_in := CurrencyImpl.getTransactionAllInputsAmount c pow tx height in
    let amount_out := get_outs_money_amount tx in
    let '(ok, height) :=
      if amount_in <? amount_out then
        if (m_depositHeightV4 c <? height) || (CurrencyImpl.getTransactionAllInputsAmount c pow tx (test_height height) <? amount_out) then (false, height)
        else (true, test_height height)
      else (true, height) in
    if negb ok then (false, height)
    else if negb (check_tx_inputs_keyimages_diff tx) then (false, height)
    else if negb (checkMultisignatureInputsDiff (prefix tx)) then (false, height)
    else (true, height).

Definition haveTransaction (n : Node) (id : Hash) : bool := bool_decide (is_Some (m_transactionMap (chainState (chain n)) !! id)).

Definition add_new_tx (tx : Transaction) (tx_hash : Hash) (blob_size : Z) (tvc : tx_verification_context) (kept : bool) (height : Z) :
    step (bool * tx_verification_context) := fun n =>
  if haveTransaction n tx_hash then (inl (true, tvc), n)
  else if have_tx tx_hash (pool n) then (inl (true, tvc), n)
  else
    match @add_tx c pow (validator c clock n) clock now tx tx_hash blob_size tvc kept height (pool n) with
    | None => (inr Abort, n)
    | Some (r, tvc, p) => (inl (r, tvc), set_pool p n)
    end.

Definition verification_failed (tvc : tx_verification_context) : tx_verification_context :=
  MkTvc (m_should_be_relayed tvc) true (m_verification_impossible tvc) (m_added_to_pool tvc) (m_tx_fee_too_small tvc).

Definition handleIncomingTransaction (tx : Transaction) (txHash : Hash) (blobSize : Z) (tvc : tx_verification_context) (kept : bool) (height : Z) :
    step (bool * tx_verification_context) :=
  let '(ok, height) := check_tx_semantic tx height in
  if negb ok then ret (false, verification_failed tvc) else add_new_tx tx txHash blobSize tvc kept height.

(** The height of the block with the transaction; the inner [None] is [false], the outer one an exception. *)
Definition getBlockContainingTransaction (n : Node) (txId : Hash) : option (option Z) :=
  match m_transactionMap (chainState (chain n)) !! txId with
  | None => Some None
  | Some ti =>
      e ← m_blocks (chain n) !! Z.to_nat (ti_block ti);
      _ ← BlockIndex.getBlockId (be_height e) (m_blockIndex (chain n));
      Some (Some (be_height e))
  end.

Definition handle_incoming_tx (tx_blob : bytes) (kept : bool) : step (bool * tx_verification_context) :=
  let tvc := MkTvc false false false false false in
  if m_maxTxSize c <? Z.of_nat (length tx_blob) then ret (false, verification_failed tvc)
  else
    match parseAndValidateTransactionFromBinaryArray tx_blob with
    | None => ret (false, verification_failed tvc)
    | Some (tx, tx_hash, _) =>
        n <- get;;
        match getBlockContainingTransaction n tx_hash with
        | None => halt Throw
        | Some blockHeight =>
            handleIncomingTransaction tx tx_hash (Z.of_nat (length tx_blob)) tvc kept (default (getCurrentBlockchainHeight (m_blocks (chain n))) blockHeight)
        end
    end.

(** ** Blocks *)

(** Whether a new block can be sent on: its transactions are in the chain, or it has been
    replaced since; [None] is an exception. *)
Definition relay_check (n : Node) (b : Block) : option bool :=
  let lookup h := m_transactionMap (chainState (chain n)) !! h in
  let missed_txs := filter (fun h => lookup h = None) (transactionHashes b) in
  if negb (forallb (fun h => match lookup h with Some ti => bool_decide (is_Some (transactionByIndex (m_blocks (chain n)) ti)) | None => true end) (transactionHashes b)) then None
  else
    match missed_txs with
    | [] => Some (bool_decide (is_Some (toBinaryArray serializeBlock b)))
    | _ => id ← BlockIndex.getBlockId (get_block_height b) (m_blockIndex (chain n)); Some (negb (bool_decide (id = block_hash b)))
    end.

Definition handle_incoming_block (fuel : nat) (b : Block) (bvc : block_verification_context) (relay_block : bool) : step (bool * block_verification_context) :=
  r <- addNewBlock c pow clock now records fuel b bvc;;
  if relay_block && m_added_to_main_chain r.2 then
    n <- get;;
    match relay_check n b with
    | None => halt Throw
    | Some ok => ret (ok, r.2)
    end
  else ret (true, r.2).

Definition handle_incoming_block_blob (fuel : nat) (block_blob : bytes) (bvc : block_verification_context) (relay_block : bool) : step (bool * block_verification_context) :=
  if m_maxBlockBlobSize c <? Z.of_nat (length block_blob) then ret (false, failed bvc)
  else
    match fromBinaryArray serializeBlock block_blob with
    | None => ret (false, failed bvc)
    | Some b => handle_incoming_block fuel b bvc relay_block
    end.

(** ** What passes the checks *)

Lemma keyimages_loop_spec ki ins : keyimages_loop ki ins = true <-> NoDup (key_images ins) /\ forall k, k ∈ key_images ins -> k ∉ ki.
Proof.
  revert ki. induction ins as [|[base|k|m] ins IH]; intros ki; cbn [keyimages_loop].
  - split; [|done]. intros _. split; [apply NoDup_nil_2|]. intros k Hk. by apply not_elem_of_nil in Hk.
  - apply IH.
  - change (key_images (InKey k :: ins)) with (keyImage k :: key_images ins). rewrite NoDup_cons. setoid_rewrite elem_of_cons. case_bool_decide as Hk; [naive_solver|].
    rewrite IH. setoid_rewrite elem_of_union. setoid_rewrite elem_of_singleton. naive_solver.
  - apply IH.
Qed.

Lemma check_tx_semantic_distinct tx height height' : check_tx_semantic tx height = (true, height') -> distinct_inputs (inputs (prefix tx)).
Proof.
  unfold check_tx_semantic. destruct (bool_decide _); [discriminate|]. do 3 (destruct (negb _); [discriminate|]). cbv zeta. destruct (if _ <? _ then _ else _) as [ok h].
  destruct (negb ok); [discriminate|]. destruct (check_tx_inputs_keyimages_diff tx) eqn:Ek; [|discriminate]. cbn [negb]. destruct (checkMultisignatureInputsDiff (prefix tx)) eqn:Em; [|discriminate].
  intros _. split; [by apply keyimages_loop_spec in Ek as [Hn _]|]. exact (proj1 (checkMultisignatureInputsDiff_spec _) Em).
Qed.

(** With [index_widths] it is what [BlockchainInvariant.offered_block] asks of the
    transactions of a block. *)
Lemma check_tx_semantic_admissible tx height height' : check_tx_semantic tx height = (true, height') -> BlockchainInvariant.index_widths tx -> BlockchainInvariant.admissible tx.
Proof.
  intros Hc Hw. pose proof (check_tx_semantic_distinct _ _ _ Hc) as [Hk _]. unfold check_tx_semantic in Hc. case_bool_decide as Hne; [discriminate|].
  do 3 (destruct (negb _); [discriminate|]). cbv zeta in Hc. destruct (if _ <? _ then _ else _) as [ok h]. destruct (negb ok); [discriminate|]. destruct (negb _); [discriminate|].
  destruct (checkMultisignatureInputsDiff (prefix tx)) eqn:Em; [|discriminate]. by split_and!.
Qed.

Lemma parsed_sound tx_blob tx tx_hash prefix_hash : is_bytes tx_blob -> Z.of_nat (length tx_blob) < 2 ^ 64 -> tx_blob <> [] ->
  parseAndValidateTransactionFromBinaryArray tx_blob = Some (tx, tx_hash, prefix_hash) -> distinct_inputs (inputs (prefix tx)) -> sound tx.
Proof.
  intros Hb Hl Hne Hp Hd. split; [exact Hd|]. unfold parseAndValidateTransactionFromBinaryArray in Hp. destruct (fromBinaryArray serializeTransaction tx_blob) as [tx'|] eqn:E; [|discriminate].
  cbn [mbind option_bind] in Hp. destruct (getObjectHash _ _) as [? ?]. injection Hp as -> _ _.
  destruct (BinaryArray_iff serializeTransaction _ tx_blob tx Hb) as [Hiff _]. apply Hiff in E as [_ E]. rewrite E. destruct tx_blob; [done|cbn [length] in *; lia].
Qed.

(** An empty byte string is no transaction. *)
Lemma empty_blob : fromBinaryArray serializeTransaction [] = None.
Proof. reflexivity. Qed.

Lemma add_new_tx_safe tx hash size tvc kept height : sound tx -> 0 < size < 2 ^ 64 -> safe (add_new_tx tx hash size tvc kept height) (fun _ => True).
Proof.
  intros [Hd Ht] Hs n Hn. unfold add_new_tx. destruct (haveTransaction n hash); [by split|]. destruct (have_tx hash (pool n)); [by split|]. destruct Hn as [H1 H2 H3].
  destruct (@add_tx_ok c pow (validator c clock n) clock now tx hash size tvc kept height (pool n) H1 Hd Hs) as (r & tvc' & p' & E & Hok & Hp). rewrite E. cbn [fst snd]. split; [|done].
  constructor; [exact Hok| |exact H3]. cbn [pool set_pool]. destruct Hp as [->|(_ & _ & _ & _ & td & Hperm & _ & Etx & _)]; [exact H2|]. rewrite Hperm. constructor; [|exact H2]. by rewrite Etx.
Qed.

Lemma handle_incoming_tx_safe tx_blob kept : is_bytes tx_blob -> m_maxTxSize c < 2 ^ 64 -> safe (handle_incoming_tx tx_blob kept) (fun _ => True).
Proof.
  intros Hb Hmax. unfold handle_incoming_tx. cbv zeta. destruct (Z.ltb_spec (m_maxTxSize c) (Z.of_nat (length tx_blob))); [by apply safe_ret|].
  destruct (parseAndValidateTransactionFromBinaryArray tx_blob) as [[[tx tx_hash] ph]|] eqn:Ep; [|by apply safe_ret].
  assert (tx_blob <> []) as Hne by (intros ->; unfold parseAndValidateTransactionFromBinaryArray in Ep; by rewrite empty_blob in Ep).
  eapply safe_bind; [apply safe_get|]. intros n _. destruct (getBlockContainingTransaction n tx_hash) as [h|]; [|by apply safe_halt].
  unfold handleIncomingTransaction. destruct (check_tx_semantic tx _) as [ok h'] eqn:Es. destruct ok; cbn [negb]; [|by apply safe_ret].
  apply check_tx_semantic_distinct in Es. apply add_new_tx_safe; [eapply parsed_sound; [exact Hb|lia|exact Hne|exact Ep|exact Es]|]. destruct tx_blob; [done|cbn [length] in *; lia].
Qed.

Lemma handle_incoming_block_blob_safe fuel blob bvc relay : safe (handle_incoming_block_blob fuel blob bvc relay) (fun _ => True).
Proof.
  unfold handle_incoming_block_blob. destruct (_ <? _); [by apply safe_ret|]. destruct (fromBinaryArray _ _) as [b|]; [|by apply safe_ret].
  eapply safe_bind; [apply addNewBlock_safe|]. intros r _. destruct (_ && _); [|by apply safe_ret]. eapply safe_bind; [apply safe_get|]. intros n _.
  destruct (relay_check n b); [by apply safe_ret|by apply safe_halt].
Qed.

End core.

(** ** The node in the network *)

Section network.
Context `{CryptoOps} (c : Currency) (pow : Float.fl -> Float.fl -> Float.fl).

(** A message of the network, a transaction or a block as bytes, or the idle call. *)
Inductive message :=
| Transaction_blob (blob : bytes) (kept : bool)
| Block_blob (blob : bytes) (bvc : block_verification_context) (relay : bool)
| Idle (now1 now2 : Z) (order : list Hash).

(** A message with the clocks and the answer of the DNS when it is taken, and the number of
    nested reorganisations to follow. *)
Record event := MkEvent { ev_clock : Z; ev_now : Z; ev_records : list bytes; ev_fuel : nat; ev_message : message }.

Definition core_idle (now now1 now2 : Z) (order : list Hash) : step unit := fun n =>
  match on_idle c now now1 now2 order (pool n) with
  | None => (inr Abort, n)
  | Some p => (inl tt, set_pool p n)
  end.

(** The node after a computation, however it stopped; [None] is a failed assertion of the pool. *)
Definition survive {A} (r : (A + stop) * Node) : option Node :=
  match r.1 with inr Abort => None | _ => Some r.2 end.

Definition receive (e : event) (n : Node) : option Node :=
  match ev_message e with
  | Transaction_blob blob kept => survive (handle_incoming_tx c pow (ev_clock e) (ev_now e) blob kept n)
  | Block_blob blob bvc relay => survive (handle_incoming_block_blob c pow (ev_clock e) (ev_now e) (ev_records e) (ev_fuel e) blob bvc relay n)
  | Idle now1 now2 order => survive (core_idle (ev_now e) now1 now2 order n)
  end.

Fixpoint run (events : list event) (n : Node) : option Node :=
  match events with
  | [] => Some n
  | e :: events => n ← receive e n; run events n
  end.

(** Transactions arrive as bytes. *)
Definition event_ok (e : event) : Prop := match ev_message e with Transaction_blob blob _ => is_bytes blob | _ => True end.

Lemma survive_safe {A} (m : step A) Q n : safe m Q -> node_ok n -> exists n', survive (m n) = Some n' /\ node_ok n'.
Proof.
  intros Hm Hn. destruct (Hm n Hn) as [Hn' Hr]. exists (m n).2. split; [|exact Hn']. unfold survive. destruct (m n).1 as [a|[]]; done.
Qed.

Lemma core_idle_safe now now1 now2 order : safe (core_idle now now1 now2 order) (fun _ => True).
Proof.
  intros n Hn. unfold core_idle, on_idle, removeExpiredTransactions. destruct (60 <? _); [|by destruct n]. destruct Hn as [H1 H2 H3].
  destruct (expire_loop_ok c now1 order (forget_deleted c now1 (pool n))) as (p1 & E & Hok & Et); [by apply (pool_ok_same (pool n))|]. rewrite E. cbn. split; [|done].
  constructor; [by apply (pool_ok_same p1)| |exact H3]. cbn [pool set_pool set_lastWorkedTime m_transactions]. rewrite Et. rewrite Forall_forall in *. intros td Hin.
  apply H2. by apply list_elem_of_filter in Hin as [_ Hin].
Qed.

Lemma receive_ok e n : m_maxTxSize c < 2 ^ 64 -> event_ok e -> node_ok n -> exists n', receive e n = Some n' /\ node_ok n'.
Proof.
  intros Hmax He Hn. unfold receive, event_ok in *. destruct (ev_message e) as [blob kept|blob bvc relay|now1 now2 order].
  - eapply survive_safe; [by apply handle_incoming_tx_safe|exact Hn].
  - eapply survive_safe; [apply handle_incoming_block_blob_safe|exact Hn].
  - eapply survive_safe; [apply core_idle_safe|exact Hn].
Qed.

(** C1: the whole node.  Whatever byte strings arrive as transactions and blocks, in
    whatever order and at whatever times, with blocks that extend the chain, lie beside it,
    reorganise it, are rejected or thrown out by an exception, no assertion of the pool
    ever fails, the pool stays consistent, and every transaction in it and in the chain
    spends distinct inputs. *)
Theorem core_consistent events limit points : m_maxTxSize c < 2 ^ 64 -> Forall event_ok events ->
  exists n, run events (empty_node limit points) = Some n /\ node_ok n.
Proof.
  intros Hmax. assert (node_ok (empty_node limit points)) as Hn by (constructor; [apply pool_ok_empty|constructor|constructor]). revert Hn.
  generalize (empty_node limit points). induction events as [|e events IH]; intros n Hn Hev; [by exists n|]. apply Forall_cons in Hev as [He Hev].
  destruct (receive_ok e n Hmax He Hn) as (n1 & E & Hn1). cbn [run]. rewrite E. by apply IH.
Qed.

End network.

(** The genesis block, then its miner transaction as a transaction of its own. *)
Definition test_events : list event :=
  [MkEvent 1500000000 1500000000 [] 2 (Block_blob genesis_blob null_bvc true); MkEvent 1500000060 1500000060 [] 2 (Transaction_blob genesis_coinbase_blob false);
   MkEvent 1500000120 1500000120 [] 2 (Idle 1500000120 1500000121 [])].

Lemma core_consistent_witness : exists n, @run NodeExample.crypto NodeExample.c NodeExample.pow test_events (empty_node 0 ∅) = Some n /\ node_ok n.
Proof.
  apply (@core_consistent NodeExample.crypto); [vm_compute; reflexivity|]. constructor; [exact Logic.I|]. constructor; [|constructor; [exact Logic.I|constructor]].
  unfold event_ok, genesis_coinbase_blob. cbn [ev_message]. repeat constructor; unfold is_u8; lia.
Defined.
End Core.
