(* ===== verification/Mnemonics.v ===== *)
(** src/Mnemonics/Mnemonics.cpp and CRC32.h: the seed phrases of secret keys. A key is eight
    32-bit words; each becomes three words of the list, and a 25th word repeats the one that
    the CRC-32 of the three-letter prefixes selects. Strings are Rocq strings, one character
    a byte. [None] stands for an access outside a vector; a refused phrase gives the zero
    key, as the code does. *)
From S2P Require Import Prelude.
From S2P Require Import IntUtil.
From S2P Require Import Varint.
From S2P Require Import Serialization.
From S2P Require Import CryptoNoteSerialization.
From S2P Require Import Chacha8.
From S2P Require Import WordList.
From Stdlib Require Import Ascii.
Import IntUtil Varint Stream CryptoNoteSerialization Chacha8.

Module Mnemonics.

(** * CRC32.h *)

Definition crc_table : list Z := [
  0; 1996959894; 3993919788; 2567524794; 124634137; 1886057615; 3915621685; 2657392035;
  249268274; 2044508324; 3772115230; 2547177864; 162941995; 2125561021; 3887607047; 2428444049;
  498536548; 1789927666; 4089016648; 2227061214; 450548861; 1843258603; 4107580753; 2211677639;
  325883990; 1684777152; 4251122042; 2321926636; 335633487; 1661365465; 4195302755; 2366115317;
  997073096; 1281953886; 3579855332; 2724688242; 1006888145; 1258607687; 3524101629; 2768942443;
  901097722; 1119000684; 3686517206; 2898065728; 853044451; 1172266101; 3705015759; 2882616665;
  651767980; 1373503546; 3369554304; 3218104598; 565507253; 1454621731; 3485111705; 3099436303;
  671266974; 1594198024; 3322730930; 2970347812; 795835527; 1483230225; 3244367275; 3060149565;
  1994146192; 31158534; 2563907772; 4023717930; 1907459465; 112637215; 2680153253; 3904427059;
  2013776290; 251722036; 2517215374; 3775830040; 2137656763; 141376813; 2439277719; 3865271297;
  1802195444; 476864866; 2238001368; 4066508878; 1812370925; 453092731; 2181625025; 4111451223;
  1706088902; 314042704; 2344532202; 4240017532; 1658658271; 366619977; 2362670323; 4224994405;
  1303535960; 984961486; 2747007092; 3569037538; 1256170817; 1037604311; 2765210733; 3554079995;
  1131014506; 879679996; 2909243462; 3663771856; 1141124467; 855842277; 2852801631; 3708648649;
  1342533948; 654459306; 3188396048; 3373015174; 1466479909; 544179635; 3110523913; 3462522015;
  1591671054; 702138776; 2966460450; 3352799412; 1504918807; 783551873; 3082640443; 3233442989;
  3988292384; 2596254646; 62317068; 1957810842; 3939845945; 2647816111; 81470997; 1943803523;
  3814918930; 2489596804; 225274430; 2053790376; 3826175755; 2466906013; 167816743; 2097651377;
  4027552580; 2265490386; 503444072; 1762050814; 4150417245; 2154129355; 426522225; 1852507879;
  4275313526; 2312317920; 282753626; 1742555852; 4189708143; 2394877945; 397917763; 1622183637;
  3604390888; 2714866558; 953729732; 1340076626; 3518719985; 2797360999; 1068828381; 1219638859;
  3624741850; 2936675148; 906185462; 1090812512; 3747672003; 2825379669; 829329135; 1181335161;
  3412177804; 3160834842; 628085408; 1382605366; 3423369109; 3138078467; 570562233; 1426400815;
  3317316542; 2998733608; 733239954; 1555261956; 3268935591; 3050360625; 752459403; 1541320221;
  2607071920; 3965973030; 1969922972; 40735498; 2617837225; 3943577151; 1913087877; 83908371;
  2512341634; 3803740692; 2075208622; 213261112; 2463272603; 3855990285; 2094854071; 198958881;
  2262029012; 4057260610; 1759359992; 534414190; 2176718541; 4139329115; 1873836001; 414664567;
  2282248934; 4279200368; 1711684554; 285281116; 2405801727; 4167216745; 1634467795; 376229701;
  2685067896; 3608007406; 1308918612; 956543938; 2808555105; 3495958263; 1231636301; 1047427035;
  2932959818; 3654703836; 1088359270; 936918000; 2847714899; 3736837829; 1202900863; 817233897;
  3183342108; 3401237130; 1404277552; 615818150; 3134207493; 3453421203; 1423857449; 601450431;
  3009837614; 3294710456; 1567103746; 711928724; 3020668471; 3272380065; 1510334235; 755167117].

Definition char_code (c : ascii) : Z := Z.of_nat (nat_of_ascii c).

(** One character. The index keeps the low byte only, so the sign of [char] is irrelevant. *)
Definition crc_char (crc : Z) (c : ascii) : Z :=
  let byteIndex := Z.land (Z.lxor (char_code c) crc) 0xff in
  Z.lxor (Z.shiftr crc 8) (crc_table !!! Z.to_nat byteIndex).

Definition crc32 (input : string) : Z :=
  Z.lxor (foldl crc_char 0xFFFFFFFF (String.list_ascii_of_string input)) 0xFFFFFFFF.

(** * Mnemonics.cpp *)

Definition tolower (c : ascii) : ascii :=
  let n := nat_of_ascii c in
  if (65 <=? n)%nat && (n <=? 90)%nat then ascii_of_nat (n + 32) else c.

Fixpoint lower (s : string) : string :=
  match s with
  | EmptyString => EmptyString
  | String c s => String (tolower c) (lower s)
  end.

(** The characters [operator>>] skips: space and the controls from tab to carriage return. *)
Definition isspace (c : ascii) : bool :=
  let n := nat_of_ascii c in (n =? 32)%nat || ((9 <=? n)%nat && (n <=? 13)%nat).

Definition emit (word : string) : list string :=
  match word with
  | EmptyString => []
  | _ => [word]
  end.

(** The words [stream >> word] yields; [word] is what has been read of the current one. *)
Fixpoint split_words (word s : string) : list string :=
  match s with
  | EmptyString => emit word
  | String c s =>
      if isspace c then emit word ++ split_words EmptyString s
      else split_words (String.append word (String c EmptyString)) s
  end.

(** [std::find] and [std::distance]: the length of the list when the word is not in it. *)
Fixpoint find_word (w : string) (l : list string) : nat :=
  match l with
  | [] => 0
  | x :: l => if bool_decide (x = w) then 0 else S (find_word w l)
  end.

Definition getWordIndexes (words : list string) : list Z :=
  (fun w => Z.of_nat (find_word w English)) <$> words.

Definition getChecksumWord (words : list string) : option string :=
  let trimmed := foldr (fun word s => String.append (String.substring 0 3 word) s) EmptyString words in
  words !! Z.to_nat (crc32 trimmed mod Z.of_nat (length words)).

Definition hasValidChecksum (words : list string) : option bool :=
  expected ← getChecksumWord (take (length words - 1) words);
  found ← words !! (length words - 1)%nat;
  Some (bool_decide (found = expected)).

Definition wlLen : Z := Z.of_nat (length English).

(** The 32-bit word three indexes stand for; [None]: the phrase is refused. *)
Definition decode_three (w1 w2 w3 : Z) : option Z :=
  let val := u32 (w1 + wlLen * (((wlLen - w1) + w2) mod wlLen) + wlLen * wlLen * (((wlLen - w2) + w3) mod wlLen)) in
  if val mod wlLen =? w1 then Some val else None.

(** The loop over the first 24 words, three at a time. *)
Fixpoint decode_loop (wordIndexes : list Z) : option bytes :=
  match wordIndexes with
  | w1 :: w2 :: w3 :: rest =>
      val ← decode_three w1 w2 w3;
      data ← decode_loop rest;
      Some (le_bytes 4 val ++ data)
  | _ => Some []
  end.

Definition null_key : bytes := replicate 32 0.

Definition mnemonicToPrivateKey_words (words : list string) : option bytes :=
  if negb (length words =? 25)%nat then Some null_key
  else if negb (forallb (fun word => bool_decide (lower word ∈ English)) words) then Some null_key
  else
    valid ← hasValidChecksum words;
    if negb valid then Some null_key
    else Some (default null_key (decode_loop (getWordIndexes words))).

Definition mnemonicToPrivateKey (words : string) : option bytes :=
  mnemonicToPrivateKey_words (split_words EmptyString words).

Definition encode_three (val : Z) : option (list string) :=
  let w1 := val mod wlLen in
  let w2 := (val / wlLen + w1) mod wlLen in
  let w3 := (val / wlLen / wlLen + w2) mod wlLen in
  x1 ← English !! Z.to_nat w1;
  x2 ← English !! Z.to_nat w2;
  x3 ← English !! Z.to_nat w3;
  Some [x1; x2; x3].

Fixpoint encode_loop (vals : list Z) : option (list string) :=
  match vals with
  | [] => Some []
  | val :: vals => three ← encode_three val; rest ← encode_loop vals; Some (three ++ rest)
  end.

Definition mnemonic_words (privateKey : bytes) : option (list string) :=
  words ← encode_loop (words 8 privateKey);
  checksum ← getChecksumWord words;
  Some (words ++ [checksum]).

Fixpoint join_spaces (ws : list string) : string :=
  match ws with
  | [] => EmptyString
  | [w] => w
  | w :: ws => String.append w (String " " (join_spaces ws))
  end.

Definition privateKeyToMnemonic (privateKey : bytes) : option string :=
  words ← mnemonic_words privateKey;
  Some (join_spaces words).

(** * CRC-32 *)

(** The reference: CRC-32 with the reflected polynomial 0xEDB88320, one bit at a time. *)
Definition crc_bit (crc : Z) : Z :=
  Z.lxor (Z.shiftr crc 1) (if Z.testbit crc 0 then 0xEDB88320 else 0).

Definition crc_reference (input : string) : Z :=
  Z.lxor (foldl (fun crc c => Nat.iter 8 crc_bit (Z.lxor crc (char_code c))) 0xFFFFFFFF
            (String.list_ascii_of_string input)) 0xFFFFFFFF.

Lemma crc_bit_lxor x y : crc_bit (Z.lxor x y) = Z.lxor (crc_bit x) (crc_bit y).
Proof.
  unfold crc_bit. rewrite Z.shiftr_lxor, Z.lxor_spec. apply Z.bits_inj. intros k.
  rewrite !Z.lxor_spec. destruct (Z.testbit x 0), (Z.testbit y 0); cbn [xorb]; rewrite ?Z.bits_0;
    repeat (let b := fresh in set (b := Z.testbit _ k); destruct b); reflexivity.
Qed.

Lemma crc_bits_lxor n x y : Nat.iter n crc_bit (Z.lxor x y) = Z.lxor (Nat.iter n crc_bit x) (Nat.iter n crc_bit y).
Proof. induction n as [|n IH]; [done|]. by rewrite !Nat.iter_succ, IH, crc_bit_lxor. Qed.

Lemma crc_bit_even y : crc_bit (2 * y) = y.
Proof.
  unfold crc_bit. rewrite Z.testbit_even_0, Z.lxor_0_r, Z.shiftr_div_pow2 by lia. change (2 ^ 1) with 2.
  rewrite Z.mul_comm. by apply Z.div_mul.
Qed.

Lemma crc_bits_high n y : Nat.iter n crc_bit (2 ^ Z.of_nat n * y) = y.
Proof.
  revert y. induction n as [|n IH]; intros y; [cbn; lia|]. rewrite Nat.iter_succ.
  replace (2 ^ Z.of_nat (S n) * y) with (2 ^ Z.of_nat n * (2 * y)); [by rewrite IH, crc_bit_even|].
  rewrite Nat2Z.inj_succ, Z.pow_succ_r by lia. ring.
Qed.

Lemma split_byte x : x = Z.lxor (2 ^ Z.of_nat 8 * Z.shiftr x 8) (Z.land x 0xff).
Proof.
  change 0xff with (Z.ones 8). rewrite Z.mul_comm, <- Z.shiftl_mul_pow2 by lia.
  apply Z.bits_inj'. intros k Hk. rewrite Z.lxor_spec, Z.shiftl_spec, Z.land_spec by done.
  destruct (decide (k < 8)) as [H|H].
  - rewrite (Z.testbit_neg_r (Z.shiftr x 8)), Z.ones_spec_low by lia. by destruct (Z.testbit x k).
  - rewrite Z.shiftr_spec, Z.ones_spec_high by lia. replace (k - Z.of_nat 8 + 8) with k by lia. by destruct (Z.testbit x k).
Qed.

Lemma crc_table_bits : crc_table = (fun i => Nat.iter 8 crc_bit (Z.of_nat i)) <$> seq 0 256.
Proof. vm_compute. reflexivity. Qed.

Lemma crc_table_lookup i : 0 <= i < 256 -> crc_table !!! Z.to_nat i = Nat.iter 8 crc_bit i.
Proof.
  intros Hi. rewrite crc_table_bits. apply list_lookup_total_correct. rewrite list_lookup_fmap, lookup_seq_lt by lia.
  cbn [fmap option_fmap option_map]. do 2 f_equal. lia.
Qed.

Lemma char_code_range c : 0 <= char_code c < 256.
Proof. unfold char_code. pose proof (nat_ascii_bounded c). lia. Qed.

Lemma crc_char_bits crc c : crc_char crc c = Nat.iter 8 crc_bit (Z.lxor crc (char_code c)).
Proof.
  unfold crc_char. rewrite (Z.lxor_comm (char_code c)).
  assert (Hs : Z.shiftr (Z.lxor crc (char_code c)) 8 = Z.shiftr crc 8).
  { rewrite Z.shiftr_lxor, (Z.shiftr_div_pow2 (char_code c)), (Z.div_small (char_code c)) by (pose proof (char_code_range c); lia).
    apply Z.lxor_0_r. }
  rewrite (split_byte (Z.lxor crc (char_code c))) at 2. rewrite crc_bits_lxor, crc_bits_high, Hs.
  f_equal. apply crc_table_lookup. change 0xff with (Z.ones 8). rewrite Z.land_ones by lia. apply Z.mod_pos_bound. lia.
Qed.

(** The table-driven checksum of CRC32.h is CRC-32: for every input it is the checksum
    the bit-by-bit definition with the reflected polynomial 0xEDB88320 gives. *)
Theorem crc32_correct input : crc32 input = crc_reference input.
Proof.
  unfold crc32, crc_reference. f_equal. generalize 0xFFFFFFFF. induction (String.list_ascii_of_string input) as [|c l IH];
    intros crc; [done|]. cbn [foldl]. rewrite crc_char_bits. apply IH.
Qed.

(** * The word list *)

(** A number for a word that grows along the list: twelve letters in radix 27. *)
Fixpoint rank (n : nat) (s : string) : Z :=
  match n, s with
  | O, _ => 0
  | S n, EmptyString => 0
  | S n, String c s => (char_code c - 96) * 27 ^ Z.of_nat n + rank n s
  end.

Fixpoint increasing (x : Z) (l : list Z) : bool :=
  match l with
  | [] => true
  | y :: l => (x <? y) && increasing y l
  end.

Lemma increasing_above x l : increasing x l = true -> Forall (fun y => x < y) l.
Proof.
  revert x. induction l as [|y l IH]; intros x H; [done|]. cbn in H. apply andb_true_iff in H as [H1 H2].
  apply Z.ltb_lt in H1. constructor; [done|]. eapply Forall_impl; [by apply IH|]. cbn. lia.
Qed.

Lemma increasing_NoDup x l : increasing x l = true -> NoDup l.
Proof.
  revert x. induction l as [|y l IH]; intros x H; [constructor|]. cbn in H. apply andb_true_iff in H as [_ H].
  constructor; [|by eapply IH]. intros Hin. pose proof (proj1 (Forall_forall _ _) (increasing_above _ _ H) _ Hin). cbn in *. lia.
Qed.

Definition spaceless (s : string) : bool := forallb (fun c => negb (isspace c)) (String.list_ascii_of_string s).

Definition listed (w : string) : bool :=
  bool_decide (lower w = w) && spaceless w && negb (bool_decide (w = EmptyString)).

Lemma English_increasing : increasing 0 (rank 12 <$> English) = true.
Proof. vm_compute. reflexivity. Qed.

Lemma English_listed : forallb listed English = true.
Proof. vm_compute. reflexivity. Qed.

Lemma English_NoDup : NoDup English.
Proof. eapply NoDup_fmap_1, increasing_NoDup, English_increasing. Qed.

Lemma wlLen_value : wlLen = 1626.
Proof. reflexivity. Qed.

Lemma English_word w : w ∈ English -> lower w = w /\ spaceless w = true /\ w <> EmptyString.
Proof.
  intros Hw. pose proof (proj1 (forallb_True listed English) ltac:(by rewrite English_listed)) as H.
  rewrite Forall_forall in H. specialize (H w Hw). unfold listed in H.
  apply Is_true_true, andb_true_iff in H as [[H1 H2]%andb_true_iff H3]. apply bool_decide_eq_true in H1.
  split; [done|]. split; [done|]. by intros ->.
Qed.

Lemma find_word_lookup l i w : NoDup l -> l !! i = Some w -> find_word w l = i.
Proof.
  intros Hl. revert i. induction Hl as [|x l Hx Hl IH]; intros i H; [done|]. destruct i as [|i]; cbn in H |- *.
  - injection H as ->. by rewrite bool_decide_true.
  - rewrite bool_decide_false; [by rewrite (IH i)|]. intros ->. apply Hx. by eapply list_elem_of_lookup_2.
Qed.

Lemma find_word_elem l w : w ∈ l -> l !! find_word w l = Some w.
Proof.
  induction l as [|x l IH]; intros H; [by apply not_elem_of_nil in H|]. cbn. case_bool_decide as Hx; [by subst|].
  apply IH. apply elem_of_cons in H as [->|H]; done.
Qed.

Lemma English_index w : w ∈ English -> 0 <= Z.of_nat (find_word w English) < wlLen.
Proof. intros H. apply find_word_elem, lookup_lt_Some in H. unfold wlLen. lia. Qed.

Lemma English_lookup i : 0 <= i < wlLen -> exists w, English !! Z.to_nat i = Some w /\ w ∈ English /\ Z.of_nat (find_word w English) = i.
Proof.
  intros Hi. destruct (lookup_lt_is_Some_2 English (Z.to_nat i)) as [w Hw]; [unfold wlLen in Hi; lia|]. exists w.
  split; [done|]. split; [by eapply list_elem_of_lookup_2|]. rewrite (find_word_lookup _ _ _ English_NoDup Hw). lia.
Qed.

(** * Three words for 32 bits *)

Lemma shift_back x y : 0 <= x < wlLen -> ((wlLen - x) + (y + x) mod wlLen) mod wlLen = y mod wlLen.
Proof.
  intros Hx. rewrite Z.add_mod_idemp_r by (rewrite wlLen_value; lia).
  replace (wlLen - x + (y + x)) with (y + 1 * wlLen) by lia. apply Z_mod_plus_full.
Qed.

Lemma shift_forth x y : 0 <= y < wlLen -> (((wlLen - x) + y) mod wlLen + x) mod wlLen = y.
Proof.
  intros Hy. rewrite Z.add_mod_idemp_l by (rewrite wlLen_value; lia).
  replace (wlLen - x + y + x) with (y + 1 * wlLen) by lia. rewrite Z_mod_plus_full. by apply Z.mod_small.
Qed.

Lemma decode_three_encode val : 0 <= val < 2 ^ 32 ->
  let w1 := val mod wlLen in
  let w2 := (val / wlLen + w1) mod wlLen in
  decode_three w1 w2 ((val / wlLen / wlLen + w2) mod wlLen) = Some val.
Proof.
  intros Hv w1 w2. assert (HL : 0 < wlLen) by (rewrite wlLen_value; lia). unfold decode_three.
  assert (H1 : 0 <= w1 < wlLen) by (apply Z.mod_pos_bound; lia).
  assert (H2 : 0 <= w2 < wlLen) by (apply Z.mod_pos_bound; lia).
  assert (Hb : (val / wlLen / wlLen) mod wlLen = val / wlLen / wlLen).
  { apply Z.mod_small. rewrite wlLen_value, Z.div_div by lia. split; [apply Z_div_nonneg_nonneg; lia|].
    apply Z.div_lt_upper_bound; lia. }
  assert (E2 : ((wlLen - w1) + w2) mod wlLen = (val / wlLen) mod wlLen) by by apply shift_back.
  rewrite shift_back, Hb, E2 by done. replace (w1 + _ + _) with val.
  - unfold u32. rewrite (Z.mod_small val) by lia. unfold w1. by rewrite Z.eqb_refl.
  - pose proof (Z.div_mod val wlLen). pose proof (Z.div_mod (val / wlLen) wlLen). unfold w1. nia.
Qed.

Lemma radix_digits w a b : 0 <= w < wlLen -> 0 <= a < wlLen ->
  let v := w + wlLen * a + wlLen * wlLen * b in v mod wlLen = w /\ v / wlLen = a + wlLen * b /\ (v / wlLen) / wlLen = b.
Proof.
  intros Hw Ha v. assert (E : v = w + (a + wlLen * b) * wlLen) by (unfold v; ring).
  assert (Eq : v / wlLen = a + wlLen * b) by (rewrite E, Z.div_add, Z.div_small by lia; lia).
  split; [rewrite E, Z_mod_plus_full; by apply Z.mod_small|]. split; [done|].
  rewrite Eq, Z.mul_comm, Z.div_add, Z.div_small by lia. lia.
Qed.

(** The check of the remainder refuses exactly the three words whose number exceeds 32 bits. *)
Lemma decode_three_some w1 w2 w3 val :
  0 <= w1 < wlLen -> 0 <= w2 < wlLen -> 0 <= w3 < wlLen -> decode_three w1 w2 w3 = Some val ->
  0 <= val < 2 ^ 32 /\ w1 = val mod wlLen /\ w2 = (val / wlLen + w1) mod wlLen /\ w3 = (val / wlLen / wlLen + w2) mod wlLen.
Proof.
  intros H1 H2 H3. unfold decode_three. set (a := ((wlLen - w1) + w2) mod wlLen). set (b := ((wlLen - w2) + w3) mod wlLen).
  assert (HL := wlLen_value).
  assert (Ha : 0 <= a < wlLen) by (apply Z.mod_pos_bound; lia). assert (Hb : 0 <= b < wlLen) by (apply Z.mod_pos_bound; lia).
  destruct (radix_digits w1 a b H1 Ha) as (Dm & Dq & Db). set (v := w1 + wlLen * a + wlLen * wlLen * b) in *.
  assert (Hv : 0 <= v < 1626 ^ 3) by (unfold v; clearbody a b; clear -HL H1 Ha Hb; rewrite HL in H1, Ha, Hb |- *; lia).
  destruct (Z.eqb_spec (u32 v mod wlLen) w1) as [He|]; [|done]. intros [= <-].
  assert (Hs : v < 2 ^ 32).
  { destruct (Z_lt_ge_dec v (2 ^ 32)) as [|Hg]; [done|exfalso]. revert He. unfold u32.
    replace (v mod 2 ^ 32) with (v - 2 ^ 32) by (apply (Z.mod_unique_pos _ _ 1); lia).
    rewrite HL in Dm |- *. clearbody v. clear -Dm. intros He. Z.to_euclidean_division_equations. lia. }
  unfold u32. rewrite (Z.mod_small v) by lia. rewrite Dm, Dq. split; [lia|]. split; [done|]. split.
  - replace (a + wlLen * b + w1) with (a + w1 + b * wlLen) by ring. rewrite Z_mod_plus_full. symmetry. by apply shift_forth.
  - rewrite <- Dq, Db. symmetry. by apply shift_forth.
Qed.

(** * Phrases *)

Definition index (w : string) : Z := Z.of_nat (find_word w English).

Definition is_word32 (v : Z) : Prop := 0 <= v < 2 ^ 32.

Lemma encode_three_spec val : is_word32 val -> exists x1 x2 x3, encode_three val = Some [x1; x2; x3] /\
  Forall (fun w => w ∈ English) [x1; x2; x3] /\ decode_three (index x1) (index x2) (index x3) = Some val.
Proof.
  intros Hv. assert (HL : 0 < wlLen) by (rewrite wlLen_value; lia). unfold encode_three. pose proof (decode_three_encode val Hv) as Hd.
  destruct (English_lookup (val mod wlLen)) as (x1 & -> & I1 & E1); [by apply Z.mod_pos_bound|].
  destruct (English_lookup ((val / wlLen + val mod wlLen) mod wlLen)) as (x2 & -> & I2 & E2); [by apply Z.mod_pos_bound|].
  destruct (English_lookup ((val / wlLen / wlLen + (val / wlLen + val mod wlLen) mod wlLen) mod wlLen)) as (x3 & -> & I3 & E3);
    [by apply Z.mod_pos_bound|].
  exists x1, x2, x3. split; [done|]. split; [by rewrite !Forall_cons|]. unfold index. by rewrite E1, E2, E3.
Qed.

Lemma decode_three_words x1 x2 x3 val : x1 ∈ English -> x2 ∈ English -> x3 ∈ English ->
  decode_three (index x1) (index x2) (index x3) = Some val -> is_word32 val /\ encode_three val = Some [x1; x2; x3].
Proof.
  intros I1 I2 I3 Hd. apply decode_three_some in Hd as (Hv & E1 & E2 & E3); [|by apply English_index..].
  split; [done|]. unfold encode_three. rewrite <- E1, <- E2, <- E3. unfold index. rewrite !Nat2Z.id, !find_word_elem by done. done.
Qed.

Lemma encode_loop_spec vals : Forall is_word32 vals -> exists ws, encode_loop vals = Some ws /\
  length ws = (3 * length vals)%nat /\ Forall (fun w => w ∈ English) ws /\
  forall c, decode_loop (getWordIndexes (ws ++ [c])) = Some (mjoin (le_bytes 4 <$> vals)).
Proof.
  induction 1 as [|v vals Hv _ (ws & E & Hl & HF & Hd)]; [by exists []|].
  destruct (encode_three_spec v Hv) as (x1 & x2 & x3 & E3 & HF3 & Hd3). exists ([x1; x2; x3] ++ ws).
  cbn [encode_loop]. rewrite E3, E. split; [done|]. split; [cbn; lia|]. split; [by apply Forall_app|].
  intros c. rewrite <- app_assoc. cbn [app getWordIndexes fmap list_fmap decode_loop].
  fold (index x1) (index x2) (index x3). rewrite Hd3. cbn [mbind option_bind]. unfold getWordIndexes in Hd. by rewrite Hd.
Qed.

Lemma decode_loop_spec n ws c data : length ws = (3 * n)%nat -> Forall (fun w => w ∈ English) ws ->
  decode_loop (getWordIndexes (ws ++ [c])) = Some data ->
  exists vals, length vals = n /\ Forall is_word32 vals /\ data = mjoin (le_bytes 4 <$> vals) /\ encode_loop vals = Some ws.
Proof.
  revert ws data. induction n as [|n IH]; intros ws data Hl HF Hd.
  { apply nil_length_inv in Hl as ->. exists []. by injection Hd as <-. }
  destruct ws as [|x1 [|x2 [|x3 ws]]]; cbn in Hl; try lia.
  apply Forall_cons in HF as [I1 HF]. apply Forall_cons in HF as [I2 HF]. apply Forall_cons in HF as [I3 HF].
  cbn [app getWordIndexes fmap list_fmap decode_loop] in Hd. fold (index x1) (index x2) (index x3) in Hd.
  apply bind_Some in Hd as (v & Hv & Hd). apply bind_Some in Hd as (rest & Hr & Hd). injection Hd as <-.
  destruct (IH ws rest ltac:(lia) HF Hr) as (vals & Hn & HV & -> & HE).
  apply decode_three_words in Hv as [Hw Hv]; [|done..]. exists (v :: vals). split; [cbn; lia|]. split; [by constructor|].
  split; [done|]. cbn [encode_loop]. by rewrite Hv, HE.
Qed.

Lemma words_join n vals : length vals = n -> Forall is_word32 vals -> words n (mjoin (le_bytes 4 <$> vals)) = vals.
Proof.
  intros <-. induction 1 as [|v vals Hv _ IH]; [done|]. cbn [length]. rewrite words_S, join_cons.
  rewrite take_app_length', drop_app_length', IH by by rewrite length_le_bytes. by rewrite le_value_bytes by exact Hv.
Qed.

Lemma join_pod vals : length vals = 8%nat -> wf_pod 32 (mjoin (le_bytes 4 <$> vals)).
Proof.
  intros H. split; [by rewrite length_join, H|]. clear H. induction vals as [|v vals IH]; [constructor|].
  rewrite join_cons. apply Forall_app. split; [apply le_bytes_is_bytes|done].
Qed.

Lemma words_word32 n p : is_bytes p -> length p = (4 * n)%nat -> Forall is_word32 (words n p).
Proof.
  revert p. induction n as [|n IH]; intros p Hp Hl; [constructor|]. rewrite words_S. constructor.
  - pose proof (le_value_range (take 4 p) ltac:(by apply Forall_take)) as H. rewrite length_take, Hl, Nat.min_l in H by lia. exact H.
  - apply IH; [by apply Forall_drop|]. rewrite length_drop. lia.
Qed.

Lemma append_nil_r s : String.append s EmptyString = s.
Proof. induction s as [|c s IH]; [done|]. exact (f_equal (String c) IH). Qed.

Lemma append_assoc s t u : String.append (String.append s t) u = String.append s (String.append t u).
Proof. induction s as [|c s IH]; [done|]. exact (f_equal (String c) IH). Qed.

Lemma split_word word w s : spaceless w = true ->
  split_words word (String.append w s) = split_words (String.append word w) s.
Proof.
  revert word. induction w as [|c w IH]; intros word H; [by rewrite append_nil_r|].
  unfold spaceless in H. cbn in H. apply andb_true_iff in H as [Hc Hw]. apply negb_true_iff in Hc.
  change (String.append (String c w) s) with (String c (String.append w s)). cbn [split_words].
  rewrite Hc, IH by done. by rewrite append_assoc.
Qed.

Lemma emit_word w : w <> EmptyString -> emit w = [w].
Proof. by destruct w. Qed.

Lemma split_join ws : Forall (fun w => w ∈ English) ws -> split_words EmptyString (join_spaces ws) = ws.
Proof.
  induction 1 as [|w ws Hw HF IH]; [done|]. destruct (English_word w Hw) as (_ & Hs & He). destruct ws as [|w' ws].
  - cbn [join_spaces]. rewrite <- (append_nil_r w) at 1. rewrite split_word by done. by apply emit_word.
  - change (join_spaces (w :: w' :: ws)) with (String.append w (String " " (join_spaces (w' :: ws)))).
    rewrite split_word by done. cbn [split_words]. change (isspace " ") with true. cbn iota.
    by rewrite IH, emit_word.
Qed.

Lemma getChecksumWord_some ws : ws <> [] -> exists c, getChecksumWord ws = Some c /\ c ∈ ws.
Proof.
  intros H. unfold getChecksumWord. set (h := crc32 _). destruct ws as [|w ws]; [done|].
  pose proof (Z.mod_pos_bound h (Z.of_nat (length (w :: ws))) ltac:(cbn; lia)) as Hb.
  destruct (lookup_lt_is_Some_2 (w :: ws) (Z.to_nat (h mod Z.of_nat (length (w :: ws))))) as [c Hc]; [lia|].
  exists c. split; [done|]. by eapply list_elem_of_lookup_2.
Qed.

Lemma hasValidChecksum_app ws c : hasValidChecksum (ws ++ [c]) = expected ← getChecksumWord ws; Some (bool_decide (c = expected)).
Proof.
  unfold hasValidChecksum. rewrite length_app. cbn [length]. replace (length ws + 1 - 1)%nat with (length ws) by lia.
  rewrite take_app_length, list_lookup_middle by done. done.
Qed.

Lemma recognised ws : Forall (fun w => w ∈ English) ws -> forallb (fun word => bool_decide (lower word ∈ English)) ws = true.
Proof.
  induction 1 as [|w ws Hw _ IH]; [done|]. cbn [forallb]. rewrite IH. destruct (English_word w Hw) as [-> _].
  by rewrite bool_decide_true.
Qed.

(** Decoding a phrase of listed words, the checksum word apart. *)
Lemma mnemonicToPrivateKey_app ws c : length ws = 24%nat -> Forall (fun w => w ∈ English) (ws ++ [c]) ->
  exists expected, getChecksumWord ws = Some expected /\ mnemonicToPrivateKey_words (ws ++ [c]) =
    Some (if bool_decide (c = expected) then default null_key (decode_loop (getWordIndexes (ws ++ [c]))) else null_key).
Proof.
  intros Hl HF. destruct (getChecksumWord_some ws) as (e & He & _); [by intros ->|]. exists e. split; [done|].
  unfold mnemonicToPrivateKey_words. rewrite length_app, Hl, recognised, hasValidChecksum_app, He by done.
  cbn [length Nat.add Nat.eqb negb mbind option_bind]. by case_bool_decide.
Qed.

Lemma mnemonic_words_decode key : wf_pod 32 key -> exists ws, mnemonic_words key = Some ws /\
  Forall (fun w => w ∈ English) ws /\ mnemonicToPrivateKey_words ws = Some key.
Proof.
  intros [Hl Hb]. destruct (encode_loop_spec (words 8 key)) as (ws & E & Hn & HF & Hd); [by apply words_word32|].
  destruct (getChecksumWord_some ws) as (c & Hc & Hin); [by intros ->|]. unfold mnemonic_words. rewrite E. cbn [mbind option_bind].
  rewrite Hc. exists (ws ++ [c]). split; [done|].
  assert (HF' : Forall (fun w => w ∈ English) (ws ++ [c])).
  { apply Forall_app. split; [done|]. apply Forall_singleton. by eapply Forall_forall in HF. }
  split; [done|]. destruct (mnemonicToPrivateKey_app ws c) as (e & He & ->); [by rewrite Hn|done|].
  rewrite Hc in He. injection He as <-. rewrite bool_decide_true by done. rewrite Hd. cbn [default]. f_equal. by apply join_words.
Qed.

(** C37: Every secret key has a seed phrase, and reading the phrase gives the key back: for
    any 32 bytes [privateKeyToMnemonic] makes a phrase without an access outside the word
    list, and [mnemonicToPrivateKey] on it returns those 32 bytes. *)
Theorem mnemonic_roundtrip key : wf_pod 32 key ->
  exists phrase, privateKeyToMnemonic key = Some phrase /\ mnemonicToPrivateKey phrase = Some key.
Proof.
  intros H. destruct (mnemonic_words_decode key H) as (ws & E & HF & Hd). exists (join_spaces ws).
  unfold privateKeyToMnemonic, mnemonicToPrivateKey. rewrite E. split; [done|]. by rewrite split_join.
Qed.

Lemma mnemonic_roundtrip_witness : exists phrase,
  privateKeyToMnemonic (Z.of_nat <$> seq 1 32) = Some phrase /\ mnemonicToPrivateKey phrase = Some (Z.of_nat <$> seq 1 32).
Proof.
  apply (mnemonic_roundtrip (Z.of_nat <$> seq 1 32)). split; [reflexivity|]. apply Forall_fmap, Forall_seq. unfold compose, is_u8. lia.
Defined.

(** C38: Only the phrase of a key decodes to it: among phrases of listed words, those that
    give a key other than the zero key that reports a failure are exactly the phrases the
    encoder makes, so a wrong checksum word and three words beyond 32 bits are refused. *)
Theorem mnemonic_exact ws key : Forall (fun w => w ∈ English) ws -> key <> null_key ->
  mnemonicToPrivateKey_words ws = Some key <-> wf_pod 32 key /\ mnemonic_words key = Some ws.
Proof.
  intros HF Hk. split.
  - intros Hd. destruct (decide (length ws = 25%nat)) as [Hl|Hl].
    2:{ unfold mnemonicToPrivateKey_words in Hd. rewrite (proj2 (Nat.eqb_neq _ _) Hl) in Hd. by injection Hd as <-. }
    destruct ws as [|c ws _] using rev_ind; [done|]. rewrite length_app in Hl. cbn in Hl.
    assert (Hw : length ws = 24%nat) by lia. destruct (mnemonicToPrivateKey_app ws c Hw HF) as (e & He & Hd').
    rewrite Hd' in Hd. injection Hd as Hd. case_bool_decide as Hc; [|by subst]. subst e.
    destruct (decode_loop _) as [data|] eqn:El; cbn in Hd; [|by subst]. subst data.
    apply Forall_app in HF as [HF _]. destruct (decode_loop_spec 8 ws c key Hw HF El) as (vals & Hn & HV & -> & HE).
    split; [apply join_pod; done|]. unfold mnemonic_words. rewrite words_join, HE by done. cbn [mbind option_bind]. by rewrite He.
  - intros [Hp E]. destruct (mnemonic_words_decode key Hp) as (ws' & E' & _ & Hd). rewrite E in E'. by injection E' as <-.
Qed.

Lemma mnemonic_exact_witness :
  exists ws key, mnemonic_words key = Some ws /\ (mnemonicToPrivateKey_words ws = Some key <-> wf_pod 32 key /\ mnemonic_words key = Some ws).
Proof.
  destruct (mnemonic_words_decode (replicate 32 1)) as (ws & E & HF & Hd).
  { split; [reflexivity|]. apply Forall_replicate. unfold is_u8. lia. }
  exists ws, (replicate 32 1). split; [exact E|]. apply (mnemonic_exact ws (replicate 32 1)); [exact HF|discriminate].
Defined.

(** * Capital letters *)

(** A word in capitals passes the check of the words, which is made on a lower-case copy, but
    is looked up as it was typed; as the second or third word of its group its index, the
    length of the list, then counts as 0. *)
Lemma decode_three_out w1 w2 : 0 <= w1 < wlLen -> decode_three w1 w2 wlLen = decode_three w1 w2 0.
Proof.
  intros _. unfold decode_three. replace (wlLen - w2 + wlLen) with (wlLen - w2 + 0 + 1 * wlLen) by lia. by rewrite Z_mod_plus_full.
Qed.

Definition with_word (w : string) : list string := [
  "hinder"; "around"; "deity"; "unhappy"; "wallets"; "delayed"; "industrial"; "tether"; "dented"; "vary"; "rugged"; "deodorant";
  "jester"; "oval"; "devoid"; "water"; "mammal"; "dewdrop"; "lagoon"; "inflamed"; "dialect"; "yearbook"; "foggy"; w; "water"]%string.

Lemma capital_gives_other_key : exists k1 k2,
  mnemonicToPrivateKey_words (with_word "diet") = Some k1 /\ mnemonicToPrivateKey_words (with_word "Diet") = Some k2 /\
  k1 <> k2 /\ k2 <> null_key.
Proof.
  eexists _, _. split; [vm_compute; reflexivity|]. split; [vm_compute; reflexivity|]. split; discriminate.
Qed.

End Mnemonics.
